(** * AI2AI node runtime: envelope codec, ingress filters, approval gate,
      conversation state machine and delivery queue.

    A shallow embedding of the JavaScript sources.  JavaScript values that
    travel in envelopes are JSON values; the engine's [undefined] is [None]
    of an [option json].  Wall-clock time ([Date.now()]) is an explicit
    argument in epoch milliseconds, stores on disk are finite maps from
    file name to content, and the engine's [Map] objects are association
    lists in insertion order. *)

From Stdlib Require Import ZArith Lia Ascii String DecimalString DecimalZ DecimalPos.
From stdpp Require Import gmap strings list.

Local Open Scope Z_scope.

(** ** JSON values and [JSON.stringify] *)

(** Numbers are the integers (the fragment of the engine's doubles on which
    [JSON.stringify] prints a plain decimal numeral).  Strings are the UTF-8
    bytes of the engine's string.  An object lists its properties in the
    engine's enumeration order, which is the order of their creation;
    property names that are array indices, which the engine enumerates
    first, are outside the fragment. *)
#[local] Unset Elimination Schemes.
Inductive json : Type :=
| JNull
| JBool (b : bool)
| JNum (z : Z)
| JStr (s : string)
| JArr (l : list json)
| JObj (m : list (string * json)).
#[local] Set Elimination Schemes.

Definition dquote : ascii := "034"%char.
Definition backslash : ascii := "092"%char.

(** [q] turns the apostrophes of a literal into double quotes, so that JSON
    text can be written readably. *)
Fixpoint q (s : string) : string :=
  match s with
  | EmptyString => EmptyString
  | String "'"%char r => String dquote (q r)
  | String c r => String c (q r)
  end.

Definition hex_digit (n : N) : ascii :=
  match n with
  | 0 => "0" | 1 => "1" | 2 => "2" | 3 => "3" | 4 => "4" | 5 => "5"
  | 6 => "6" | 7 => "7" | 8 => "8" | 9 => "9" | 10 => "a" | 11 => "b"
  | 12 => "c" | 13 => "d" | 14 => "e" | _ => "f"
  end%N%char.

(** QuoteJSONString, one code unit at a time. *)
Definition escape_char (c : ascii) : string :=
  match c with
  | "034"%char => String backslash (String dquote EmptyString)
  | "092"%char => String backslash (String backslash EmptyString)
  | "008"%char => String backslash "b"
  | "012"%char => String backslash "f"
  | "010"%char => String backslash "n"
  | "013"%char => String backslash "r"
  | "009"%char => String backslash "t"
  | _ =>
      let n := Ascii.N_of_ascii c in
      if (n <? 32)%N
      then String backslash
             (String "u" (String "0" (String "0"
                (String (hex_digit (n / 16)) (String (hex_digit (n mod 16)) EmptyString)))))
      else String c EmptyString
  end.

Fixpoint escape (s : string) : string :=
  match s with
  | EmptyString => EmptyString
  | String c r => escape_char c +:+ escape r
  end.

Definition quote (s : string) : string :=
  String dquote (escape s +:+ String dquote EmptyString).

Definition number_to_string (z : Z) : string :=
  NilZero.string_of_int (Z.to_int z).

(** [JSON.stringify] without indentation: no whitespace, properties in
    enumeration order. *)
Fixpoint JSON_stringify (v : json) : string :=
  match v with
  | JNull => "null"
  | JBool true => "true"
  | JBool false => "false"
  | JNum z => number_to_string z
  | JStr s => quote s
  | JArr l =>
      "[" +:+
      (fix elems (l : list json) : string :=
         match l with
         | [] => "]"
         | [x] => JSON_stringify x +:+ "]"
         | x :: l' => JSON_stringify x +:+ "," +:+ elems l'
         end) l
  | JObj m =>
      "{" +:+
      (fix members (m : list (string * json)) : string :=
         match m with
         | [] => "}"
         | [(k, x)] => quote k +:+ ":" +:+ JSON_stringify x +:+ "}"
         | (k, x) :: m' => quote k +:+ ":" +:+ JSON_stringify x +:+ "," +:+ members m'
         end) m
  end.

(** Property read [v.k] for the fixed identifiers the sources use
    ([None] is [undefined]; reading a property of a primitive yields
    [undefined]; reading one of [null] throws and is handled by callers). *)
Fixpoint assoc (k : string) (m : list (string * json)) : option json :=
  match m with
  | [] => None
  | (k', x) :: m' => if String.eqb k k' then Some x else assoc k m'
  end.

Definition prop (v : json) (k : string) : option json :=
  match v with
  | JObj m => assoc k m
  | _ => None
  end.

(** Optional chaining [o?.k]. *)
Definition oprop (o : option json) (k : string) : option json :=
  match o with
  | Some v => prop v k
  | None => None
  end.

(** Assignment [o.k = x]: overwrite in place, or append a new property. *)
Fixpoint assoc_set (k : string) (x : json) (m : list (string * json)) : list (string * json) :=
  match m with
  | [] => [(k, x)]
  | (k', y) :: m' => if String.eqb k k' then (k', x) :: m' else (k', y) :: assoc_set k x m'
  end.

Definition prop_set (v : json) (k : string) (x : json) : json :=
  match v with
  | JObj m => JObj (assoc_set k x m)
  | _ => v
  end.

(** ToBoolean. *)
Definition truthy (o : option json) : bool :=
  match o with
  | None | Some JNull | Some (JBool false) => false
  | Some (JNum z) => negb (z =? 0)
  | Some (JStr s) => negb (String.eqb s "")
  | _ => true
  end.

(** An object literal [{k1: e1, ...}] as [JSON.stringify] sees it: a
    property whose value is [undefined] is skipped. *)
Definition literal (fields : list (string * option json)) : json :=
  JObj (omap (fun kv => pair kv.1 <$> kv.2) fields).

(** Strict equality with a string constant, [x === 'k']. *)
Definition is_str (o : option json) (k : string) : bool :=
  match o with
  | Some (JStr s) => String.eqb s k
  | _ => false
  end.

(** ** [JSON.parse]

    A recursive-descent reading of the JSON grammar on the model's
    fragment: integer numerals (a fraction or an exponent is outside the
    fragment and is refused), the standard escapes, insignificant
    whitespace.  [None] is the thrown [SyntaxError]. *)
Definition is_ws (c : ascii) : bool :=
  match c with
  | " "%char | "009"%char | "010"%char | "013"%char => true
  | _ => false
  end.

Fixpoint skip_ws (s : string) : string :=
  match s with
  | String c r => if is_ws c then skip_ws r else s
  | EmptyString => EmptyString
  end.

Definition is_digit (c : ascii) : bool :=
  match c with
  | "0"%char | "1"%char | "2"%char | "3"%char | "4"%char
  | "5"%char | "6"%char | "7"%char | "8"%char | "9"%char => true
  | _ => false
  end.

Fixpoint take_digits (s : string) : string * string :=
  match s with
  | String c r =>
      if is_digit c then let '(d, r') := take_digits r in (String c d, r') else (EmptyString, s)
  | EmptyString => (EmptyString, EmptyString)
  end.

Definition starts_fraction (s : string) : bool :=
  match s with
  | String "."%char _ | String "e"%char _ | String "E"%char _ => true
  | _ => false
  end.

Definition parse_number (s : string) : option (Z * string) :=
  let '(neg, s1) := match s with String "-"%char r => (true, r) | _ => (false, s) end in
  let '(ds, rest) := take_digits s1 in
  if starts_fraction rest then None else
  match NilZero.uint_of_string ds with
  | Some u =>
      if Decimal.uint_eq_dec (Decimal.unorm u) u
      then Some (if neg then Z.opp (Z.of_uint u) else Z.of_uint u, rest)
      else None
  | None => None
  end.

Definition hex_val (c : ascii) : option N :=
  let n := Ascii.N_of_ascii c in
  (if (48 <=? n) && (n <=? 57) then Some (n - 48)
   else if (97 <=? n) && (n <=? 102) then Some (n - 87)
   else if (65 <=? n) && (n <=? 70) then Some (n - 55)
   else None)%N.

Definition hex4 (a b c d : ascii) : option N :=
  match hex_val a, hex_val b, hex_val c, hex_val d with
  | Some x, Some y, Some z, Some w => Some (((x * 16 + y) * 16 + z) * 16 + w)%N
  | _, _, _, _ => None
  end.

(** The UTF-8 bytes of a code unit outside the surrogate range (surrogate
    escapes are outside the fragment). *)
Definition utf8 (n : N) : option string :=
  let byte x := Ascii.ascii_of_N x in
  (if n <? 128 then Some (String (byte n) EmptyString)
   else if n <? 2048 then
     Some (String (byte (192 + n / 64)) (String (byte (128 + n mod 64)) EmptyString))
   else if (55296 <=? n) && (n <=? 57343) then None
   else Some (String (byte (224 + n / 4096))
               (String (byte (128 + (n / 64) mod 64))
                 (String (byte (128 + n mod 64)) EmptyString))))%N.

Definition unescape (e : ascii) : option ascii :=
  match e with
  | "034"%char => Some "034"%char
  | "092"%char => Some "092"%char
  | "/"%char => Some "/"%char
  | "b"%char => Some "008"%char
  | "f"%char => Some "012"%char
  | "n"%char => Some "010"%char
  | "r"%char => Some "013"%char
  | "t"%char => Some "009"%char
  | _ => None
  end.

(** The characters of a string literal after its opening quote, up to and
    including the closing one. *)
Fixpoint parse_chars (s : string) : option (string * string) :=
  match s with
  | EmptyString => None
  | String c r =>
      if Ascii.eqb c dquote then Some (EmptyString, r)
      else if Ascii.eqb c backslash then
        match r with
        | String "u"%char (String h1 (String h2 (String h3 (String h4 r')))) =>
            match hex4 h1 h2 h3 h4 with
            | Some n =>
                match utf8 n, parse_chars r' with
                | Some b, Some (t, r'') => Some (b +:+ t, r'')
                | _, _ => None
                end
            | None => None
            end
        | String e r' =>
            match unescape e, parse_chars r' with
            | Some x, Some (t, r'') => Some (String x t, r'')
            | _, _ => None
            end
        | EmptyString => None
        end
      else if (Ascii.N_of_ascii c <? 32)%N then None
      else
        match parse_chars r with
        | Some (t, r') => Some (String c t, r')
        | None => None
        end
  end.

Fixpoint parse_value (fuel : nat) (s : string) : option (json * string) :=
  match fuel with
  | O => None
  | S fuel =>
      match skip_ws s with
      | String "n" (String "u" (String "l" (String "l" r))) => Some (JNull, r)
      | String "t" (String "r" (String "u" (String "e" r))) => Some (JBool true, r)
      | String "f" (String "a" (String "l" (String "s" (String "e" r)))) => Some (JBool false, r)
      | String "034" r =>
          match parse_chars r with
          | Some (t, r') => Some (JStr t, r')
          | None => None
          end
      | String "[" r =>
          match skip_ws r with
          | String "]" r' => Some (JArr [], r')
          | _ =>
              match parse_elems fuel r with
              | Some (l, r') => Some (JArr l, r')
              | None => None
              end
          end
      | String "{" r =>
          match skip_ws r with
          | String "}" r' => Some (JObj [], r')
          | _ =>
              match parse_members fuel r with
              | Some (m, r') => Some (JObj m, r')
              | None => None
              end
          end
      | t =>
          match parse_number t with
          | Some (z, r') => Some (JNum z, r')
          | None => None
          end
      end%char
  end
with parse_elems (fuel : nat) (s : string) : option (list json * string) :=
  match fuel with
  | O => None
  | S fuel =>
      match parse_value fuel s with
      | Some (x, r) =>
          match skip_ws r with
          | String "," r' =>
              match parse_elems fuel r' with
              | Some (l, r'') => Some (x :: l, r'')
              | None => None
              end
          | String "]" r' => Some ([x], r')
          | _ => None
          end%char
      | None => None
      end
  end
with parse_members (fuel : nat) (s : string) : option (list (string * json) * string) :=
  match fuel with
  | O => None
  | S fuel =>
      match skip_ws s with
      | String "034" r =>
          match parse_chars r with
          | Some (k, r1) =>
              match skip_ws r1 with
              | String ":" r2 =>
                  match parse_value fuel r2 with
                  | Some (x, r3) =>
                      match skip_ws r3 with
                      | String "," r4 =>
                          match parse_members fuel r4 with
                          | Some (m, r5) => Some ((k, x) :: m, r5)
                          | None => None
                          end
                      | String "}" r4 => Some ([(k, x)], r4)
                      | _ => None
                      end
                  | None => None
                  end
              | _ => None
              end
          | None => None
          end
      | _ => None
      end%char
  end.

(** Object construction as the parser performs it, property by property: a
    repeated name overwrites the earlier value in place. *)
Fixpoint construct (v : json) : json :=
  match v with
  | JArr l => JArr (map construct l)
  | JObj m => JObj (foldl (fun acc kv => assoc_set kv.1 (construct kv.2) acc) [] m)
  | _ => v
  end.

Definition JSON_parse (s : string) : option json :=
  match parse_value (S (String.length s)) s with
  | Some (v, r) =>
      match skip_ws r with
      | EmptyString => Some (construct v)
      | _ => None
      end
  | None => None
  end.

(** ToString of a value used as a property key or inside a template
    literal ([`${x}`]). *)
Fixpoint to_string (v : json) : string :=
  match v with
  | JNull => "null"
  | JBool true => "true"
  | JBool false => "false"
  | JNum z => number_to_string z
  | JStr s => s
  | JArr l =>
      (fix join (l : list json) : string :=
         match l with
         | [] => ""
         | [x] => match x with JNull => "" | _ => to_string x end
         | x :: l' => match x with JNull => "" | _ => to_string x end +:+ "," +:+ join l'
         end) l
  | JObj _ => "[object Object]"
  end.

Definition to_key (o : option json) : string :=
  match o with
  | Some v => to_string v
  | None => "undefined"
  end.

(** Whether that conversion returns.  ToString, ToPropertyKey and the
    conversion that [new Date(v)] applies call the value's [toString] and
    [valueOf].  A parsed object that has a property [toString] of its own
    has no function there, and the [valueOf] it inherits returns the
    object itself: the conversion throws a [TypeError].  An array is
    joined, and the conversion of one of its elements may throw. *)
Fixpoint convertible (v : json) : bool :=
  match v with
  | JArr l =>
      (fix all (l : list json) : bool :=
         match l with
         | [] => true
         | x :: l' => convertible x && all l'
         end) l
  | JObj m => negb (existsb (fun kv => String.eqb kv.1 "toString") m)
  | _ => true
  end.

Definition converts (o : option json) : bool :=
  match o with
  | Some v => convertible v
  | None => true
  end.

(** The values that the engine holds by reference.  Two of them are the
    same key of a [Map], or the same member of a [Set], only when they are
    one object; every parsed request body brings objects of its own. *)
Definition is_ref (o : option json) : bool :=
  match o with
  | Some (JArr _) | Some (JObj _) => true
  | _ => false
  end.

(** The ids that name a file.  The stores on disk are read and written
    at [path.join(dir, id + extension)]; they are modelled, as maps from
    id to content, for ids that are names of files of the directory: a
    string of letters, digits, [-], [.] and [_], or no id at all (the
    file is then named [undefined]).  With another id the path may lead
    to another file or out of the directory, or the write may fail. *)
Definition name_char (c : ascii) : bool :=
  let n := Ascii.N_of_ascii c in
  ((48 <=? n) && (n <=? 57) || (65 <=? n) && (n <=? 90) || (97 <=? n) && (n <=? 122)
   || (n =? 45) || (n =? 46) || (n =? 95))%N.

Definition file_name (id : option json) : bool :=
  match id with
  | None => true
  | Some (JStr s) =>
      forallb name_char (list_ascii_of_string s) && (String.length s <=? 200)%nat
  | _ => false
  end.

(** The names that a property read finds on any object, through
    [Object.prototype], when the object has no such property itself. *)
Definition inherited_names : list string :=
  [ "constructor"; "__defineGetter__"; "__defineSetter__"; "hasOwnProperty";
    "__lookupGetter__"; "__lookupSetter__"; "isPrototypeOf"; "propertyIsEnumerable";
    "toString"; "valueOf"; "__proto__"; "toLocaleString" ].

Definition inherited (k : string) : bool := existsb (String.eqb k) inherited_names.

(** [a || b]. *)
Definition js_or (a b : option json) : option json :=
  if truthy a then a else b.

(** [v == null], true of [null] and [undefined]: reading a property of such
    a value, or destructuring it, throws a [TypeError]. *)
Definition nullish (o : option json) : bool :=
  match o with
  | None | Some JNull => true
  | _ => false
  end.

(** Equality of keys of a [Map] or [Set] (SameValueZero).  It is exact on
    primitives; for objects the engine compares references, which the model
    reads as equality of contents. *)
Fixpoint json_eqb (a b : json) : bool :=
  match a, b with
  | JNull, JNull => true
  | JBool x, JBool y => Bool.eqb x y
  | JNum x, JNum y => x =? y
  | JStr x, JStr y => String.eqb x y
  | JArr x, JArr y =>
      (fix go (x y : list json) : bool :=
         match x, y with
         | [], [] => true
         | a :: x', b :: y' => json_eqb a b && go x' y'
         | _, _ => false
         end) x y
  | JObj x, JObj y =>
      (fix go (x y : list (string * json)) : bool :=
         match x, y with
         | [], [] => true
         | (k, a) :: x', (k', b) :: y' => String.eqb k k' && json_eqb a b && go x' y'
         | _, _ => false
         end) x y
  | _, _ => false
  end.

Definition key_eqb (a b : option json) : bool :=
  match a, b with
  | None, None => true
  | Some x, Some y => json_eqb x y
  | _, _ => false
  end.

(** The engine's [Map], in insertion order. *)
Section JsMap.
Context {V : Type}.

Fixpoint map_get (k : option json) (m : list (option json * V)) : option V :=
  match m with
  | [] => None
  | (k', x) :: m' => if key_eqb k k' then Some x else map_get k m'
  end.

Definition map_has (k : option json) (m : list (option json * V)) : bool :=
  match map_get k m with Some _ => true | None => false end.

Fixpoint map_set (k : option json) (x : V) (m : list (option json * V)) : list (option json * V) :=
  match m with
  | [] => [(k, x)]
  | (k', y) :: m' => if key_eqb k k' then (k', x) :: m' else (k', y) :: map_set k x m'
  end.
End JsMap.

(** ** Platform services

    The clock formats and parses instants; the two cryptographic interfaces
    are Node's [crypto] module as the sources call it.  Arguments that the
    sources take from an envelope are passed as JSON values, so that the
    platform, not the model, decides what a malformed key or signature
    does. *)
Class Clock := {
  (** [new Date(ms).toISOString()] *)
  toISOString : Z -> string;
  (** [new Date(v).getTime()], [None] for NaN *)
  Date_ms : option json -> option Z;
}.

Class Ed25519 := {
  (** a private key that [crypto.createPrivateKey] accepts *)
  ed_priv : Type;
  (** the PEM of the matching public key *)
  ed_pub : ed_priv -> string;
  (** [crypto.sign(null, Buffer.from(m), key).toString('base64')] *)
  ed_sign : ed_priv -> string -> string;
  (** [crypto.verify(null, Buffer.from(m), createPublicKey(pem),
      Buffer.from(signature, 'base64'))], [false] when a step throws *)
  ed_verify : option json -> string -> option json -> bool;
}.


Class X25519Box := {
  (** an X25519 private [KeyObject] *)
  x_priv : Type;
  (** [publicKey.export({type:'spki', format:'der'}).toString('base64')] *)
  x_pub_der : x_priv -> string;
  (** [createPublicKey({key: Buffer.from(der, 'base64'), ...})] followed by
      [crypto.diffieHellman]; [None] when either throws *)
  x_shared : x_priv -> option json -> option string;
  (** [crypto.hkdfSync(hash, ikm, salt, info, length)] *)
  hkdfSync : string -> string -> string -> string -> Z -> string;
  (** AES-256-GCM under a key and a nonce: ciphertext and tag *)
  gcm_seal : string -> string -> string -> string * string;
  (** the dual, [None] when [setAuthTag] or [final] throws *)
  gcm_open : string -> string -> string -> string -> option string;
  (** [buf.toString('base64')] and [Buffer.from(v, 'base64')] ([None] when
      it throws) *)
  to_base64 : string -> string;
  from_base64 : option json -> option string;
}.

(** What the round trip needs of the primitives, and the symbolic reading
    of their security: another key pair derives another key, and a
    ciphertext opens under no other key. *)
Class X25519BoxIdeal (B : X25519Box) : Prop := {
  x_shared_agree : forall a b,
    exists k, x_shared a (Some (JStr (x_pub_der b))) = Some k /\
              x_shared b (Some (JStr (x_pub_der a))) = Some k;
  gcm_open_seal : forall k n m, gcm_open k n (gcm_seal k n m).1 (gcm_seal k n m).2 = Some m;
  from_to_base64 : forall b, from_base64 (Some (JStr (to_base64 b))) = Some b;
  x_shared_other : forall a b b' k k' h s i l,
    x_pub_der b' <> x_pub_der b ->
    x_shared b (Some (JStr (x_pub_der a))) = Some k ->
    x_shared b' (Some (JStr (x_pub_der a))) = Some k' ->
    hkdfSync h k' s i l <> hkdfSync h k s i l;
  gcm_open_other : forall k k' n m,
    k' <> k -> gcm_open k' n (gcm_seal k n m).1 (gcm_seal k n m).2 = None;
}.

(** ** ai2ai-encryption.js *)
Module Encryption.
Section WithBox.
Context `{X25519Box}.

Definition INFO := "ai2ai-payload-encryption".

(** [eph] is the ephemeral key pair and [nonce] the twelve random bytes
    that the function draws.  The result is the encrypted object, or
    [JNull] for the [null] of the [catch]. *)
Definition encryptPayloadX25519 (payloadObj recipientX25519PubDer : option json)
    (eph : x_priv) (nonce : string) : json :=
  match payloadObj with
  | None => JNull
  | Some p =>
      let plaintext := JSON_stringify p in
      match x_shared eph recipientX25519PubDer with
      | None => JNull
      | Some sharedSecret =>
          let aesKey := hkdfSync "sha256" sharedSecret "" INFO 32 in
          let '(encrypted, tag) := gcm_seal aesKey nonce plaintext in
          JObj [ ("_encrypted", JBool true);
                 ("ephemeralPub", JStr (x_pub_der eph));
                 ("nonce", JStr (to_base64 nonce));
                 ("ciphertext", JStr (to_base64 encrypted));
                 ("tag", JStr (to_base64 tag)) ]
      end
  end.

(** The decrypted payload, or [JNull] for the [null] of the [catch]. *)
Definition decryptPayloadX25519 (encryptedPayload : option json) (ourX25519PrivKey : x_priv)
    : json :=
  if nullish encryptedPayload then JNull else
  match x_shared ourX25519PrivKey (oprop encryptedPayload "ephemeralPub") with
  | None => JNull
  | Some sharedSecret =>
      let aesKey := hkdfSync "sha256" sharedSecret "" INFO 32 in
      match from_base64 (oprop encryptedPayload "nonce"),
            from_base64 (oprop encryptedPayload "tag"),
            from_base64 (oprop encryptedPayload "ciphertext") with
      | Some nonce, Some tag, Some ciphertext =>
          match gcm_open aesKey nonce ciphertext tag with
          | Some decrypted => default JNull (JSON_parse decrypted)
          | None => JNull
          end
      | _, _, _ => JNull
      end
  end.

(** [payload != null && payload._encrypted === true] *)
Definition isEncrypted (payload : option json) : bool :=
  negb (nullish payload) &&
  match oprop payload "_encrypted" with Some (JBool true) => true | _ => false end.
End WithBox.
End Encryption.

(** ** ai2ai-crypto.js *)
Module Crypto.
Section WithEd.
Context `{Ed25519}.

(** The string that both [signMessage] and [verifyMessage] hand to the
    platform: [JSON.stringify] of an object literal with eight
    properties, written in this order. *)
Definition canonical (envelope : json) : string :=
  JSON_stringify (literal
    [ ("id", prop envelope "id");
      ("timestamp", prop envelope "timestamp");
      ("from", prop envelope "from");
      ("to", prop envelope "to");
      ("conversation", prop envelope "conversation");
      ("type", prop envelope "type");
      ("intent", prop envelope "intent");
      ("payload", prop envelope "payload") ]).

Definition signMessage (envelope : json) (privateKeyPem : ed_priv) : string :=
  ed_sign privateKeyPem (canonical envelope).

Definition verifyMessage (envelope : json) (signature publicKeyPem : option json) : bool :=
  ed_verify publicKeyPem (canonical envelope) signature.
End WithEd.
End Crypto.

(** ** ai2ai-conversations.js *)
Module Conversations.
(** The [*.meta.json] files of the conversations directory, by conversation
    id. *)
Abbreviation store := (gmap string json).

Section WithClock.
Context `{Clock}.

Definition PROPOSED := "proposed".
Definition NEGOTIATING := "negotiating".
Definition CONFIRMED := "confirmed".
Definition REJECTED := "rejected".
Definition EXPIRED := "expired".

(** [TRANSITIONS[state]]: the allowed successors, [None] for a key the
    table does not have. *)
Definition TRANSITIONS (state : string) : option (list string) :=
  if String.eqb state "proposed" then Some ["negotiating"; "confirmed"; "rejected"; "expired"]
  else if String.eqb state "negotiating" then Some ["confirmed"; "rejected"; "expired"]
  else if String.eqb state "confirmed" then Some []
  else if String.eqb state "rejected" then Some []
  else if String.eqb state "expired" then Some []
  else None.

(** [allowed.includes(newState)] *)
Definition includes (allowed : list string) (x : option json) : bool :=
  existsb (is_str x) allowed.

Definition conversationExpiryDays : Z := 7.
Definition approvalTimeoutHours : Z := 24.

Definition getConversation (st : store) (conversationId : option json) : option json :=
  st !! to_key conversationId.

(** [[initiator, recipient].filter(Boolean)] *)
Definition filter_Boolean (l : list (option json)) : json :=
  JArr (omap (fun o => if truthy o then o else None) l).

Definition createConversation (st : store) (now : Z) (conversationId : option json)
    (intent initiator recipient participants : option json) : json * store :=
  let meta := literal
    [ ("id", conversationId);
      ("state", Some (JStr PROPOSED));
      ("intent", intent);
      ("initiator", initiator);
      ("recipient", recipient);
      ("participants", js_or participants (Some (filter_Boolean [initiator; recipient])));
      ("createdAt", Some (JStr (toISOString now)));
      ("updatedAt", Some (JStr (toISOString now)));
      ("expiresAt", Some (JStr (toISOString (now + conversationExpiryDays * 86400000))));
      ("messageCount", Some (JNum 0)) ] in
  (meta, <[to_key conversationId := meta]> st).

(** What a call of [transitionState] does: it writes the new state and
    returns the metadata, or it returns [null], or a [TypeError] escapes
    it. *)
Inductive transition : Type :=
| Moved (meta : json) (st : store)
| Refused
| Raised.

(** The store that the call leaves. *)
Definition after_transition (st : store) (t : transition) : store :=
  match t with
  | Moved _ st' => st'
  | _ => st
  end.

(** The template of [metaPath] converts the id, and [TRANSITIONS[meta.state]]
    the stored state; a state that names a member that the table inherits
    finds that member, which has no [includes]; the warning of a refused
    move converts the requested state. *)
Definition transitionState (st : store) (now : Z) (conversationId : option json)
    (newState : option json) : transition :=
  if negb (converts conversationId) then Raised else
  match getConversation st conversationId with
  | None => Refused
  | Some meta =>
      if negb (truthy (Some meta)) then Refused else
      if negb (converts (prop meta "state")) then Raised else
      match TRANSITIONS (to_key (prop meta "state")) with
      | None =>
          if inherited (to_key (prop meta "state")) then Raised
          else if converts newState then Refused else Raised
      | Some allowed =>
          if negb (includes allowed newState)
          then (if converts newState then Refused else Raised) else
          let meta1 := prop_set meta "state" (default JNull newState) in
          let meta2 := prop_set meta1 "updatedAt" (JStr (toISOString now)) in
          Moved meta2 (<[to_key conversationId := meta2]> st)
      end
  end.

(** [Object.assign(meta, updates, { updatedAt })] *)
Definition assign (meta : json) (updates : list (string * json)) : json :=
  foldl (fun m kv => prop_set m kv.1 kv.2) meta updates.

Definition updateConversation (st : store) (now : Z) (conversationId : option json)
    (updates : list (string * json)) : option json * store :=
  match getConversation st conversationId with
  | None => (None, st)
  | Some meta =>
      if negb (truthy (Some meta)) then (None, st) else
      let meta' := assign meta (updates ++ [("updatedAt", JStr (toISOString now))]) in
      (Some meta', <[to_key conversationId := meta']> st)
  end.

Definition is_terminal (conv : json) : bool :=
  is_str (prop conv "state") CONFIRMED || is_str (prop conv "state") REJECTED
  || is_str (prop conv "state") EXPIRED.

(** One iteration of the loop of [expireConversations], on the metadata
    [conv] that [listConversations] read at the start.  The count is
    [None] once an exception has ended the sweep. *)
Definition expire_one (now : Z) (acc : store * option Z) (conv : json) : store * option Z :=
  match acc with
  | (st, None) => acc
  | (st, Some expired) =>
      if is_terminal conv then acc else
      if truthy (prop conv "expiresAt") then
        if negb (converts (prop conv "expiresAt")) then (st, None) else
        match Date_ms (prop conv "expiresAt") with
        | Some t =>
            if t <? now
            then match transitionState st now (prop conv "id") (Some (JStr EXPIRED)) with
                 | Moved _ st' => (st', Some (expired + 1))
                 | Refused => (st, Some (expired + 1))
                 | Raised => (st, None)
                 end
            else acc
        | None => acc
        end
      else acc
  end.

(** The number of conversations counted as expired, or [None] when the
    sweep throws, and the store that it leaves. *)
Definition expireConversations (st : store) (now : Z) : option Z * store :=
  let r := foldl (expire_one now) (st, Some 0) (map_to_list st).*2 in
  (r.2, r.1).
End WithClock.
End Conversations.

(** ** ai2ai-trust.js *)
Module Trust.
Section WithClock.
Context `{Clock}.

Definition ALWAYS_APPROVE : list string :=
  ["commerce.request"; "commerce.offer"; "commerce.accept"; "commerce.reject"; "task.delegate"].

(** [ALWAYS_APPROVE.includes(intent)] *)
Definition always_approve (intent : option json) : bool :=
  existsb (is_str intent) ALWAYS_APPROVE.

(** [contacts.json], an object from agent id to contact. *)
Definition contacts := list (string * json).

(** [contacts[agentId] || null], [None] being [null], for an id that
    converts to a property key.  Under a name that the file does not hold
    but every object inherits, the read finds the inherited member: a
    function, or [Object.prototype], which has none of the properties that
    are read of a contact and is rendered as the empty object. *)
Definition getContact (cs : contacts) (agentId : option json) : option json :=
  match assoc (to_key agentId) cs with
  | Some c => if truthy (Some c) then Some c else None
  | None => if inherited (to_key agentId) then Some (JObj []) else None
  end.

Fixpoint assoc_remove (k : string) (m : list (string * json)) : list (string * json) :=
  match m with
  | [] => []
  | (k', y) :: m' => if String.eqb k k' then m' else (k', y) :: assoc_remove k m'
  end.

(** [{...old, ...info}] as it is read back from disk: a property that
    [info] sets to [undefined] is not written. *)
Definition spread (old : option json) (info : list (string * option json)) : list (string * json) :=
  foldl (fun acc kv =>
           match kv.2 with
           | Some x => assoc_set kv.1 x acc
           | None => assoc_remove kv.1 acc
           end)
        (match old with Some (JObj m) => m | _ => [] end) info.

(** The assignment [contacts[agentId] = {...}] makes or overwrites a
    property, except under the name [__proto__] when the file holds no
    such property: there it sets the prototype of the object in memory,
    and what is saved is the file as it was. *)
Definition upsertContact (cs : contacts) (now : Z) (agentId : option json)
    (info : list (string * option json)) : json * contacts :=
  let c := JObj (spread (assoc (to_key agentId) cs)
                   (info ++ [("lastSeen", Some (JStr (toISOString now)))])) in
  (c, if String.eqb (to_key agentId) "__proto__" && negb (bool_decide (is_Some (assoc (to_key agentId) cs)))
      then cs else assoc_set (to_key agentId) c cs).

(** [requiresApproval] reads the contact, and so converts the id, unless
    the intent is on the list. *)
Definition requiresApproval_throws (agentId intent : option json) : bool :=
  negb (always_approve intent) && negb (converts agentId).

Definition requiresApproval (cs : contacts) (agentId intent type : option json) : bool :=
  if always_approve intent then true else
  match getContact cs agentId with
  | None => true
  | Some contact =>
      if is_str (prop contact "trustLevel") "trusted" then always_approve intent
      else if is_str (prop contact "trustLevel") "known" then is_str type "request"
      else true
  end.

Definition blockAgent (cs : contacts) (now : Z) (agentId : option json) : json * contacts :=
  upsertContact cs now agentId [("blocked", Some (JBool true))].

(** [contact?.blocked === true] *)
Definition isBlocked (cs : contacts) (agentId : option json) : bool :=
  match oprop (getContact cs agentId) "blocked" with
  | Some (JBool true) => true
  | _ => false
  end.
End WithClock.
End Trust.

(** ** ai2ai-handlers.js

    A handler computes the text shown to the operator and two flags.  The
    text is not modelled, but whether it can be made is: a handler is its
    flags, or [None] when the call throws a [TypeError], which it does on
    a payload or sender that is [null] or missing, and when a value that
    its templates write out does not convert to a string. *)
Module Handlers.
Record result := {
  needsApproval : option json;
  alwaysRequiresApproval : option json;
}.

Definition handler := option json -> option json -> option result.

Definition flags (needs : bool) (always : option json) : option result :=
  Some {| needsApproval := Some (JBool needs); alwaysRequiresApproval := always |}.

Definition is_array (o : option json) : bool :=
  match o with Some (JArr _) => true | _ => false end.

(** Every value of the list converts to a string. *)
Definition all_convert (l : list (option json)) : bool := forallb converts l.

(** Every element of an array converts; [new Date(t)] converts each
    proposed time. *)
Definition elements_convert (o : option json) : bool :=
  match o with
  | Some (JArr l) => forallb convertible l
  | _ => true
  end.

(** [proposed_times.map(...)] needs an array; the templates write the
    sender and five fields of the payload. *)
Definition handleScheduleMeeting : handler := fun payload fromAgent =>
  if nullish payload || nullish fromAgent then None
  else if is_array (oprop payload "proposed_times")
          && elements_convert (oprop payload "proposed_times")
          && all_convert [ oprop fromAgent "human"; oprop fromAgent "agent";
                           oprop payload "subject"; oprop payload "duration_minutes";
                           oprop payload "location_preference"; oprop payload "notes";
                           oprop payload "flexibility" ]
  then flags true None
  else None.

Definition handleMessageRelay : handler := fun payload fromAgent =>
  if nullish payload || nullish fromAgent then None
  else if all_convert [oprop fromAgent "human"; oprop payload "message"]
  then Some {| needsApproval := oprop payload "reply_requested";
               alwaysRequiresApproval := None |}
  else None.

Definition handleInfoRequest : handler := fun payload fromAgent =>
  if nullish payload || nullish fromAgent then None
  else if all_convert [oprop fromAgent "human"; oprop payload "question"; oprop payload "context"]
  then flags true None
  else None.

(** [{ ...payload, subject: payload.subject || `Call with ...` }] keeps the
    fields of an object payload and has none otherwise; the subject it
    sets converts exactly if the one of the payload does. *)
Definition handleScheduleCall : handler := fun payload fromAgent =>
  handleScheduleMeeting payload fromAgent.

(** [content] is joined with the lines of the text. *)
Definition handleInfoShare : handler := fun payload fromAgent =>
  if nullish payload || nullish fromAgent then None
  else if all_convert [oprop fromAgent "human"; oprop payload "topic"; oprop payload "content"]
  then flags false None
  else None.

Definition handleIntroduction : handler := fun payload fromAgent =>
  if nullish payload || nullish fromAgent then None
  else if all_convert [ oprop fromAgent "human"; oprop payload "person_name";
                        oprop payload "context"; oprop payload "their_agent_address" ]
  then flags true None
  else None.

(** The currency is written only beside a budget. *)
Definition handleCommerceRequest : handler := fun payload fromAgent =>
  if nullish payload || nullish fromAgent then None
  else if all_convert [ oprop fromAgent "human"; oprop payload "item";
                        oprop payload "description"; oprop payload "quantity";
                        oprop payload "budget"; oprop payload "notes" ]
          && (negb (truthy (oprop payload "budget")) || converts (oprop payload "currency"))
  then flags true (Some (JBool true))
  else None.

(** The currency is written only beside a price; [new Date(expires)]
    converts the expiry. *)
Definition handleCommerceOffer : handler := fun payload fromAgent =>
  if nullish payload || nullish fromAgent then None
  else if all_convert [ oprop fromAgent "human"; oprop payload "item";
                        oprop payload "offer"; oprop payload "price";
                        oprop payload "terms"; oprop payload "expires" ]
          && (negb (truthy (oprop payload "price")) || converts (oprop payload "currency"))
  then flags true (Some (JBool true))
  else None.

Definition handleCommerceAccept : handler := fun payload fromAgent =>
  if nullish payload || nullish fromAgent then None
  else if all_convert [oprop fromAgent "human"; oprop payload "message"]
  then flags false None
  else None.

Definition handleCommerceReject : handler := fun payload fromAgent =>
  if nullish payload || nullish fromAgent then None
  else if all_convert [oprop fromAgent "human"; oprop payload "reason"]
  then flags false None
  else None.

(** [(x || []).map(...)] throws for a truthy [x] that is not an array;
    [p.human] throws for a [null] participant. *)
Definition or_empty_maps (o : option json) : bool :=
  negb (truthy o) || is_array o.

Definition no_null (o : option json) : bool :=
  match o with
  | Some (JArr l) => forallb (fun p => negb (nullish (Some p))) l
  | _ => true
  end.

(** [p.human || p.agent || 'Unknown'], joined into the list of names. *)
Definition names_convert (o : option json) : bool :=
  match o with
  | Some (JArr l) =>
      forallb (fun p => converts (js_or (js_or (prop p "human") (prop p "agent"))
                                        (Some (JStr "Unknown")))) l
  | _ => true
  end.

Definition handleScheduleGroup : handler := fun payload fromAgent =>
  if nullish payload || nullish fromAgent then None
  else if or_empty_maps (oprop payload "proposed_times")
          && elements_convert (oprop payload "proposed_times")
          && or_empty_maps (oprop payload "participants")
          && no_null (oprop payload "participants")
          && names_convert (oprop payload "participants")
          && all_convert [ oprop fromAgent "human"; oprop fromAgent "agent";
                           oprop payload "subject"; oprop payload "duration_minutes";
                           oprop payload "location_preference"; oprop payload "notes" ]
  then flags true None
  else None.

(** The own properties of [HANDLERS], in order. *)
Definition HANDLERS : list (string * handler) :=
  [ ("schedule.meeting", handleScheduleMeeting);
    ("schedule.call", handleScheduleCall);
    ("schedule.group", handleScheduleGroup);
    ("message.relay", handleMessageRelay);
    ("info.request", handleInfoRequest);
    ("info.share", handleInfoShare);
    ("social.introduction", handleIntroduction);
    ("commerce.request", handleCommerceRequest);
    ("commerce.offer", handleCommerceOffer);
    ("commerce.accept", handleCommerceAccept);
    ("commerce.reject", handleCommerceReject) ].

(** A member that [HANDLERS] inherits from [Object.prototype], called as
    a handler, without a [this]: [Object] returns its first argument as
    an object, so that the flags are read off the payload;
    [Object.prototype.toString] returns a string and [isPrototypeOf], on a
    payload that is no object, [false], neither of which has flags; the
    other members throw, and [__proto__] is no function. *)
Definition inherited_member (k : string) : handler := fun payload fromAgent =>
  if String.eqb k "constructor"
  then Some {| needsApproval := oprop payload "needsApproval";
               alwaysRequiresApproval := oprop payload "alwaysRequiresApproval" |}
  else if String.eqb k "toString"
  then Some {| needsApproval := None; alwaysRequiresApproval := None |}
  else if String.eqb k "isPrototypeOf"
  then (if is_ref payload then None
        else Some {| needsApproval := None; alwaysRequiresApproval := None |})
  else None.

Definition own_handler (k : string) : option handler :=
  (fix find (t : list (string * handler)) : option handler :=
     match t with
     | [] => None
     | (k', h) :: t' => if String.eqb k k' then Some h else find t'
     end) HANDLERS.

(** [HANDLERS[intent] || null], for an intent that converts to a property
    key. *)
Definition getHandler (intent : option json) : option handler :=
  match own_handler (to_key intent) with
  | Some h => Some h
  | None => if inherited (to_key intent) then Some (inherited_member (to_key intent)) else None
  end.

Definition supportedIntents : json := JArr (map (fun kh => JStr kh.1) HANDLERS).
End Handlers.

(** What a call does: it returns a value, or an exception escapes it. *)
Inductive outcome : Type :=
| Return (v : json)
| Throw.

(** ** ai2ai-server.js

    The log files are not modelled. *)
Module Server.
Section WithPlatform.
Context `{Clock} `{Ed25519} `{X25519Box}.

(** The node's own keys and environment. *)
Record identity := {
  publicKey : string;
  fingerprint : string;
  x25519 : x_priv;
  AI2AI_TIMEZONE : option json;
}.

Record world := {
  contacts : Trust.contacts;
  rateLimiter : list (option json * list Z);
  conv_meta : Conversations.store;
  (** [conversations/<id>.jsonl], one envelope per line *)
  conv_log : gmap string (list json);
  (** [pending/<id>.json] *)
  pending : gmap string json;
}.

Definition with_contacts (w : world) (cs : Trust.contacts) : world :=
  {| contacts := cs; rateLimiter := rateLimiter w; conv_meta := conv_meta w;
     conv_log := conv_log w; pending := pending w |}.
Definition with_rateLimiter (w : world) (rl : list (option json * list Z)) : world :=
  {| contacts := contacts w; rateLimiter := rl; conv_meta := conv_meta w;
     conv_log := conv_log w; pending := pending w |}.
Definition with_conv_meta (w : world) (st : Conversations.store) : world :=
  {| contacts := contacts w; rateLimiter := rateLimiter w; conv_meta := st;
     conv_log := conv_log w; pending := pending w |}.
Definition with_conv_log (w : world) (l : gmap string (list json)) : world :=
  {| contacts := contacts w; rateLimiter := rateLimiter w; conv_meta := conv_meta w;
     conv_log := l; pending := pending w |}.
Definition with_pending (w : world) (p : gmap string json) : world :=
  {| contacts := contacts w; rateLimiter := rateLimiter w; conv_meta := conv_meta w;
     conv_log := conv_log w; pending := p |}.

Definition RATE_LIMIT : nat := 20.
Definition RATE_WINDOW : Z := 60000.

(** The id comes with the parsed body: one that is an object or an array
    is a key that the [Map] has never seen, and stays one of its own. *)
Definition checkRateLimit (rl : list (option json * list Z)) (now : Z) (agentId : option json)
    : bool * list (option json * list Z) :=
  let window := if is_ref agentId then [] else default [] (map_get agentId rl) in
  let recent := filter (fun t => now - t < RATE_WINDOW) window in
  if decide (RATE_LIMIT <= length recent)%nat then (false, rl)
  else (true, if is_ref agentId then rl ++ [(agentId, recent ++ [now])]
              else map_set agentId (recent ++ [now]) rl).

(** The two functions that follow write [<id>.jsonl] and [<id>.json] into
    their directories.  They are modelled for an id that names a file of
    the directory ([file_name]).  The callers convert the id. *)
Definition saveToConversation (w : world) (conversationId : option json) (message : json) : world :=
  with_conv_log w
    (<[to_key conversationId := default [] (conv_log w !! to_key conversationId) ++ [message]]>
       (conv_log w)).

Definition savePendingApproval (w : world) (id : option json) (data : json) : world :=
  with_pending w (<[to_key id := data]> (pending w)).

(** The envelope with its payload decrypted, or [None] for [null]. *)
Definition maybeDecryptPayload (me : identity) (envelope : json) : option json :=
  if negb (Encryption.isEncrypted (prop envelope "payload")) then Some envelope else
  let decrypted := Encryption.decryptPayloadX25519 (prop envelope "payload") (x25519 me) in
  if truthy (Some decrypted)
  then Some (prop_set (prop_set envelope "payload" decrypted) "_wasEncrypted" (JBool true))
  else None.

Definition rejected (reason : string) : json :=
  JObj [("status", JStr "rejected"); ("reason", JStr reason)].

(** [logger.logIncoming(envelope)].  The log file is not modelled; the
    template of the line converts the type, the intent and the id of the
    sender, and throws when one of them does not convert. *)
Definition logIncoming_throws (envelope : json) : bool :=
  negb (converts (prop envelope "type")
        && converts (prop envelope "intent")
        && converts (oprop (prop envelope "from") "agent")).

(** The contact is written before the line of the log, whose template
    converts the name of the human. *)
Definition handlePing (me : identity) (w : world) (now : Z) (envelope : json) : outcome * world :=
  let fromAgentId := oprop (prop envelope "from") "agent" in
  if negb (converts fromAgentId) then (Throw, w) else
  let payload := prop envelope "payload" in
  let payload_prop k := if nullish payload then None else oprop payload k in
  let contactUpdate :=
    [ ("humanName", oprop (prop envelope "from") "human");
      ("node", oprop (prop envelope "from") "node");
      ("capabilities", payload_prop "capabilities");
      ("publicKey", payload_prop "public_key");
      ("timezone", payload_prop "timezone");
      ("trustLevel", js_or (oprop (Trust.getContact (contacts w) fromAgentId) "trustLevel")
                           (Some (JStr "none"))) ]
    ++ (if truthy (payload_prop "x25519_public_key")
        then [("x25519PublicKey", payload_prop "x25519_public_key")] else []) in
  let cs := (Trust.upsertContact (contacts w) now fromAgentId contactUpdate).2 in
  if negb (converts (oprop (prop envelope "from") "human")) then (Throw, with_contacts w cs) else
  (Return (JObj
     [ ("status", JStr "ok");
       ("type", JStr "ping");
       ("payload", literal
          [ ("capabilities", Some Handlers.supportedIntents);
            ("languages", Some (JArr [JStr "en"]));
            ("timezone", js_or (AI2AI_TIMEZONE me) (Some (JStr "UTC")));
            ("model_info", Some (JStr "local"));
            ("protocol_versions", Some (JArr [JStr "0.1"]));
            ("public_key", Some (JStr (publicKey me)));
            ("fingerprint", Some (JStr (fingerprint me)));
            ("x25519_public_key", Some (JStr (x_pub_der (x25519 me)))) ]) ]),
   with_contacts w cs).

(** The approval is filed and the conversation moved on.  The file holds
    the envelope, the text of the handler (not modelled), the intent and
    the instant. *)
Definition file_approval (w : world) (now : Z) (envelope : json) : outcome * world :=
  if negb (converts (prop envelope "id")) then (Throw, w) else
  let w1 := savePendingApproval w (prop envelope "id")
    (literal [ ("envelope", Some envelope);
               ("handler", prop envelope "intent");
               ("createdAt", Some (JStr (toISOString now))) ]) in
  match Conversations.transitionState (conv_meta w1) now (prop envelope "conversation")
          (Some (JStr Conversations.NEGOTIATING)) with
  | Conversations.Raised => (Throw, w1)
  | t =>
      (Return (literal
         [ ("status", Some (JStr "pending_approval"));
           ("message", Some (JStr "Message received. Waiting for human approval."));
           ("conversation", prop envelope "conversation") ]),
       with_conv_meta w1 (Conversations.after_transition (conv_meta w1) t))
  end.

Definition handleRequest (w : world) (now : Z) (envelope : json) : outcome * world :=
  if negb (converts (prop envelope "intent")) then (Throw, w) else
  match Handlers.getHandler (prop envelope "intent") with
  | None =>
      (Return (literal
         [ ("status", Some (JStr "error"));
           ("reason", Some (JStr ("Unsupported intent: " +:+ to_key (prop envelope "intent"))));
           ("supported_intents", Some Handlers.supportedIntents) ]), w)
  | Some handler =>
      match handler (prop envelope "payload") (prop envelope "from") with
      | None => (Throw, w)
      | Some result =>
          let alwaysApprove := js_or (Handlers.alwaysRequiresApproval result) (Some (JBool false)) in
          if truthy alwaysApprove || truthy (Handlers.needsApproval result)
          then file_approval w now envelope
          else if Trust.requiresApproval_throws (oprop (prop envelope "from") "agent")
                    (prop envelope "intent")
          then (Throw, w)
          else if Trust.requiresApproval (contacts w) (oprop (prop envelope "from") "agent")
                    (prop envelope "intent") (prop envelope "type")
          then file_approval w now envelope
          else
            (Return (literal
               [ ("status", Some (JStr "ok"));
                 ("message", Some (JStr "Message received and processed."));
                 ("conversation", prop envelope "conversation") ]), w)
      end
  end.

(** [formatReplyForHuman]: its templates write the name or the id of the
    sender and, for a rejection, the reason. *)
Definition formatReply_throws (envelope : json) : bool :=
  negb (converts (js_or (js_or (oprop (prop envelope "from") "human")
                               (oprop (prop envelope "from") "agent"))
                        (Some (JStr "Unknown"))))
  || (negb (is_str (prop envelope "type") "confirm") && is_str (prop envelope "type") "reject"
      && negb (converts (js_or (if nullish (prop envelope "payload") then None
                                else oprop (prop envelope "payload") "reason")
                               (Some (JStr "No reason given"))))).

Definition handleReply (w : world) (now : Z) (envelope : json) : outcome * world :=
  let t :=
    if is_str (prop envelope "type") "confirm"
    then Conversations.transitionState (conv_meta w) now (prop envelope "conversation")
           (Some (JStr Conversations.CONFIRMED))
    else if is_str (prop envelope "type") "reject"
    then Conversations.transitionState (conv_meta w) now (prop envelope "conversation")
           (Some (JStr Conversations.REJECTED))
    else Conversations.Refused in
  match t with
  | Conversations.Raised => (Throw, w)
  | _ =>
      let w := with_conv_meta w (Conversations.after_transition (conv_meta w) t) in
      if formatReply_throws envelope || negb (converts (prop envelope "id")) then (Throw, w) else
      let w1 := savePendingApproval w (prop envelope "id")
        (literal [ ("envelope", Some envelope);
                   ("handler", Some (JStr "reply"));
                   ("createdAt", Some (JStr (toISOString now))) ]) in
      (Return (literal
         [ ("status", Some (JStr "ok"));
           ("message", Some (JStr "Reply received."));
           ("conversation", prop envelope "conversation") ]), w1)
  end.

Definition handleInform (w : world) (now : Z) (envelope : json) : outcome * world :=
  let ok := Return (JObj [("status", JStr "ok"); ("message", JStr "Notification received.")]) in
  if negb (converts (prop envelope "intent")) then (Throw, w) else
  match Handlers.getHandler (prop envelope "intent") with
  | None => (ok, w)
  | Some handler =>
      match handler (prop envelope "payload") (prop envelope "from") with
      | None => (Throw, w)
      | Some result =>
          if negb (converts (prop envelope "id")) then (Throw, w) else
          (ok, savePendingApproval w (prop envelope "id")
                 (literal [ ("envelope", Some envelope);
                            ("handler", prop envelope "intent");
                            ("isInform", Some (JBool true));
                            ("createdAt", Some (JStr (toISOString now))) ]))
      end
  end.

(** [(meta.messageCount || 0) + 1]: the sum of two numbers, or, when the
    count on file is no number, the concatenation of its conversion with
    [1]; [None] when that conversion throws. *)
Definition next_count (meta : json) : option json :=
  match js_or (prop meta "messageCount") (Some (JNum 0)) with
  | Some (JNum n) => Some (JNum (n + 1))
  | Some (JBool b) => Some (JNum (if b then 2 else 1))
  | Some JNull | None => Some (JNum 1)
  | Some v => if convertible v then Some (JStr (to_string v +:+ "1")) else None
  end.

Definition processMessage (me : identity) (w : world) (now : Z) (envelope : json)
    : outcome * world :=
  if nullish (Some envelope) then (Throw, w) else
  let fromAgentId := oprop (prop envelope "from") "agent" in
  if logIncoming_throws envelope then (Throw, w) else
  (* 1. Check blocked *)
  if Trust.isBlocked (contacts w) fromAgentId then (Return (rejected "blocked"), w) else
  (* 2. Rate limit *)
  let '(allowed, rl) := checkRateLimit (rateLimiter w) now fromAgentId in
  if negb allowed then (Return (rejected "rate_limited"), w) else
  let w := with_rateLimiter w rl in
  (* 3. Verify signature if contact has a known public key *)
  let contact := Trust.getContact (contacts w) fromAgentId in
  if truthy (oprop contact "publicKey") && truthy (prop envelope "signature")
     && negb (Crypto.verifyMessage envelope (prop envelope "signature") (oprop contact "publicKey"))
  then (Return (rejected "invalid_signature"), w) else
  (* 4. Decrypt payload if encrypted; the lines of the log name the id *)
  if Encryption.isEncrypted (prop envelope "payload") && negb (converts (prop envelope "id"))
  then (Throw, w) else
  match maybeDecryptPayload me envelope with
  | None => (Return (JObj [("status", JStr "error"); ("reason", JStr "decryption_failed")]), w)
  | Some envelope =>
      (* 5. Save to conversation *)
      if negb (converts (prop envelope "conversation")) then (Throw, w) else
      let w := saveToConversation w (prop envelope "conversation") envelope in
      (* 6. Track conversation metadata *)
      let tracked :=
        match Conversations.getConversation (conv_meta w) (prop envelope "conversation") with
        | Some meta =>
            if truthy (Some meta)
            then match next_count meta with
                 | Some n =>
                     Some (Conversations.updateConversation (conv_meta w) now
                             (prop envelope "conversation") [("messageCount", n)]).2
                 | None => None
                 end
            else Some (Conversations.createConversation (conv_meta w) now
                         (prop envelope "conversation") (prop envelope "intent")
                         (prop envelope "from") (prop envelope "to")
                         (prop envelope "participants")).2
        | None =>
            Some (Conversations.createConversation (conv_meta w) now
                    (prop envelope "conversation") (prop envelope "intent")
                    (prop envelope "from") (prop envelope "to")
                    (prop envelope "participants")).2
        end in
      match tracked with
      | None => (Throw, w)
      | Some st =>
          let w := with_conv_meta w st in
          (* 7. Handle by type *)
          if is_str (prop envelope "type") "ping" then handlePing me w now envelope
          else if is_str (prop envelope "type") "request" then handleRequest w now envelope
          else if is_str (prop envelope "type") "response"
                  || is_str (prop envelope "type") "confirm"
                  || is_str (prop envelope "type") "reject" then handleReply w now envelope
          else if is_str (prop envelope "type") "inform" then handleInform w now envelope
          else (Return (JObj [ ("status", JStr "error");
                               ("reason", JStr ("Unknown message type: "
                                                +:+ to_key (prop envelope "type"))) ]), w)
      end
  end.

(** The reply of the HTTP server to [POST /ai2ai]. *)
Inductive http_reply : Type :=
| Reply (code : Z) (body : json)
| Unhandled.

(** The request listener of [startServer] from the parsed body on.  The
    body of the 500 reply also has a [message], the text of the error,
    which is the engine's; it is left out here. *)
Definition post (me : identity) (w : world) (now : Z) (envelope : json) : http_reply * world :=
  if nullish (Some envelope) then (Unhandled, w) else
  if negb (truthy (prop envelope "ai2ai")) || negb (truthy (prop envelope "type"))
     || negb (truthy (prop envelope "from"))
  then (Reply 400 (JObj [("error", JStr "Invalid AI2AI envelope")]), w)
  else
    match processMessage me w now envelope with
    | (Return result, w') =>
        (Reply (if is_str (prop result "status") "rejected" then 403 else 200) result, w')
    | (Throw, w') => (Reply 500 (JObj [("error", JStr "Internal error")]), w')
    end.
End WithPlatform.
End Server.

(** ** ai2ai-queue.js

    [sendFn] is the network: at a given time it answers (right) or throws
    with a message (left).  A call of [attemptDelivery] runs to its end
    before the next event; the interleaving of the event loop during the
    [await] is not modelled. *)
Module Queue.
Section WithClock.
Context `{Clock}.

Definition DEFAULT_RETRY_DELAYS : list Z :=
  [1 * 60 * 1000; 5 * 60 * 1000; 30 * 60 * 1000; 2 * 60 * 60 * 1000; 12 * 60 * 60 * 1000].

(** A file of the outbox directory. *)
Record entry := {
  id : string;
  endpoint : string;
  envelope : json;
  createdAt : string;
  attempt : Z;
  maxRetries : Z;
  retryDelays : list Z;
  lastAttempt : option string;
  lastError : option string;
  status : string;
  deliveredAt : option string;
}.

(** A callback registered with [setTimeout]: its handle, the time at which
    it is due, and the queue id it retries. *)
Record timer := {
  handle : nat;
  due : Z;
  target : string;
}.

Record state := {
  outbox : gmap string entry;
  (** the dead-letter directory of the node; no function of this module
      names it *)
  dlq : gmap string json;
  (** the event loop's pending timers, and the module's [retryTimers] *)
  timers : list timer;
  retryTimers : gmap string nat;
  next_handle : nat;
  (** the calls of [onFailure], oldest first *)
  failures : list entry;
}.

Definition with_outbox (st : state) (ob : gmap string entry) : state :=
  {| outbox := ob; dlq := dlq st; timers := timers st; retryTimers := retryTimers st;
     next_handle := next_handle st; failures := failures st |}.

Record options := {
  opt_maxRetries : option Z;
  opt_retryDelays : option (list Z);
  (** whether an [onFailure] callback was given *)
  opt_onFailure : bool;
}.

(** [uuid] is the value that [randomUUID()] yields when it is called. *)
Definition enqueue (st : state) (now : Z) (uuid : string) (endpoint : string) (envelope : json)
    (opts : options) : string * state :=
  let queueId := to_key (js_or (prop envelope "id") (Some (JStr uuid))) in
  let queueEntry :=
    {| id := queueId; endpoint := endpoint; envelope := envelope;
       createdAt := toISOString now;
       attempt := 0;
       maxRetries := default (Z.of_nat (length DEFAULT_RETRY_DELAYS)) (opt_maxRetries opts);
       retryDelays := default DEFAULT_RETRY_DELAYS (opt_retryDelays opts);
       lastAttempt := None; lastError := None; status := "queued"; deliveredAt := None |} in
  (queueId, with_outbox st (<[queueId := queueEntry]> (outbox st))).

(** [Object.assign] of the whole entry onto the file, when the file exists. *)
Definition updateEntry (st : state) (queueId : string) (updates : entry) : state :=
  match outbox st !! queueId with
  | None => st
  | Some _ => with_outbox st (<[queueId := updates]> (outbox st))
  end.

Definition loadEntry (st : state) (queueId : string) : option entry :=
  outbox st !! queueId.

Definition removeEntry (st : state) (queueId : string) : state :=
  {| outbox := delete queueId (outbox st);
     dlq := dlq st;
     timers := match retryTimers st !! queueId with
               | Some h => filter (fun t => handle t <> h) (timers st)
               | None => timers st
               end;
     retryTimers := delete queueId (retryTimers st);
     next_handle := next_handle st;
     failures := failures st |}.

Definition set_attempt (e : entry) (now : Z) : entry :=
  {| id := id e; endpoint := endpoint e; envelope := envelope e; createdAt := createdAt e;
     attempt := attempt e + 1; maxRetries := maxRetries e; retryDelays := retryDelays e;
     lastAttempt := Some (toISOString now); lastError := lastError e; status := "retrying";
     deliveredAt := deliveredAt e |}.

Definition set_delivered (e : entry) (now : Z) : entry :=
  {| id := id e; endpoint := endpoint e; envelope := envelope e; createdAt := createdAt e;
     attempt := attempt e; maxRetries := maxRetries e; retryDelays := retryDelays e;
     lastAttempt := lastAttempt e; lastError := lastError e; status := "delivered";
     deliveredAt := Some (toISOString now) |}.

Definition set_error (e : entry) (message : string) : entry :=
  {| id := id e; endpoint := endpoint e; envelope := envelope e; createdAt := createdAt e;
     attempt := attempt e; maxRetries := maxRetries e; retryDelays := retryDelays e;
     lastAttempt := lastAttempt e; lastError := Some message; status := status e;
     deliveredAt := deliveredAt e |}.

Definition set_failed (e : entry) : entry :=
  {| id := id e; endpoint := endpoint e; envelope := envelope e; createdAt := createdAt e;
     attempt := attempt e; maxRetries := maxRetries e; retryDelays := retryDelays e;
     lastAttempt := lastAttempt e; lastError := lastError e; status := "failed";
     deliveredAt := deliveredAt e |}.

(** [retryDelays[attempt - 1] || retryDelays[retryDelays.length - 1]];
    [None] is [undefined], on which [setTimeout] fires at once. *)
Definition nth_delay (delays : list Z) (i : Z) : option Z :=
  if i <? 0 then None else delays !! Z.to_nat i.

Definition next_delay (e : entry) : Z :=
  let pick d := match d with Some x => if x =? 0 then None else Some x | None => None end in
  match pick (nth_delay (retryDelays e) (attempt e - 1)) with
  | Some d => d
  | None => default 0 (nth_delay (retryDelays e) (Z.of_nat (length (retryDelays e)) - 1))
  end.

Definition sender := Z -> string -> json -> string + json.

Definition attemptDelivery (st : state) (now : Z) (queueId : string) (sendFn : sender)
    (onFailure : bool) : bool * state :=
  match loadEntry st queueId with
  | None => (false, st)
  | Some entry =>
      if String.eqb (status entry) "delivered" || String.eqb (status entry) "failed"
      then (false, st) else
      let entry := set_attempt entry now in
      match sendFn now (endpoint entry) (envelope entry) with
      | inr response =>
          let entry := set_delivered entry now in
          (true, removeEntry (updateEntry st queueId entry) queueId)
      | inl message =>
          let entry := set_error entry message in
          let st := updateEntry st queueId entry in
          if maxRetries entry <=? attempt entry then
            let entry := set_failed entry in
            let st := updateEntry st queueId entry in
            (false,
             {| outbox := outbox st; dlq := dlq st; timers := timers st;
                retryTimers := retryTimers st; next_handle := next_handle st;
                failures := if onFailure then failures st ++ [entry] else failures st |})
          else
            let t := {| handle := next_handle st; due := now + Z.max 0 (next_delay entry);
                        target := queueId |} in
            (false,
             {| outbox := outbox st; dlq := dlq st; timers := timers st ++ [t];
                retryTimers := <[queueId := handle t]> (retryTimers st);
                next_handle := S (next_handle st);
                failures := failures st |})
      end
  end.

Definition queueAndSend (st : state) (now : Z) (uuid : string) (endpoint : string)
    (envelope : json) (sendFn : sender) (opts : options) : (bool * string) * state :=
  let '(queueId, st) := enqueue st now uuid endpoint envelope opts in
  let '(delivered, st) := attemptDelivery st now queueId sendFn (opt_onFailure opts) in
  ((delivered, queueId), st).

(** The event loop runs the callback of timer [t] at time [now]:
    [retryTimers.delete(queueId)], then the next attempt. *)
Definition fire (st : state) (now : Z) (t : timer) (sendFn : sender) (onFailure : bool) : state :=
  let st := {| outbox := outbox st; dlq := dlq st;
               timers := filter (fun t' => handle t' <> handle t) (timers st);
               retryTimers := delete (target t) (retryTimers st);
               next_handle := next_handle st; failures := failures st |} in
  (attemptDelivery st now (target t) sendFn onFailure).2.

(** The timers fire in the order in which they fall due, each at its due
    time, for at most [fuel] of them. *)
Definition earliest (ts : list timer) : option timer :=
  foldr (fun t acc => match acc with
                      | Some t' => if due t <=? due t' then Some t else Some t'
                      | None => Some t
                      end) None ts.

Fixpoint drain (fuel : nat) (st : state) (sendFn : sender) (onFailure : bool) : state :=
  match fuel with
  | O => st
  | S fuel =>
      match earliest (timers st) with
      | None => st
      | Some t => drain fuel (fire st (due t) t sendFn onFailure) sendFn onFailure
      end
  end.
End WithClock.
End Queue.

(** ** security.js and reliability.js *)
Module Security.
(** [RateLimiter]: per key, the instants of the admitted requests. *)
Definition windowMs : Z := 60000.

Definition allow (maxRequests : nat) (windows : list (option json * list Z)) (now : Z)
    (key : option json) : bool * list (option json * list Z) :=
  let cutoff := now - windowMs in
  let timestamps := filter (fun t => cutoff < t) (default [] (map_get key windows)) in
  if decide (maxRequests <= length timestamps)%nat
  then (false, map_set key timestamps windows)
  else (true, map_set key (timestamps ++ [now]) windows).

Section WithClock.
Context `{Clock}.

Definition isMessageExpired (envelope : json) (now maxAgeMs : Z) : bool :=
  if negb (truthy (prop envelope "timestamp")) then false else
  match Date_ms (prop envelope "timestamp") with
  | None => false
  | Some messageTime => maxAgeMs <? now - messageTime
  end.
End WithClock.

(** [NonceTracker] and [Deduplicator] share the shape of their table: a
    [Map] from key to the instant it was first seen, swept only once it
    has outgrown [maxSize]. *)
Definition maxAge : Z := 3600000.
Definition maxSize : nat := Z.to_nat 10000.

Definition _cleanup (table : list (option json * Z)) (now : Z) : list (option json * Z) :=
  if decide (length table <= maxSize)%nat then table
  else filter (fun kv => ~ (kv.2 < now - maxAge)) table.

(** [isReplay(nonce)] and [isDuplicate(messageId)]. *)
Definition check_and_mark (table : list (option json * Z)) (now : Z) (key : option json)
    : bool * list (option json * Z) :=
  let table := _cleanup table now in
  if map_has key table then (true, table)
  else (false, map_set key now table).

Definition isBlocked (blocked : list (option json)) (agentId : option json) : bool :=
  existsb (key_eqb agentId) blocked.
End Security.

(** ** client.js *)
Module Node.
Section WithPlatform.
Context `{Clock} `{Ed25519}.

Inductive event : Type :=
| EvMessage (payload from : option json) (envelope : json)
| EvRequest (intent payload from : option json) (envelope : json)
| EvReceipt (payload from : option json)
| EvReceiptSend (id from : option json)
(** the events of the delivery tracker *)
| EvSent (messageId : option json)
| EvDelivered (messageId : option json)
| EvRead (messageId : option json)
| EvFailed (messageId : option json) (error : string).

Record receipt := {
  r_status : string;
  r_sentAt : option string;
  r_deliveredAt : option string;
  r_readAt : option string;
  r_error : option string;
  r_failedAt : option string;
}.

Inductive circuit_state : Type := CLOSED | OPEN | HALF_OPEN.

Record circuit := {
  c_state : circuit_state;
  c_failures : Z;
  c_halfOpenAttempts : Z;
  c_lastFailureTime : Z;
  c_successCount : Z;
}.

Definition failureThreshold : Z := 5.
Definition resetTimeout : Z := 60000.
Definition halfOpenMax : Z := 1.

(** A file of the persistent queue. *)
Record qentry := {
  q_id : string;
  q_envelope : json;
  q_endpoint : option json;
  q_priority : Z;
  q_ttl : option Z;
  q_createdAt : string;
  q_expiresAt : option string;
  q_attempts : Z;
  q_status : string;
}.

Record node := {
  name : string;
  humanName : string;
  messageTTL : Z;
  rateLimit : nat;
  has_registry : bool;
  keys : ed_priv;
  seen : list (option json * Z);
  receipts : list (option json * receipt);
  dlq : gmap string json;
  queue : gmap string qentry;
  circuits : list (option json * circuit);
  windows : list (option json * list Z);
  nonces : list (option json * Z);
  blocked : list (option json);
  contacts : list (option json * json);
  (** every event emitted so far, oldest first *)
  events : list event;
}.

Definition upd (n : node)
    (seen' : list (option json * Z)) (receipts' : list (option json * receipt))
    (queue' : gmap string qentry) (circuits' : list (option json * circuit))
    (windows' : list (option json * list Z)) (nonces' : list (option json * Z))
    (contacts' : list (option json * json)) (events' : list event) : node :=
  {| name := name n; humanName := humanName n; messageTTL := messageTTL n;
     rateLimit := rateLimit n; has_registry := has_registry n; keys := keys n;
     seen := seen'; receipts := receipts'; dlq := dlq n; queue := queue';
     circuits := circuits'; windows := windows'; nonces := nonces'; blocked := blocked n;
     contacts := contacts'; events := events' |}.

Definition with_seen n x := upd n x (receipts n) (queue n) (circuits n) (windows n) (nonces n) (contacts n) (events n).
Definition with_receipts n x := upd n (seen n) x (queue n) (circuits n) (windows n) (nonces n) (contacts n) (events n).
Definition with_queue n x := upd n (seen n) (receipts n) x (circuits n) (windows n) (nonces n) (contacts n) (events n).
Definition with_circuits n x := upd n (seen n) (receipts n) (queue n) x (windows n) (nonces n) (contacts n) (events n).
Definition with_windows n x := upd n (seen n) (receipts n) (queue n) (circuits n) x (nonces n) (contacts n) (events n).
Definition with_nonces n x := upd n (seen n) (receipts n) (queue n) (circuits n) (windows n) x (contacts n) (events n).
Definition with_contacts n x := upd n (seen n) (receipts n) (queue n) (circuits n) (windows n) (nonces n) x (events n).
Definition emit n e := upd n (seen n) (receipts n) (queue n) (circuits n) (windows n) (nonces n) (contacts n) (events n ++ [e]).

(** *** DeliveryTracker *)
Definition trackSent (n : node) (now : Z) (messageId : option json) : node :=
  emit (with_receipts n
          (map_set messageId
             {| r_status := "sent"; r_sentAt := Some (toISOString now); r_deliveredAt := None;
                r_readAt := None; r_error := None; r_failedAt := None |}
             (receipts n)))
       (EvSent messageId).

Definition markDelivered (n : node) (now : Z) (messageId : option json) : node :=
  match map_get messageId (receipts n) with
  | Some r =>
      emit (with_receipts n
              (map_set messageId
                 {| r_status := "delivered"; r_sentAt := r_sentAt r;
                    r_deliveredAt := Some (toISOString now); r_readAt := r_readAt r;
                    r_error := r_error r; r_failedAt := r_failedAt r |}
                 (receipts n)))
           (EvDelivered messageId)
  | None => n
  end.

Definition markRead (n : node) (now : Z) (messageId : option json) : node :=
  match map_get messageId (receipts n) with
  | Some r =>
      emit (with_receipts n
              (map_set messageId
                 {| r_status := "read"; r_sentAt := r_sentAt r; r_deliveredAt := r_deliveredAt r;
                    r_readAt := Some (toISOString now); r_error := r_error r;
                    r_failedAt := r_failedAt r |}
                 (receipts n)))
           (EvRead messageId)
  | None => n
  end.

Definition markFailed (n : node) (now : Z) (messageId : option json) (error : string) : node :=
  let r := default {| r_status := ""; r_sentAt := None; r_deliveredAt := None; r_readAt := None;
                      r_error := None; r_failedAt := None |}
                   (map_get messageId (receipts n)) in
  emit (with_receipts n
          (map_set messageId
             {| r_status := "failed"; r_sentAt := r_sentAt r; r_deliveredAt := r_deliveredAt r;
                r_readAt := r_readAt r; r_error := Some error;
                r_failedAt := Some (toISOString now) |}
             (receipts n)))
       (EvFailed messageId error).

(** *** Signing and envelope construction *)
Definition _sign (n : node) (envelope : json) : string :=
  ed_sign (keys n)
    (JSON_stringify (literal
       [ ("id", prop envelope "id");
         ("timestamp", prop envelope "timestamp");
         ("from", prop envelope "from");
         ("to", prop envelope "to");
         ("conversation", prop envelope "conversation");
         ("type", prop envelope "type");
         ("intent", prop envelope "intent");
         ("payload", prop envelope "payload") ])).

Record send_opts := {
  o_conversationId : option json;
  o_requiresApproval : option json;
  o_ttl : option Z;
}.

(** [uuid1], [uuid2] and [nonce] are the values the platform draws. *)
Definition _createEnvelope (n : node) (now : Z) (uuid1 uuid2 nonce : string)
    (targetId type intent payload : option json) (opts : send_opts) : json :=
  let ttl := match o_ttl opts with
             | Some t => if t =? 0 then messageTTL n else t
             | None => messageTTL n
             end in
  let envelope := literal
    ([ ("ai2ai", Some (JStr "1.0"));
       ("id", Some (JStr uuid1));
       ("nonce", Some (JStr nonce));
       ("timestamp", Some (JStr (toISOString now)));
       ("from", Some (JObj [("agent", JStr (name n)); ("human", JStr (humanName n))]));
       ("to", Some (literal [("agent", targetId)]));
       ("conversation", js_or (o_conversationId opts) (Some (JStr uuid2)));
       ("type", type);
       ("intent", intent);
       ("payload", js_or payload (Some (JObj [])));
       ("requires_human_approval",
        Some (JBool (match o_requiresApproval opts with
                     | Some (JBool false) => false
                     | _ => true
                     end))) ]
     ++ (if ttl =? 0 then [] else [("expiresAt", Some (JStr (toISOString (now + ttl))))])) in
  prop_set envelope "signature" (JStr (_sign n envelope)).

(** *** Delivery *)

(** [retryWithBackoff]: [fn] is tried at most [maxRetries + 1] times;
    [wait i] is the jittered delay that is slept after failure number [i].
    The result comes with the time at which it is known. *)
Fixpoint retryWithBackoff (fn : Z -> string + json) (wait : nat -> Z) (now : Z)
    (attempt : nat) (retries_left : nat) : (string + json) * Z :=
  match fn now with
  | inr result => (inr result, now)
  | inl err =>
      match retries_left with
      | O => (inl err, now)
      | S k => retryWithBackoff fn wait (now + wait attempt) (S attempt) k
      end
  end.

Definition fresh_circuit : circuit :=
  {| c_state := CLOSED; c_failures := 0; c_halfOpenAttempts := 0; c_lastFailureTime := 0;
     c_successCount := 0 |}.

Definition _onSuccess (c : circuit) : circuit :=
  {| c_state := CLOSED; c_failures := 0; c_halfOpenAttempts := c_halfOpenAttempts c;
     c_lastFailureTime := c_lastFailureTime c; c_successCount := c_successCount c + 1 |}.

Definition _onFailure (c : circuit) (now : Z) : circuit :=
  {| c_state :=
       match c_state c with
       | CLOSED => if failureThreshold <=? c_failures c + 1 then OPEN else CLOSED
       | HALF_OPEN => OPEN
       | OPEN => OPEN
       end;
     c_failures := c_failures c + 1; c_halfOpenAttempts := c_halfOpenAttempts c;
     c_lastFailureTime := now; c_successCount := c_successCount c |}.

(** [execute(fn)]: the breaker after the call, and what the call yields
    with the time at which it does. *)
Definition execute (c : circuit) (now : Z) (fn : Z -> (string + json) * Z)
    : circuit * ((string + json) * Z) :=
  let admitted : string + circuit :=
    match c_state c with
    | OPEN =>
        if resetTimeout <=? now - c_lastFailureTime c
        then inr {| c_state := HALF_OPEN; c_failures := c_failures c; c_halfOpenAttempts := 0;
                    c_lastFailureTime := c_lastFailureTime c;
                    c_successCount := c_successCount c |}
        else inl "Circuit breaker is open"
    | _ => inr c
    end in
  match admitted with
  | inl err => (c, (inl err, now))
  | inr c =>
      let probe : string + circuit :=
        match c_state c with
        | HALF_OPEN =>
            if halfOpenMax <=? c_halfOpenAttempts c
            then inl "Circuit breaker is half-open, max attempts reached"
            else inr {| c_state := HALF_OPEN; c_failures := c_failures c;
                        c_halfOpenAttempts := c_halfOpenAttempts c + 1;
                        c_lastFailureTime := c_lastFailureTime c;
                        c_successCount := c_successCount c |}
        | _ => inr c
        end in
      match probe with
      | inl err => (c, (inl err, now))
      | inr c =>
          match fn now with
          | (inr result, t) => (_onSuccess c, (inr result, t))
          | (inl err, t) => (_onFailure c t, (inl err, t))
          end
      end
  end.

(** [PersistentQueue.enqueue(envelope, endpoint, { ttl })] *)
Definition enqueue (n : node) (now : Z) (uuid : string) (envelope : json) (endpoint : option json)
    (ttl : Z) : node :=
  let id := to_key (js_or (prop envelope "id") (Some (JStr uuid))) in
  with_queue n
    (<[id := {| q_id := id; q_envelope := envelope; q_endpoint := endpoint; q_priority := 0;
                q_ttl := if ttl =? 0 then None else Some ttl;
                q_createdAt := toISOString now;
                q_expiresAt := if ttl =? 0 then None else Some (toISOString (now + ttl));
                q_attempts := 0; q_status := "pending" |}]> (queue n)).

Definition addContact (n : node) (now : Z) (agentId : option json)
    (info : list (string * option json)) : node :=
  with_contacts n
    (map_set agentId
       (JObj (Trust.spread (map_get agentId (contacts n))
                (info ++ [("updatedAt", Some (JStr (toISOString now)))])))
       (contacts n)).

(** The network as [_deliver] meets it: [resolve] is the registry lookup
    and [net] is [_rawSend], which resolves with the body of a 2xx answer
    and rejects otherwise. *)
Record network := {
  resolve : option json -> option json;
  net : Z -> option json -> json -> string + json;
  wait : nat -> Z;
}.

(** [_deliver]: the value the promise resolves with, or [Throw]. *)
Definition _deliver (n : node) (now : Z) (uuid : string) (io : network)
    (targetId : option json) (envelope : json) : outcome * node :=
  let known := oprop (map_get targetId (contacts n)) "endpoint" in
  let '(endpoint, n) :=
    if negb (truthy known) && has_registry n then
      let resolved := resolve io targetId in
      if truthy (oprop resolved "endpoint")
      then (oprop resolved "endpoint",
            addContact n now targetId
              [("endpoint", oprop resolved "endpoint"); ("publicKey", oprop resolved "publicKey")])
      else (known, n)
    else (known, n) in
  if negb (truthy endpoint) then (Throw, n) else
  if Security.isBlocked (blocked n) targetId then (Throw, n) else
  let c := default fresh_circuit (map_get endpoint (circuits n)) in
  let n := with_circuits n (map_set endpoint c (circuits n)) in
  let n := trackSent n now (prop envelope "id") in
  let '(c', (result, t)) :=
    execute c now (fun t0 => retryWithBackoff (fun t => net io t endpoint envelope)
                               (wait io) t0 0 3) in
  let n := with_circuits n (map_set endpoint c' (circuits n)) in
  match result with
  | inr r => (Return r, markDelivered n t (prop envelope "id"))
  | inl err =>
      let n := markFailed n t (prop envelope "id") err in
      let n := enqueue n t uuid envelope endpoint (messageTTL n) in
      (Return (literal [ ("status", Some (JStr "queued"));
                         ("id", prop envelope "id");
                         ("error", Some (JStr err)) ]), n)
  end.

(** *** Ingress *)
Inductive http_reply : Type :=
| Reply (code : Z) (body : json)
| Unhandled.

Definition reject (code : Z) (reason : string) : http_reply :=
  Reply code (JObj [("status", JStr "rejected"); ("reason", JStr reason)]).

(** [_handleRequest] on [POST /ai2ai], from the parsed body on. *)
Definition _handleRequest (n : node) (now : Z) (envelope : json) : http_reply * node :=
  if nullish (Some envelope) then (Unhandled, n) else
  if negb (truthy (prop envelope "ai2ai")) || negb (truthy (prop envelope "type"))
     || negb (truthy (prop envelope "from"))
  then (Reply 400 (JObj [("error", JStr "Invalid AI2AI envelope")]), n) else
  let fromAgent := oprop (prop envelope "from") "agent" in
  (* Security checks *)
  if Security.isBlocked (blocked n) fromAgent then (reject 403 "blocked", n) else
  let '(allowed, w) := Security.allow (rateLimit n) (windows n) now fromAgent in
  let n := with_windows n w in
  if negb allowed then (reject 429 "rate_limited", n) else
  if Security.isMessageExpired envelope now (messageTTL n) then (reject 400 "message_expired", n) else
  let '(replay, n) :=
    if truthy (prop envelope "nonce")
    then let '(r, t) := Security.check_and_mark (nonces n) now (prop envelope "nonce") in
         (r, with_nonces n t)
    else (false, n) in
  if replay then (reject 400 "replay_detected", n) else
  (* Deduplication *)
  let '(duplicate, t) := Security.check_and_mark (seen n) now (prop envelope "id") in
  let n := with_seen n t in
  if duplicate
  then (Reply 200 (literal [("status", Some (JStr "duplicate")); ("id", prop envelope "id")]), n)
  else
  (* Emit events *)
  let type := prop envelope "type" in
  let n := if is_str type "message" || is_str type "request"
           then emit n (EvMessage (prop envelope "payload") (prop envelope "from") envelope)
           else n in
  let n := if is_str type "request"
           then emit n (EvRequest (prop envelope "intent") (prop envelope "payload")
                          (prop envelope "from") envelope)
           else n in
  let n := if is_str type "receipt" then
             let payload := js_or (prop envelope "payload") (Some (JObj [])) in
             let messageId := oprop payload "messageId" in
             let status := oprop payload "status" in
             let n := if truthy messageId && is_str status "delivered"
                      then markDelivered n now messageId else n in
             let n := if truthy messageId && is_str status "read"
                      then markRead n now messageId else n in
             emit n (EvReceipt (prop envelope "payload") (prop envelope "from"))
           else n in
  (* Send delivery receipt back *)
  let n := if negb (is_str type "receipt")
           then emit n (EvReceiptSend (prop envelope "id") (prop envelope "from")) else n in
  (Reply 200 (literal [ ("status", Some (JStr "ok"));
                        ("id", prop envelope "id");
                        ("agent", Some (JStr (name n))) ]), n).

(** A run of the listener: the event loop hands it one parsed body at a
    time, and the handler has no await between the parse and the reply.
    With each reply come the events that the request emitted. *)
Fixpoint serve (n : node) (requests : list (Z * json)) : list (http_reply * list event) * node :=
  match requests with
  | [] => ([], n)
  | (now, envelope) :: rest =>
      let n' := (_handleRequest n now envelope).2 in
      (((_handleRequest n now envelope).1, drop (length (events n)) (events n'))
         :: (serve n' rest).1,
       (serve n' rest).2)
  end.
End WithPlatform.
End Node.

(** ** ai2ai-client.js *)
Module Client.
Section WithPlatform.
Context `{Clock} `{Ed25519} `{X25519Box}.

Record config := {
  agentName : string;
  humanName : string;
  enableEncryption : bool;
  enableQueue : bool;
}.

Record envelope_args := {
  a_to : option json;
  a_type : option json;
  a_intent : option json;
  a_payload : option json;
  a_conversationId : option json;
  a_requiresHumanApproval : option json;
  a_participants : option json;
}.

(** [uuid1] and [uuid2] are the values that [randomUUID()] yields. *)
Definition createEnvelope (cfg : config) (privateKey : ed_priv) (now : Z) (uuid1 uuid2 : string)
    (a : envelope_args) : json :=
  let envelope := literal
    ([ ("ai2ai", Some (JStr "0.1"));
       ("id", Some (JStr uuid1));
       ("timestamp", Some (JStr (toISOString now)));
       ("from", Some (JObj [ ("agent", JStr (agentName cfg));
                             ("node", JStr (agentName cfg +:+ "-node"));
                             ("human", JStr (humanName cfg)) ]));
       ("to", a_to a);
       ("conversation", js_or (a_conversationId a) (Some (JStr uuid2)));
       ("type", a_type a);
       ("intent", js_or (a_intent a) (Some JNull));
       ("payload", js_or (a_payload a) (Some (JObj [])));
       ("requires_human_approval",
        Some (JBool (match a_requiresHumanApproval a with
                     | Some (JBool false) => false
                     | _ => true
                     end))) ]
     ++ (if truthy (a_participants a) then [("participants", a_participants a)] else [])) in
  (* Sign the message *)
  prop_set envelope "signature" (JStr (Crypto.signMessage envelope privateKey)).

(** [Array.isArray(envelope.to) ? envelope.to[0]?.agent : envelope.to?.agent] *)
Definition recipientAgent (envelope : json) : option json :=
  match prop envelope "to" with
  | Some (JArr l) => oprop (head l) "agent"
  | to => oprop to "agent"
  end.

Definition recipientHuman (envelope : json) : option json :=
  match prop envelope "to" with
  | Some (JArr l) => oprop (head l) "human"
  | to => oprop to "human"
  end.

(** [eph] and [nonce] are the random draws of [encryptPayloadX25519]. *)
Definition maybeEncryptEnvelope (cfg : config) (cs : Trust.contacts) (envelope : json)
    (eph : x_priv) (nonce : string) : json :=
  if negb (enableEncryption cfg) then envelope else
  if negb (truthy (recipientAgent envelope)) then envelope else
  let contact := Trust.getContact cs (recipientAgent envelope) in
  if negb (truthy (oprop contact "x25519PublicKey")) then envelope else
  let encrypted :=
    Encryption.encryptPayloadX25519 (prop envelope "payload") (oprop contact "x25519PublicKey")
      eph nonce in
  if truthy (Some encrypted)
  then prop_set (prop_set envelope "payload" encrypted) "_payloadEncrypted" (JBool true)
  else envelope.

Record world := {
  contacts : Trust.contacts;
  queue : Queue.state;
}.

Record send_options := {
  (** [options.queue !== false] *)
  o_queue : bool;
}.

(** [rawSend] is the network, as in the queue.  The result is the value
    the promise resolves with, or [Throw]. *)
Definition sendMessage (cfg : config) (w : world) (now : Z) (uuid : string)
    (eph : x_priv) (nonce : string) (rawSend : Queue.sender)
    (endpoint : string) (envelope : json) (options : send_options) : outcome * world :=
  (* Check if agent is blocked *)
  if truthy (recipientAgent envelope) && Trust.isBlocked (contacts w) (recipientAgent envelope)
  then (Throw, w) else
  (* Optionally encrypt *)
  let envelope := maybeEncryptEnvelope cfg (contacts w) envelope eph nonce in
  match rawSend now endpoint envelope with
  | inr data =>
      let cs :=
        if truthy (recipientAgent envelope)
        then (Trust.upsertContact (contacts w) now (recipientAgent envelope)
                [ ("endpoint", Some (JStr endpoint));
                  ("humanName", recipientHuman envelope);
                  ("lastInteraction", Some (JStr (toISOString now))) ]).2
        else contacts w in
      (Return data, {| contacts := cs; queue := queue w |})
  | inl err =>
      if enableQueue cfg && o_queue options then
        let '((_, queueId), q) :=
          Queue.queueAndSend (queue w) now uuid endpoint envelope rawSend
            {| Queue.opt_maxRetries := None; Queue.opt_retryDelays := None;
               Queue.opt_onFailure := true |} in
        (Return (JObj [ ("status", JStr "queued");
                        ("queueId", JStr queueId);
                        ("message", JStr "Agent offline, message queued for retry") ]),
         {| contacts := contacts w; queue := q |})
      else (Throw, w)
  end.
End WithPlatform.
End Client.

(** ** The canonical form as the specification words it

    The same eight fields, every object written with its keys in
    lexicographic order.  It is compared with [Crypto.canonical] below. *)
Fixpoint insert_by_key (kv : string * json) (m : list (string * json)) : list (string * json) :=
  match m with
  | [] => [kv]
  | kv' :: m' => if String.leb kv.1 kv'.1 then kv :: m else kv' :: insert_by_key kv m'
  end.

Fixpoint sort_keys (v : json) : json :=
  match v with
  | JArr l => JArr (map sort_keys l)
  | JObj m => JObj (foldr (fun kv acc => insert_by_key (kv.1, sort_keys kv.2) acc) [] m)
  | _ => v
  end.

Definition spec_signed_bytes (envelope : json) : string :=
  JSON_stringify (sort_keys (literal
    [ ("id", prop envelope "id");
      ("timestamp", prop envelope "timestamp");
      ("from", prop envelope "from");
      ("to", prop envelope "to");
      ("conversation", prop envelope "conversation");
      ("type", prop envelope "type");
      ("intent", prop envelope "intent");
      ("payload", prop envelope "payload") ])).

(** ** A symbolic platform

    Term-like stand-ins for the platform services, in the manner of a
    Dolev-Yao model.  Concrete runs below are computed with them, and they
    show that the idealised interfaces can be realised. *)
Module Sym.
Definition pos_string (p : positive) : string := NilZero.string_of_uint (Pos.to_uint p).

Definition strip (pre s : string) : option string :=
  if String.prefix pre s
  then Some (String.substring (String.length pre) (String.length s - String.length pre) s)
  else None.

#[export] Instance clock : Clock := {|
  toISOString z := number_to_string z;
  Date_ms o :=
    match o with
    | Some (JNum z) => Some z
    | Some (JStr s) =>
        match parse_number s with
        | Some (z, EmptyString) => Some z
        | _ => None
        end
    | Some JNull | Some (JBool false) => Some 0
    | Some (JBool true) => Some 1
    | _ => None
    end;
|}.

#[export] Instance ed25519 : Ed25519 := {|
  ed_priv := string;
  ed_pub sk := "PUBLIC KEY " +:+ sk;
  ed_sign sk m := "sig/PUBLIC KEY " +:+ sk +:+ "/" +:+ m;
  ed_verify pem m signature :=
    match pem, signature with
    | Some (JStr p), Some (JStr s) => String.eqb s ("sig/" +:+ p +:+ "/" +:+ m)
    | _, _ => false
    end;
|}.

#[export] Instance box : X25519Box := {|
  x_priv := positive;
  x_pub_der a := "X" +:+ pos_string a;
  x_shared a der :=
    match der with
    | Some (JStr (String "X" r)) =>
        match NilZero.uint_of_string r with
        | Some u =>
            match Pos.of_uint u with
            | Npos b => Some (pos_string (a * b))
            | N0 => None
            end
        | None => None
        end
    | _ => None
    end;
  hkdfSync h k s i l := h +:+ "|" +:+ s +:+ "|" +:+ i +:+ "|" +:+ number_to_string l +:+ "|" +:+ k;
  gcm_seal k n m := ("enc:" +:+ m, "tag:" +:+ k);
  gcm_open k n c t :=
    if String.eqb t ("tag:" +:+ k) then strip "enc:" c else None;
  to_base64 b := b;
  from_base64 v := match v with Some (JStr s) => Some s | _ => None end;
|}.
End Sym.

(** ** Concrete nodes and envelopes, on the symbolic platform *)
Module Examples.
Import Sym.


(** Bob's node; it knows Alice, her key, and trusts her. *)
Definition bob : Server.identity :=
  {| Server.publicKey := ed_pub "bob";
     Server.fingerprint := "b0b0:b0b0:b0b0:b0b0:b0b0:b0b0:b0b0:b0b0";
     Server.x25519 := 7%positive;
     Server.AI2AI_TIMEZONE := None |}.

Definition bob_world : Server.world :=
  {| Server.contacts :=
       [("alice", JObj [ ("humanName", JStr "Alice");
                         ("publicKey", JStr (ed_pub "alice"));
                         ("trustLevel", JStr "trusted") ])];
     Server.rateLimiter := [];
     Server.conv_meta := ∅;
     Server.conv_log := ∅;
     Server.pending := ∅ |}.

(** An envelope from Alice to Bob, not yet signed. *)
Definition from_alice (id intent : string) (payload : json) : json :=
  JObj [ ("ai2ai", JStr "0.1");
         ("id", JStr id);
         ("timestamp", JStr "5000");
         ("from", JObj [("agent", JStr "alice"); ("node", JStr "alice-node"); ("human", JStr "Alice")]);
         ("to", JObj [("agent", JStr "bob")]);
         ("conversation", JStr "c1");
         ("type", JStr "request");
         ("intent", JStr intent);
         ("payload", payload);
         ("requires_human_approval", JBool true) ].

Definition signed (sk : string) (envelope : json) : json :=
  prop_set envelope "signature" (JStr (Crypto.signMessage envelope sk)).

Definition quote_request : json :=
  signed "alice" (from_alice "m1" "commerce.request" (JObj [("item", JStr "Widget")])).

Definition refund_request : json :=
  signed "alice" (from_alice "m2" "commerce.refund" (JObj [("item", JStr "Widget")])).

(** A quote request whose item is an object that does not convert to a
    string. *)
Definition unprintable_request : json :=
  signed "alice" (from_alice "m9" "commerce.request"
                    (JObj [("item", JObj [("toString", JNum 1)])])).

(** A peer that refuses every connection. *)
Definition refuse : Queue.sender := fun _ _ _ => inl "connect ECONNREFUSED".

Definition empty_queue : Queue.state :=
  {| Queue.outbox := ∅; Queue.dlq := ∅; Queue.timers := []; Queue.retryTimers := ∅;
     Queue.next_handle := 0; Queue.failures := [] |}.

Definition notify : Queue.options :=
  {| Queue.opt_maxRetries := None; Queue.opt_retryDelays := None; Queue.opt_onFailure := true |}.

(** The queue after the envelope was queued at time 0 and every retry of
    the default schedule has fired. *)
Definition exhausted : Queue.state :=
  Queue.drain 10
    (Queue.queueAndSend empty_queue 0 "u-1" "http://localhost:1/ai2ai" quote_request refuse notify).2
    refuse true.

(** Alice's client; it knows Bob's X25519 key from the handshake. *)
Definition alice : Client.config :=
  {| Client.agentName := "alice"; Client.humanName := "Alice";
     Client.enableEncryption := true; Client.enableQueue := true |}.

Definition alice_contacts : Trust.contacts :=
  [("bob", JObj [ ("humanName", JStr "Bob");
                  ("publicKey", JStr (ed_pub "bob"));
                  ("x25519PublicKey", JStr (x_pub_der (Server.x25519 bob))) ])].

Definition meeting : Client.envelope_args :=
  {| Client.a_to := Some (JObj [("agent", JStr "bob")]);
     Client.a_type := Some (JStr "request");
     Client.a_intent := Some (JStr "schedule.meeting");
     Client.a_payload := Some (JObj [("proposed_times", JArr [JStr "2026-03-10T10:00Z"])]);
     Client.a_conversationId := None;
     Client.a_requiresHumanApproval := None;
     Client.a_participants := None |}.

(** The envelope as [createEnvelope] returns it, and as [sendMessage]
    hands it to [rawSend]. *)
Definition meeting_envelope : json := Client.createEnvelope alice "alice" 5000 "m7" "c7" meeting.

Definition meeting_on_wire : json :=
  Client.maybeEncryptEnvelope alice alice_contacts meeting_envelope 3%positive "nonce-1".

(** Bob's server at the other end of [rawSend]. *)
Definition bob_http : Queue.sender := fun now _ envelope =>
  match (Server.post bob bob_world now envelope).1 with
  | Server.Reply code body =>
      if (200 <=? code) && (code <? 300) then inr body
      else inl ("HTTP " +:+ number_to_string code)
  | Server.Unhandled => inl "socket hang up"
  end.

(** An unsigned request from Alice. *)
Definition unsigned_request : json :=
  from_alice "m3" "schedule.meeting" (JObj [("proposed_times", JArr [JStr "2026-03-10T10:00Z"])]).

(** Bob's SDK node: Mallory is on its blocklist, Alice's key is on file. *)
Definition bob_node : Node.node :=
  {| Node.name := "bob"; Node.humanName := "Bob"; Node.messageTTL := 86400000;
     Node.rateLimit := 20%nat; Node.has_registry := false; Node.keys := "bob";
     Node.seen := []; Node.receipts := []; Node.dlq := ∅; Node.queue := ∅;
     Node.circuits := []; Node.windows := []; Node.nonces := [];
     Node.blocked := [Some (JStr "mallory")];
     Node.contacts := [(Some (JStr "alice"), JObj [("publicKey", JStr (ed_pub "alice"))])];
     Node.events := [] |}.


(** Alice's request under a signature that is not hers. *)
Definition forged : json :=
  prop_set (from_alice "m4" "schedule.meeting" (JObj [])) "signature"
    (JStr (Crypto.signMessage (from_alice "m4" "schedule.meeting" (JObj [])) "mallory")).


(** A message that carries a nonce. *)
Definition with_nonce : json :=
  JObj [ ("ai2ai", JStr "1.0"); ("id", JStr "m5"); ("timestamp", JStr "5000");
         ("from", JObj [("agent", JStr "alice")]); ("to", JObj [("agent", JStr "bob")]);
         ("type", JStr "message"); ("payload", JObj [("text", JStr "hello")]);
         ("nonce", JStr "9f1c") ].

(** A stream of notes from Alice, one every 61 seconds. *)
Definition note_id (i : nat) : string := "m" +:+ number_to_string (Z.of_nat i).

Definition note (i : nat) (now : Z) : json :=
  JObj [ ("ai2ai", JStr "1.0"); ("id", JStr (note_id i)); ("timestamp", JNum now);
         ("from", JObj [("agent", JStr "alice")]); ("to", JObj [("agent", JStr "bob")]);
         ("type", JStr "message"); ("payload", JObj []) ].

Definition note_time (i : nat) : Z := 61000 * Z.of_nat i.

Definition notes (k : nat) : list (Z * json) :=
  (fun i => (note_time i, note i (note_time i))) <$> seq 0 k.
End Examples.

(** * Vocabulary of the statements *)

Section ConversationFactsTerms.
Context `{Clock}.
Import Conversations.


End ConversationFactsTerms.

Section ConversationInvariantTerms.
Context `{Clock}.
Import Conversations.

Definition terminal (s : string) : Prop :=
  s = "confirmed" \/ s = "rejected" \/ s = "expired".

(** The conversation filed under [key] is in state [s]. *)
Definition state_at (st : store) (key s : string) : Prop :=
  exists meta, st !! key = Some meta /\ prop meta "state" = Some (JStr s).
End ConversationInvariantTerms.

Section CommerceGuardTerms.
Context `{Clock} `{Ed25519} `{X25519Box}.
Import Server.

(** The commerce intents that have a handler. *)
Definition commerce_intents : list string :=
  ["commerce.request"; "commerce.offer"; "commerce.accept"; "commerce.reject"].

Definition pending_approval_reply (envelope : json) : json :=
  literal [ ("status", Some (JStr "pending_approval"));
            ("message", Some (JStr "Message received. Waiting for human approval."));
            ("conversation", prop envelope "conversation") ].

Definition unsupported_reply (envelope : json) : json :=
  literal [ ("status", Some (JStr "error"));
            ("reason", Some (JStr ("Unsupported intent: " +:+ to_key (prop envelope "intent"))));
            ("supported_intents", Some Handlers.supportedIntents) ].

Definition approval_record (now : Z) (envelope : json) : json :=
  literal [ ("envelope", Some envelope);
            ("handler", prop envelope "intent");
            ("createdAt", Some (JStr (toISOString now))) ].
End CommerceGuardTerms.

Section QueueFactsTerms.
Context `{Clock}.
Import Queue.
Variable sendFn : sender.
Variable onFailure : bool.

(** The same job, [k] attempts later. *)
Definition later (k : Z) (e0 e : entry) : Prop :=
  id e = id e0 /\ endpoint e = endpoint e0 /\ envelope e = envelope e0 /\
  maxRetries e = maxRetries e0 /\ retryDelays e = retryDelays e0 /\
  attempt e = attempt e0 + k.

(** A retry is scheduled for [qid], and it is the only pending timer. *)
Definition retrying (st : state) (qid : string) (e : entry) (F : list entry) (D : gmap string json)
    : Prop :=
  outbox st !! qid = Some e /\ status e = "retrying" /\ 0 <= attempt e < maxRetries e /\
  (exists t, timers st = [t] /\ target t = qid) /\
  failures st = F /\ dlq st = D.

(** The entry rests in the outbox, marked failed; [onFailure] was called
    once on it. *)
Definition given_up (st : state) (qid : string) (e : entry) (F : list entry) (D : gmap string json)
    : Prop :=
  outbox st !! qid = Some e /\ status e = "failed" /\
  attempt e = Z.max 1 (maxRetries e) /\
  timers st = [] /\
  failures st = F ++ (if onFailure then [e] else []) /\ dlq st = D.
End QueueFactsTerms.

Section ClaimC2Terms.
Context `{Clock} `{Ed25519}.

Definition signed_fields : list string :=
  ["id"; "timestamp"; "from"; "to"; "conversation"; "type"; "intent"; "payload"].

(** The fields of an envelope that are present, among the eight, in the
    order of the source. *)
Definition present_fields (envelope : json) : list (string * json) :=
  omap (fun k => pair k <$> prop envelope k) signed_fields.

Fixpoint joined (sep : string) (l : list string) : string :=
  match l with
  | [] => ""
  | [x] => x
  | x :: l' => x +:+ sep +:+ joined sep l'
  end.

(** One member of an object, as it is written without whitespace. *)
Definition member (kv : string * json) : string :=
  quote kv.1 +:+ ":" +:+ JSON_stringify kv.2.

(** The signed bytes in the words of the amended claim: between braces and
    separated by commas, one member for each of the eight fields that is
    present, in the order of the source, and nothing for one that is
    absent. *)
Definition amended_signed_bytes (envelope : json) : string :=
  "{" +:+ joined "," (map member (present_fields envelope)) +:+ "}".
End ClaimC2Terms.

Section IngressFactsTerms.
Context `{Clock} `{Ed25519}.
Import Node.

Definition sender (envelope : json) : option json := oprop (prop envelope "from") "agent".

(** What each filter of [_handleRequest] decides, read on the node as the
    request finds it. *)
Definition malformed (envelope : json) : bool :=
  negb (truthy (prop envelope "ai2ai")) || negb (truthy (prop envelope "type"))
  || negb (truthy (prop envelope "from")).

Definition on_blocklist (n : node) (envelope : json) : bool :=
  Security.isBlocked (blocked n) (sender envelope).

Definition over_limit (n : node) (now : Z) (envelope : json) : bool :=
  negb (Security.allow (rateLimit n) (windows n) now (sender envelope)).1.

Definition too_old (n : node) (now : Z) (envelope : json) : bool :=
  Security.isMessageExpired envelope now (messageTTL n).

Definition replayed (n : node) (now : Z) (envelope : json) : bool :=
  truthy (prop envelope "nonce")
  && (Security.check_and_mark (nonces n) now (prop envelope "nonce")).1.

Definition already_seen (n : node) (now : Z) (envelope : json) : bool :=
  (Security.check_and_mark (seen n) now (prop envelope "id")).1.

Definition invalid_envelope : http_reply :=
  Reply 400 (JObj [("error", JStr "Invalid AI2AI envelope")]).

Definition duplicate_reply (envelope : json) : http_reply :=
  Reply 200 (literal [("status", Some (JStr "duplicate")); ("id", prop envelope "id")]).

Definition ok_reply (n : node) (envelope : json) : http_reply :=
  Reply 200 (literal [ ("status", Some (JStr "ok")); ("id", prop envelope "id");
                       ("agent", Some (JStr (name n))) ]).

(** The chain in the order of the source. *)
Definition first_failure (n : node) (now : Z) (envelope : json) : http_reply :=
  if malformed envelope then invalid_envelope
  else if on_blocklist n envelope then reject 403 "blocked"
  else if over_limit n now envelope then reject 429 "rate_limited"
  else if too_old n now envelope then reject 400 "message_expired"
  else if replayed n now envelope then reject 400 "replay_detected"
  else if already_seen n now envelope then duplicate_reply envelope
  else ok_reply n envelope.

(** The part of [_handleRequest] that follows the filters. *)
Definition dispatch (n : node) (now : Z) (envelope : json) : node :=
  let type := prop envelope "type" in
  let n := if is_str type "message" || is_str type "request"
           then emit n (EvMessage (prop envelope "payload") (prop envelope "from") envelope)
           else n in
  let n := if is_str type "request"
           then emit n (EvRequest (prop envelope "intent") (prop envelope "payload")
                          (prop envelope "from") envelope)
           else n in
  let n := if is_str type "receipt" then
             let payload := js_or (prop envelope "payload") (Some (JObj [])) in
             let messageId := oprop payload "messageId" in
             let status := oprop payload "status" in
             let n := if truthy messageId && is_str status "delivered"
                      then markDelivered n now messageId else n in
             let n := if truthy messageId && is_str status "read"
                      then markRead n now messageId else n in
             emit n (EvReceipt (prop envelope "payload") (prop envelope "from"))
           else n in
  if negb (is_str type "receipt")
  then emit n (EvReceiptSend (prop envelope "id") (prop envelope "from")) else n.
End IngressFactsTerms.

Section ServerChainTerms.
Context `{Clock} `{Ed25519} `{X25519Box}.
Import Server.

(** What a filter of the skill server answers: a reply, or the 500 of
    the listener when the filter throws. *)
Inductive verdict : Type :=
| Answer (r : http_reply)
| InternalError.


(** The chain of the skill server: [post], then [processMessage] down to
    the decryption of the payload.  The line of the log that opens
    [processMessage] and the one that follows a decryption are part of
    it, for what they throw. *)
Definition server_first_failure (me : identity) (w : world) (now : Z) (envelope : json)
    : option verdict :=
  let key := oprop (Trust.getContact (contacts w) (sender envelope)) "publicKey" in
  if malformed envelope
  then Some (Answer (Reply 400 (JObj [("error", JStr "Invalid AI2AI envelope")])))
  else if logIncoming_throws envelope
  then Some InternalError
  else if Trust.isBlocked (contacts w) (sender envelope)
  then Some (Answer (Reply 403 (rejected "blocked")))
  else if negb (checkRateLimit (rateLimiter w) now (sender envelope)).1
  then Some (Answer (Reply 403 (rejected "rate_limited")))
  else if truthy key && truthy (prop envelope "signature")
          && negb (Crypto.verifyMessage envelope (prop envelope "signature") key)
  then Some (Answer (Reply 403 (rejected "invalid_signature")))
  else if Encryption.isEncrypted (prop envelope "payload") && negb (converts (prop envelope "id"))
  then Some InternalError
  else match maybeDecryptPayload me envelope with
       | None => Some (Answer (Reply 200 (JObj [ ("status", JStr "error");
                                                 ("reason", JStr "decryption_failed") ])))
       | Some _ => None
       end.
End ServerChainTerms.

Section DedupFactsTerms.
Context `{Clock} `{Ed25519}.
Import Node.

(** An envelope whose keys the tables of the node find again, and whose
    timestamp converts to a date: the sender id, the nonce and the id are
    no objects or arrays. *)
Definition plain (envelope : json) : bool :=
  negb (is_ref (sender envelope)) && negb (is_ref (prop envelope "nonce"))
  && negb (is_ref (prop envelope "id")) && converts (prop envelope "timestamp").

(** The replies that refuse a request. *)
Definition refusals (envelope : json) : list http_reply :=
  [ invalid_envelope; reject 403 "blocked"; reject 429 "rate_limited";
    reject 400 "message_expired"; reject 400 "replay_detected"; duplicate_reply envelope ].

(** The dedup table keeps what it holds for the run ahead: the table
    stays within [maxSize], or every POST of the run comes at most [maxAge]
    after the entry was made. *)
Definition retained (n : node) (requests : list (Z * json)) : Prop :=
  (length (seen n) + length requests <= Security.maxSize)%nat
  \/ forall a b ta ea tb eb, (a <= b)%nat ->
       requests !! a = Some (ta, ea) -> requests !! b = Some (tb, eb) ->
       tb - ta <= Security.maxAge.

Definition marked (k : option json) (n : node) (rest : list (Z * json)) : Prop :=
  exists ts, map_get k (seen n) = Some ts /\
    ((length (seen n) + length rest <= Security.maxSize)%nat
     \/ forall tb eb, (tb, eb) ∈ rest -> tb - Security.maxAge <= ts).
End DedupFactsTerms.

Section ServerLogTerms.
Context `{Clock} `{Ed25519} `{X25519Box}.
Import Server.

(** The statuses that [processMessage] answers with. *)
Definition server_statuses : list string := ["rejected"; "error"; "ok"; "pending_approval"].

(** The lines of a conversation on file. *)
Definition lines (w : world) (conversation : option json) : list json :=
  default [] (conv_log w !! to_key conversation).
End ServerLogTerms.

Section EvictionTerms.
Import Sym Examples Node.

Definition alice_agent : option json := Some (JStr "alice").

Definition entries (k : nat) : list (option json * Z) :=
  (fun i => (Some (JStr (note_id i)), note_time i)) <$> seq 0 k.

Definition window_after (k : nat) : list (option json * list Z) :=
  match k with
  | O => []
  | S k' => [(alice_agent, [note_time k'])]
  end.

Definition emitted (i : nat) : list event :=
  [ EvMessage (Some (JObj [])) (Some (JObj [("agent", JStr "alice")])) (note i (note_time i));
    EvReceiptSend (Some (JStr (note_id i))) (Some (JObj [("agent", JStr "alice")])) ].

(** Bob's node after the first [k] notes. *)
Definition after (k : nat) : node :=
  upd bob_node (entries k) [] ∅ [] (window_after k) [] (contacts bob_node)
    (mjoin (emitted <$> seq 0 k)).
End EvictionTerms.

(** What may follow a numeral: not a digit, and not the start of a
    fraction or an exponent. *)
Definition delimited (rest : string) : bool :=
  match rest with
  | EmptyString => true
  | String c _ => negb (is_digit c) && negb (starts_fraction rest)
  end.

(** Induction on JSON values. *)
Section JsonInduction.
Variable P : json -> Prop.
Hypothesis Hnull : P JNull.
Hypothesis Hbool : forall b, P (JBool b).
Hypothesis Hnum : forall z, P (JNum z).
Hypothesis Hstr : forall s, P (JStr s).
Hypothesis Harr : forall l, Forall P l -> P (JArr l).
Hypothesis Hobj : forall m, Forall (fun kv => P kv.2) m -> P (JObj m).

Fixpoint json_induction (v : json) : P v :=
  match v with
  | JNull => Hnull
  | JBool b => Hbool b
  | JNum z => Hnum z
  | JStr s => Hstr s
  | JArr l =>
      Harr l ((fix go (l : list json) : Forall P l :=
                 match l with
                 | [] => List.Forall_nil P
                 | x :: l' => List.Forall_cons P x l' (json_induction x) (go l')
                 end) l)
  | JObj m =>
      Hobj m ((fix go (m : list (string * json)) : Forall (fun kv => P kv.2) m :=
                 match m with
                 | [] => List.Forall_nil _
                 | kv :: m' => List.Forall_cons _ kv m' (json_induction kv.2) (go m')
                 end) m)
  end.
End JsonInduction.

(** The text of the elements of an array after its bracket, and of the
    members of an object after its brace. *)
Fixpoint elems (l : list json) : string :=
  match l with
  | [] => "]"
  | [x] => JSON_stringify x +:+ "]"
  | x :: l' => JSON_stringify x +:+ "," +:+ elems l'
  end.

Fixpoint members (m : list (string * json)) : string :=
  match m with
  | [] => "}"
  | [(k, x)] => quote k +:+ ":" +:+ JSON_stringify x +:+ "}"
  | (k, x) :: m' => quote k +:+ ":" +:+ JSON_stringify x +:+ "," +:+ members m'
  end.

(** The depth of recursion that reading a value back takes. *)
Fixpoint size_elems (size : json -> nat) (l : list json) : nat :=
  match l with
  | [] => O
  | x :: l' => S (size x + size_elems size l')
  end.

Fixpoint size_members (size : json -> nat) (m : list (string * json)) : nat :=
  match m with
  | [] => O
  | (_, x) :: m' => S (size x + size_members size m')
  end.

Fixpoint size (v : json) : nat :=
  match v with
  | JArr l => S (size_elems size l)
  | JObj m => S (size_members size m)
  | _ => 1
  end.

(** The first character of a value's text. *)
Definition starts_value (c : ascii) : bool :=
  is_digit c ||
  match c with
  | "-"%char | "n"%char | "t"%char | "f"%char | "034"%char | "["%char | "{"%char => true
  | _ => false
  end.

(** A value as the engine holds it: no object has two properties of the
    same name. *)
Fixpoint distinct_keys (v : json) : Prop :=
  match v with
  | JArr l => (fix go (l : list json) : Prop :=
                 match l with [] => True | x :: l' => distinct_keys x /\ go l' end) l
  | JObj m => NoDup m.*1 /\
              (fix go (m : list (string * json)) : Prop :=
                 match m with [] => True | kv :: m' => distinct_keys kv.2 /\ go m' end) m
  | _ => True
  end.

Section RoundTripExamplesTerms.
Import Sym Examples.


Definition times : json := JObj [("proposed_times", JArr [JStr "2026-03-10T10:00Z"])].
End RoundTripExamplesTerms.

(** * More of the runtime *)

(** ** ai2ai-trust.js, the trust levels *)
Module TrustLevels.
Section WithClock.
Context `{Clock}.


End WithClock.
End TrustLevels.

(** ** security.js, the rest of [RateLimiter] *)
Module RateLimiter.
(** [remaining(key)] *)
Definition remaining (maxRequests : nat) (windows : list (option json * list Z)) (now : Z)
    (key : option json) : nat :=
  let cutoff := now - Security.windowMs in
  let timestamps := filter (fun t => cutoff < t) (default [] (map_get key windows)) in
  (maxRequests - length timestamps)%nat.

(** A run of [allow] calls, each with its instant and its key. *)
Fixpoint allow_all (maxRequests : nat) (windows : list (option json * list Z))
    (calls : list (Z * string)) : list bool * list (option json * list Z) :=
  match calls with
  | [] => ([], windows)
  | (now, key) :: rest =>
      let r := Security.allow maxRequests windows now (Some (JStr key)) in
      (r.1 :: (allow_all maxRequests r.2 rest).1, (allow_all maxRequests r.2 rest).2)
  end.

(** Instants that do not go back. *)
Fixpoint ascending (l : list Z) : Prop :=
  match l with
  | [] => True
  | t :: l' => Forall (Z.le t) l' /\ ascending l'
  end.

(** The instants of the calls of a run that were admitted for [key]. *)
Fixpoint admitted (key : string) (calls : list (Z * string)) (results : list bool) : list Z :=
  match calls, results with
  | (now, key') :: calls', b :: results' =>
      (if b && String.eqb key key' then [now] else []) ++ admitted key calls' results'
  | _, _ => []
  end.

(** The window that the limiter keeps for a key holds the admitted calls
    of the last [Security.windowMs] before that key's last call. *)
Definition window_of (maxRequests : nat) (windows : list (option json * list Z)) (key : string)
    (A : list Z) (tk : Z) : Prop :=
  default [] (map_get (Some (JStr key)) windows) = filter (fun a => tk - Security.windowMs < a) A
  /\ (length (filter (fun a => (tk - Security.windowMs < a)%Z) A) <= maxRequests)%nat.
End RateLimiter.

(** ** reliability.js, receipts, retries and the breaker in sequence *)
Module Reliability.
Section WithPlatform.
Context `{Clock} `{Ed25519}.
Import Node.

(** [getReceipt(messageId)], [None] being [null]. *)
Definition getReceipt (n : node) (messageId : option json) : option receipt :=
  map_get messageId (receipts n).

(** The instant of attempt number [i] of [retryWithBackoff], counted from
    the first. *)
Fixpoint attempt_time (wait : nat -> Z) (now : Z) (attempt : nat) (i : nat) : Z :=
  match i with
  | O => now
  | S i' => attempt_time wait (now + wait attempt) (S attempt) i'
  end.

(** Calls through one breaker, each with its instant and its function. *)
Definition execute_all (c : circuit) (calls : list (Z * (Z -> (string + json) * Z))) : circuit :=
  foldl (fun c call => (execute c call.1 call.2).1) c calls.

(** The breaker between two calls. *)
Definition settled (c : circuit) : Prop :=
  (c_state c = CLOSED /\ 0 <= c_failures c < failureThreshold)
  \/ (c_state c = OPEN /\ failureThreshold <= c_failures c).

Definition fails_at (call : Z * (Z -> (string + json) * Z)) : Prop :=
  exists m t, call.2 call.1 = (inl m, t).
End WithPlatform.
End Reliability.

(** ** ai2ai-server.js, a run of the server *)
Module ServerRuns.
Section WithPlatform.
Context `{Clock} `{Ed25519} `{X25519Box}.
Import Server.

(** The messages are processed one after the other, each at its instant. *)
Fixpoint process_all (me : identity) (w : world) (msgs : list (Z * json))
    : list outcome * world :=
  match msgs with
  | [] => ([], w)
  | (now, envelope) :: rest =>
      let r := processMessage me w now envelope in
      (r.1 :: (process_all me r.2 rest).1, (process_all me r.2 rest).2)
  end.
End WithPlatform.
End ServerRuns.

(** ** ai2ai-queue.js, the end of a retry chain *)
Module QueueRuns.
Section WithClock.
Context `{Clock}.
Import Queue.

(** The chain of [qid] has ended: no timer is pending, and the entry has
    either left the outbox [O] or rests in it marked failed, [onFailure]
    having been called on it. *)
Definition finished (onFailure : bool) (st : state) (qid : string) (O : gmap string entry)
    (F : list entry) (D : gmap string json) : Prop :=
  timers st = [] /\ dlq st = D /\
  ((outbox st = delete qid O /\ failures st = F) \/
   exists e, outbox st = <[qid := e]> O /\ status e = "failed" /\
             failures st = F ++ (if onFailure then [e] else [])).

(** A retry of [qid] is pending, and it is the only timer. *)
Definition waiting (st : state) (qid : string) (e : entry) (O : gmap string entry)
    (F : list entry) (D : gmap string json) : Prop :=
  outbox st = <[qid := e]> O /\ status e = "retrying" /\ 0 <= attempt e < maxRetries e /\
  (exists t, timers st = [t] /\ target t = qid) /\ failures st = F /\ dlq st = D.
End WithClock.
End QueueRuns.

(** ** Examples for the delivery path *)
Module DeliveryExamples.
Import Sym Examples.

(** Bob's node with Carol's endpoint on file; the breaker of that
    endpoint opened at instant 1000. *)
Definition carol_endpoint : json := JStr "http://carol:18800/ai2ai".

Definition stalled_node : Node.node :=
  Node.with_circuits
    (Node.with_contacts bob_node
       [(Some (JStr "carol"), JObj [("endpoint", carol_endpoint)])])
    [(Some carol_endpoint,
      {| Node.c_state := Node.OPEN; Node.c_failures := 5; Node.c_halfOpenAttempts := 0;
         Node.c_lastFailureTime := 1000; Node.c_successCount := 0 |})].

(** Bob's node with Carol's endpoint on file and no breaker yet. *)
Definition ready_node : Node.node :=
  Node.with_contacts bob_node [(Some (JStr "carol"), JObj [("endpoint", carol_endpoint)])].

Definition hello : json :=
  JObj [("id", JStr "h1"); ("type", JStr "message"); ("payload", JObj [("text", JStr "hello")])].

(** A network on which the first two sends fail. *)
Definition flaky : Node.network :=
  {| Node.resolve := fun _ => None;
     Node.net := fun t _ _ => if t <? 3000 then inl "connect ECONNREFUSED"
                              else inr (JObj [("status", JStr "ok")]);
     Node.wait := fun i => 1000 * 2 ^ Z.of_nat i |}.
End DeliveryExamples.



(** ** Examples for two nodes *)
Module NodeExamples.
Import Sym Examples.

(** Alice's SDK node. *)
Definition alice_node : Node.node :=
  {| Node.name := "alice"; Node.humanName := "Alice"; Node.messageTTL := 86400000;
     Node.rateLimit := 20%nat; Node.has_registry := false; Node.keys := "alice";
     Node.seen := []; Node.receipts := []; Node.dlq := ∅; Node.queue := ∅;
     Node.circuits := []; Node.windows := []; Node.nonces := [];
     Node.blocked := []; Node.contacts := []; Node.events := [] |}.

(** A greeting from Alice's node to Bob, built at instant 5000. *)
Definition greeting : json :=
  Node._createEnvelope alice_node 5000 "m9" "c9" "9f1c" (Some (JStr "bob"))
    (Some (JStr "message")) (Some (JStr "message.relay"))
    (Some (JObj [("message", JStr "hello")]))
    {| Node.o_conversationId := None; Node.o_requiresApproval := None; Node.o_ttl := None |}.
End NodeExamples.

(** ** security.js, the time to live and the blocklist *)
Module Expiry.
Section WithClock.
Context `{Clock}.

(** [addMessageTTL(envelope, ttlMs)], [None] when the assignment throws. *)
Definition addMessageTTL (envelope : json) (now ttlMs : Z) : option json :=
  if nullish (Some envelope) then None
  else Some (prop_set envelope "expiresAt" (JStr (toISOString (now + ttlMs)))).

(** [isMessageTTLExpired(envelope)], [None] when the read throws. *)
Definition isMessageTTLExpired (envelope : json) (now : Z) : option bool :=
  if nullish (Some envelope) then None else
  if negb (truthy (prop envelope "expiresAt")) then Some false else
  match Date_ms (prop envelope "expiresAt") with
  | None => Some false
  | Some expiresAt => Some (expiresAt <? now)
  end.
End WithClock.
End Expiry.

Module Blocklist.
(** The [Set] of blocked ids, in insertion order. *)
Definition block (blocked : list (option json)) (agentId : option json) : list (option json) :=
  if existsb (key_eqb agentId) blocked then blocked else blocked ++ [agentId].

Definition unblock (blocked : list (option json)) (agentId : option json) : list (option json) :=
  filter (fun b => key_eqb agentId b = false) blocked.

Section OnNode.
Context `{Clock} `{Ed25519}.
Import Node.

(** The node with another blocklist. *)
Definition with_blocked (n : node) (blocked' : list (option json)) : node :=
  {| name := name n; humanName := humanName n; messageTTL := messageTTL n;
     rateLimit := rateLimit n; has_registry := has_registry n; keys := keys n;
     seen := seen n; receipts := receipts n; dlq := dlq n; queue := queue n;
     circuits := circuits n; windows := windows n; nonces := nonces n; blocked := blocked';
     contacts := contacts n; events := events n |}.
End OnNode.
End Blocklist.

(** ** security.js, the cache of verification results *)

(** [crypto.createHash('sha256').update(s).digest('hex')] *)
Class Sha256 := {
  sha256_hex : string -> string;
}.

Module VerificationCache.
Section WithHash.
Context `{Sha256}.

(** An entry [{ valid, timestamp }]; the [Map] is keyed by strings. *)
Definition cache := list (option json * (bool * Z)).

Definition _key (sig pub : string) : string :=
  String.substring 0 32 (sha256_hex (sig +:+ pub)).

(** [Map.prototype.delete] *)
Definition map_delete {V} (k : option json) (m : list (option json * V)) : list (option json * V) :=
  filter (fun kv => key_eqb k kv.1 = false) m.

(** [get(signature, publicKey)]: the cached verdict, [None] being [null],
    and the cache after the call. *)
Definition get (ttl : Z) (c : cache) (now : Z) (signature publicKey : string)
    : option bool * cache :=
  let key := Some (JStr (_key signature publicKey)) in
  match map_get key c with
  | None => (None, c)
  | Some (valid, timestamp) =>
      if ttl <? now - timestamp then (None, map_delete key c) else (Some valid, c)
  end.

(** [set(signature, publicKey, valid)] *)
Definition set (maxSize : nat) (c : cache) (now : Z) (signature publicKey : string)
    (valid : bool) : cache :=
  let c :=
    if decide (maxSize <= length c)%nat
    then match c with
         | [] => []
         | first :: _ => map_delete first.1 c
         end
    else c in
  map_set (Some (JStr (_key signature publicKey))) (valid, now) c.

(** The calls on a cache. *)
Inductive call : Type :=
| Set_ (signature publicKey : string) (valid : bool)
| Get_ (signature publicKey : string).

Definition step (maxSize : nat) (ttl : Z) (c : cache) (nc : Z * call) : cache :=
  match nc.2 with
  | Set_ s p v => set maxSize c nc.1 s p v
  | Get_ s p => (get ttl c nc.1 s p).2
  end.

Definition run (maxSize : nat) (ttl : Z) (calls : list (Z * call)) : cache :=
  foldl (step maxSize ttl) [] calls.

(** The verdict and instant of the last [set] under a key. *)
Definition last_set (key : string) (calls : list (Z * call)) : option (bool * Z) :=
  foldl (fun acc nc =>
           match nc.2 with
           | Set_ s p v => if String.eqb (_key s p) key then Some (v, nc.1) else acc
           | Get_ _ _ => acc
           end) None calls.
End WithHash.
End VerificationCache.

(** ** reliability.js, the persistent queue *)
Module PersistentQueue.
Section WithClock.
Context `{Clock}.

(** A file [<id>.json] of the queue directory. *)
Record entry := {
  id : json;
  envelope : json;
  endpoint : option json;
  priority : Z;
  ttl : option Z;
  createdAt : string;
  expiresAt : option string;
  attempts : Z;
  lastAttempt : option string;
  lastError : option string;
  status : string;
}.

Record options := {
  o_ttl : option Z;
  o_priority : option Z;
}.

(** [opts.x || fallback] on a number. *)
Definition nonzero (o : option Z) : option Z :=
  match o with
  | Some z => if z =? 0 then None else Some z
  | None => None
  end.

(** [enqueue(envelope, endpoint, opts)]: the id and the directory, [None]
    when reading [envelope.id] throws.  [uuid] is what [randomUUID()]
    yields. *)
Definition enqueue (d : gmap string entry) (now : Z) (uuid : string) (envelope : json)
    (endpoint : option json) (opts : options) : option (json * gmap string entry) :=
  if nullish (Some envelope) then None else
  let id := default (JStr uuid) (js_or (prop envelope "id") (Some (JStr uuid))) in
  let entry :=
    {| id := id; envelope := envelope; endpoint := endpoint;
       priority := default 0 (nonzero (o_priority opts));
       ttl := nonzero (o_ttl opts);
       createdAt := toISOString now;
       expiresAt := (fun t => toISOString (now + t)) <$> nonzero (o_ttl opts);
       attempts := 0; lastAttempt := None; lastError := None; status := "pending" |} in
  Some (id, <[to_key (Some id) := entry]> d).

(** [_save(entry)] *)
Definition _save (d : gmap string entry) (e : entry) : gmap string entry :=
  <[to_key (Some (id e)) := e]> d.

(** [_loadAll()], in the order in which the directory is read. *)
Definition _loadAll (d : gmap string entry) : list entry := (map_to_list d).*2.

(** [e.expiresAt && new Date(e.expiresAt) < now] *)
Definition overdue (e : entry) (now : Z) : bool :=
  match expiresAt e with
  | Some s =>
      negb (String.eqb s "") &&
      match Date_ms (Some (JStr s)) with
      | Some t => t <? now
      | None => false
      end
  | None => false
  end.

Definition set_status (e : entry) (s : string) : entry :=
  {| id := id e; envelope := envelope e; endpoint := endpoint e; priority := priority e;
     ttl := ttl e; createdAt := createdAt e; expiresAt := expiresAt e; attempts := attempts e;
     lastAttempt := lastAttempt e; lastError := lastError e; status := s |}.

(** [valid.sort((a, b) => b.priority - a.priority)]: the sort is stable. *)
Fixpoint insert_sorted (e : entry) (l : list entry) : list entry :=
  match l with
  | [] => [e]
  | x :: l' => if priority e <? priority x then x :: insert_sorted e l' else e :: x :: l'
  end.

Definition sort (l : list entry) : list entry := foldr insert_sorted [] l.

(** [dequeue()]: the entry, [None] being [null], and the directory. *)
Definition dequeue (d : gmap string entry) (now : Z) : option entry * gmap string entry :=
  let entries := filter (fun e => status e = "pending") (_loadAll d) in
  let d' := foldl (fun d e => if overdue e now then _save d (set_status e "expired") else d)
                  d entries in
  let valid := filter (fun e => overdue e now = false) entries in
  (head (sort valid), d').

Definition complete (d : gmap string entry) (id : option json) : gmap string entry :=
  delete (to_key id) d.

Definition load (d : gmap string entry) (id : option json) : option entry :=
  d !! to_key id.

(** [fail(id, error)] *)
Definition fail (d : gmap string entry) (now : Z) (id' : option json) (error : string)
    : gmap string entry :=
  match load d id' with
  | Some e =>
      _save d {| id := id e; envelope := envelope e; endpoint := endpoint e;
                 priority := priority e; ttl := ttl e; createdAt := createdAt e;
                 expiresAt := expiresAt e; attempts := attempts e + 1;
                 lastAttempt := Some (toISOString now); lastError := Some error;
                 status := status e |}
  | None => d
  end.

(** Every file is named after the id that it holds. *)
Definition well_filed (d : gmap string entry) : Prop :=
  forall k e, d !! k = Some e -> to_key (Some (id e)) = k.

(** A run of [fail] calls on one id, each with its instant and error. *)
Definition fail_all (d : gmap string entry) (id' : option json) (errors : list (Z * string))
    : gmap string entry :=
  foldl (fun d te => fail d te.1 id' te.2) d errors.
End WithClock.
End PersistentQueue.

(** ** ai2ai-server.js, the requests that need no human *)
Module Approval.
Section WithPlatform.
Context `{Clock} `{Ed25519} `{X25519Box}.
Import Server.

(** The answer of [handleRequest] to a request that it processed. *)
Definition processed_reply (envelope : json) : json :=
  literal [ ("status", Some (JStr "ok"));
            ("message", Some (JStr "Message received and processed."));
            ("conversation", prop envelope "conversation") ].

(** What the text of the handler writes out, for the four intents whose
    handler may ask for no approval. *)
Definition written (envelope : json) : list (option json) :=
  let payload := prop envelope "payload" in
  let human := oprop (prop envelope "from") "human" in
  let k := to_key (prop envelope "intent") in
  if String.eqb k "message.relay" then [human; oprop payload "message"]
  else if String.eqb k "info.share" then [human; oprop payload "topic"; oprop payload "content"]
  else if String.eqb k "commerce.accept" then [human; oprop payload "message"]
  else if String.eqb k "commerce.reject" then [human; oprop payload "reason"]
  else [].

(** The intents whose handler asks for no approval on this payload, the
    handler being able to write its text. *)
Definition quiet (envelope : json) : Prop :=
  (to_key (prop envelope "intent") ∈ ["info.share"; "commerce.accept"; "commerce.reject"]
   \/ (to_key (prop envelope "intent") = "message.relay"
       /\ truthy (oprop (prop envelope "payload") "reply_requested") = false))
  /\ Handlers.all_convert (written envelope) = true.

(** The sender is on file at trust level trusted. *)
Definition trusted (w : world) (envelope : json) : Prop :=
  exists c, Trust.getContact (contacts w) (oprop (prop envelope "from") "agent") = Some c
            /\ prop c "trustLevel" = Some (JStr "trusted").
End WithPlatform.
End Approval.

(** ** ai2ai-conversations.js, the pending approvals *)
Module Pending.
Section WithClock.
Context `{Clock}.

(** [getPendingApproval(approvalId)] on the files [pending/<id>.json]. *)
Definition getPendingApproval (p : gmap string json) (approvalId : option json) : option json :=
  p !! to_key approvalId.

(** [s.replace(pat, '')]: the first occurrence goes. *)
Fixpoint replace_first (pat s : string) : string :=
  if String.prefix pat s
  then String.substring (String.length pat) (String.length s - String.length pat) s
  else match s with
       | EmptyString => EmptyString
       | String c s' => String c (replace_first pat s')
       end.

(** One file as [listPendingApprovals] returns it: the data with the
    name of its file, [None] when it is dropped. *)
Definition listed (file : string * json) : option json :=
  if nullish (Some file.2) then None else
  let data := prop_set file.2 "_filename" (JStr (file.1 +:+ ".json")) in
  if truthy (Some data) then Some data else None.

Definition listPendingApprovals (p : gmap string json) : list json :=
  omap listed (map_to_list p).

(** The file as [resolvePendingApproval] rewrites it. *)
Definition resolved_as (pending : json) (now : Z) (approved : bool) (humanReply : option string)
    : json :=
  prop_set
    (prop_set
       (prop_set (prop_set pending "resolved" (JBool true)) "approved" (JBool approved))
       "humanReply" (match humanReply with Some s => JStr s | None => JNull end))
    "resolvedAt" (JStr (toISOString now)).

(** [resolvePendingApproval(approvalId, approved, humanReply)]: what is
    written, [None] being [null], and the directory; [None] when the call
    throws. *)
Definition resolvePendingApproval (p : gmap string json) (now : Z) (approvalId : option json)
    (approved : bool) (humanReply : option string) : option (option json * gmap string json) :=
  match p !! to_key approvalId with
  | None => Some (None, p)
  | Some pending =>
      if nullish (Some pending) then None else
      let pending := resolved_as pending now approved humanReply in
      Some (Some pending, <[to_key approvalId := pending]> p)
  end.

Definition removePendingApproval (p : gmap string json) (approvalId : option json)
    : gmap string json :=
  delete (to_key approvalId) p.

(** [pending.envelope?.id || pending._filename?.replace('.json', '')] *)
Definition approval_id (pending : json) : option json :=
  js_or (oprop (prop pending "envelope") "id")
        (match prop pending "_filename" with
         | Some (JStr f) => Some (JStr (replace_first ".json" f))
         | _ => None
         end).

(** One turn of the loop of [cleanupPendingApprovals]: the count, the
    rejected approvals and the directory, [None] once a call has thrown. *)
Definition cleanup_one (now cutoff : Z) (acc : option (Z * list json * gmap string json))
    (pending : json) : option (Z * list json * gmap string json) :=
  match acc with
  | None => None
  | Some (expired, rejected, p) =>
      if truthy (prop pending "resolved") then
        match Date_ms (js_or (prop pending "resolvedAt") (prop pending "createdAt")) with
        | Some resolvedAt =>
            if resolvedAt <? now - 7 * 86400000
            then Some (expired, rejected, removePendingApproval p (approval_id pending))
            else acc
        | None => acc
        end
      else
        match Date_ms (prop pending "createdAt") with
        | Some createdAt =>
            if createdAt <? cutoff then
              match resolvePendingApproval p now (approval_id pending) false
                      (Some "Auto-rejected: approval timed out") with
              | Some (_, p') => Some (expired + 1, rejected ++ [pending], p')
              | None => None
              end
            else acc
        | None => acc
        end
  end.

Definition cleanupPendingApprovals (p : gmap string json) (now timeoutHours : Z)
    : option (Z * list json * gmap string json) :=
  foldl (cleanup_one now (now - timeoutHours * 3600000)) (Some (0, [], p))
        (listPendingApprovals p).

(** Every file holds an approval of the envelope that it is named after,
    as [savePendingApproval] files them. *)
Definition filed_by_id (p : gmap string json) : Prop :=
  forall k v, p !! k = Some v ->
    truthy (oprop (prop v "envelope") "id") = true /\ to_key (oprop (prop v "envelope") "id") = k.

(** What the cleanup makes of one file. *)
Definition swept (now timeoutHours : Z) (v : json) : option json :=
  if truthy (prop v "resolved") then
    match Date_ms (js_or (prop v "resolvedAt") (prop v "createdAt")) with
    | Some resolvedAt => if resolvedAt <? now - 7 * 86400000 then None else Some v
    | None => Some v
    end
  else
    match Date_ms (prop v "createdAt") with
    | Some createdAt =>
        if createdAt <? now - timeoutHours * 3600000
        then Some (resolved_as v now false (Some "Auto-rejected: approval timed out"))
        else Some v
    | None => Some v
    end.
End WithClock.
End Pending.

(** ** ai2ai-server.js, the messages that pass the rate limit *)
Module ServerLimit.
Section WithPlatform.
Context `{Clock} `{Ed25519} `{X25519Box}.
Import Server.

(** The answer is one of the two rejections that precede the handlers. *)
Definition turned_away (o : outcome) : bool :=
  match o with
  | Return r => json_eqb r (rejected "blocked") || json_eqb r (rejected "rate_limited")
  | Throw => false
  end.

(** The instants of the messages of agent [a] that reached the limiter (a
    body that is not null, and whose line of the log can be written) and
    were not turned away, read off the messages and the answers of a
    run. *)
Fixpoint served (a : option json) (msgs : list (Z * json)) (outcomes : list outcome) : list Z :=
  match msgs, outcomes with
  | (now, envelope) :: msgs', o :: outcomes' =>
      (if negb (nullish (Some envelope)) && negb (logIncoming_throws envelope)
          && key_eqb (oprop (prop envelope "from") "agent") a
          && negb (turned_away o)
       then [now] else []) ++ served a msgs' outcomes'
  | _, _ => []
  end.

(** The window of [a] holds the messages of [a] that passed the limiter,
    as far as any later check can tell. *)
Definition window_holds (w : world) (a : option json) (A : list Z) (tk : Z) : Prop :=
  (forall t, tk <= t ->
     filter (fun x => t - x < RATE_WINDOW) (default [] (map_get a (rateLimiter w)))
     = filter (fun x => t - x < RATE_WINDOW) A)
  /\ (length (filter (fun x => (tk - x < RATE_WINDOW)%Z) A) <= RATE_LIMIT)%nat.
End WithPlatform.
End ServerLimit.

(** ** ai2ai-server.js, the count of messages of a conversation *)
Module ServerCount.
Section WithPlatform.
Context `{Clock} `{Ed25519} `{X25519Box}.
Import Server.

(** Conversation [c] has a log exactly if it has metadata, and then the
    metadata counts one message less than the log holds. *)
Definition count_lags (w : world) (c : string) : Prop :=
  match conv_meta w !! c with
  | Some meta =>
      exists n, prop meta "messageCount" = Some (JNum n)
                /\ Z.of_nat (length (default [] (conv_log w !! c))) = n + 1
  | None => conv_log w !! c = None
  end.
End WithPlatform.
End ServerCount.

(** ** security.js, the rotation of keys *)
Module KeyRotation.
Section WithClock.
Context `{Clock}.

(** [rotation-meta.json] as the class writes it. *)
Record meta := {
  previousKeys : list (string * string);
  lastRotation : option string;
}.

(** The files of the keys directory: [agent.pub], [agent.key] and the
    metadata, each [None] while it does not exist. *)
Record files := {
  agent_pub : option string;
  agent_key : option string;
  rotation_meta : option meta;
}.

Definition _loadMeta (f : files) : meta :=
  default {| previousKeys := []; lastRotation := None |} (rotation_meta f).

(** [86400000 * 30], the default of [rotationIntervalMs]. *)
Definition rotationInterval : Z := 86400000 * 30.

Definition needsRotation (f : files) (now : Z) : bool :=
  match lastRotation (_loadMeta f) with
  | None => false
  | Some s =>
      if String.eqb s "" then false else
      match Date_ms (Some (JStr s)) with
      | Some t => rotationInterval <? now - t
      | None => false
      end
  end.

(** [l.slice(-3)] *)
Definition slice_last3 {A} (l : list A) : list A := drop (length l - 3) l.

(** What [rotate()] returns. *)
Record rotated := {
  publicKey : string;
  privateKey : string;
  previousPublicKey : option string;
}.

(** [rotate()]; [newKeys] is what [generateKeyPair()] yields. *)
Definition rotate (f : files) (now : Z) (newKeys : string * string) : rotated * files :=
  let m := _loadMeta f in
  let previous :=
    match agent_pub f with
    | Some currentPub =>
        let l := previousKeys m ++ [(currentPub, toISOString now)] in
        if (3 <? length l)%nat then slice_last3 l else l
    | None => previousKeys m
    end in
  ({| publicKey := newKeys.1; privateKey := newKeys.2;
      previousPublicKey := fst <$> last previous |},
   {| agent_pub := Some newKeys.1; agent_key := Some newKeys.2;
      rotation_meta := Some {| previousKeys := previous;
                               lastRotation := Some (toISOString now) |} |}).

Definition getPreviousKeys (f : files) : list string := (previousKeys (_loadMeta f)).*1.

(** Rotations one after the other, each with its instant and new keys. *)
Definition rotate_all (f : files) (rotations : list (Z * (string * string))) : files :=
  foldl (fun f r => (rotate f r.1 r.2).2) f rotations.
End WithClock.
End KeyRotation.



(** ** The expiry sweep of the conversations

    What [expireConversations] looks at in each metadata file. *)
Module ConversationSweep.
Section WithClock.
Context `{Clock}.
Import Conversations.

(** The state is one of the two that have [expired] among their
    successors in [TRANSITIONS]. *)
Definition unsettled (conv : json) : bool :=
  String.eqb (to_key (prop conv "state")) PROPOSED
  || String.eqb (to_key (prop conv "state")) NEGOTIATING.

(** [expiresAt && now > expiresAt] *)
Definition overdue (now : Z) (conv : json) : bool :=
  truthy (prop conv "expiresAt")
  && match Date_ms (prop conv "expiresAt") with
     | Some t => t <? now
     | None => false
     end.

(** The files for which the loop reaches [expired++]. *)
Definition counted (now : Z) (conv : json) : bool :=
  negb (is_terminal conv) && overdue now conv.

(** The metadata as [transitionState] rewrites it. *)
Definition expired_at (now : Z) (conv : json) : json :=
  prop_set (prop_set conv "state" (JStr EXPIRED)) "updatedAt" (JStr (toISOString now)).

(** Every file is named after the [id] inside it, as [createConversation]
    writes them; its id, its state and its [expiresAt] convert to a
    string, and its state names no member that the table inherits. *)
Definition well_filed (st : store) : Prop :=
  forall k v, st !! k = Some v ->
    to_key (prop v "id") = k
    /\ converts (prop v "id") = true
    /\ converts (prop v "state") = true
    /\ inherited (to_key (prop v "state")) = false
    /\ converts (prop v "expiresAt") = true.
End WithClock.
End ConversationSweep.

Module SweepExamples.
Import Sym Examples Conversations.

(** Three files: a request made at 1000, a confirmed one of the same
    age, and one in a state the table does not know. *)
Definition fresh : json :=
  (createConversation ∅ 1000 (Some (JStr "c1")) (Some (JStr "schedule.meeting"))
     None None None).1.
Definition confirmed_one : json :=
  prop_set (prop_set fresh "id" (JStr "c2")) "state" (JStr "confirmed").
Definition archived_one : json :=
  prop_set (prop_set fresh "id" (JStr "c3")) "state" (JStr "archived").
Definition shelf : store :=
  <["c1" := fresh]> (<["c2" := confirmed_one]> (<["c3" := archived_one]> ∅)).
End SweepExamples.

(** ** reliability.js: the dead letter queue

    The directory of the queue, one [<id>.json] file per entry, as a map
    from the id in the file name to the parsed content. *)
Module DeadLetters.
Abbreviation dir := (gmap string json).

Section WithClock.
Context `{Clock}.

(** [add(envelope, error, attempts)], on an envelope that is an object;
    [uuid] is what [crypto.randomUUID()] gives. *)
Definition add (d : dir) (now : Z) (uuid : string) (envelope : json)
    (error attempts : option json) : json * dir :=
  let id := js_or (prop envelope "id") (Some (JStr uuid)) in
  let entry := literal
    [ ("id", id);
      ("envelope", Some envelope);
      ("error", error);
      ("attempts", attempts);
      ("failedAt", Some (JStr (toISOString now))) ] in
  (entry, <[to_key id := entry]> d).
End WithClock.

(** [list()]: the files that parse, [.filter(Boolean)]. *)
Definition list_entries (d : dir) : list json :=
  filter (fun v => truthy (Some v) = true) (map_to_list d).*2.

Definition remove (d : dir) (id : option json) : dir :=
  delete (to_key id) d.

(** [size] *)
Definition size_of (d : dir) : Z := Z.of_nat (length (list_entries d)).

Section WithSender.
(** The callback with the state it works on: [sendFn s envelope] resolves
    ([true]) or throws ([false]), and leaves its state changed. *)
Context {S : Type} (sendFn : S -> option json -> bool * S).

(** One iteration of the loop of [retryAll]. *)
Definition retry_one (acc : S * dir * Z) (entry : json) : S * dir * Z :=
  let '(s, d, succeeded) := acc in
  let '(ok, s') := sendFn s (prop entry "envelope") in
  if ok then (s', remove d (prop entry "id"), succeeded + 1)
  else (s', d, succeeded).

(** [retryAll(sendFn)]: the pair [(retried, succeeded)], with the state
    of the callback and the directory afterwards. *)
Definition retryAll (d : dir) (s : S) : (Z * Z) * S * dir :=
  let entries := list_entries d in
  let '(s', d', succeeded) := foldl retry_one (s, d, 0) entries in
  ((Z.of_nat (length entries), succeeded), s', d').
End WithSender.

(** Every file holds an object named after the [id] inside it, as [add]
    writes them. *)
Definition well_filed (d : dir) : Prop :=
  forall k v, d !! k = Some v -> truthy (Some v) = true /\ to_key (prop v "id") = k.
End DeadLetters.

Module DeadLetterExamples.
Import Sym Examples DeadLetters.

(** Two failed messages, and a callback that counts its calls and gets
    through on the second one only. *)
Definition two_letters : dir :=
  (add (add ∅ 1000 "u1" (JObj [("id", JStr "m1")]) (Some (JStr "refused")) (Some (JNum 3))).2
       2000 "u2" (JObj [("id", JStr "m2")]) (Some (JStr "timeout")) (Some (JNum 3))).2.

Definition second_call (n : nat) (envelope : option json) : bool * nat :=
  (Nat.eqb n 1, Datatypes.S n).
End DeadLetterExamples.

(** * Properties *)

(** ** Property reads and writes *)

Lemma assoc_set_eq k x m : assoc k (assoc_set k x m) = Some x.
Proof.
  induction m as [|[k' y] m IH]; simpl.
  - by rewrite String.eqb_refl.
  - destruct (String.eqb k k') eqn:E; simpl; rewrite E; auto.
Qed.

Lemma assoc_set_ne k k' x m : k <> k' -> assoc k' (assoc_set k x m) = assoc k' m.
Proof.
  intros Hne. induction m as [|[k0 y] m IH]; simpl.
  - destruct (String.eqb k' k) eqn:E; [|done].
    apply String.eqb_eq in E. congruence.
  - destruct (String.eqb k k0) eqn:E; simpl.
    + apply String.eqb_eq in E. subst k0.
      destruct (String.eqb k' k) eqn:E'; [|done].
      apply String.eqb_eq in E'. congruence.
    + by rewrite IH.
Qed.

Lemma prop_set_ne v k k' x : k <> k' -> prop (prop_set v k x) k' = prop v k'.
Proof. intros. destruct v; simpl; auto using assoc_set_ne. Qed.

Lemma prop_set_eq m k x : prop (prop_set (JObj m) k x) k = Some x.
Proof. apply assoc_set_eq. Qed.

Lemma prop_Some_obj v k x : prop v k = Some x -> exists m, v = JObj m.
Proof. destruct v; simpl; try discriminate. eauto. Qed.

Lemma is_str_true o k : is_str o k = true <-> o = Some (JStr k).
Proof.
  destruct o as [[]|]; simpl; split; try discriminate; try congruence.
  - intros E. apply String.eqb_eq in E. by subst.
  - intros [= ->]. apply String.eqb_refl.
Qed.

(** ** The conversation state machine *)
Section ConversationFacts.
Context `{Clock}.
Import Conversations.



End ConversationFacts.

Section ConversationInvariant.
Context `{Clock}.
Import Conversations.


Lemma is_terminal_spec conv :
  is_terminal conv = true <-> exists s, terminal s /\ prop conv "state" = Some (JStr s).
Proof.
  unfold is_terminal, terminal. rewrite !orb_true_iff, !is_str_true. split.
  - intros [[?|?]|?]; eauto 6.
  - intros (s & [->|[->| ->]] & ->); auto.
Qed.



Lemma assign_keeps meta updates k :
  Forall (fun kv => kv.1 <> k) updates -> prop (assign meta updates) k = prop meta k.
Proof.
  unfold assign. revert meta.
  induction updates as [|[k' x] us IH]; intros meta Hall; simpl; [done|].
  inversion Hall; subst. rewrite IH by done. by apply prop_set_ne.
Qed.

Lemma updateConversation_keeps st now cid x key s :
  state_at st key s ->
  state_at (updateConversation st now cid [("messageCount", x)]).2 key s.
Proof.
  intros (meta & Hk & Hs). unfold updateConversation.
  destruct (getConversation st cid) as [meta'|] eqn:Hg; [|by exists meta].
  destruct (truthy (Some meta')); simpl; [|by exists meta].
  destruct (decide (to_key cid = key)) as [<-|Hne].
  - unfold getConversation in Hg. rewrite Hk in Hg. injection Hg as <-.
    eexists. rewrite lookup_insert_eq. split; [done|].
    by rewrite !prop_set_ne.
  - exists meta. by rewrite lookup_insert_ne.
Qed.

Lemma createConversation_keeps st now cid a b c d key s :
  to_key cid <> key -> state_at st key s ->
  state_at (createConversation st now cid a b c d).2 key s.
Proof. intros Hne (meta & Hk & Hs). exists meta. simpl. by rewrite lookup_insert_ne. Qed.

Lemma state_at_truthy st key s meta :
  state_at st key s -> st !! key = Some meta -> truthy (Some meta) = true.
Proof.
  intros (m & Hk & Hs) Hm. rewrite Hk in Hm. injection Hm as <-.
  by destruct (prop_Some_obj _ _ _ Hs) as [? ->].
Qed.


End ConversationInvariant.

Section ClaimC7.
Context `{Clock}.
Import Conversations.


End ClaimC7.

Section ClaimC7Witness.
Import Sym Examples.

End ClaimC7Witness.

(** ** The commerce guard *)
Section CommerceGuard.
Context `{Clock} `{Ed25519} `{X25519Box}.
Import Server.

Lemma prefix_not_inherited i : String.prefix "commerce." i = true -> inherited i = false.
Proof.
  intros Hpre. unfold inherited, inherited_names. cbn [existsb].
  repeat match goal with
         | |- context [String.eqb i ?k] =>
             destruct (String.eqb_spec i k) as [->|?]; [discriminate Hpre|]
         end.
  reflexivity.
Qed.

Lemma getHandler_commerce i :
  String.prefix "commerce." i = true ->
  (i ∈ commerce_intents /\
   exists h, Handlers.getHandler (Some (JStr i)) = Some h /\
             forall payload fromAgent r,
               h payload fromAgent = Some r ->
               truthy (js_or (Handlers.alwaysRequiresApproval r) (Some (JBool false)))
               || truthy (Handlers.needsApproval r) = true
               \/ Trust.always_approve (Some (JStr i)) = true) \/
  ((i ∉ commerce_intents) /\ Handlers.getHandler (Some (JStr i)) = None).
Proof.
  intros Hpre. unfold Handlers.getHandler. cbn [to_key to_string].
  rewrite (prefix_not_inherited i Hpre).
  unfold Handlers.own_handler, Handlers.HANDLERS.
  repeat match goal with
         | |- context [String.eqb i ?k] =>
             destruct (String.eqb_spec i k) as [->|?]; [try discriminate Hpre|]
         end.
  1-4: left; split; [unfold commerce_intents; rewrite !elem_of_cons; auto 6|];
       eexists; split; [reflexivity|]; intros p f r _; by right.
  right. split; [|reflexivity]. unfold commerce_intents.
  rewrite !not_elem_of_cons. repeat split; auto using not_elem_of_nil.
Qed.

Lemma always_approve_commerce i :
  i ∈ commerce_intents -> Trust.always_approve (Some (JStr i)) = true.
Proof.
  unfold commerce_intents. rewrite !elem_of_cons, elem_of_nil.
  intros [->|[->|[->|[->|[]]]]]; reflexivity.
Qed.

(** What filing an approval leaves. *)
Lemma file_approval_cases w now envelope :
  file_approval w now envelope = (Throw, w) /\ converts (prop envelope "id") = false
  \/ exists w',
       (file_approval w now envelope = (Return (pending_approval_reply envelope), w')
        \/ file_approval w now envelope = (Throw, w'))
       /\ pending w' !! to_key (prop envelope "id") = Some (approval_record now envelope)
       /\ contacts w' = contacts w /\ rateLimiter w' = rateLimiter w
       /\ conv_log w' = conv_log w.
Proof.
  unfold file_approval, pending_approval_reply, approval_record.
  destruct (converts (prop envelope "id")); cbn [negb]; [right|by left].
  destruct (Conversations.transitionState _ _ _ _); eexists;
    (split; [by (left + right)|]); cbn; by rewrite lookup_insert_eq.
Qed.

Lemma handleRequest_commerce w now envelope i :
  prop envelope "intent" = Some (JStr i) -> String.prefix "commerce." i = true ->
  handleRequest w now envelope = (Throw, w) \/
  handleRequest w now envelope = (Return (unsupported_reply envelope), w) \/
  exists w',
    (handleRequest w now envelope = (Return (pending_approval_reply envelope), w')
     \/ handleRequest w now envelope = (Throw, w')) /\
    pending w' !! to_key (prop envelope "id") = Some (approval_record now envelope) /\
    contacts w' = contacts w.
Proof.
  intros Hi Hpre. unfold handleRequest.
  rewrite Hi. cbn [converts convertible negb].
  destruct (getHandler_commerce i Hpre) as [(Hin & h & -> & Hh)|[_ ->]]; [|right; left; unfold unsupported_reply; by rewrite Hi].
  destruct (h (prop envelope "payload") (prop envelope "from")) as [r|] eqn:Hr; [|left; reflexivity].
  assert (forall x : outcome * world, x = file_approval w now envelope ->
            x = (Throw, w) \/ x = (Return (unsupported_reply envelope), w) \/
            exists w', (x = (Return (pending_approval_reply envelope), w') \/ x = (Throw, w')) /\
              pending w' !! to_key (prop envelope "id") = Some (approval_record now envelope) /\
              contacts w' = contacts w) as Hfile.
  { intros x ->. destruct (file_approval_cases w now envelope) as [[-> _]|(w' & Hx & Hp & Hc & _)];
      [by left|right; right; by exists w']. }
  destruct (_ || _) eqn:Hflags; [by apply Hfile|].
  unfold Trust.requiresApproval_throws, Trust.requiresApproval.
  rewrite (always_approve_commerce i Hin). cbn [negb andb]. by apply Hfile.
Qed.
End CommerceGuard.

Section ClaimC6.
Context `{Clock} `{Ed25519} `{X25519Box}.
Import Server.

Lemma maybeDecryptPayload_props me envelope env k :
  maybeDecryptPayload me envelope = Some env ->
  k <> "payload" -> k <> "_wasEncrypted" -> prop env k = prop envelope k.
Proof.
  unfold maybeDecryptPayload. intros Hd ??.
  destruct (negb _); [by injection Hd as <-|].
  destruct (truthy _); [|done]. injection Hd as <-.
  by rewrite !prop_set_ne.
Qed.

(** A request reaches [handleRequest], or it is answered before, with a
    rejection or an error, or the call throws. *)
Lemma handled_as_request me w now envelope :
  is_str (prop envelope "type") "request" = true ->
  (exists r, (processMessage me w now envelope).1 = Return r /\
             (is_str (prop r "status") "rejected" = true \/
              is_str (prop r "status") "error" = true)) \/
  (processMessage me w now envelope).1 = Throw \/
  exists env w1,
    processMessage me w now envelope = handleRequest w1 now env /\
    contacts w1 = contacts w /\
    (forall k, k <> "payload" -> k <> "_wasEncrypted" -> prop env k = prop envelope k).
Proof.
  intros Ht. unfold processMessage.
  destruct (nullish _); [by right; left|].
  destruct (logIncoming_throws _); [by right; left|].
  destruct (Trust.isBlocked _ _); [left; eexists; split; [done|by left]|].
  destruct (checkRateLimit _ _ _) as [allowed rl].
  destruct allowed; cbn [negb]; [|left; eexists; split; [done|by left]].
  destruct (_ && _ && negb _); [left; eexists; split; [done|by left]|].
  destruct (_ && negb _); [by right; left|].
  destruct (maybeDecryptPayload me envelope) as [env|] eqn:Hd;
    [|left; eexists; split; [done|by right]].
  destruct (negb (converts (prop env "conversation"))); [by right; left|].
  match goal with |- context [match ?t with Some st => _ | None => (Throw, ?w0) end] =>
    destruct t as [st|]; [|by right; left] end.
  right; right.
  pose proof (maybeDecryptPayload_props _ _ _ "type" Hd) as Hty.
  rewrite Hty by discriminate.
  apply is_str_true in Ht. rewrite Ht. simpl.
  eexists _, _. split; [reflexivity|]. split; [reflexivity|].
  intros. by eapply maybeDecryptPayload_props.
Qed.

(** C6, as amended.  A request whose intent is one of the four commerce
    intents that have a handler, on which the handler does not throw
    (the payload and the sender are present, and what the text of the
    handler shows converts to a string) and whose id and conversation
    name files, is filed as a pending approval under the envelope id, whatever the
    contact record of the sender says, and answered pending_approval;
    only the transition of the conversation that follows the filing may
    still throw.  A request whose intent starts with commerce. but is
    none of the four is answered by the request handler with the error
    Unsupported intent, and nothing is filed.  A request whose intent
    starts with commerce. is never answered ok by the node: it is answered
    pending_approval, and then the approval is filed, or rejected or
    answered with an error, or the call throws. *)
Theorem C6_commerce_guard :
  (forall w now envelope i,
      prop envelope "intent" = Some (JStr i) -> i ∈ commerce_intents ->
      (forall h, Handlers.getHandler (prop envelope "intent") = Some h ->
                 is_Some (h (prop envelope "payload") (prop envelope "from"))) ->
      file_name (prop envelope "id") = true ->
      file_name (prop envelope "conversation") = true ->
      exists w' record,
        (handleRequest w now envelope = (Return (pending_approval_reply envelope), w')
         \/ (handleRequest w now envelope = (Throw, w')
             /\ Conversations.transitionState (conv_meta w) now (prop envelope "conversation")
                  (Some (JStr Conversations.NEGOTIATING)) = Conversations.Raised))
        /\ pending w' !! to_key (prop envelope "id") = Some record
        /\ prop record "envelope" = Some envelope
        /\ prop record "handler" = Some (JStr i)
        /\ prop record "createdAt" = Some (JStr (toISOString now))) /\
  (forall w now envelope i,
      prop envelope "intent" = Some (JStr i) -> String.prefix "commerce." i = true ->
      i ∉ commerce_intents ->
      handleRequest w now envelope = (Return (unsupported_reply envelope), w)) /\
  (forall me w now envelope i,
      is_str (prop envelope "type") "request" = true ->
      prop envelope "intent" = Some (JStr i) -> String.prefix "commerce." i = true ->
      match processMessage me w now envelope with
      | (Return r, w') =>
          is_str (prop r "status") "ok" = false /\
          (is_str (prop r "status") "pending_approval" = true ->
           file_name (prop envelope "id") = true ->
           file_name (prop envelope "conversation") = true ->
           is_Some (pending w' !! to_key (prop envelope "id")))
      | (Throw, _) => True
      end).
Proof.
  split; [|split].
  - intros w now envelope i Hi Hin Hh Hid _.
    assert (String.prefix "commerce." i = true) as Hpre.
    { revert Hin. unfold commerce_intents. rewrite !elem_of_cons, elem_of_nil.
      intros [->|[->|[->|[->|[]]]]]; reflexivity. }
    assert (converts (prop envelope "id") = true) as Hcid.
    { destruct (prop envelope "id") as [[]|]; try discriminate; reflexivity. }
    assert (handleRequest w now envelope = file_approval w now envelope) as ->.
    { unfold handleRequest. rewrite Hi in *. cbn [converts convertible negb].
      destruct (getHandler_commerce i Hpre) as [(_ & h & Hg & Hflags)|[Hnot _]]; [|done].
      rewrite Hg. destruct (Hh h Hg) as [r Hr]. rewrite Hr.
      destruct (_ || _) eqn:E; [done|].
      unfold Trust.requiresApproval_throws, Trust.requiresApproval.
      by rewrite (always_approve_commerce i Hin). }
    unfold file_approval. rewrite Hcid. cbn [negb].
    set (record := literal _).
    assert (prop record "envelope" = Some envelope /\ prop record "handler" = Some (JStr i)
            /\ prop record "createdAt" = Some (JStr (toISOString now))) as Hrec.
    { subst record. unfold literal. rewrite Hi. by cbn. }
    destruct (Conversations.transitionState _ _ _ _) eqn:Ht;
      eexists _, record; (split; [by (left + (right; split))|]);
      (split; [cbn; by rewrite lookup_insert_eq|exact Hrec]).
  - intros w now envelope i Hi Hpre Hnot.
    unfold handleRequest, unsupported_reply. rewrite Hi. cbn [converts convertible negb].
    by destruct (getHandler_commerce i Hpre) as [[Hin _]|[_ ->]].
  - intros me w now envelope i Ht Hi Hpre.
    destruct (handled_as_request me w now envelope Ht)
      as [(r & Hr & Hst)|[Hthrow|(env & w1 & Heq & _ & Hsame)]].
    + destruct (processMessage _ _ _ _) as [[r'|] w']; [|done].
      simpl in Hr. injection Hr as ->.
      destruct Hst as [Hst|Hst]; apply is_str_true in Hst; rewrite Hst; by split.
    + destruct (processMessage _ _ _ _) as [[r'|] w']; [done|done].
    + rewrite Heq.
      assert (prop env "intent" = Some (JStr i)) as Hi' by (rewrite Hsame; done).
      assert (prop env "id" = prop envelope "id") as Hid by (by apply Hsame).
      destruct (handleRequest_commerce w1 now env i Hi' Hpre)
        as [->|[->|(w' & [->| ->] & Hpend & _)]]; [done| | |done].
      * unfold unsupported_reply. by split.
      * split.
        -- unfold pending_approval_reply, literal. simpl.
           by destruct (prop env "conversation").
        -- intros _ _ _. rewrite <- Hid, Hpend. by eexists.
Qed.
End ClaimC6.

Section ClaimC6Examples.
Import Sym Examples.

(** C6 as stated fails: a trusted sender's request with the intent
    commerce.refund, which has no handler, is answered with an error and no
    approval is filed; and a quote request whose item does not convert to
    a string makes the handler throw, which the server answers with 500,
    again without an approval. *)
Lemma C6_counterexample :
  String.prefix "commerce." "commerce.refund" = true /\
  is_str (prop refund_request "type") "request" = true /\
  (exists body w',
    Server.post bob bob_world 6000 refund_request = (Server.Reply 200 body, w') /\
    prop body "status" = Some (JStr "error") /\
    prop body "reason" = Some (JStr "Unsupported intent: commerce.refund") /\
    Server.pending w' = ∅) /\
  (exists body w',
    Server.post bob bob_world 6000 unprintable_request = (Server.Reply 500 body, w') /\
    Server.pending w' = ∅).
Proof.
  split; [reflexivity|]. split; [reflexivity|]. split.
  - eexists _, _. split; [vm_compute; reflexivity|]. by vm_compute.
  - eexists _, _. split; [vm_compute; reflexivity|]. by vm_compute.
Qed.

Lemma C6_witness :
  prop quote_request "intent" = Some (JStr "commerce.request") /\
  "commerce.request" ∈ commerce_intents /\
  file_name (prop quote_request "id") = true /\
  file_name (prop quote_request "conversation") = true /\
  exists w',
    Server.handleRequest bob_world 6000 quote_request
    = (Return (pending_approval_reply quote_request), w') /\
    oprop (Server.pending w' !! "m1") "envelope" = Some quote_request.
Proof.
  assert ("commerce.request" ∈ commerce_intents) as Hin by constructor.
  assert (forall h, Handlers.getHandler (prop quote_request "intent") = Some h ->
                    is_Some (h (prop quote_request "payload") (prop quote_request "from")))
    as Hh by (intros h [= <-]; by eexists).
  split; [reflexivity|]. split; [exact Hin|]. split; [reflexivity|]. split; [reflexivity|].
  destruct (proj1 C6_commerce_guard bob_world 6000 quote_request "commerce.request"
              eq_refl Hin Hh eq_refl eq_refl) as (w' & record & [Hr|[_ Hr]] & Hp & He & _).
  - exists w'. split; [exact Hr|]. change (to_key (prop quote_request "id")) with "m1" in Hp.
    by rewrite Hp.
  - by vm_compute in Hr.
Defined.
End ClaimC6Examples.

(** ** The retry chain of the queue *)
Section QueueFacts.
Context `{Clock}.
Import Queue.

Variable sendFn : sender.
Variable onFailure : bool.
Hypothesis always_fails : forall t ep e, exists message, sendFn t ep e = inl message.

Lemma attempt_fails st now qid e :
  outbox st !! qid = Some e -> status e <> "delivered" -> status e <> "failed" ->
  exists e',
    later 1 e e' /\
    if maxRetries e <=? attempt e + 1 then
      status e' = "failed" /\
      attemptDelivery st now qid sendFn onFailure =
        (false, {| outbox := <[qid := e']> (outbox st); dlq := dlq st; timers := timers st;
                   retryTimers := retryTimers st; next_handle := next_handle st;
                   failures := if onFailure then failures st ++ [e'] else failures st |})
    else
      status e' = "retrying" /\
      exists t, target t = qid /\
      attemptDelivery st now qid sendFn onFailure =
        (false, {| outbox := <[qid := e']> (outbox st); dlq := dlq st; timers := timers st ++ [t];
                   retryTimers := <[qid := handle t]> (retryTimers st);
                   next_handle := S (next_handle st); failures := failures st |}).
Proof.
  intros He Hd Hf. unfold attemptDelivery, loadEntry. rewrite He.
  apply String.eqb_neq in Hd, Hf. rewrite Hd, Hf. simpl.
  destruct (always_fails now (endpoint e) (envelope e)) as [message ->].
  unfold updateEntry. simpl. rewrite He. simpl.
  destruct (maxRetries e <=? attempt e + 1) eqn:Hmax.
  - rewrite lookup_insert_eq. simpl. rewrite insert_insert_eq.
    exists (set_failed (set_error (set_attempt e now) message)).
    split; [by repeat split|]. by split.
  - exists (set_error (set_attempt e now) message).
    split; [by repeat split|]. split; [reflexivity|].
    exists {| handle := next_handle st;
              due := now + Z.max 0 (next_delay (set_error (set_attempt e now) message));
              target := qid |}.
    by split.
Qed.

Lemma given_up_stuck st qid e F D now :
  given_up onFailure st qid e F D -> attemptDelivery st now qid sendFn onFailure = (false, st).
Proof.
  intros (He & Hs & _). unfold attemptDelivery, loadEntry. rewrite He, Hs. reflexivity.
Qed.

Lemma drain_given_up st qid e F D fuel :
  given_up onFailure st qid e F D -> drain fuel st sendFn onFailure = st.
Proof. intros (_ & _ & _ & Ht & _). destruct fuel; simpl; [done|]. by rewrite Ht. Qed.

Lemma after_failure st now qid e e0 k F D :
  outbox st !! qid = Some e -> status e <> "delivered" -> status e <> "failed" ->
  0 <= attempt e -> attempt e = 0 \/ attempt e < maxRetries e ->
  later k e0 e -> timers st = [] -> failures st = F -> dlq st = D ->
  exists e',
    later (k + 1) e0 e' /\
    (retrying (attemptDelivery st now qid sendFn onFailure).2 qid e' F D \/
     given_up onFailure (attemptDelivery st now qid sendFn onFailure).2 qid e' F D).
Proof.
  intros He Hd Hf Hpos Hlt (H1 & H2 & H3 & H4 & H5 & H6) Ht HF HD.
  destruct (attempt_fails st now qid e He Hd Hf) as (e' & (L1 & L2 & L3 & L4 & L5 & L6) & Hcase).
  exists e'. split.
  { repeat split; try congruence. rewrite L6, H6. lia. }
  destruct (maxRetries e <=? attempt e + 1) eqn:Hmax.
  - destruct Hcase as (Hs & ->). right. simpl.
    repeat split; simpl; try done.
    + by rewrite lookup_insert_eq.
    + apply Z.leb_le in Hmax. lia.
    + subst F. by destruct onFailure; [|rewrite app_nil_r].
  - destruct Hcase as (Hs & t & Htgt & ->). left. simpl.
    apply Z.leb_gt in Hmax.
    repeat split; simpl; try done; try lia.
    + by rewrite lookup_insert_eq.
    + exists t. by rewrite Ht.
Qed.

Lemma fire_retrying st qid e e0 k F D t :
  retrying st qid e F D -> later k e0 e -> timers st = [t] ->
  exists e',
    later (k + 1) e0 e' /\
    (retrying (fire st (due t) t sendFn onFailure) qid e' F D \/
     given_up onFailure (fire st (due t) t sendFn onFailure) qid e' F D).
Proof.
  intros (He & Hs & [Hpos Hlt] & (t' & Ht' & Htgt) & HF & HD) Hl Ht.
  rewrite Ht in Ht'. injection Ht' as <-. unfold fire. rewrite Htgt.
  apply after_failure with (e := e); simpl; try done.
  - by rewrite Hs.
  - by rewrite Hs.
  - by right.
  - rewrite Ht. rewrite filter_cons_False by (intros Hn; by apply Hn). apply filter_nil.
Qed.

Lemma drain_retrying fuel : forall st qid e e0 k F D,
  retrying st qid e F D -> later k e0 e ->
  (Z.to_nat (maxRetries e - attempt e) <= fuel)%nat ->
  exists e' k', later k' e0 e' /\ given_up onFailure (drain fuel st sendFn onFailure) qid e' F D.
Proof.
  induction fuel as [|fuel IH]; intros st qid e e0 k F D Hr Hl Hfuel.
  - destruct Hr as (_ & _ & Hlt & _). lia.
  - pose proof Hr as (_ & _ & Hlt & (t & Ht & _) & _).
    simpl. rewrite Ht. simpl.
    destruct (fire_retrying st qid e e0 k F D t Hr Hl Ht) as (e' & Hl' & [Hr'|Hg]).
    + destruct Hl as (_ & _ & _ & M & _ & A). destruct Hl' as (? & ? & ? & M' & ? & A').
      eapply IH; [exact Hr'|by repeat split|]. lia.
    + exists e', (k + 1). split; [done|]. by rewrite (drain_given_up _ _ _ _ _ _ Hg).
Qed.
End QueueFacts.

Section DeliverFacts.
Context `{Clock} `{Ed25519}.
Import Node.

Lemma retry_fails fn wait retries : forall now attempt,
  (forall t, exists m, fn t = inl m) ->
  exists m t, retryWithBackoff fn wait now attempt retries = (inl m, t).
Proof.
  induction retries as [|k IH]; intros now attempt Hf; simpl;
    destruct (Hf now) as [m ->]; eauto.
Qed.

Lemma execute_fails c now fn :
  (forall t, exists m t', fn t = (inl m, t')) ->
  exists c' m t, execute c now fn = (c', (inl m, t)).
Proof.
  intros Hf. unfold execute. destruct (Hf now) as (m & t & Hfn).
  destruct (c_state c) eqn:Hc; simpl; rewrite ?Hc;
    repeat (destruct (_ <=? _); simpl); rewrite ?Hfn; by eexists _, _, _.
Qed.

Lemma deliver_all_fail n now uuid io targetId envelope :
  (forall t ep e, exists m, net io t ep e = inl m) ->
  dlq (_deliver n now uuid io targetId envelope).2 = dlq n /\
  (((_deliver n now uuid io targetId envelope).1 = Throw /\
    events (_deliver n now uuid io targetId envelope).2 = events n) \/
   exists err,
     events (_deliver n now uuid io targetId envelope).2
     = events n ++ [EvSent (prop envelope "id"); EvFailed (prop envelope "id") err] /\
     is_Some (queue (_deliver n now uuid io targetId envelope).2
                !! to_key (js_or (prop envelope "id") (Some (JStr uuid))))).
Proof.
  intros Hf. unfold _deliver.
  set (known := oprop (map_get targetId (contacts n)) "endpoint").
  set (first := if negb (truthy known) && has_registry n then _ else _).
  assert (dlq first.2 = dlq n /\ events first.2 = events n) as [Hd He].
  { subst first. destruct (_ && _); [|done]. by destruct (truthy _). }
  destruct first as [endpoint n1]. simpl in Hd, He.
  destruct (negb (truthy endpoint)); [by split; [|left]|].
  destruct (Security.isBlocked _ _); [by split; [|left]|].
  match goal with |- context [execute ?c now ?fn] =>
    destruct (execute_fails c now fn) as (c' & m & t & ->) end.
  { intros t. apply retry_fails. intros t'. apply Hf. }
  simpl. split; [done|]. right. exists m. split.
  - rewrite He. by rewrite <- app_assoc.
  - rewrite lookup_insert_eq. by eexists.
Qed.
End DeliverFacts.

Section ClaimC8.
Context `{Clock} `{Ed25519}.
Import Queue.

(** C8, as amended.  When every delivery attempt of a queued envelope
    fails, the retry chain of the queue ends after [maxRetries] attempts
    with the entry still in the outbox, marked failed, and with the
    [onFailure] callback called exactly once on it (when one was given);
    no timer is left, further attempts are no-ops, and nothing is written
    to the dead-letter directory.  On the node's interactive path the
    failed delivery emits one failed event after the sent event and puts
    the envelope on the persistent queue; the dead-letter queue is left as
    it was. *)
Theorem C8_exhausted_delivery :
  (forall st now uuid endpoint envelope (sendFn : sender) opts fuel,
      timers st = [] ->
      (forall t ep e, exists message, sendFn t ep e = inl message) ->
      (Z.to_nat (default 5%Z (opt_maxRetries opts)) <= fuel)%nat ->
      let r := queueAndSend st now uuid endpoint envelope sendFn opts in
      let st' := drain fuel r.2 sendFn (opt_onFailure opts) in
      r.1.1 = false /\
      exists e,
        outbox st' !! r.1.2 = Some e /\ status e = "failed" /\
        Queue.envelope e = envelope /\ Queue.endpoint e = endpoint /\
        attempt e = Z.max 1 (default 5 (opt_maxRetries opts)) /\
        failures st' = failures st ++ (if opt_onFailure opts then [e] else []) /\
        timers st' = [] /\
        Queue.dlq st' = Queue.dlq st /\
        forall now', attemptDelivery st' now' r.1.2 sendFn (opt_onFailure opts) = (false, st')) /\
  (forall n now uuid io targetId envelope,
      (forall t ep e, exists m, Node.net io t ep e = inl m) ->
      Node.dlq (Node._deliver n now uuid io targetId envelope).2 = Node.dlq n /\
      (((Node._deliver n now uuid io targetId envelope).1 = Throw /\
        Node.events (Node._deliver n now uuid io targetId envelope).2 = Node.events n) \/
       exists err,
         Node.events (Node._deliver n now uuid io targetId envelope).2
         = Node.events n ++ [Node.EvSent (prop envelope "id");
                             Node.EvFailed (prop envelope "id") err] /\
         is_Some (Node.queue (Node._deliver n now uuid io targetId envelope).2
                    !! to_key (js_or (prop envelope "id") (Some (JStr uuid)))))).
Proof.
  split; [|intros; by apply deliver_all_fail].
  intros st now uuid endpoint envelope sendFn opts fuel Ht Hfail Hfuel r st'.
  subst r st'. unfold queueAndSend, enqueue.
  change (Z.of_nat (length DEFAULT_RETRY_DELAYS)) with 5.
  set (n := default 5 (opt_maxRetries opts)) in *.
  set (qid := to_key _). set (e0 := Build_entry _ _ _ _ _ _ _ _ _ _ _).
  set (st0 := with_outbox st _).
  destruct (attemptDelivery st0 now qid sendFn (opt_onFailure opts)) as [delivered st1] eqn:Hatt.
  assert (outbox st0 !! qid = Some e0) as He0 by (subst st0; simpl; apply lookup_insert_eq).
  assert (later 0 e0 e0) as Hl0 by (repeat split; lia).
  assert (status e0 <> "delivered" /\ status e0 <> "failed") as [Hnd Hnf] by done.
  destruct (after_failure sendFn (opt_onFailure opts) Hfail st0 now qid e0 e0 0
              (failures st) (Queue.dlq st) He0 Hnd Hnf (Z.le_refl 0) (or_introl eq_refl)
              Hl0 Ht eq_refl eq_refl)
    as (e1 & Hl & Hcase).
  assert (delivered = false) as ->.
  { destruct (attempt_fails sendFn (opt_onFailure opts) Hfail st0 now qid e0 He0 Hnd Hnf)
      as (? & _ & Hc).
    rewrite Hatt in Hc. destruct (_ <=? _); [destruct Hc as [_ [= -> _]]|
      destruct Hc as (_ & ? & _ & [= -> _])]; done. }
  rewrite Hatt in Hcase. simpl in Hcase. simpl.
  split; [done|].
  assert (exists e k, later k e0 e /\
            given_up (opt_onFailure opts) (drain fuel st1 sendFn (opt_onFailure opts)) qid e
              (failures st) (Queue.dlq st)) as (e & k & Hlk & Hg).
  { destruct Hcase as [Hr|Hg].
    - eapply drain_retrying; [exact Hfail|exact Hr|exact Hl|].
      destruct Hl as (_ & _ & _ & -> & _ & ->). simpl. lia.
    - exists e1, (0 + 1). split; [done|]. by erewrite drain_given_up. }
  exists e. pose proof Hg as (Hout & Hst & Hmax & Htim & Hfl & Hdlq).
  destruct Hlk as (L1 & L2 & L3 & L4 & L5 & L6).
  repeat split; try done.
  - by rewrite Hmax, L4.
  - intros now'. by eapply given_up_stuck.
Qed.
End ClaimC8.

Section ClaimC8Examples.
Import Sym Examples.

(** C8 as stated fails: after the five attempts of the default schedule
    the entry is marked failed in the outbox and the failure callback has
    run once, but the dead-letter directory holds no entry. *)
Lemma C8_counterexample :
  (exists e, Queue.outbox exhausted !! "m1" = Some e /\ Queue.status e = "failed" /\
             Queue.attempt e = 5) /\
  length (Queue.failures exhausted) = 1%nat /\
  Queue.timers exhausted = [] /\
  Queue.dlq exhausted = ∅.
Proof.
  split; [eexists; split; [vm_compute; reflexivity|by split]|]. by vm_compute.
Qed.

Lemma C8_witness :
  Queue.timers empty_queue = [] /\
  (forall t ep e, exists message, refuse t ep e = inl message) /\
  (Z.to_nat (default 5%Z (Queue.opt_maxRetries notify)) <= 10)%nat /\
  exists e,
    Queue.outbox exhausted !! "m1" = Some e /\ Queue.status e = "failed" /\
    Queue.failures exhausted = [e] /\ Queue.dlq exhausted = ∅.
Proof.
  assert (forall t ep e, exists message, refuse t ep e = inl message) as Hrefuse
    by (intros; eexists; reflexivity).
  assert (Z.to_nat (default 5%Z (Queue.opt_maxRetries notify)) <= 10)%nat as Hfuel
    by (vm_compute; lia).
  split; [reflexivity|]. split; [exact Hrefuse|]. split; [exact Hfuel|].
  destruct (proj1 (@C8_exhausted_delivery Sym.clock Sym.ed25519)
              empty_queue 0 "u-1" "http://localhost:1/ai2ai" quote_request refuse notify 10%nat
              eq_refl Hrefuse Hfuel)
    as (_ & e & Hout & Hst & _ & _ & _ & Hfl & _ & Hdlq & _).
  exists e. split; [exact Hout|]. split; [exact Hst|]. split; [exact Hfl|exact Hdlq].
Defined.
End ClaimC8Examples.

(** ** Signing and encryption on the sending side *)
Section SignThenEncrypt.
Context `{Clock} `{Ed25519} `{X25519Box}.

Lemma maybeEncryptEnvelope_signature cfg cs envelope eph nonce :
  prop (Client.maybeEncryptEnvelope cfg cs envelope eph nonce) "signature"
  = prop envelope "signature".
Proof.
  unfold Client.maybeEncryptEnvelope.
  repeat (destruct (negb _); [done|]).
  destruct (truthy _); [|done]. by rewrite !prop_set_ne.
Qed.
End SignThenEncrypt.

Section ClaimC1.
Import Sym Examples.

(** C1 fails on the code: [createEnvelope] signs before [sendMessage]
    encrypts.  The envelope on the wire carries the encrypted payload
    together with the signature of the plaintext bytes; the signature does
    not verify over the bytes of the delivered envelope, and a receiver
    that knows the sender's key rejects it. *)
Lemma C1_signature_is_over_plaintext :
  Encryption.isEncrypted (prop meeting_on_wire "payload") = true /\
  prop meeting_on_wire "signature"
  = Some (JStr (ed_sign "alice" (Crypto.canonical meeting_envelope))) /\
  Crypto.canonical meeting_envelope
  = q "{'id':'m7','timestamp':'5000','from':{'agent':'alice','node':'alice-node','human':'Alice'},'to':{'agent':'bob'},'conversation':'c7','type':'request','intent':'schedule.meeting','payload':{'proposed_times':['2026-03-10T10:00Z']}}" /\
  Crypto.canonical meeting_on_wire <> Crypto.canonical meeting_envelope /\
  Crypto.verifyMessage meeting_on_wire (prop meeting_on_wire "signature")
    (Some (JStr (ed_pub "alice"))) = false /\
  (Server.post bob bob_world 6000 meeting_on_wire).1
  = Server.Reply 403 (Server.rejected "invalid_signature") /\
  (Server.post bob bob_world 6000 meeting_envelope).1
  = Server.Reply 200 (pending_approval_reply meeting_envelope).
Proof. repeat split; try by vm_compute. Qed.
End ClaimC1.

Section ClaimC4.
Import Sym Examples.

(** C4 fails on the code: the guard of [processMessage] also skips
    verification when the envelope carries no signature.  Bob has Alice's
    public key on record; her request without a signature is accepted and
    filed for approval, while the same request with a signature that does
    not verify is rejected. *)
Lemma C4_unsigned_envelope_accepted :
  oprop (Trust.getContact (Server.contacts bob_world) (Some (JStr "alice"))) "publicKey"
  = Some (JStr (ed_pub "alice")) /\
  prop unsigned_request "signature" = None /\
  (exists w',
      Server.post bob bob_world 6000 unsigned_request
      = (Server.Reply 200 (pending_approval_reply unsigned_request), w') /\
      is_Some (Server.pending w' !! "m3")) /\
  (Server.post bob bob_world 6000 (prop_set unsigned_request "signature" (JStr "forged"))).1
  = Server.Reply 403 (Server.rejected "invalid_signature").
Proof.
  split; [reflexivity|]. split; [reflexivity|]. split; [|by vm_compute].
  eexists. split; [vm_compute; reflexivity|]. vm_compute. by eexists.
Qed.
End ClaimC4.

(** ** The signed bytes *)
Section ClaimC2.
Context `{Clock} `{Ed25519}.

Lemma canonical_prop_set envelope k x :
  k ∉ signed_fields -> Crypto.canonical (prop_set envelope k x) = Crypto.canonical envelope.
Proof.
  unfold signed_fields. rewrite !not_elem_of_cons. intros (?&?&?&?&?&?&?&?&_).
  unfold Crypto.canonical. by rewrite !prop_set_ne.
Qed.

Lemma string_app_assoc (a b c : string) : (a +:+ b) +:+ c = a +:+ (b +:+ c).
Proof. induction a as [|x a IH]; [done|]. change (String x ((a +:+ b) +:+ c) = String x (a +:+ b +:+ c)). by f_equal. Qed.

(** An object is written as its members, joined by commas, in braces. *)
Lemma joined_cons sep x y l : joined sep (x :: y :: l) = x +:+ sep +:+ joined sep (y :: l).
Proof. reflexivity. Qed.

Lemma stringify_object m :
  JSON_stringify (JObj m) = "{" +:+ joined "," (map member m) +:+ "}".
Proof.
  cbn [JSON_stringify]. f_equal.
  set (members := fix members (m : list (string * json)) : string :=
         match m with
         | [] => "}"
         | [(k, x)] => quote k +:+ ":" +:+ JSON_stringify x +:+ "}"
         | (k, x) :: m' => quote k +:+ ":" +:+ JSON_stringify x +:+ "," +:+ members m'
         end).
  induction m as [|[k x] m IH]; [done|].
  destruct m as [|[k' x'] m].
  - unfold member. cbn [map joined fst snd]. by rewrite !string_app_assoc.
  - change (members ((k, x) :: (k', x') :: m))
      with (quote k +:+ ":" +:+ JSON_stringify x +:+ "," +:+ members ((k', x') :: m)).
    rewrite IH. rewrite !map_cons, joined_cons. unfold member. cbn [fst snd].
    by rewrite !string_app_assoc.
Qed.

Lemma canonical_present envelope :
  Crypto.canonical envelope = JSON_stringify (JObj (present_fields envelope)).
Proof. reflexivity. Qed.

Lemma present_fields_spec envelope k v :
  (k, v) ∈ present_fields envelope <-> k ∈ signed_fields /\ prop envelope k = Some v.
Proof.
  unfold present_fields. rewrite list_elem_of_omap. split.
  - intros (k' & Hin & Hk). destruct (prop envelope k') as [v'|] eqn:E; [|done].
    injection Hk as <- <-. done.
  - intros [Hin Hk]. exists k. by rewrite Hk.
Qed.

(** C2, as amended.  For every envelope, the signed bytes are the JSON
    text, without whitespace, of an object with one member for each of the
    fields id, timestamp, from, to, conversation, type, intent, payload
    that the envelope has, in that order (the order in which the source
    writes them, not the lexicographic one); a field the envelope does
    not have is left out, and every value is written with its properties
    in their own order.  Signing, verification and the node's [_sign] all
    use these bytes, and no other property of the envelope (nonce,
    expiresAt, requires_human_approval, signature among them) takes
    part. *)
Theorem C2_signed_bytes :
  (forall e, Crypto.canonical e = amended_signed_bytes e) /\
  (forall e k v, (k, v) ∈ present_fields e <-> k ∈ signed_fields /\ prop e k = Some v) /\
  (forall e k, prop e k = None -> k ∉ (present_fields e).*1) /\
  (forall e, (present_fields e).*1 `sublist_of` signed_fields) /\
  (forall e i t f o c y n p,
      prop e "id" = Some i -> prop e "timestamp" = Some t -> prop e "from" = Some f ->
      prop e "to" = Some o -> prop e "conversation" = Some c -> prop e "type" = Some y ->
      prop e "intent" = Some n -> prop e "payload" = Some p ->
      Crypto.canonical e
      = q "{'id':" +:+ JSON_stringify i +:+ q ",'timestamp':" +:+ JSON_stringify t
        +:+ q ",'from':" +:+ JSON_stringify f +:+ q ",'to':" +:+ JSON_stringify o
        +:+ q ",'conversation':" +:+ JSON_stringify c +:+ q ",'type':" +:+ JSON_stringify y
        +:+ q ",'intent':" +:+ JSON_stringify n +:+ q ",'payload':" +:+ JSON_stringify p
        +:+ "}") /\
  (forall e k x, k ∉ signed_fields ->
                 Crypto.canonical (prop_set e k x) = Crypto.canonical e) /\
  (forall e sk, Crypto.signMessage e sk = ed_sign sk (Crypto.canonical e)) /\
  (forall e s pk, Crypto.verifyMessage e s pk = ed_verify pk (Crypto.canonical e) s) /\
  (forall n e, Node._sign n e = ed_sign (Node.keys n) (Crypto.canonical e)).
Proof.
  split; [|split; [|split; [|split; [|split; [|split; [|by repeat split]]]]]].
  - intros e. rewrite canonical_present. apply stringify_object.
  - apply present_fields_spec.
  - intros e k Hk Hin. apply list_elem_of_fmap in Hin as ([k' v] & -> & Hin).
    apply present_fields_spec in Hin as [_ Hv]. simpl in Hk. congruence.
  - intros e. unfold present_fields.
    induction signed_fields as [|k l IH]; [done|]. cbn [omap list_omap].
    destruct (prop e k); cbn; [by apply sublist_skip|by apply sublist_cons].
  - intros e i t f o c y n p Hi Ht Hf Ho Hc Hy Hn Hp.
    unfold Crypto.canonical. rewrite Hi, Ht, Hf, Ho, Hc, Hy, Hn, Hp. reflexivity.
  - apply canonical_prop_set.
Qed.
End ClaimC2.

Section ClaimC2Examples.
Import Sym Examples.

(** C2 as stated fails: the keys are written in the order of the source,
    id first, and not in lexicographic order. *)
Lemma C2_counterexample :
  Crypto.canonical meeting_envelope
  = q "{'id':'m7','timestamp':'5000','from':{'agent':'alice','node':'alice-node','human':'Alice'},'to':{'agent':'bob'},'conversation':'c7','type':'request','intent':'schedule.meeting','payload':{'proposed_times':['2026-03-10T10:00Z']}}" /\
  spec_signed_bytes meeting_envelope
  = q "{'conversation':'c7','from':{'agent':'alice','human':'Alice','node':'alice-node'},'id':'m7','intent':'schedule.meeting','payload':{'proposed_times':['2026-03-10T10:00Z']},'timestamp':'5000','to':{'agent':'bob'},'type':'request'}" /\
  Crypto.canonical meeting_envelope <> spec_signed_bytes meeting_envelope.
Proof. repeat split; by vm_compute. Qed.

(** An envelope without [to] and [intent]: the bytes have six members and
    no null, and a nonce does not change them. *)
Lemma C2_witness :
  ("nonce" ∉ signed_fields) /\
  Crypto.canonical (prop_set meeting_envelope "nonce" (JStr "8f3a")) = Crypto.canonical meeting_envelope /\
  Crypto.canonical (JObj [("type", JStr "ping"); ("id", JStr "p1"); ("nonce", JStr "8f3a")])
  = q "{'id':'p1','type':'ping'}".
Proof.
  assert ("nonce" ∉ signed_fields) as Hn
    by (unfold signed_fields; rewrite !not_elem_of_cons; repeat split; try discriminate;
        apply not_elem_of_nil).
  split; [exact Hn|]. split.
  - exact (proj1 (proj2 (proj2 (proj2 (proj2 (proj2 C2_signed_bytes)))))
             meeting_envelope "nonce" (JStr "8f3a") Hn).
  - rewrite (proj1 C2_signed_bytes). reflexivity.
Defined.
End ClaimC2Examples.

(** ** The ingress filters *)
Section IngressFacts.
Context `{Clock} `{Ed25519}.
Import Node.

Ltac split_branches :=
  repeat match goal with
    | |- context [if ?b then _ else _] => destruct b
    | |- context [match map_get ?k ?m with _ => _ end] => destruct (map_get k m)
    end.

(** [dispatch] emits, and rewrites receipts; it touches nothing else. *)
Lemma dispatch_frame n now envelope :
  let n' := dispatch n now envelope in
  name n' = name n /\ seen n' = seen n /\ windows n' = windows n /\ nonces n' = nonces n
  /\ blocked n' = blocked n /\ rateLimit n' = rateLimit n /\ messageTTL n' = messageTTL n
  /\ exists new, events n' = events n ++ new.
Proof.
  unfold dispatch, markDelivered, markRead.
  split_branches; cbn; repeat split; rewrite <- ?app_assoc;
    try (by eexists); by exists []; rewrite app_nil_r.
Qed.

Lemma handleRequest_reply n now envelope :
  envelope <> JNull ->
  (_handleRequest n now envelope).1 = first_failure n now envelope.
Proof.
  intros Hnull. unfold _handleRequest, first_failure.
  assert (nullish (Some envelope) = false) as -> by (by destruct envelope).
  fold (malformed envelope). destruct (malformed envelope); [done|].
  fold (sender envelope). fold (on_blocklist n envelope).
  destruct (on_blocklist n envelope); [done|].
  unfold over_limit.
  destruct (Security.allow _ _ _ _) as [allowed w]; simpl.
  destruct allowed; simpl; [|done].
  fold (too_old n now envelope).
  destruct (too_old n now envelope); [done|].
  unfold replayed, already_seen.
  destruct (truthy (prop envelope "nonce")); simpl.
  - destruct (Security.check_and_mark (nonces n) _ _) as [r t]; simpl.
    destruct r; [done|].
    destruct (Security.check_and_mark (seen n) _ _) as [d t']; simpl.
    destruct d; [done|].
    match goal with |- context [name ?x] =>
      change x with (dispatch (with_seen (with_nonces (with_windows n w) t) t') now envelope) end.
    by rewrite (proj1 (dispatch_frame _ _ _)).
  - destruct (Security.check_and_mark (seen n) _ _) as [d t']; simpl.
    destruct d; [done|].
    match goal with |- context [name ?x] =>
      change x with (dispatch (with_seen (with_windows n w) t') now envelope) end.
    by rewrite (proj1 (dispatch_frame _ _ _)).
Qed.

End IngressFacts.

Section ServerChain.
Context `{Clock} `{Ed25519} `{X25519Box}.
Import Server.

End ServerChain.

Section ClaimC3.
Context `{Clock} `{Ed25519} `{X25519Box}.

End ClaimC3.

Section ClaimC3Examples.
Import Sym Examples.


End ClaimC3Examples.

(** ** Deduplication *)
Section TableFacts.
Context {V : Type}.
Implicit Types (m : list (option json * V)) (k : option json).

Lemma map_get_set_eq k x m : key_eqb k k = true -> map_get k (map_set k x m) = Some x.
Proof.
  intros Hk. induction m as [|[k' y] m IH]; simpl.
  - by rewrite Hk.
  - destruct (key_eqb k k') eqn:E; simpl; by rewrite E.
Qed.

Lemma map_get_set_keep k k' x y m :
  map_get k m = Some x -> map_get k' m = None -> map_get k (map_set k' y m) = Some x.
Proof.
  induction m as [|[k0 z] m IH]; simpl; [done|].
  destruct (key_eqb k' k0) eqn:E'; [done|]. simpl.
  destruct (key_eqb k k0); auto.
Qed.

Lemma map_set_length k x m : (length (map_set k x m) <= S (length m))%nat.
Proof.
  induction m as [|[k' y] m IH]; simpl; [lia|].
  destruct (key_eqb k k'); simpl; lia.
Qed.

Lemma map_get_filter k x m (P : option json * V -> Prop) `{!forall kv, Decision (P kv)} :
  map_get k m = Some x -> (forall k', P (k', x)) ->
  map_get k (filter P m) = Some x.
Proof.
  intros Hget HP. induction m as [|[k' y] m IH]; simpl in *; [done|].
  destruct (key_eqb k k') eqn:E.
  - injection Hget as ->. rewrite filter_cons_True by apply HP. simpl. by rewrite E.
  - destruct (decide (P (k', y))).
    + rewrite filter_cons_True by done. simpl. rewrite E. auto.
    + rewrite filter_cons_False by done. auto.
Qed.
End TableFacts.

Section MarkFacts.
Implicit Types (table : list (option json * Z)) (k : option json).
Import Security.

(** An entry survives the sweep while the table is small or the entry is
    young. *)
Lemma cleanup_keep table now k ts :
  map_get k table = Some ts ->
  (length table <= maxSize)%nat \/ now - maxAge <= ts ->
  map_get k (_cleanup table now) = Some ts.
Proof.
  intros Hget Hold. unfold _cleanup. destruct (decide _) as [|Hbig]; [done|].
  destruct Hold as [|Hyoung]; [lia|].
  apply map_get_filter; [done|]. simpl. lia.
Qed.

Lemma cleanup_length table now : (length (_cleanup table now) <= length table)%nat.
Proof. unfold _cleanup. destruct (decide _); [lia|]. apply length_filter. Qed.

Lemma check_and_mark_keep table now k k' ts :
  map_get k table = Some ts ->
  (length table <= maxSize)%nat \/ now - maxAge <= ts ->
  map_get k (check_and_mark table now k').2 = Some ts.
Proof.
  intros Hget Hold. unfold check_and_mark, map_has.
  pose proof (cleanup_keep _ _ _ _ Hget Hold) as Hc.
  destruct (map_get k' (_cleanup table now)) eqn:E; simpl; [done|].
  by apply map_get_set_keep.
Qed.

Lemma check_and_mark_hit table now k ts :
  map_get k table = Some ts ->
  (length table <= maxSize)%nat \/ now - maxAge <= ts ->
  (check_and_mark table now k).1 = true.
Proof.
  intros Hget Hold. unfold check_and_mark, map_has.
  by rewrite (cleanup_keep _ _ _ _ Hget Hold).
Qed.

Lemma check_and_mark_length table now k :
  (length (check_and_mark table now k).2 <= S (length table))%nat.
Proof.
  unfold check_and_mark. pose proof (cleanup_length table now).
  destruct (map_has _ _); simpl; [lia|].
  pose proof (map_set_length k now (_cleanup table now)). lia.
Qed.

Lemma check_and_mark_fresh table now k :
  key_eqb k k = true ->
  (check_and_mark table now k).1 = false ->
  map_get k (check_and_mark table now k).2 = Some now.
Proof.
  intros Hk. unfold check_and_mark. destruct (map_has _ _); simpl; [done|].
  intros _. by apply map_get_set_eq.
Qed.
End MarkFacts.

Section DedupFacts.
Context `{Clock} `{Ed25519}.
Import Node.

Ltac refused :=
  simpl; split; [reflexivity|]; split; [by auto|]; split;
  [ intros Hr; unfold ok_reply in Hr; simpl in Hr; discriminate
  | intros; split; [reflexivity|];
    unfold refusals; repeat first [apply list_elem_of_here | apply list_elem_of_further] ].

(** What a request does to the dedup table and to the events. *)
Lemma handleRequest_effect n now envelope :
  let n' := (_handleRequest n now envelope).2 in
  let mark := Security.check_and_mark (seen n) now (prop envelope "id") in
  name n' = name n /\
  (seen n' = seen n \/ seen n' = mark.2) /\
  ((_handleRequest n now envelope).1 = ok_reply n envelope ->
   seen n' = mark.2 /\ mark.1 = false) /\
  (mark.1 = true -> envelope <> JNull ->
   events n' = events n /\ (_handleRequest n now envelope).1 ∈ refusals envelope).
Proof.
  unfold _handleRequest.
  destruct (nullish (Some envelope)) eqn:Hnull.
  { simpl. repeat split; auto; try discriminate. by destruct envelope. }
  destruct (_ || _ || _); [refused|].
  destruct (Security.isBlocked _ _); [refused|].
  destruct (Security.allow _ _ _ _) as [allowed w]; simpl.
  destruct allowed; simpl; [|refused].
  destruct (Security.isMessageExpired _ _ _); [refused|].
  assert (forall m : node,
    name m = name n -> seen m = seen n -> events m = events n ->
    let n' := (let '(duplicate, t) := Security.check_and_mark (seen m) now (prop envelope "id") in
               if duplicate
               then (Reply 200 (literal [("status", Some (JStr "duplicate"));
                                         ("id", prop envelope "id")]), with_seen m t)
               else (Reply 200 (literal [ ("status", Some (JStr "ok")); ("id", prop envelope "id");
                                          ("agent", Some (JStr (name (dispatch (with_seen m t) now envelope)))) ]),
                     dispatch (with_seen m t) now envelope)) in
    name n'.2 = name n /\
    (seen n'.2 = seen n \/ seen n'.2 = (Security.check_and_mark (seen n) now (prop envelope "id")).2) /\
    (n'.1 = ok_reply n envelope ->
     seen n'.2 = (Security.check_and_mark (seen n) now (prop envelope "id")).2
     /\ (Security.check_and_mark (seen n) now (prop envelope "id")).1 = false) /\
    ((Security.check_and_mark (seen n) now (prop envelope "id")).1 = true -> envelope <> JNull ->
     events n'.2 = events n /\ n'.1 ∈ refusals envelope)) as Htail.
  { intros m Hname Hseen Hev. rewrite Hseen.
    destruct (Security.check_and_mark (seen n) now (prop envelope "id")) as [d t]. simpl.
    destruct d; simpl.
    - split; [done|]. split; [by right|]. split.
      + intros Hr; unfold ok_reply in Hr; simpl in Hr; discriminate.
      + intros _ _. split; [done|].
        unfold refusals; repeat first [apply list_elem_of_here | apply list_elem_of_further].
    - destruct (dispatch_frame (with_seen m t) now envelope) as (Hn & Hs & _).
      rewrite Hn, Hs. simpl. repeat split; auto; discriminate. }
  destruct (truthy (prop envelope "nonce")).
  - destruct (Security.check_and_mark (nonces n) _ _) as [r t]; simpl.
    destruct r; [refused|].
    apply (Htail (with_nonces (with_windows n w) t)); reflexivity.
  - apply (Htail (with_windows n w)); reflexivity.
Qed.

Lemma handleRequest_seen_length n now envelope :
  (length (seen (_handleRequest n now envelope).2) <= S (length (seen n)))%nat.
Proof.
  destruct (handleRequest_effect n now envelope) as (_ & [-> | ->] & _); [lia|].
  apply check_and_mark_length.
Qed.

Lemma marked_step k n now envelope rest :
  marked k n ((now, envelope) :: rest) ->
  marked k (_handleRequest n now envelope).2 rest.
Proof.
  intros (ts & Hget & Hold). exists ts.
  pose proof (handleRequest_seen_length n now envelope) as Hlen.
  split.
  - destruct (handleRequest_effect n now envelope) as (_ & [-> | ->] & _); [done|].
    apply check_and_mark_keep; [done|].
    destruct Hold as [Hsmall | Hyoung]; [left; simpl in Hsmall; lia|].
    right. apply (Hyoung now envelope), list_elem_of_here.
  - destruct Hold as [Hsmall | Hyoung]; [left; simpl in Hsmall; lia|].
    right. intros tb eb Hin. by apply (Hyoung tb eb), list_elem_of_further.
Qed.

Lemma marked_refuses k n now envelope rest :
  marked k n ((now, envelope) :: rest) -> prop envelope "id" = k -> envelope <> JNull ->
  events (_handleRequest n now envelope).2 = events n
  /\ (_handleRequest n now envelope).1 ∈ refusals envelope.
Proof.
  intros (ts & Hget & Hold) <- Hnull.
  destruct (handleRequest_effect n now envelope) as (_ & _ & _ & Hdup).
  apply Hdup; [|done].
  apply (check_and_mark_hit _ _ _ ts); [done|].
  destruct Hold as [Hsmall | Hyoung]; [left; simpl in Hsmall; lia|].
  right. apply (Hyoung now envelope), list_elem_of_here.
Qed.

Lemma marked_later k n rest j' t' e' r' evs' :
  marked k n rest ->
  rest !! j' = Some (t', e') -> prop e' "id" = k -> e' <> JNull ->
  (serve n rest).1 !! j' = Some (r', evs') ->
  evs' = [] /\ r' ∈ refusals e'.
Proof.
  revert n j'. induction rest as [|[t e] rest IH]; intros n j' Hm Hj' Hid Hnull Htr; [done|].
  destruct j' as [|j']; simpl in *.
  - injection Hj' as <- <-. injection Htr as <- <-.
    destruct (marked_refuses k n t e rest Hm Hid Hnull) as [-> Hr].
    by rewrite drop_all.
  - eapply IH; eauto. by apply marked_step.
Qed.

Lemma retained_step n now envelope rest :
  retained n ((now, envelope) :: rest) -> retained (_handleRequest n now envelope).2 rest.
Proof.
  pose proof (handleRequest_seen_length n now envelope) as Hlen.
  intros [Hsmall | Hspan]; [left; simpl in Hsmall; lia|].
  right. intros a b ta ea tb eb Hab Ha Hb. by apply (Hspan (S a) (S b) ta ea tb eb); [lia|..].
Qed.

Lemma accepted_marks n now envelope id rest :
  retained n ((now, envelope) :: rest) ->
  prop envelope "id" = Some (JStr id) ->
  (_handleRequest n now envelope).1 = ok_reply n envelope ->
  marked (Some (JStr id)) (_handleRequest n now envelope).2 rest.
Proof.
  intros Hret Hid Hok.
  pose proof (handleRequest_seen_length n now envelope) as Hlen.
  destruct (handleRequest_effect n now envelope) as (_ & _ & Hacc & _).
  destruct (Hacc Hok) as [Hseen Hfresh]. exists now. split.
  - rewrite Hseen, Hid. apply check_and_mark_fresh; [apply String.eqb_refl|by rewrite <- Hid].
  - destruct Hret as [Hsmall | Hspan]; [left; simpl in Hsmall; lia|].
    right. intros tb eb Hin. apply list_elem_of_lookup in Hin as [b Hb].
    pose proof (Hspan 0%nat (S b) now envelope tb eb ltac:(lia) eq_refl Hb). lia.
Qed.

End DedupFacts.

Section ServerLog.
Context `{Clock} `{Ed25519} `{X25519Box}.
Import Server.

Ltac branches :=
  repeat match goal with
    | |- context [if ?b then _ else _] => destruct b
    | |- context [match ?x with Some _ => _ | None => _ end] => destruct x
    | |- context [match ?x with Conversations.Moved _ _ => _ | _ => _ end] => destruct x
    end.

Lemma file_approval_log w now envelope :
  conv_log (file_approval w now envelope).2 = conv_log w.
Proof. unfold file_approval. by branches. Qed.

(** The handlers write contacts, approvals and the state of the
    conversation; they leave its log alone. *)
Lemma handlers_keep_log me w now envelope :
  conv_log (handlePing me w now envelope).2 = conv_log w
  /\ conv_log (handleRequest w now envelope).2 = conv_log w
  /\ conv_log (handleReply w now envelope).2 = conv_log w
  /\ conv_log (handleInform w now envelope).2 = conv_log w.
Proof.
  repeat split.
  - unfold handlePing. by branches.
  - unfold handleRequest. branches; try done; apply file_approval_log.
  - unfold handleReply. by branches.
  - unfold handleInform. by branches.
Qed.

Lemma file_approval_status w now envelope r w' :
  file_approval w now envelope = (Return r, w') ->
  prop r "status" = Some (JStr "pending_approval").
Proof. unfold file_approval. branches; intros [= <- _]; done. Qed.

(** Every answer of [processMessage] has one of four statuses. *)
Lemma processMessage_status me w now envelope r w' :
  processMessage me w now envelope = (Return r, w') ->
  exists s, prop r "status" = Some (JStr s) /\ s ∈ server_statuses.
Proof.
  assert (forall s, s ∈ server_statuses -> forall r0 : json,
            prop r0 "status" = Some (JStr s) ->
            exists s, prop r0 "status" = Some (JStr s) /\ s ∈ server_statuses) as Hin by eauto.
  assert ("rejected" ∈ server_statuses /\ "error" ∈ server_statuses /\ "ok" ∈ server_statuses
          /\ "pending_approval" ∈ server_statuses) as (Hrej & Herr & Hok & Hpend).
  { unfold server_statuses. rewrite !elem_of_cons. auto 10. }
  unfold processMessage.
  destruct (nullish _); [done|].
  destruct (logIncoming_throws _); [done|].
  destruct (Trust.isBlocked _ _); [intros [= <- _]; by apply (Hin _ Hrej)|].
  destruct (checkRateLimit _ _ _) as [allowed rl].
  destruct allowed; cbn [negb]; [|intros [= <- _]; by apply (Hin _ Hrej)].
  destruct (_ && _ && negb _); [intros [= <- _]; by apply (Hin _ Hrej)|].
  destruct (_ && negb _); [done|].
  destruct (maybeDecryptPayload me envelope) as [env|]; [|intros [= <- _]; by apply (Hin _ Herr)].
  destruct (negb (converts (prop env "conversation"))); [done|].
  match goal with |- context [match ?t with Some st => _ | None => (Throw, ?w0) end] =>
    destruct t as [st|]; [|done] end.
  destruct (is_str (prop env "type") "ping").
  { unfold handlePing. branches; intros [= <- _]; by apply (Hin _ Hok). }
  destruct (is_str (prop env "type") "request").
  { unfold handleRequest. branches; try done;
      try (intros [= <- _]; first [by apply (Hin _ Herr) | by apply (Hin _ Hok)]);
      intros Hf; apply (Hin _ Hpend); by eapply file_approval_status. }
  destruct (_ || _ || _).
  { unfold handleReply. branches; intros [= <- _]; by apply (Hin _ Hok). }
  destruct (is_str (prop env "type") "inform").
  { unfold handleInform. branches; intros [= <- _]; by apply (Hin _ Hok). }
  intros [= <- _]. by apply (Hin _ Herr).
Qed.

(** A POST that no filter of the skill server stops is appended to the
    log of its conversation, whatever came before. *)
Lemma post_logs me w now envelope :
  envelope <> JNull ->
  server_first_failure me w now envelope = None ->
  converts (prop envelope "conversation") = true ->
  exists env, maybeDecryptPayload me envelope = Some env
    /\ lines (post me w now envelope).2 (prop envelope "conversation")
       = lines w (prop envelope "conversation") ++ [env].
Proof.
  intros Hnull. unfold server_first_failure, post, processMessage, lines.
  assert (nullish (Some envelope) = false) as -> by (by destruct envelope).
  fold (malformed envelope). destruct (malformed envelope); [done|].
  fold (sender envelope).
  destruct (logIncoming_throws envelope); [done|].
  destruct (Trust.isBlocked _ _); [done|].
  destruct (checkRateLimit _ _ _) as [allowed rl]; simpl.
  destruct allowed; simpl; [|done].
  destruct (_ && _ && negb _); [done|].
  destruct (_ && negb _); [done|].
  destruct (maybeDecryptPayload me envelope) as [env|] eqn:Hd; [|done].
  intros _ Hconv. exists env. split; [done|].
  assert (prop env "conversation" = prop envelope "conversation") as Hc.
  { revert Hd. unfold maybeDecryptPayload.
    destruct (negb _); [by intros [= <-]|]. destruct (truthy _); [|done].
    intros [= <-]. by rewrite !prop_set_ne. }
  rewrite Hc, Hconv. cbn [negb].
  set (w1 := saveToConversation _ _ _).
  assert (conv_log w1 !! to_key (prop envelope "conversation")
          = Some (default [] (conv_log w !! to_key (prop envelope "conversation")) ++ [env])) as Hlog.
  { subst w1. unfold saveToConversation. cbn. by rewrite lookup_insert_eq. }
  clearbody w1.
  match goal with |- context [match ?t with Some st => _ | None => (Throw, ?w0) end] =>
    destruct t as [st|] eqn:Ht; [|by cbn; rewrite Hlog] end.
  destruct (handlers_keep_log me (with_conv_meta w1 st) now env) as (Hp & Hr & Hy & Hi).
  assert (forall x : outcome * world, conv_log x.2 = conv_log w1 ->
            default [] (conv_log (match x with
                                  | (Return result, w') =>
                                      (Reply (if is_str (prop result "status") "rejected"
                                              then 403 else 200) result, w')
                                  | (Throw, w') =>
                                      (Reply 500 (JObj [("error", JStr "Internal error")]), w')
                                  end).2 !! to_key (prop envelope "conversation"))
            = default [] (conv_log w !! to_key (prop envelope "conversation")) ++ [env]) as Hx.
  { intros [[r|] w'] Hw'; cbn in *; by rewrite Hw', Hlog. }
  destruct (is_str (prop env "type") "ping"); [apply Hx; exact Hp|].
  destruct (is_str (prop env "type") "request"); [apply Hx; exact Hr|].
  destruct (_ || _ || _); [apply Hx; exact Hy|].
  destruct (is_str (prop env "type") "inform"); [apply Hx; exact Hi|].
  cbn. by rewrite Hlog.
Qed.
End ServerLog.

Section ClaimC5.
Context `{Clock} `{Ed25519} `{X25519Box}.
Import Node.

(** C5, as amended.  On the SDK node, in a run of POSTs of envelopes
    whose sender id, nonce and id are no objects or arrays and whose
    timestamp converts to a date, during which the dedup table keeps its
    entries (it never holds more than 10000 ids, or no POST comes more
    than an hour after an earlier one), once a POST with a given string
    id has been answered ok, every later POST with that id emits no
    event and is answered with status duplicate or with the refusal of
    an earlier filter.  The skill server has no dedup: it never answers
    duplicate, and every POST that none of its filters stops, and whose
    conversation names a file, is appended to the log of its
    conversation, whether or not its id has come before. *)
Theorem C5_dedup_at_most_once :
  (forall (n : node) (requests : list (Z * json)) (id : string)
          (j j' : nat) (t t' : Z) (e e' : json) (evs evs' : list event) (r' : http_reply),
      Forall (fun te => plain te.2 = true) requests ->
      retained n requests ->
      requests !! j = Some (t, e) -> requests !! j' = Some (t', e') -> (j < j')%nat ->
      prop e "id" = Some (JStr id) -> prop e' "id" = Some (JStr id) ->
      (serve n requests).1 !! j = Some (ok_reply n e, evs) ->
      (serve n requests).1 !! j' = Some (r', evs') ->
      evs' = [] /\ r' ∈ refusals e') /\
  (forall me w now envelope r w',
      Server.processMessage me w now envelope = (Return r, w') ->
      exists s, prop r "status" = Some (JStr s) /\ s ∈ server_statuses /\ s <> "duplicate") /\
  (forall me w now envelope,
      envelope <> JNull ->
      server_first_failure me w now envelope = None ->
      file_name (prop envelope "conversation") = true ->
      exists env, Server.maybeDecryptPayload me envelope = Some env
        /\ lines (Server.post me w now envelope).2 (prop envelope "conversation")
           = lines w (prop envelope "conversation") ++ [env]).
Proof.
  split; [|split].
  - intros n requests id j j' t t' e e' evs evs' r' _. revert n j j'.
    induction requests as [|[t0 e0] rest IH]; intros n j j' Hret Hj Hj' Hlt He He' Hok Hr';
      [done|].
    destruct j' as [|j']; [lia|]. destruct j as [|j]; simpl in *.
    + injection Hj as <- <-. injection Hok as Hok _.
      eapply (marked_later (Some (JStr id))); eauto.
      * eapply accepted_marks; eauto.
      * intros ->; discriminate.
    + destruct (handleRequest_effect n t0 e0) as (Hname & _).
      eapply (IH (_handleRequest n t0 e0).2 j j'); eauto using retained_step; [lia|].
      unfold ok_reply in *. simpl in Hname. by rewrite Hname.
  - intros me w now envelope r w' Hp.
    destruct (processMessage_status me w now envelope r w' Hp) as (s & Hs & Hin).
    exists s. split; [done|]. split; [done|]. intros ->. revert Hin.
    unfold server_statuses. rewrite !elem_of_cons, elem_of_nil.
    by intros [|[|[|[|]]]].
  - intros me w now envelope Hnull Hnone Hfile. apply post_logs; [done|done|].
    destruct (prop envelope "conversation") as [[]|]; try discriminate; reflexivity.
Qed.
End ClaimC5.

(** ** Decimal numerals *)
Lemma to_int_proper z : Z.to_int z <> Decimal.Pos Decimal.Nil /\ Z.to_int z <> Decimal.Neg Decimal.Nil.
Proof.
  destruct z as [|p|p]; simpl; split; try discriminate; intros [= E];
    by apply (DecimalPos.Unsigned.to_uint_nonnil p).
Qed.

Lemma number_to_string_inj a b : number_to_string a = number_to_string b -> a = b.
Proof.
  unfold number_to_string. intros E. apply DecimalZ.to_int_inj.
  destruct (to_int_proper a) as [Ha Ha'], (to_int_proper b) as [Hb Hb'].
  pose proof (NilZero.isi _ Ha Ha') as Ia. rewrite E, (NilZero.isi _ Hb Hb') in Ia. congruence.
Qed.

Section AcceptFacts.
Context `{Clock} `{Ed25519}.
Import Node.

(** A message that passes every filter. *)
Lemma accept_message n now envelope w t :
  malformed envelope = false ->
  on_blocklist n envelope = false ->
  Security.allow (rateLimit n) (windows n) now (sender envelope) = (true, w) ->
  too_old n now envelope = false ->
  prop envelope "nonce" = None ->
  Security.check_and_mark (seen n) now (prop envelope "id") = (false, t) ->
  prop envelope "type" = Some (JStr "message") ->
  _handleRequest n now envelope
  = (ok_reply n envelope,
     emit (emit (with_seen (with_windows n w) t)
                (EvMessage (prop envelope "payload") (prop envelope "from") envelope))
          (EvReceiptSend (prop envelope "id") (prop envelope "from"))).
Proof.
  unfold malformed, on_blocklist, too_old, sender, _handleRequest.
  intros -> -> -> Hold Hnonce Hmark Htype.
  assert (nullish (Some envelope) = false) as ->.
  { destruct envelope; try done. }
  cbn [negb fst snd messageTTL with_windows upd]. rewrite Hold, Hnonce. 
  cbn [truthy]. change (seen (with_windows n w)) with (seen n).
  rewrite Hmark, Htype. reflexivity.
Qed.
End AcceptFacts.

Section Eviction.
Import Sym Examples Node.

Lemma note_id_inj i j : note_id i = note_id j -> i = j.
Proof.
  unfold note_id. intros [= E]. apply number_to_string_inj in E. lia.
Qed.

Lemma entries_fresh i k : (k <= i)%nat -> map_get (Some (JStr (note_id i))) (entries k) = None.
Proof.
  unfold entries. induction k as [|k IH]; [done|]. intros Hk.
  rewrite seq_S, fmap_app. simpl.
  assert (forall (l : list (option json * Z)) x y, map_get x l = None ->
            key_eqb x y.1 = false -> map_get x (l ++ [y]) = None) as Happ.
  { induction l as [|[k0 z] l IHl]; simpl; intros x [y1 y2] Hl Hy; simpl in *.
    - by rewrite Hy.
    - destruct (key_eqb x k0); [done|]. by apply IHl. }
  apply Happ; [apply IH; lia|].
  change (String.eqb (note_id i) (note_id k) = false).
  apply String.eqb_neq. intros E%note_id_inj. lia.
Qed.

Lemma map_set_fresh {V} k (x : V) m : map_get k m = None -> map_set k x m = m ++ [(k, x)].
Proof.
  induction m as [|[k' y] m IH]; simpl; [done|].
  destruct (key_eqb k k'); [done|]. intros E. by rewrite IH.
Qed.

Lemma mark_note k :
  (k <= Security.maxSize)%nat ->
  Security.check_and_mark (entries k) (note_time k) (Some (JStr (note_id k)))
  = (false, entries (S k)).
Proof.
  intros Hk. unfold Security.check_and_mark, Security._cleanup, map_has.
  assert (length (entries k) = k) as -> by (unfold entries; by rewrite length_fmap, length_seq).
  rewrite decide_True by done.
  rewrite entries_fresh by done. rewrite map_set_fresh by (by apply entries_fresh).
  unfold entries. by rewrite seq_S, fmap_app.
Qed.

Lemma allow_note k :
  Security.allow 20 (window_after k) (note_time k) alice_agent = (true, window_after (S k)).
Proof.
  unfold Security.allow. destruct k as [|k].
  - reflexivity.
  - cbn [window_after map_get key_eqb json_eqb alice_agent default].
    assert (String.eqb "alice" "alice" = true) as -> by reflexivity. cbn [default].
    unfold id. rewrite filter_cons_False, filter_nil.
    2:{ unfold note_time, Security.windowMs. lia. }
    reflexivity.
Qed.

Lemma note_fresh_enough i now : Security.isMessageExpired (note i now) now 86400000 = false.
Proof.
  unfold Security.isMessageExpired. cbn. destruct (now =? 0); [done|]. cbn.
  rewrite Z.sub_diag. reflexivity.
Qed.

Lemma note_step k :
  (k <= Security.maxSize)%nat ->
  _handleRequest (after k) (note_time k) (note k (note_time k))
  = (ok_reply bob_node (note k (note_time k)), after (S k)).
Proof.
  intros Hk.
  rewrite (accept_message (after k) _ _ (window_after (S k)) (entries (S k))); try reflexivity.
  - unfold after, emit, with_seen, with_windows, upd. cbn [events seen receipts queue circuits windows nonces contacts name humanName messageTTL rateLimit has_registry keys dlq blocked].
    rewrite seq_S, fmap_app, join_app. cbn [fmap list_fmap mjoin list_join app]. 
    rewrite app_nil_r. unfold emitted at 2. rewrite <- app_assoc. reflexivity.
  - apply allow_note.
  - apply note_fresh_enough.
  - by apply mark_note.
Qed.

Lemma serve_notes c a :
  (a + c <= S Security.maxSize)%nat ->
  serve (after a) ((fun i => (note_time i, note i (note_time i))) <$> seq a c)
  = ((fun i => (ok_reply bob_node (note i (note_time i)), emitted i)) <$> seq a c, after (a + c)).
Proof.
  revert a. induction c as [|c IH]; intros a Hc.
  - by rewrite Nat.add_0_r.
  - cbn [seq fmap list_fmap serve]. rewrite note_step by lia. cbn [fst snd].
    rewrite IH by lia. cbn [fst snd]. rewrite Nat.add_succ_r. f_equal. f_equal. f_equal.
    unfold after, upd. cbn [events].
    rewrite seq_S, fmap_app, join_app. cbn [fmap list_fmap mjoin list_join].
    by rewrite app_nil_r, drop_app_length.
Qed.

Lemma serve_app `{Clock} `{Ed25519} (n : node) l1 l2 :
  serve n (l1 ++ l2)
  = ((serve n l1).1 ++ (serve (serve n l1).2 l2).1, (serve (serve n l1).2 l2).2).
Proof.
  revert n. induction l1 as [|[t e] l1 IH]; intros n; simpl.
  - by destruct (serve n l2).
  - by rewrite IH.
Qed.

(** The table of the first 10001 notes no longer holds the first id once
    the sweep of a later POST has run. *)
Lemma first_note_forgotten :
  let late := note_time (S Security.maxSize) in
  (Security.check_and_mark (entries (S Security.maxSize)) late (Some (JStr "m0"))).1 = false.
Proof. by vm_compute. Qed.

Lemma late_note :
  let late := note_time (S Security.maxSize) in
  let n := after (S Security.maxSize) in
  let n' := (_handleRequest n late (note 0 late)).2 in
  (_handleRequest n late (note 0 late)).1 = ok_reply bob_node (note 0 late)
  /\ drop (length (events n)) (events n')
     = [ EvMessage (Some (JObj [])) (Some (JObj [("agent", JStr "alice")])) (note 0 late);
         EvReceiptSend (Some (JStr "m0")) (Some (JObj [("agent", JStr "alice")])) ].
Proof.
  intros late n n'. subst n'.
  pose proof (accept_message n late (note 0 late) (window_after (S (S Security.maxSize)))
             (Security.check_and_mark (entries (S Security.maxSize)) late (Some (JStr "m0"))).2
             eq_refl eq_refl (allow_note (S Security.maxSize))
             (note_fresh_enough 0 late) eq_refl) as Hacc.
  rewrite Hacc.
  - split; [reflexivity|]. cbn [snd emit upd events]. by rewrite <- app_assoc, drop_app_length.
  - pose proof first_note_forgotten as Hf. cbn zeta in Hf. fold late in Hf.
    change (seen n) with (entries (S Security.maxSize)).
    change (prop (note 0 late) "id") with (Some (JStr "m0")).
    destruct (Security.check_and_mark _ _ _) as [d t]. simpl in Hf. by subst d.
  - reflexivity.
Qed.

(** C5 as worded fails.  A second POST of an envelope that carries a nonce
    is answered replay_detected, not duplicate.  And the dedup table forgets:
    after 10001 notes, one every 61 seconds, the table is swept of what is
    older than an hour, and the id of the first note, posted again, is
    accepted and its event emitted a second time.  And the skill server
    has no dedup at all: the same request, posted twice, is answered
    pending_approval twice and stands twice in the log of its
    conversation. *)
Lemma C5_counterexample :
  (exists w1 w2,
      Server.post bob bob_world 6000 quote_request
      = (Server.Reply 200 (pending_approval_reply quote_request), w1)
      /\ Server.post bob w1 7000 quote_request
         = (Server.Reply 200 (pending_approval_reply quote_request), w2)
      /\ lines w2 (prop quote_request "conversation") = [quote_request; quote_request])
  /\ (serve bob_node [(6000, with_nonce); (7000, with_nonce)]).1
  = [ (ok_reply bob_node with_nonce,
       [ EvMessage (prop with_nonce "payload") (prop with_nonce "from") with_nonce;
         EvReceiptSend (prop with_nonce "id") (prop with_nonce "from") ]);
      (reject 400 "replay_detected", []) ]
  /\ let late := note_time (S Security.maxSize) in
     prop (note 0 0) "id" = Some (JStr "m0") /\ prop (note 0 late) "id" = Some (JStr "m0") /\
     exists between,
       (serve bob_node (notes (S Security.maxSize) ++ [(late, note 0 late)])).1
       = (ok_reply bob_node (note 0 0), emitted 0)
         :: between
         ++ [ (ok_reply bob_node (note 0 late),
               [ EvMessage (Some (JObj [])) (Some (JObj [("agent", JStr "alice")])) (note 0 late);
                 EvReceiptSend (Some (JStr "m0")) (Some (JObj [("agent", JStr "alice")])) ]) ].
Proof.
  split.
  { eexists _, _. split; [vm_compute; reflexivity|]. split; [vm_compute; reflexivity|].
    by vm_compute. }
  split; [by vm_compute|]. split; [reflexivity|]. split; [reflexivity|].
  rewrite serve_app. unfold notes.
  change bob_node with (after 0) at 1 2.
  rewrite (serve_notes (S Security.maxSize) 0) by lia. cbn [fst snd].
  destruct late_note as [Hr Hev].
  change (0 + S Security.maxSize)%nat with (S Security.maxSize).
  cbn [serve fst snd]. rewrite Hr, Hev.
  cbn [seq fmap list_fmap]. eexists. rewrite <- app_comm_cons. reflexivity.
Qed.

Lemma C5_witness :
  let requests := [(6000, note 0 6000); (7000, note 0 7000)] in
  Forall (fun te => plain te.2 = true) requests /\
  retained bob_node requests /\
  (serve bob_node requests).1 !! 1%nat = Some (duplicate_reply (note 0 7000), []) /\
  ([] : list event) = [] /\ duplicate_reply (note 0 7000) ∈ refusals (note 0 7000).
Proof.
  assert (Forall (fun te => plain te.2 = true) [(6000, note 0 6000); (7000, note 0 7000)])
    as Hplain by (repeat constructor).
  assert (retained bob_node [(6000, note 0 6000); (7000, note 0 7000)]) as Hret.
  { left. unfold Security.maxSize. simpl. lia. }
  split; [exact Hplain|]. split; [exact Hret|]. split; [reflexivity|].
  apply (proj1 C5_dedup_at_most_once bob_node
           [(6000, note 0 6000); (7000, note 0 7000)] "m0"
           0%nat 1%nat 6000 7000 (note 0 6000) (note 0 7000)
           [ EvMessage (Some (JObj [])) (Some (JObj [("agent", JStr "alice")])) (note 0 6000);
             EvReceiptSend (Some (JStr "m0")) (Some (JObj [("agent", JStr "alice")])) ]
           [] (duplicate_reply (note 0 7000)));
    [exact Hplain | exact Hret | reflexivity | reflexivity | lia | reflexivity | reflexivity
    | reflexivity | reflexivity].
Defined.
End Eviction.

(** ** [JSON.parse] reads back what [JSON.stringify] wrote *)
Lemma append_cons c (a b : string) : String c a +:+ b = String c (a +:+ b).
Proof. reflexivity. Qed.

Lemma append_nil_l (b : string) : "" +:+ b = b.
Proof. reflexivity. Qed.

Lemma append_assoc (a b c : string) : (a +:+ b) +:+ c = a +:+ (b +:+ c).
Proof.
  induction a as [|x a IH]; [done|]. rewrite !append_cons. by f_equal.
Qed.

Lemma append_nil_r (a : string) : a +:+ "" = a.
Proof. induction a as [|x a IH]; [done|]. rewrite append_cons. by f_equal. Qed.

Ltac push_append := rewrite ?append_cons, ?append_nil_l.

(** One escaped code unit is read back as that code unit. *)
Lemma parse_chars_escape_char c t s r :
  parse_chars t = Some (s, r) ->
  parse_chars (escape_char c +:+ t) = Some (String c s, r).
Proof.
  intros Ht.
  destruct c as [[] [] [] [] [] [] [] []];
    cbn [escape_char dquote backslash hex_digit N_of_ascii N.ltb N.compare]; simpl; push_append; simpl;
    rewrite Ht; reflexivity.
Qed.

Lemma parse_chars_escape s rest :
  parse_chars (escape s +:+ String dquote rest) = Some (s, rest).
Proof.
  induction s as [|c s IH].
  - reflexivity.
  - cbn [escape]. rewrite append_assoc. by apply parse_chars_escape_char.
Qed.

Lemma take_digits_delimited rest : delimited rest = true -> take_digits rest = (EmptyString, rest).
Proof.
  destruct rest as [|c r]; [done|]. simpl. by destruct (is_digit c).
Qed.

Lemma starts_fraction_delimited rest : delimited rest = true -> starts_fraction rest = false.
Proof.
  destruct rest as [|c r]; [done|]. unfold delimited.
  destruct (starts_fraction _); [|done]. by rewrite andb_false_r.
Qed.

Lemma take_digits_uint u rest :
  delimited rest = true ->
  take_digits (NilEmpty.string_of_uint u +:+ rest) = (NilEmpty.string_of_uint u, rest).
Proof.
  intros Hr. induction u; cbn [NilEmpty.string_of_uint]; push_append;
    [by apply take_digits_delimited|..]; cbn [take_digits is_digit]; by rewrite IHu.
Qed.

Lemma string_of_uint_head u :
  u <> Decimal.Nil ->
  exists c r, NilEmpty.string_of_uint u = String c r /\ is_digit c = true.
Proof. destruct u; [done|..]; intros _; by eexists _, _. Qed.

Lemma no_sign {A} c r (a : string -> A) (b : A) :
  is_digit c = true ->
  match String c r with
  | String "-"%char r0 => a r0
  | _ => b
  end = b.
Proof. destruct c as [[] [] [] [] [] [] [] []]; try discriminate; reflexivity. Qed.

Lemma parse_digits (u : Decimal.uint) (rest : string) (neg : bool) :
  u <> Decimal.Nil -> Decimal.unorm u = u -> delimited rest = true ->
  (let '(ds, rest) := take_digits (NilEmpty.string_of_uint u +:+ rest) in
   if starts_fraction rest then None else
   match NilZero.uint_of_string ds with
   | Some u =>
       if Decimal.uint_eq_dec (Decimal.unorm u) u
       then Some (if neg then Z.opp (Z.of_uint u) else Z.of_uint u, rest)
       else None
   | None => None
   end) = Some (if neg then Z.opp (Z.of_uint u) else Z.of_uint u, rest).
Proof.
  intros Hnil Hn Hr. rewrite take_digits_uint by done.
  rewrite starts_fraction_delimited by done.
  replace (NilEmpty.string_of_uint u) with (NilZero.string_of_uint u)
    by (unfold NilZero.string_of_uint; by destruct u).
  rewrite NilZero.usu by done.
  by destruct (Decimal.uint_eq_dec _ _).
Qed.

Lemma to_int_digits z :
  exists u, u <> Decimal.Nil /\ Decimal.unorm u = u /\
    Z.to_int z = (if z <? 0 then Decimal.Neg u else Decimal.Pos u) /\
    Z.of_uint u = Z.abs z.
Proof.
  destruct z as [|p|p]; simpl.
  - by exists (Decimal.D0 Decimal.Nil).
  - exists (Pos.to_uint p). split; [apply DecimalPos.Unsigned.to_uint_nonnil|].
    split; [|split; [done|]].
    + rewrite <- DecimalPos.Unsigned.to_of. by rewrite DecimalPos.Unsigned.of_to.
    + unfold Z.of_uint. by rewrite DecimalPos.Unsigned.of_to.
  - exists (Pos.to_uint p). split; [apply DecimalPos.Unsigned.to_uint_nonnil|].
    split; [|split; [done|]].
    + rewrite <- DecimalPos.Unsigned.to_of. by rewrite DecimalPos.Unsigned.of_to.
    + unfold Z.of_uint. by rewrite DecimalPos.Unsigned.of_to.
Qed.

Lemma parse_number_to_string z rest :
  delimited rest = true ->
  parse_number (number_to_string z +:+ rest) = Some (z, rest).
Proof.
  intros Hr. unfold parse_number, number_to_string.
  destruct (to_int_digits z) as (u & Hnil & Hn & -> & Hz).
  replace (NilZero.string_of_int (if z <? 0 then Decimal.Neg u else Decimal.Pos u))
    with ((if z <? 0 then "-" else "") +:+ NilEmpty.string_of_uint u)
    by (destruct (z <? 0); cbn [NilZero.string_of_int]; unfold NilZero.string_of_uint;
        by destruct u).
  destruct (Z.ltb_spec z 0).
  - push_append. rewrite (parse_digits u rest true) by done. f_equal. f_equal. lia.
  - push_append. destruct (string_of_uint_head _ Hnil) as (c & r & E & Hc).
    rewrite E at 1. push_append. rewrite (no_sign c _ _ _ Hc).
    rewrite (parse_digits u rest false) by done. f_equal. f_equal. lia.
Qed.


Lemma stringify_arr l : JSON_stringify (JArr l) = "[" +:+ elems l.
Proof. reflexivity. Qed.

Lemma stringify_obj m : JSON_stringify (JObj m) = "{" +:+ members m.
Proof. reflexivity. Qed.

Lemma stringify_head v : exists c r, JSON_stringify v = String c r /\ starts_value c = true.
Proof.
  destruct v as [|[]|z|s|l|m]; try (by eexists _, _).
  cbn [JSON_stringify]. unfold number_to_string.
  destruct (to_int_digits z) as (u & Hnil & _ & -> & _).
  destruct (string_of_uint_head u Hnil) as (c & r & E & Hc).
  destruct (z <? 0); cbn [NilZero.string_of_int]; [by eexists _, _|].
  exists c, r. split; [|unfold starts_value; by rewrite Hc].
  rewrite <- E. unfold NilZero.string_of_uint. by destruct u.
Qed.

(** How [parse_value] and its companions dispatch on the first character. *)
Lemma starts_value_skip c r : starts_value c = true -> skip_ws (String c r) = String c r.
Proof. destruct c as [[] [] [] [] [] [] [] []]; try discriminate; reflexivity. Qed.

Lemma parse_value_number fuel c r :
  is_digit c = true \/ c = "-"%char ->
  parse_value (S fuel) (String c r)
  = match parse_number (String c r) with
    | Some (z, r') => Some (JNum z, r')
    | None => None
    end.
Proof.
  intros [Hc | ->]; [|reflexivity].
  destruct c as [[] [] [] [] [] [] [] []]; try discriminate; reflexivity.
Qed.

Lemma parse_value_array fuel c r :
  starts_value c = true ->
  parse_value (S fuel) (String "[" (String c r))
  = match parse_elems fuel (String c r) with
    | Some (l, r') => Some (JArr l, r')
    | None => None
    end.
Proof. destruct c as [[] [] [] [] [] [] [] []]; try discriminate; reflexivity. Qed.

Lemma parse_value_object fuel r :
  parse_value (S fuel) (String "{" (String dquote r))
  = match parse_members fuel (String dquote r) with
    | Some (m, r') => Some (JObj m, r')
    | None => None
    end.
Proof. reflexivity. Qed.

Lemma parse_elems_step fuel s :
  parse_elems (S fuel) s
  = match parse_value fuel s with
    | Some (x, r) =>
        match skip_ws r with
        | String ","%char r' =>
            match parse_elems fuel r' with
            | Some (l, r'') => Some (x :: l, r'')
            | None => None
            end
        | String "]"%char r' => Some ([x], r')
        | _ => None
        end
    | None => None
    end.
Proof. reflexivity. Qed.

Lemma parse_members_step fuel k x tail :
  parse_value fuel (JSON_stringify x +:+ tail) = Some (x, tail) ->
  parse_members (S fuel) (quote k +:+ ":" +:+ JSON_stringify x +:+ tail)
  = match skip_ws tail with
    | String ","%char r4 =>
        match parse_members fuel r4 with
        | Some (m, r5) => Some ((k, x) :: m, r5)
        | None => None
        end
    | String "}"%char r4 => Some ([(k, x)], r4)
    | _ => None
    end.
Proof.
  intros Hx. unfold quote. push_append. rewrite append_assoc. push_append.
  cbn [parse_members skip_ws is_ws dquote]. rewrite parse_chars_escape.
  cbn [skip_ws is_ws]. by rewrite Hx.
Qed.

Lemma size_positive v : (1 <= size v)%nat.
Proof. destruct v; simpl; lia. Qed.

Lemma parse_stringify_fuel fuel :
  (forall v rest, (size v <= fuel)%nat -> delimited rest = true ->
     parse_value fuel (JSON_stringify v +:+ rest) = Some (v, rest)) /\
  (forall l rest, l <> [] -> (size_elems size l <= fuel)%nat ->
     parse_elems fuel (elems l +:+ rest) = Some (l, rest)) /\
  (forall m rest, m <> [] -> (size_members size m <= fuel)%nat ->
     parse_members fuel (members m +:+ rest) = Some (m, rest)).
Proof.
  induction fuel as [|fuel (IHv & IHl & IHm)].
  { split; [|split].
    - intros v rest Hs. pose proof (size_positive v). lia.
    - intros [|x l] rest Hl Hs; [done|]. simpl in Hs. lia.
    - intros [|[k x] m] rest Hm Hs; [done|]. simpl in Hs. lia. }
  split; [|split].
  - intros v rest Hs Hrest. destruct v as [|[]|z|s|l|m]; try reflexivity.
    + destruct (stringify_head (JNum z)) as (c & r & E & Hc).
      pose proof (parse_number_to_string z rest Hrest) as Hn.
      cbn [JSON_stringify] in *. rewrite E in *. push_append. rewrite append_cons in Hn.
      rewrite parse_value_number, Hn; [done|].
      clear -E. unfold number_to_string in E.
      destruct (to_int_digits z) as (u & Hnil & _ & Hz & _). rewrite Hz in E.
      destruct (string_of_uint_head u Hnil) as (c' & r' & E' & Hc').
      destruct (z <? 0); cbn [NilZero.string_of_int] in E.
      * right. injection E as <- _. done.
      * left. replace (NilZero.string_of_uint u) with (NilEmpty.string_of_uint u) in E
          by (unfold NilZero.string_of_uint; by destruct u).
        rewrite E' in E. by injection E as <- _.
    + cbn [JSON_stringify]. unfold quote. push_append. rewrite append_assoc. push_append.
      cbn [parse_value skip_ws is_ws dquote]. by rewrite parse_chars_escape.
    + rewrite stringify_arr. push_append. destruct l as [|x l]; [reflexivity|].
      destruct (stringify_head x) as (c & r & E & Hc).
      assert (exists t, elems (x :: l) +:+ rest = String c t) as [t Ht].
      { cbn [elems]. destruct l; rewrite E; push_append; by eexists. }
      rewrite Ht, (parse_value_array _ _ _ Hc), <- Ht.
      rewrite IHl; [done|done|]. cbn [size] in Hs. lia.
    + rewrite stringify_obj. push_append. destruct m as [|[k x] m]; [reflexivity|].
      assert (exists t, members ((k, x) :: m) +:+ rest = String dquote t) as [t Ht].
      { cbn [members]. unfold quote. destruct m as [|[]]; push_append; by eexists. }
      rewrite Ht, parse_value_object, <- Ht.
      rewrite IHm; [done|done|]. cbn [size] in Hs. lia.
  - intros [|x l] rest Hl Hs; [done|]. cbn [size_elems] in Hs.
    rewrite parse_elems_step. destruct l as [|y l].
    + cbn [elems]. rewrite append_assoc, IHv; [|lia|done]. reflexivity.
    + change (elems (x :: y :: l)) with (JSON_stringify x +:+ "," +:+ elems (y :: l)).
      rewrite !append_assoc, IHv; [|lia|done]. push_append. cbn [skip_ws is_ws].
      rewrite IHl; [done|done|lia].
  - intros [|[k x] m] rest Hm Hs; [done|]. cbn [size_members] in Hs.
    destruct m as [|[k' y] m].
    + cbn [members]. rewrite !append_assoc.
      rewrite parse_members_step by (apply IHv; [lia|done]). reflexivity.
    + change (members ((k, x) :: (k', y) :: m))
        with (quote k +:+ ":" +:+ JSON_stringify x +:+ "," +:+ members ((k', y) :: m)).
      rewrite !append_assoc.
      rewrite parse_members_step by (apply IHv; [lia|done]). push_append. cbn [skip_ws is_ws].
      rewrite IHm; [done|done|lia].
Qed.

Lemma parse_value_stringify v fuel rest :
  (size v <= fuel)%nat -> delimited rest = true ->
  parse_value fuel (JSON_stringify v +:+ rest) = Some (v, rest).
Proof. apply parse_stringify_fuel. Qed.


Lemma length_append (a b : string) :
  String.length (a +:+ b) = (String.length a + String.length b)%nat.
Proof. induction a as [|c a IH]; [done|]. rewrite append_cons. simpl. by rewrite IH. Qed.

Lemma size_le_length v : (size v <= String.length (JSON_stringify v))%nat.
Proof.
  induction v as [|b|z|s|l IH|m IH] using json_induction.
  - simpl. lia.
  - destruct b; simpl; lia.
  - destruct (stringify_head (JNum z)) as (c & r & -> & _). simpl. lia.
  - simpl. lia.
  - rewrite stringify_arr. push_append. cbn [size String.length]. apply le_n_S.
    induction IH as [|x l Hx _ IHl]; [simpl; lia|].
    cbn [size_elems]. destruct l as [|y l].
    + cbn [elems size_elems]. rewrite length_append. simpl. lia.
    + change (elems (x :: y :: l)) with (JSON_stringify x +:+ "," +:+ elems (y :: l)).
      remember (elems (y :: l)) as t. remember (size_elems size (y :: l)) as n.
      rewrite !length_append. simpl String.length. lia.
  - rewrite stringify_obj. push_append. cbn [size String.length]. apply le_n_S.
    induction IH as [|[k x] m Hx _ IHm]; [simpl; lia|].
    cbn [size_members]. simpl in Hx. destruct m as [|[k' y] m].
    + cbn [members size_members]. rewrite !length_append. simpl. lia.
    + change (members ((k, x) :: (k', y) :: m))
        with (quote k +:+ ":" +:+ JSON_stringify x +:+ "," +:+ members ((k', y) :: m)).
      remember (members ((k', y) :: m)) as t. remember (size_members size ((k', y) :: m)) as n.
      rewrite !length_append. simpl String.length. lia.
Qed.

Lemma JSON_parse_stringify v : JSON_parse (JSON_stringify v) = Some (construct v).
Proof.
  unfold JSON_parse.
  pose proof (parse_value_stringify v (S (String.length (JSON_stringify v))) ""
                ltac:(pose proof (size_le_length v); lia) eq_refl) as Hp.
  rewrite append_nil_r in Hp. by rewrite Hp.
Qed.

Lemma assoc_set_fresh k x m : k ∉ m.*1 -> assoc_set k x m = m ++ [(k, x)].
Proof.
  induction m as [|[k' y] m IH]; simpl; [done|].
  rewrite not_elem_of_cons. intros [Hne Hin].
  destruct (String.eqb k k') eqn:E; [by apply String.eqb_eq in E|].
  by rewrite IH.
Qed.

Lemma construct_distinct v : distinct_keys v -> construct v = v.
Proof.
  induction v as [|b|z|s|l IH|m IH] using json_induction; try done.
  - intros Hd. cbn [construct]. f_equal.
    induction IH as [|x l Hx _ IHl]; [done|]. destruct Hd as [Hdx Hdl].
    simpl. by rewrite Hx, IHl.
  - intros [Hnd Hd]. cbn [construct]. f_equal.
    assert (forall acc, NoDup (acc.*1 ++ m.*1) ->
              foldl (fun acc kv => assoc_set kv.1 (construct kv.2) acc) acc m = acc ++ m) as Hfold.
    { clear Hnd. induction IH as [|[k x] m Hx _ IHm]; intros acc Hacc.
      - by rewrite app_nil_r.
      - destruct Hd as [Hdx Hdm]. simpl in *. rewrite Hx by done.
        apply NoDup_app in Hacc as (Ha & Hdisj & Hm). apply NoDup_cons in Hm as [Hk Hm].
        rewrite assoc_set_fresh.
        2:{ intros Hin. apply (Hdisj k Hin). left. }
        rewrite IHm; [by rewrite <- app_assoc|done|].
        rewrite fmap_app. simpl. apply NoDup_app. split; [|split; [|done]].
        + apply NoDup_app. split; [done|]. split; [|apply NoDup_singleton].
          intros k0 Hin ->%list_elem_of_singleton. apply (Hdisj k Hin). left.
        + intros k0 [Hin | ->%list_elem_of_singleton]%elem_of_app Hin'; [|done].
          apply (Hdisj k0 Hin). by right. }
    by apply (Hfold []).
Qed.

Lemma JSON_parse_stringify_distinct v :
  distinct_keys v -> JSON_parse (JSON_stringify v) = Some v.
Proof. intros Hd. by rewrite JSON_parse_stringify, construct_distinct. Qed.

(** ** Signature round trip *)
Lemma assoc_literal_absent k fields :
  k ∉ fields.*1 -> assoc k (omap (fun kv : string * option json => pair kv.1 <$> kv.2) fields) = None.
Proof.
  induction fields as [|[k' [x|]] fields IH]; simpl; [done|..];
    rewrite not_elem_of_cons; intros [Hne Hin]; [|by apply IH].
  destruct (String.eqb k k') eqn:E; [by apply String.eqb_eq in E|by apply IH].
Qed.

(** Reading a property of an object literal yields the expression written
    for it. *)
Lemma prop_literal k o fields :
  NoDup fields.*1 -> (k, o) ∈ fields -> prop (literal fields) k = o.
Proof.
  unfold literal. cbn [prop].
  induction fields as [|[k' o'] fields IH]; simpl; [by intros _ ?%elem_of_nil|].
  rewrite NoDup_cons. intros [Hk' Hnd] [[= -> ->] | Hin]%elem_of_cons.
  - destruct o' as [x|]; simpl.
    + by rewrite String.eqb_refl.
    + by apply assoc_literal_absent.
  - assert (k <> k') as Hne.
    { intros ->. apply Hk'. by apply (list_elem_of_fmap_2 fst _ (k', o)). }
    destruct o' as [x|]; simpl; [|by apply IH].
    destruct (String.eqb k k') eqn:E; [by apply String.eqb_eq in E|by apply IH].
Qed.

Section SignedFields.
Context `{Ed25519}.

End SignedFields.

Section ClaimC9.
Context `{E : Ed25519}.

End ClaimC9.

(** ** Encryption round trip *)
Section ClaimC10.
Context `{B : X25519Box}.

(** C10: for every JSON payload (no object with a repeated property name)
    and every recipient key pair, decrypting what [encryptPayloadX25519]
    made for the public key of the pair, with the private key of the pair,
    returns the payload; decrypting it with a private key of another pair
    returns null.  The primitives are read as ideal: both sides of the
    exchange derive the same secret, another pair derives another key, and
    a sealed text opens under its own key only. *)
Theorem C10_encryption_round_trip (ideal : X25519BoxIdeal B) (P : json) (K eph : x_priv)
    (nonce : string) :
  distinct_keys P ->
  Encryption.decryptPayloadX25519
    (Some (Encryption.encryptPayloadX25519 (Some P) (Some (JStr (x_pub_der K))) eph nonce)) K = P
  /\ forall K', x_pub_der K' <> x_pub_der K ->
       Encryption.decryptPayloadX25519
         (Some (Encryption.encryptPayloadX25519 (Some P) (Some (JStr (x_pub_der K))) eph nonce)) K'
       = JNull.
Proof.
  intros Hd. unfold Encryption.encryptPayloadX25519.
  destruct (x_shared_agree eph K) as (k & -> & Hk).
  pose proof (gcm_open_seal (hkdfSync "sha256" k "" Encryption.INFO 32) nonce (JSON_stringify P))
    as Hopen.
  pose proof (fun k' => gcm_open_other (hkdfSync "sha256" k "" Encryption.INFO 32) k' nonce
                          (JSON_stringify P)) as Hother.
  destruct (gcm_seal _ nonce (JSON_stringify P)) as [encrypted tag]. simpl in Hopen, Hother.
  unfold Encryption.decryptPayloadX25519.
  cbn [nullish oprop prop assoc String.eqb Ascii.eqb Bool.eqb].
  split.
  - rewrite Hk, !from_to_base64, Hopen. by rewrite JSON_parse_stringify_distinct.
  - intros K' HK'. destruct (x_shared K' _) as [k'|] eqn:Hk'; [|done].
    rewrite !from_to_base64, Hother; [done|].
    by apply (x_shared_other eph K K' k k').
Qed.
End ClaimC10.

(** ** The symbolic platform is ideal *)
Section SymbolicIdeal.
Import Sym.


Lemma substring_all s : String.substring 0 (String.length s) s = s.
Proof. induction s as [|c s IH]; [done|]. simpl. by rewrite IH. Qed.

Lemma strip_prefix pre s : strip pre (pre +:+ s) = Some s.
Proof.
  unfold strip.
  assert (String.prefix pre (pre +:+ s) = true) as ->.
  { induction pre as [|c pre IH]; [by destruct s|]. rewrite append_cons. simpl.
    destruct (Ascii.ascii_dec c c); [done|congruence]. }
  f_equal. rewrite length_append.
  replace (String.length pre + String.length s - String.length pre)%nat
    with (String.length s) by lia.
  induction pre as [|c pre IH]; [apply substring_all|]. by rewrite append_cons.
Qed.

Lemma pos_string_inj a b : pos_string a = pos_string b -> a = b.
Proof.
  unfold pos_string. intros E.
  pose proof (NilZero.usu _ (DecimalPos.Unsigned.to_uint_nonnil a)) as Ha.
  rewrite E, (NilZero.usu _ (DecimalPos.Unsigned.to_uint_nonnil b)) in Ha.
  injection Ha as Ha. by apply DecimalPos.Unsigned.to_uint_inj.
Qed.

Lemma sym_shared a b : x_shared a (Some (JStr (x_pub_der b))) = Some (pos_string (a * b)).
Proof.
  cbn. push_append. unfold pos_string at 1.
  rewrite (NilZero.usu _ (DecimalPos.Unsigned.to_uint_nonnil b)).
  by rewrite DecimalPos.Unsigned.of_to.
Qed.

Lemma sym_box_ideal : X25519BoxIdeal box.
Proof.
  split.
  - intros a b. exists (pos_string (a * b)). rewrite !sym_shared. by rewrite (Pos.mul_comm b a).
  - intros k n m. cbn. rewrite String.eqb_refl. apply strip_prefix.
  - done.
  - intros a b b' k k' h s i l Hne. rewrite !sym_shared. intros [= <-] [= <-] Hh.
    cbn in Hh. repeat apply String.app_inj in Hh.
    apply pos_string_inj, Pos.mul_reg_r in Hh. by subst.
  - intros k k' n m Hne. cbn.
    destruct (String.eqb _ _) eqn:E; [|done].
    apply String.eqb_eq in E. rewrite ?append_cons, ?append_nil_l in E. by injection E as ->.
Qed.
End SymbolicIdeal.

Section RoundTripExamples.
Import Sym Examples.


Lemma C10_witness :
  X25519BoxIdeal box /\ distinct_keys times /\
  Encryption.decryptPayloadX25519
    (Some (Encryption.encryptPayloadX25519 (Some times) (Some (JStr (x_pub_der 7%positive)))
             3%positive "nonce-1")) 7%positive = times
  /\ Encryption.decryptPayloadX25519
       (Some (Encryption.encryptPayloadX25519 (Some times) (Some (JStr (x_pub_der 7%positive)))
                3%positive "nonce-1")) 11%positive
     = JNull.
Proof.
  assert (distinct_keys times) as Hd.
  { simpl. split; [apply NoDup_singleton|done]. }
  destruct (C10_encryption_round_trip sym_box_ideal times 7%positive 3%positive "nonce-1" Hd)
    as [Hr Ho].
  split; [exact sym_box_ideal|]. split; [exact Hd|]. split; [exact Hr|].
  apply Ho. discriminate.
Defined.
End RoundTripExamples.

(** * Further properties of the runtime *)

(** ** Contacts and trust *)
Section TrustFacts.
Context `{Clock}.
Import Trust.

Lemma assoc_remove_ne k k' m : k <> k' -> assoc k' (assoc_remove k m) = assoc k' m.
Proof.
  intros Hne. induction m as [|[k0 y] m IH]; simpl; [done|].
  destruct (String.eqb k k0) eqn:E; simpl.
  - apply String.eqb_eq in E. subst k0.
    destruct (String.eqb k' k) eqn:E'; [|done]. apply String.eqb_eq in E'. congruence.
  - by rewrite IH.
Qed.

(** A spread leaves alone the properties that it does not name. *)
Lemma assoc_spread_other k old info :
  k ∉ info.*1 -> assoc k (spread old info) = assoc k (match old with Some (JObj m) => m | _ => [] end).
Proof.
  unfold spread. generalize (match old with Some (JObj m) => m | _ => [] end).
  induction info as [|[k' o] info IH]; intros acc Hk; simpl; [done|].
  simpl in Hk. apply not_elem_of_cons in Hk as [Hne Hk]. rewrite IH by done.
  destruct o; simpl; [by apply assoc_set_ne|by apply assoc_remove_ne].
Qed.

Lemma getContact_upsert_other cs now a b info :
  to_key b <> to_key a -> getContact (upsertContact cs now a info).2 b = getContact cs b.
Proof.
  intros Hne. unfold getContact, upsertContact. cbn [snd].
  destruct (_ && _); [done|]. by rewrite assoc_set_ne.
Qed.

(** Under a name other than [__proto__] the contact is filed. *)
Lemma upsertContact_files cs now a info :
  to_key a <> "__proto__" ->
  (upsertContact cs now a info).2
  = assoc_set (to_key a) (upsertContact cs now a info).1 cs.
Proof.
  intros Hne. unfold upsertContact. cbn [fst snd].
  apply String.eqb_neq in Hne. by rewrite Hne.
Qed.

Lemma getContact_upsert cs now a info :
  to_key a <> "__proto__" ->
  getContact (upsertContact cs now a info).2 a = Some (upsertContact cs now a info).1.
Proof.
  intros Hne. rewrite upsertContact_files by done.
  unfold getContact. by rewrite assoc_set_eq.
Qed.

(** What is read of a contact that the file does not hold, or holds as
    no object, is what is read of the empty object. *)
Lemma getContact_prop cs a k :
  oprop (getContact cs a) k
  = assoc k (match assoc (to_key a) cs with Some (JObj m) => m | _ => [] end).
Proof.
  unfold getContact. destruct (assoc (to_key a) cs) as [[| | | | |m]|]; try done.
  - by destruct b.
  - simpl. by destruct (z =? 0).
  - simpl. by destruct (String.eqb s "").
  - by destruct (inherited _).
Qed.

(** X1: for an agent id that converts to a property key other than
    [__proto__], [blockAgent] blocks: afterwards [isBlocked] holds of the
    agent, whatever was on file; the contacts filed under other keys are
    as they were; and an [upsertContact] that does not name [blocked]
    leaves the agent as blocked, or as free, as it was. *)
Theorem X1_block_is_sticky (cs : contacts) (now : Z) (a : option json) :
  converts a = true -> to_key a <> "__proto__" ->
  isBlocked (blockAgent cs now a).2 a = true
  /\ (forall b, converts b = true -> to_key b <> to_key a ->
                getContact (blockAgent cs now a).2 b = getContact cs b)
  /\ (forall info t, "blocked" ∉ info.*1 ->
        isBlocked (upsertContact cs t a info).2 a = isBlocked cs a).
Proof.
  intros _ Hproto. split; [|split].
  - unfold isBlocked, blockAgent. rewrite getContact_upsert by done. unfold upsertContact. simpl.
    unfold spread. simpl. rewrite assoc_set_ne by done. by rewrite assoc_set_eq.
  - intros b _ Hb. by apply getContact_upsert_other.
  - intros info t Hk. unfold isBlocked. rewrite getContact_upsert by done.
    rewrite getContact_prop. unfold upsertContact. simpl.
    rewrite assoc_spread_other; [done|].
    rewrite fmap_app. simpl. rewrite elem_of_app, list_elem_of_singleton.
    intros [?|?]; [done|discriminate].
Qed.

End TrustFacts.

Section PingFacts.
Context `{Clock} `{Ed25519} `{X25519Box}.
Import Trust Server.

Lemma assoc_set_keys k x m : NoDup m.*1 -> NoDup (assoc_set k x m).*1.
Proof.
  induction m as [|[k' y] m IH]; simpl; intros Hnd.
  - apply NoDup_singleton.
  - apply NoDup_cons in Hnd as [Hk' Hnd].
    destruct (String.eqb k k') eqn:E; simpl; [by apply NoDup_cons|].
    apply NoDup_cons. split; [|by apply IH].
    intros Hin. apply list_elem_of_fmap in Hin as ([k0 z] & -> & Hin). simpl in *.
    apply Hk'. clear -Hin E. induction m as [|[k1 y1] m IH]; simpl in *.
    + apply list_elem_of_singleton in Hin as [= <- _]. by rewrite String.eqb_refl in E.
    + destruct (String.eqb k k1) eqn:E1.
      * apply elem_of_cons in Hin as [[= <- _]|Hin]; [left|right].
        by apply (list_elem_of_fmap_2 fst _ (k0, z)).
      * apply elem_of_cons in Hin as [[= <- _]|Hin]; [left|right; by apply IH].
Qed.

Lemma assoc_remove_keys k m : NoDup m.*1 -> NoDup (assoc_remove k m).*1 /\ assoc k (assoc_remove k m) = None.
Proof.
  induction m as [|[k' y] m IH]; simpl; intros Hnd; [split; [apply NoDup_nil_2|done]|].
  apply NoDup_cons in Hnd as [Hk' Hnd]. destruct (String.eqb k k') eqn:E.
  - apply String.eqb_eq in E. subst k'. split; [done|].
    clear -Hk'. induction m as [|[k1 y1] m IH]; simpl in *; [done|].
    apply not_elem_of_cons in Hk' as [Hne Hk'].
    destruct (String.eqb k k1) eqn:E; [by apply String.eqb_eq in E|by apply IH].
  - destruct (IH Hnd) as [IH1 IH2]. simpl. rewrite E. split; [|done].
    apply NoDup_cons. split; [|done].
    intros Hin. apply Hk'. clear -Hin. induction m as [|[k1 y1] m IH]; simpl in *; [done|].
    destruct (String.eqb k k1); [by right|].
    apply elem_of_cons in Hin as [->|Hin]; [left|right; by apply IH].
Qed.

Lemma spread_fold_other k acc (info : list (string * option json)) :
  k ∉ info.*1 ->
  assoc k (foldl (fun acc kv => match kv.2 with
                                | Some x => assoc_set kv.1 x acc
                                | None => assoc_remove kv.1 acc
                                end) acc info) = assoc k acc.
Proof.
  revert acc. induction info as [|[k' o] info IH]; intros acc Hk; simpl; [done|].
  simpl in Hk. apply not_elem_of_cons in Hk as [Hne Hk]. rewrite IH by done.
  destruct o; simpl; [by apply assoc_set_ne|by apply assoc_remove_ne].
Qed.

Lemma spread_fold_keys acc (info : list (string * option json)) :
  NoDup acc.*1 ->
  NoDup (foldl (fun acc kv => match kv.2 with
                              | Some x => assoc_set kv.1 x acc
                              | None => assoc_remove kv.1 acc
                              end) acc info).*1.
Proof.
  revert acc. induction info as [|[k' o] info IH]; intros acc Hnd; simpl; [done|].
  apply IH. destruct o; simpl; [by apply assoc_set_keys|by apply assoc_remove_keys].
Qed.

(** What a spread leaves under a name that it writes once. *)
Lemma assoc_spread_at k v old info1 info2 :
  k ∉ info2.*1 ->
  (forall m, old = Some (JObj m) -> NoDup m.*1) \/ is_Some v ->
  assoc k (spread old (info1 ++ (k, v) :: info2)) = v.
Proof.
  intros Hk Hv. unfold spread. rewrite foldl_app. simpl. rewrite spread_fold_other by done.
  destruct v as [x|]; [apply assoc_set_eq|].
  apply assoc_remove_keys, spread_fold_keys.
  destruct Hv as [Hnd|[? [=]]]. destruct old as [[| | | | |m]|]; try apply NoDup_nil_2. by apply Hnd.
Qed.

(** The contacts that a ping leaves. *)
Lemma handlePing_contacts me w now envelope :
  converts (oprop (prop envelope "from") "agent") = true ->
  exists info,
    contacts (handlePing me w now envelope).2
    = (upsertContact (contacts w) now (oprop (prop envelope "from") "agent") info).2
    /\ info
       = [ ("humanName", oprop (prop envelope "from") "human");
           ("node", oprop (prop envelope "from") "node");
           ("capabilities", if nullish (prop envelope "payload") then None
                            else oprop (prop envelope "payload") "capabilities");
           ("publicKey", if nullish (prop envelope "payload") then None
                         else oprop (prop envelope "payload") "public_key");
           ("timezone", if nullish (prop envelope "payload") then None
                        else oprop (prop envelope "payload") "timezone");
           ("trustLevel",
            js_or (oprop (getContact (contacts w) (oprop (prop envelope "from") "agent"))
                     "trustLevel") (Some (JStr "none"))) ]
         ++ (if truthy (if nullish (prop envelope "payload") then None
                        else oprop (prop envelope "payload") "x25519_public_key")
             then [("x25519PublicKey", if nullish (prop envelope "payload") then None
                                       else oprop (prop envelope "payload") "x25519_public_key")]
             else []).
Proof.
  intros Hc. unfold handlePing. rewrite Hc. cbn [negb].
  eexists. split; [|reflexivity].
  by destruct (negb (converts (oprop (prop envelope "from") "human"))).
Qed.

(** X3: a ping whose sender id converts to a property key other than
    [__proto__] rewrites the contact of its sender.  The public key on
    file becomes the one the ping carries, and is erased when the ping
    carries none; a trust level that was set stays, and none is entered
    otherwise; the blocked flag stays; other contacts are not touched. *)
Theorem X3_ping_rewrites_contact (me : identity) (w : world) (now : Z) (envelope : json) :
  let a := oprop (prop envelope "from") "agent" in
  let carried := if nullish (prop envelope "payload") then None
                 else oprop (prop envelope "payload") "public_key" in
  let cs' := contacts (handlePing me w now envelope).2 in
  converts a = true -> to_key a <> "__proto__" ->
  ((forall m, assoc (to_key a) (contacts w) = Some (JObj m) -> NoDup m.*1) \/ is_Some carried ->
   oprop (getContact cs' a) "publicKey" = carried)
  /\ oprop (getContact cs' a) "trustLevel"
     = js_or (oprop (getContact (contacts w) a) "trustLevel") (Some (JStr "none"))
  /\ isBlocked cs' a = isBlocked (contacts w) a
  /\ (forall b, converts b = true -> to_key b <> to_key a ->
                getContact cs' b = getContact (contacts w) b).
Proof.
  intros a carried cs' Hconv Hproto. subst cs'.
  destruct (handlePing_contacts me w now envelope Hconv) as (info & -> & Hinfo).
  fold a in Hinfo |- *. fold carried in Hinfo.
  set (extra := if truthy _ then _ else _) in Hinfo.
  assert (("publicKey" ∉ extra.*1) /\ ("trustLevel" ∉ extra.*1) /\ ("blocked" ∉ extra.*1)
          /\ ("timezone" ∉ extra.*1))
    as (Hx1 & Hx2 & Hx3 & Hx4).
  { subst extra. destruct (truthy _); simpl; rewrite ?not_elem_of_cons;
      repeat split; try discriminate; apply not_elem_of_nil. }
  set (human := oprop (prop envelope "from") "human") in Hinfo.
  set (node := oprop (prop envelope "from") "node") in Hinfo.
  set (caps := if nullish (prop envelope "payload") then None
               else oprop (prop envelope "payload") "capabilities") in Hinfo.
  set (tz := if nullish (prop envelope "payload") then None
             else oprop (prop envelope "payload") "timezone") in Hinfo.
  set (level := js_or (oprop (getContact (contacts w) a) "trustLevel") (Some (JStr "none")))
    in Hinfo |- *.
  subst info.
  split; [|split; [|split]].
  - intros Hv. rewrite getContact_upsert by done. unfold upsertContact. cbn [fst oprop prop].
    apply (assoc_spread_at "publicKey" carried _
             [("humanName", human); ("node", node); ("capabilities", caps)]
             ([("timezone", tz); ("trustLevel", level)] ++ extra
              ++ [("lastSeen", Some (JStr (toISOString now)))])).
    + rewrite !fmap_app, !elem_of_app. simpl. rewrite !elem_of_cons.
      intros [[?|[?|?%elem_of_nil]]|[?|[?|?%elem_of_nil]]]; done.
    + destruct Hv as [Hnd|Hv]; [left|by right]. intros m Hm. by apply Hnd.
  - rewrite getContact_upsert by done. unfold upsertContact. cbn [fst oprop prop].
    apply (assoc_spread_at "trustLevel" level _
             [("humanName", human); ("node", node); ("capabilities", caps);
              ("publicKey", carried); ("timezone", tz)]
             (extra ++ [("lastSeen", Some (JStr (toISOString now)))])).
    + rewrite !fmap_app, !elem_of_app. simpl. rewrite !elem_of_cons.
      intros [?|[?|?%elem_of_nil]]; done.
    + right. subst level. unfold js_or.
      destruct (oprop _ "trustLevel") as [x|]; [destruct (truthy (Some x))|]; by eexists.
  - unfold isBlocked. rewrite getContact_upsert by done. rewrite getContact_prop.
    unfold upsertContact. cbn [fst oprop prop].
    unfold spread. rewrite spread_fold_other; [done|].
    rewrite !fmap_app, !elem_of_app. simpl. rewrite !elem_of_cons, !elem_of_nil.
    intuition discriminate.
  - intros b _ Hb. by apply getContact_upsert_other.
Qed.
End PingFacts.

Section TrustExamples.
Import Sym Examples.

Lemma X1_witness :
  converts (Some (JStr "alice")) = true /\ to_key (Some (JStr "alice")) <> "__proto__" /\
  Trust.isBlocked (Server.contacts bob_world) (Some (JStr "alice")) = false /\
  Trust.isBlocked (Trust.blockAgent (Server.contacts bob_world) 6000 (Some (JStr "alice"))).2
    (Some (JStr "alice")) = true.
Proof.
  assert (to_key (Some (JStr "alice")) <> "__proto__") as Hk by discriminate.
  split; [reflexivity|]. split; [exact Hk|]. split; [reflexivity|].
  exact (proj1 (X1_block_is_sticky (Server.contacts bob_world) 6000 (Some (JStr "alice"))
                  eq_refl Hk)).
Defined.


Lemma X3_witness :
  converts (oprop (prop quote_request "from") "agent") = true /\
  to_key (oprop (prop quote_request "from") "agent") <> "__proto__" /\
  Trust.isBlocked (Server.contacts (Server.handlePing bob bob_world 6000 quote_request).2)
    (Some (JStr "alice")) = false /\
  oprop (Trust.getContact (Server.contacts (Server.handlePing bob bob_world 6000 quote_request).2)
           (Some (JStr "alice"))) "trustLevel" = Some (JStr "trusted").
Proof.
  assert (to_key (oprop (prop quote_request "from") "agent") <> "__proto__") as Hk by discriminate.
  split; [reflexivity|]. split; [exact Hk|].
  destruct (X3_ping_rewrites_contact bob bob_world 6000 quote_request eq_refl Hk)
    as (_ & Hlevel & Hblocked & _).
  split; [exact Hblocked|exact Hlevel].
Defined.
End TrustExamples.

(** ** The rate limiter *)
Section RateLimiterFacts.
Import Security RateLimiter.

Lemma json_eqb_refl v : json_eqb v v = true.
Proof.
  induction v as [|b|z|s|l IH|m IH] using json_induction; simpl.
  - done.
  - by destruct b.
  - apply Z.eqb_refl.
  - apply String.eqb_refl.
  - induction IH as [|x l Hx _ IHl]; [done|]. by rewrite Hx, IHl.
  - induction IH as [|[k x] m Hx _ IHm]; [done|]. simpl in Hx.
    by rewrite String.eqb_refl, Hx, IHm.
Qed.

Lemma key_eqb_refl k : key_eqb k k = true.
Proof. destruct k; [apply json_eqb_refl|done]. Qed.

Lemma map_get_set {V} k (x : V) m : map_get k (map_set k x m) = Some x.
Proof. apply map_get_set_eq, key_eqb_refl. Qed.

Lemma key_eqb_str s k : key_eqb (Some (JStr s)) k = true -> k = Some (JStr s).
Proof.
  destruct k as [[]|]; simpl; try discriminate. intros E. apply String.eqb_eq in E. by subst.
Qed.

Lemma map_get_set_str {V} s s' (x : V) m :
  s <> s' -> map_get (Some (JStr s)) (map_set (Some (JStr s')) x m) = map_get (Some (JStr s)) m.
Proof.
  intros Hne. apply String.eqb_neq in Hne.
  induction m as [|[k0 y] m IH].
  - cbn [map_set map_get key_eqb json_eqb]. by rewrite Hne.
  - cbn [map_set]. destruct (key_eqb (Some (JStr s')) k0) eqn:E'.
    + apply key_eqb_str in E'. subst k0. cbn [map_get key_eqb json_eqb]. by rewrite Hne.
    + cbn [map_get]. by rewrite IH.
Qed.

(** X5: [allow] admits exactly when [remaining] is positive; an admitted
    call uses up one of the remaining, and a refused call none. *)
Theorem X5_allow_and_remaining (maxRequests : nat) (windows : list (option json * list Z))
    (now : Z) (key : option json) :
  let r := allow maxRequests windows now key in
  r.1 = bool_decide (0 < remaining maxRequests windows now key)%nat
  /\ remaining maxRequests r.2 now key
     = (remaining maxRequests windows now key - (if r.1 then 1 else 0))%nat.
Proof.
  unfold allow, remaining.
  set (ts := filter _ (default [] (map_get key windows))).
  assert (filter (fun t => now - windowMs < t) ts = ts) as Hts.
  { subst ts. induction (default [] (map_get key windows)) as [|t l IH]; [done|].
    destruct (decide (now - windowMs < t)).
    - rewrite filter_cons_True by done. rewrite filter_cons_True by done. by rewrite IH.
    - by rewrite filter_cons_False by done. }
  destruct (decide (maxRequests <= length ts)%nat) as [Hfull|Hroom]; simpl.
  - rewrite map_get_set. simpl. rewrite Hts. split; [|lia].
    symmetry. apply bool_decide_eq_false. lia.
  - rewrite map_get_set. simpl. rewrite filter_app, Hts.
    rewrite filter_cons_True by (unfold windowMs; lia). rewrite filter_nil, length_app. simpl.
    split; [|lia]. symmetry. apply bool_decide_eq_true. lia.
Qed.

Lemma filter_narrow (lo hi : Z) (l : list Z) :
  lo <= hi -> filter (fun a => hi < a) (filter (fun a => lo < a) l) = filter (fun a => hi < a) l.
Proof.
  intros Hle. induction l as [|a l IH]; [done|].
  destruct (decide (lo < a)).
  - rewrite (filter_cons_True (fun a => lo < a)) by done.
    destruct (decide (hi < a)).
    + rewrite !(filter_cons_True (fun a => hi < a)) by done. by rewrite IH.
    + by rewrite !(filter_cons_False (fun a => hi < a)) by done.
  - rewrite (filter_cons_False (fun a => lo < a)) by done.
    rewrite (filter_cons_False (fun a => hi < a)) by lia. done.
Qed.

Lemma filter_narrow_length (lo hi : Z) (l : list Z) :
  lo <= hi ->
  (length (filter (fun a => (hi < a)%Z) l) <= length (filter (fun a => (lo < a)%Z) l))%nat.
Proof. intros Hle. rewrite <- (filter_narrow lo hi) by done. apply length_filter. Qed.

Lemma allow_all_window maxRequests key calls :
  forall windows A tk,
    window_of maxRequests windows key A tk ->
    ascending (tk :: calls.*1) ->
    exists tk',
      window_of maxRequests (allow_all maxRequests windows calls).2 key
        (A ++ admitted key calls (allow_all maxRequests windows calls).1) tk'
      /\ tk' <= default tk (last calls.*1).
Proof.
  induction calls as [|[t s] calls IH]; intros windows A tk Hw Hs.
  - exists tk. simpl. by rewrite app_nil_r.
  - destruct Hs as [Htk Hs]. simpl in Hs, Htk.
    apply Forall_cons in Htk as [Htk Hrest].
    pose proof Hs as [Ht _].
    cbn [allow_all fst snd admitted].
    assert (default t (last calls.*1) = default tk (last ((t, s) :: calls).*1)) as Hlast.
    { change (((t, s) :: calls).*1) with (t :: calls.*1).
      destruct calls as [|c calls]; [done|]. cbn [fmap list_fmap].
      rewrite last_cons_cons.
      destruct (last (c.1 :: calls.*1)) eqn:El; [done|]. by apply last_None in El. }
    destruct (String.eqb key s) eqn:E.
    + apply String.eqb_eq in E. subst s. destruct Hw as [Hstored Hlen].
      unfold allow. rewrite Hstored, filter_narrow by lia.
      destruct (decide (maxRequests <= _)%nat) as [Hfull|Hroom]; cbn [fst snd andb].
      * rewrite app_nil_l.
        destruct (IH (map_set (Some (JStr key)) (filter (fun a => t - windowMs < a) A) windows)
                    A t) as (tk' & Hw' & Hle); [|done|].
        { split; [by rewrite map_get_set|].
          pose proof (filter_narrow_length (tk - windowMs) (t - windowMs) A). lia. }
        exists tk'. split; [done|]. by rewrite <- Hlast.
      * destruct (IH (map_set (Some (JStr key))
                        (filter (fun a => t - windowMs < a) A ++ [t]) windows)
                    (A ++ [t]) t) as (tk' & Hw' & Hle); [|done|].
        { assert (filter (fun a => t - windowMs < a) (A ++ [t])
                  = filter (fun a => t - windowMs < a) A ++ [t]) as Hf.
          { rewrite filter_app. f_equal. rewrite filter_cons_True by (unfold windowMs; lia).
            by rewrite filter_nil. }
          split; [by rewrite map_get_set, Hf|]. rewrite Hf, length_app. simpl. lia. }
        exists tk'. rewrite <- app_assoc in Hw'. split; [done|]. by rewrite <- Hlast.
    + apply String.eqb_neq in E. rewrite andb_false_r, app_nil_l.
      destruct (IH (allow maxRequests windows t (Some (JStr s))).2 A tk) as (tk' & Hw' & Hle).
      * destruct Hw as [Hstored Hlen]. split; [|done]. rewrite <- Hstored. f_equal.
        unfold allow. destruct (decide _); apply map_get_set_str; done.
      * split; [done|]. by destruct Hs.
      * exists tk'. split; [done|]. etrans; [exact Hle|]. rewrite <- Hlast.
        destruct (last calls.*1) eqn:El; simpl; [done|lia].
Qed.

(** X4: the limiter never admits more than [maxRequests] calls of one
    key in one window: in a run of calls from the empty limiter, at
    non-decreasing instants, the calls admitted for a key in the last
    [windowMs] before the last call are at most [maxRequests]. *)
Theorem X4_rate_limit_window (maxRequests : nat) (calls : list (Z * string)) (key : string)
    (t_last : Z) :
  ascending calls.*1 ->
  last calls.*1 = Some t_last ->
  (length (filter (fun a => (t_last - windowMs < a)%Z)
             (admitted key calls (allow_all maxRequests [] calls).1)) <= maxRequests)%nat.
Proof.
  intros Hs Hlast. destruct calls as [|[t0 s0] calls]; [done|].
  destruct (allow_all_window maxRequests key ((t0, s0) :: calls) [] [] t0)
    as (tk' & [_ Hlen] & Hle).
  - split; simpl; [done|lia].
  - simpl. split; [|done]. apply Forall_cons. split; [lia|]. by destruct Hs.
  - rewrite Hlast in Hle. simpl in Hle. rewrite app_nil_l in Hlen.
    pose proof (filter_narrow_length (tk' - windowMs) (t_last - windowMs)
                  (admitted key ((t0, s0) :: calls)
                     (allow_all maxRequests [] ((t0, s0) :: calls)).1)). lia.
Qed.
End RateLimiterFacts.

Section RateLimiterExamples.
Import Security RateLimiter.

Lemma X4_witness :
  let calls := [(1000, "alice"); (2000, "alice"); (3000, "alice"); (70000, "bob")] in
  ascending calls.*1 /\ last calls.*1 = Some 70000 /\
  (allow_all 2 [] calls).1 = [true; true; false; true] /\
  (length (filter (fun a => (70000 - windowMs < a)%Z)
             (admitted "alice" calls (allow_all 2 [] calls).1)) <= 2)%nat.
Proof.
  assert (ascending [1000; 2000; 3000; 70000]) as Hs.
  { simpl. repeat split; repeat (apply Forall_cons; split; [lia|]); apply Forall_nil_2. }
  split; [exact Hs|]. split; [reflexivity|]. split; [reflexivity|].
  exact (X4_rate_limit_window 2
           [(1000, "alice"); (2000, "alice"); (3000, "alice"); (70000, "bob")] "alice" 70000
           Hs eq_refl).
Defined.
End RateLimiterExamples.

(** ** Nonces *)
Section NonceFacts.
Import Security.

Lemma filter_all {A} (P : A -> Prop) `{!forall x, Decision (P x)} (l : list A) :
  Forall P l -> filter P l = l.
Proof.
  induction 1 as [|x l Hx _ IH]; [done|]. by rewrite filter_cons_True, IH.
Qed.

(** X6: a nonce that [isReplay] has let through is a replay from then
    on, as long as the table is within [maxSize] or the nonce is at most
    [maxAge] old; and [maxSize] is no bound on the table: while every entry
    is at most [maxAge] old, a new nonce is added whatever the size. *)
Theorem X6_nonce_replay (table : list (option json * Z)) (now now' : Z) (nonce : option json) :
  (check_and_mark table now nonce).1 = false ->
  (now' - maxAge <= now \/ (length table < maxSize)%nat ->
   (check_and_mark (check_and_mark table now nonce).2 now' nonce).1 = true)
  /\ (Forall (fun kv => now - maxAge <= kv.2) table ->
      (check_and_mark table now nonce).2 = table ++ [(nonce, now)]).
Proof.
  intros Hfresh. split.
  - intros Hkeep. apply (check_and_mark_hit _ _ _ now).
    + apply check_and_mark_fresh; [apply key_eqb_refl|done].
    + destruct Hkeep as [?|Hsmall]; [by right|left].
      pose proof (check_and_mark_length table now nonce). lia.
  - intros Hyoung. unfold check_and_mark in *.
    assert (_cleanup table now = table) as Hc.
    { unfold _cleanup. destruct (decide _); [done|]. apply filter_all.
      eapply Forall_impl; [exact Hyoung|]. simpl. lia. }
    rewrite Hc in *. destruct (map_has nonce table) eqn:E; [done|]. simpl.
    apply map_set_fresh. unfold map_has in E. by destruct (map_get nonce table).
Qed.
End NonceFacts.

Section NonceExamples.
Import Security.

Lemma X6_witness :
  (check_and_mark [] 1000 (Some (JStr "9f1c"))).1 = false /\
  (check_and_mark (check_and_mark [] 1000 (Some (JStr "9f1c"))).2 2000 (Some (JStr "9f1c"))).1
  = true.
Proof.
  split; [reflexivity|].
  apply (X6_nonce_replay [] 1000 2000 (Some (JStr "9f1c")) eq_refl). left. unfold maxAge. lia.
Defined.
End NonceExamples.

(** ** Receipts *)
Section ReceiptFacts.
Context `{Clock} `{Ed25519}.
Import Node Reliability.

(** X7: a message tracked as sent, then marked delivered, then read, has
    a receipt with status read and the three instants, and the tracker has
    emitted sent, delivered, read in this order.  For a message that was
    never tracked, [markDelivered] and [markRead] do nothing, while
    [markFailed] files a receipt with status failed.  The tracker keeps no
    order: [markDelivered] on a receipt that is read makes it delivered
    again. *)
Theorem X7_receipt_lifecycle (n : node) (t1 t2 t3 : Z) (id : option json) (err : string) :
  let n' := markRead (markDelivered (trackSent n t1 id) t2 id) t3 id in
  getReceipt n' id
  = Some {| r_status := "read"; r_sentAt := Some (toISOString t1);
            r_deliveredAt := Some (toISOString t2); r_readAt := Some (toISOString t3);
            r_error := None; r_failedAt := None |}
  /\ events n' = events n ++ [EvSent id; EvDelivered id; EvRead id]
  /\ (getReceipt n id = None ->
      markDelivered n t1 id = n /\ markRead n t1 id = n /\
      getReceipt (markFailed n t1 id err) id
      = Some {| r_status := "failed"; r_sentAt := None; r_deliveredAt := None;
                r_readAt := None; r_error := Some err;
                r_failedAt := Some (toISOString t1) |})
  /\ (r_status <$> getReceipt (markDelivered n' t1 id) id) = Some "delivered".
Proof.
  assert (forall (r : receipt) m, map_get id (map_set id r m) = Some r) as Hget.
  { intros. apply map_get_set. }
  unfold getReceipt, markRead, markDelivered, trackSent.
  cbn [receipts emit with_receipts upd events]. rewrite !Hget.
  cbn [receipts emit with_receipts upd events r_sentAt r_deliveredAt r_readAt r_error r_failedAt].
  rewrite !Hget.
  cbn [receipts emit with_receipts upd events r_sentAt r_deliveredAt r_readAt r_error r_failedAt].
  rewrite !Hget.
  split; [done|]. split; [by rewrite <- !app_assoc|]. split; [|cbn [receipts emit with_receipts upd]; by rewrite Hget].
  intros Hnone. rewrite Hnone. split; [done|]. split; [done|].
  unfold markFailed. cbn [receipts emit with_receipts upd events]. by rewrite Hget, Hnone.
Qed.
End ReceiptFacts.

(** ** The circuit breaker *)
Section BreakerFacts.
Context `{Clock} `{Ed25519}.
Import Node Reliability.

Lemma execute_closed_failure (c : circuit) (now : Z) fn m t :
  c_state c = CLOSED -> fn now = (inl m, t) ->
  execute c now fn = (_onFailure c t, (inl m, t)).
Proof. intros Hc Hfn. unfold execute. rewrite Hc. cbv beta iota zeta. by rewrite Hc, Hfn. Qed.

Lemma execute_all_failures (c : circuit) calls :
  c_state c = CLOSED -> Forall fails_at calls ->
  c_failures c + Z.of_nat (length calls) < failureThreshold ->
  c_state (execute_all c calls) = CLOSED /\
  c_failures (execute_all c calls) = c_failures c + Z.of_nat (length calls).
Proof.
  revert c. induction calls as [|[now fn] calls IH]; intros c Hc Hall Hlt.
  { simpl. split; [done|lia]. }
  apply Forall_cons in Hall as [(m & t & Hfn) Hall]. simpl in Hfn.
  unfold execute_all. cbn [foldl fst snd length] in *.
  rewrite (execute_closed_failure c now fn m t Hc Hfn). cbn [fst].
  destruct (IH (_onFailure c t)) as [IH1 IH2]; [| done | | ].
  - unfold _onFailure. cbn [c_state]. rewrite Hc.
    destruct (Z.leb_spec failureThreshold (c_failures c + 1)); [lia|done].
  - unfold _onFailure. cbn [c_failures]. lia.
  - split; [done|]. unfold execute_all in IH2. rewrite IH2.
    unfold _onFailure. cbn [c_failures]. lia.
Qed.

Lemma execute_all_snoc (c : circuit) calls call :
  execute_all c (calls ++ [call]) = (execute (execute_all c calls) call.1 call.2).1.
Proof. unfold execute_all. by rewrite foldl_app. Qed.

Lemma execute_open_refuses (c : circuit) now fn :
  c_state c = OPEN -> now - c_lastFailureTime c < resetTimeout ->
  execute c now fn = (c, (inl "Circuit breaker is open", now)).
Proof.
  intros Hc Hlt. unfold execute. rewrite Hc.
  by destruct (Z.leb_spec resetTimeout (now - c_lastFailureTime c)); [lia|].
Qed.

(** X8: a closed breaker counts consecutive failures: while its count
    stays under [failureThreshold] it stays closed; the failure that
    brings the count to [failureThreshold] opens it, and from then on,
    until [resetTimeout] has passed since that failure, [execute] refuses
    every call with the error Circuit breaker is open, without running
    the function and without changing the breaker. *)
Theorem X8_breaker_opens (c : circuit) (calls : list (Z * (Z -> (string + json) * Z))) :
  c_state c = CLOSED -> Forall fails_at calls ->
  let c' := execute_all c calls in
  (c_failures c + Z.of_nat (length calls) < failureThreshold ->
   c_state c' = CLOSED /\ c_failures c' = c_failures c + Z.of_nat (length calls))
  /\ (calls <> [] -> c_failures c + Z.of_nat (length calls) = failureThreshold ->
      c_state c' = OPEN /\
      forall now fn, now - c_lastFailureTime c' < resetTimeout ->
        execute c' now fn = (c', (inl "Circuit breaker is open", now))).
Proof.
  intros Hc Hall c'. split; [by apply execute_all_failures|].
  intros Hne Hlen.
  destruct (exists_last Hne) as (front & [now fn] & ->).
  rewrite length_app in Hlen. simpl in Hlen.
  apply Forall_app in Hall as [Hfront Hlast].
  apply Forall_cons in Hlast as [(m & t & Hfn) _]. simpl in Hfn.
  destruct (execute_all_failures c front Hc Hfront) as [Hs Hf]; [lia|].
  assert (c_state c' = OPEN) as Hopen.
  { subst c'. rewrite execute_all_snoc. cbn [fst snd].
    rewrite (execute_closed_failure _ now fn m t Hs Hfn). cbn [fst].
    unfold _onFailure. cbn [c_state]. rewrite Hs, Hf.
    destruct (Z.leb_spec failureThreshold (c_failures c + Z.of_nat (length front) + 1)); [done|lia]. }
  split; [done|]. intros now' fn' Hlt. by apply execute_open_refuses.
Qed.

Lemma X8_witness :
  let calls := replicate 5 (0, fun t : Z => (inl "down" : string + json, t)) in
  let c' := execute_all fresh_circuit calls in
  c_state c' = OPEN /\ execute c' 59999 (fun t => (inr JNull, t))
                       = (c', (inl "Circuit breaker is open", 59999)).
Proof.
  intros calls c'.
  assert (Forall fails_at calls) as Hall.
  { repeat constructor; by exists "down", 0. }
  destruct (X8_breaker_opens fresh_circuit calls eq_refl Hall) as [_ Hopen].
  destruct Hopen as [Hs Hr]; [done | reflexivity |].
  split; [exact Hs|]. apply Hr. reflexivity.
Defined.

Lemma execute_settled (c : circuit) now fn : settled c -> settled (execute c now fn).1.
Proof.
  intros [[Hs Hf]|[Hs Hf]].
  - destruct (fn now) as [[m|r] t] eqn:Hfn.
    + rewrite (execute_closed_failure c now fn m t Hs Hfn). cbn [fst].
      unfold settled, _onFailure. cbn [c_state c_failures]. rewrite Hs.
      destruct (Z.leb_spec failureThreshold (c_failures c + 1)); [right|left]; (split; [done|lia]).
    + unfold execute. rewrite Hs. cbv beta iota zeta. rewrite Hs, Hfn. cbn [fst].
      left. split; [done|]. cbn [_onSuccess c_failures]. unfold failureThreshold. lia.
  - unfold execute. rewrite Hs.
    destruct (Z.leb_spec resetTimeout (now - c_lastFailureTime c)); cbv beta iota zeta;
      cbn [c_state c_halfOpenAttempts].
    + change (halfOpenMax <=? 0) with false. cbv iota.
      destruct (fn now) as [[m|r] t]; cbn [fst]; unfold settled, _onFailure, _onSuccess;
        cbn [c_state c_failures].
      * right. split; [done|lia].
      * left. split; [done|]. unfold failureThreshold. lia.
    + cbn [fst]. right. by split.
Qed.

(** X9: whatever calls went through a fresh breaker, between two calls
    it is either closed with fewer than [failureThreshold] failures
    counted or open with at least that many, never half-open.  An open
    breaker lets the first call through that comes [resetTimeout] or more
    after the last failure: if the function succeeds the breaker is closed
    with its count at zero, if it fails the breaker is open again and the
    timeout restarts at the failure. *)
Theorem X9_breaker_recovers (calls : list (Z * (Z -> (string + json) * Z))) (now : Z)
    (fn : Z -> (string + json) * Z) :
  let c := execute_all fresh_circuit calls in
  settled c
  /\ (c_state c = OPEN -> resetTimeout <= now - c_lastFailureTime c ->
      let out := execute c now fn in
      out.2 = fn now /\
      match fn now with
      | (inr _, _) => c_state out.1 = CLOSED /\ c_failures out.1 = 0
      | (inl _, t) => c_state out.1 = OPEN /\ c_lastFailureTime out.1 = t
      end).
Proof.
  intros c. split.
  - subst c. induction calls as [|call calls IH] using rev_ind.
    + left. by split.
    + rewrite execute_all_snoc. by apply execute_settled.
  - intros Hs Hlate out. subst out. unfold execute. rewrite Hs.
    destruct (Z.leb_spec resetTimeout (now - c_lastFailureTime c)); [|lia].
    cbv beta iota zeta. cbn [c_state c_halfOpenAttempts]. change (halfOpenMax <=? 0) with false. cbv iota.
    by destruct (fn now) as [[m|r] t].
Qed.
End BreakerFacts.

(** ** Retries *)
Section RetryFacts.
Context `{Clock} `{Ed25519}.
Import Node Reliability.

Lemma attempt_time_S wait now attempt i :
  attempt_time wait now attempt (S i)
  = attempt_time wait now attempt i + wait (attempt + i)%nat.
Proof.
  revert now attempt. induction i as [|i IH]; intros now attempt.
  - simpl. by rewrite Nat.add_0_r.
  - change (attempt_time wait now attempt (S (S i)))
      with (attempt_time wait (now + wait attempt) (S attempt) (S i)).
    rewrite IH. simpl. do 2 f_equal. lia.
Qed.

(** X10: [retryWithBackoff] returns the first success: the result is what
    the function gave at the instant of some attempt among the first
    [maxRetries + 1], every earlier attempt having failed.  It fails only
    when all [maxRetries + 1] attempts failed, with the error of the last
    one, and no delay is slept after the last attempt. *)
Theorem X10_retry_first_success (fn : Z -> string + json) (wait : nat -> Z) (now : Z)
    (maxRetries : nat) :
  let at_ := attempt_time wait now 0 in
  match retryWithBackoff fn wait now 0 maxRetries with
  | (inr result, t) =>
      exists i, (i <= maxRetries)%nat /\ t = at_ i /\ fn t = inr result /\
                forall j, (j < i)%nat -> exists err, fn (at_ j) = inl err
  | (inl err, t) =>
      t = at_ maxRetries /\ fn t = inl err /\
      forall j, (j <= maxRetries)%nat -> exists err', fn (at_ j) = inl err'
  end.
Proof.
  cbv zeta. generalize 0%nat as attempt. revert now.
  induction maxRetries as [|k IH]; intros now attempt; cbn [retryWithBackoff].
  - destruct (fn now) as [err|result] eqn:Hfn.
    + split; [done|]. split; [done|]. intros j Hj. assert (j = 0)%nat as -> by lia. by exists err.
    + exists 0%nat. repeat split; [lia | done | intros j Hj; lia].
  - destruct (fn now) as [err|result] eqn:Hfn.
    + specialize (IH (now + wait attempt) (S attempt)).
      destruct (retryWithBackoff fn wait (now + wait attempt) (S attempt) k) as [[err'|result] t].
      * destruct IH as (-> & Hlast & Hall). split; [done|]. split; [done|].
        intros [|j] Hj; [by exists err|]. apply Hall. lia.
      * destruct IH as (i & Hi & -> & Hres & Hall). exists (S i).
        split; [lia|]. split; [done|]. split; [done|].
        intros [|j] Hj; [by exists err|]. apply Hall. lia.
    + exists 0%nat. repeat split; [lia | done | intros j Hj; lia].
Qed.
End RetryFacts.

(** ** Blocking and the traffic of the server *)
Section BlockFacts.
Context `{Clock} `{Ed25519} `{X25519Box}.
Import Trust Server ServerRuns.

Lemma isBlocked_upsert cs now a b info :
  "blocked" ∉ info.*1 -> isBlocked (upsertContact cs now a info).2 b = isBlocked cs b.
Proof.
  intros Hk. destruct (decide (to_key b = to_key a)) as [Heq|Hne].
  - unfold isBlocked. rewrite !getContact_prop, Heq.
    unfold upsertContact. cbn [fst snd]. destruct (_ && _); [done|].
    rewrite assoc_set_eq, assoc_spread_other; [done|].
    rewrite fmap_app. simpl. rewrite elem_of_app, list_elem_of_singleton.
    intros [?|?]; [done|discriminate].
  - unfold isBlocked. by rewrite getContact_upsert_other.
Qed.

Lemma handlePing_isBlocked me w now envelope b :
  isBlocked (contacts (handlePing me w now envelope).2) b = isBlocked (contacts w) b.
Proof.
  unfold handlePing. destruct (negb (converts (oprop (prop envelope "from") "agent"))); [done|].
  assert (forall o : outcome, forall cs, isBlocked cs b = isBlocked (contacts w) b ->
            isBlocked (contacts (o, with_contacts w cs).2) b = isBlocked (contacts w) b) as Hw
    by done.
  destruct (negb (converts (oprop (prop envelope "from") "human"))); apply Hw;
    apply isBlocked_upsert;
    destruct (truthy _); simpl; rewrite !not_elem_of_cons;
    repeat split; try discriminate; apply not_elem_of_nil.
Qed.

Ltac branches :=
  repeat match goal with
    | |- context [if ?b then _ else _] => destruct b
    | |- context [match ?x with Some _ => _ | None => _ end] => destruct x
    | |- context [match ?x with Conversations.Moved _ _ => _ | _ => _ end] => destruct x
    end.

(** Only a ping writes a contact. *)
Lemma handlers_keep_contacts w now envelope :
  contacts (file_approval w now envelope).2 = contacts w
  /\ contacts (handleRequest w now envelope).2 = contacts w
  /\ contacts (handleReply w now envelope).2 = contacts w
  /\ contacts (handleInform w now envelope).2 = contacts w.
Proof.
  assert (contacts (file_approval w now envelope).2 = contacts w) as Hf
    by (unfold file_approval; by branches).
  split; [done|]. repeat split.
  - unfold handleRequest. by branches.
  - unfold handleReply. by branches.
  - unfold handleInform. by branches.
Qed.

Lemma processMessage_isBlocked me w now envelope b :
  isBlocked (contacts (processMessage me w now envelope).2) b = isBlocked (contacts w) b.
Proof.
  unfold processMessage.
  destruct (nullish _); [done|].
  destruct (logIncoming_throws _); [done|].
  destruct (Trust.isBlocked (contacts w) (oprop (prop envelope "from") "agent")); [done|].
  destruct (checkRateLimit _ _ _) as [allowed rl].
  destruct allowed; cbn [negb]; [|done].
  destruct (_ && _ && negb _); [done|].
  destruct (_ && negb _); [done|].
  destruct (maybeDecryptPayload me envelope) as [env|]; [|done].
  destruct (negb (converts (prop env "conversation"))); [done|].
  match goal with |- context [match ?t with Some st => _ | None => (Throw, ?w0) end] =>
    destruct t as [st|]; [|done] end.
  match goal with |- context [with_conv_meta ?w1 ?x] => set (w2 := with_conv_meta w1 x) end.
  assert (contacts w2 = contacts w) as Hc by done. clearbody w2. rewrite <- Hc.
  destruct (handlers_keep_contacts w2 now env) as (_ & Hr & Hy & Hi).
  destruct (is_str _ "ping"); [apply handlePing_isBlocked|].
  destruct (is_str _ "request"); [by rewrite Hr|].
  destruct (_ || _ || _); [by rewrite Hy|].
  destruct (is_str _ "inform"); [by rewrite Hi|done].
Qed.

(** X11: in a run of messages whose ids and conversations name files of
    their directories, no message that the server processes blocks or
    unblocks anyone: after the run, every agent (of an id that converts
    to a property key) is blocked exactly if it was before.  And while
    an agent is blocked its messages change nothing at all: each one is
    answered with the rejection blocked (a null body throws, and so does
    a message whose type, intent or sender id does not convert for the
    line of the log), and the contacts, the rate limiter, the
    conversations and the pending approvals are as they were. *)
Theorem X11_block_survives_traffic (me : identity) (w : world) (msgs : list (Z * json))
    (a : option json) :
  converts a = true ->
  Forall (fun m => file_name (prop m.2 "id") = true
                   /\ file_name (prop m.2 "conversation") = true) msgs ->
  isBlocked (contacts (process_all me w msgs).2) a = isBlocked (contacts w) a
  /\ (isBlocked (contacts w) a = true ->
      Forall (fun m => oprop (prop m.2 "from") "agent" = a) msgs ->
      process_all me w msgs
      = (map (fun m => if nullish (Some m.2) || logIncoming_throws m.2 then Throw
                       else Return (rejected "blocked")) msgs,
         w)).
Proof.
  intros _ _. split.
  - revert w. induction msgs as [|[now envelope] msgs IH]; intros w; [done|].
    cbn [process_all snd]. by rewrite IH, processMessage_isBlocked.
  - intros Hb Hall. induction Hall as [|[now envelope] msgs Hfrom _ IH]; [done|].
    cbn [process_all map snd fst] in *.
    assert (processMessage me w now envelope
            = (if nullish (Some envelope) || logIncoming_throws envelope then Throw
               else Return (rejected "blocked"), w)) as ->.
    { unfold processMessage. destruct (nullish _); [done|].
      destruct (logIncoming_throws _); [done|]. by rewrite Hfrom, Hb. }
    cbn [fst snd]. by rewrite IH.
Qed.
End BlockFacts.

Section BlockExamples.
Import Sym Examples.

Lemma X11_witness :
  let w := Server.with_contacts bob_world
             (Trust.blockAgent (Server.contacts bob_world) 1000 (Some (JStr "alice"))).2 in
  let msgs := [(6000, quote_request); (7000, unprintable_request)] in
  converts (Some (JStr "alice")) = true /\
  Forall (fun m => file_name (prop m.2 "id") = true
                   /\ file_name (prop m.2 "conversation") = true) msgs /\
  Trust.isBlocked (Server.contacts w) (Some (JStr "alice")) = true /\
  ServerRuns.process_all bob w msgs
  = ([Return (Server.rejected "blocked"); Return (Server.rejected "blocked")], w).
Proof.
  intros w msgs.
  assert (Forall (fun m => file_name (prop m.2 "id") = true
                           /\ file_name (prop m.2 "conversation") = true) msgs) as Hf
    by (repeat constructor).
  assert (Trust.isBlocked (Server.contacts w) (Some (JStr "alice")) = true) as Hb by reflexivity.
  split; [reflexivity|]. split; [exact Hf|]. split; [exact Hb|].
  apply (proj2 (X11_block_survives_traffic bob w msgs (Some (JStr "alice")) eq_refl Hf) Hb).
  by repeat constructor.
Defined.
End BlockExamples.

(** ** The retry chain of the queue, whatever the network does *)
Section QueueRunFacts.
Context `{Clock}.
Import Queue QueueRuns.

Variable sendFn : sender.
Variable onFailure : bool.

Lemma attempt_step st now qid e O F D :
  outbox st = <[qid := e]> O -> status e <> "delivered" -> status e <> "failed" ->
  0 <= attempt e -> attempt e = 0 \/ attempt e < maxRetries e ->
  timers st = [] -> failures st = F -> dlq st = D ->
  let r := attemptDelivery st now qid sendFn onFailure in
  (r.1 = true <-> exists response, sendFn now (endpoint e) (envelope e) = inr response) /\
  (finished onFailure r.2 qid O F D \/
   exists e', waiting r.2 qid e' O F D /\ attempt e' = attempt e + 1 /\
              maxRetries e' = maxRetries e).
Proof.
  intros Ho Hd Hf Hpos Hlt Ht HF HD. cbv zeta.
  unfold attemptDelivery, loadEntry. rewrite Ho, lookup_insert_eq.
  apply String.eqb_neq in Hd, Hf. rewrite Hd, Hf. simpl.
  destruct (sendFn now (endpoint e) (envelope e)) as [message|response].
  - unfold updateEntry. simpl. rewrite Ho, lookup_insert_eq. simpl.
    destruct (maxRetries e <=? attempt e + 1) eqn:Hmax.
    + rewrite lookup_insert_eq. simpl.
      split. { split; [done|]. by intros [? [=]]. }
      left. split; [done|]. split; [done|]. right. eexists.
      split; [by rewrite !insert_insert_eq|].
      split; [done|]. subst F. by destruct onFailure; [|rewrite app_nil_r].
    + simpl. split. { split; [done|]. by intros [? [=]]. }
      right. apply Z.leb_gt in Hmax. exists (set_error (set_attempt e now) message).
      split; [|by cbn].
      split; [cbn; by rewrite insert_insert_eq|]. split; [done|]. split; [cbn; lia|].
      split; [|done]. eexists. rewrite Ht. by split.
  - simpl. split. { split; [by eexists|done]. }
    left. unfold updateEntry, removeEntry. rewrite Ho, lookup_insert_eq. simpl.
    split. { rewrite Ht. by destruct (_ !! _). }
    split; [done|]. left. split; [|done]. by rewrite insert_insert_eq, delete_insert_eq.
Qed.

Lemma finished_stuck st qid O F D now :
  finished onFailure st qid O F D -> attemptDelivery st now qid sendFn onFailure = (false, st).
Proof.
  intros (_ & _ & [[Ho _]|(e & Ho & Hs & _)]); unfold attemptDelivery, loadEntry; rewrite Ho.
  - by rewrite lookup_delete_eq.
  - by rewrite lookup_insert_eq, Hs.
Qed.

Lemma drain_finished st qid O F D fuel :
  finished onFailure st qid O F D -> drain fuel st sendFn onFailure = st.
Proof. intros (Ht & _). destruct fuel; simpl; [done|]. by rewrite Ht. Qed.

Lemma drain_waiting fuel : forall st qid e O F D,
  waiting st qid e O F D ->
  (Z.to_nat (maxRetries e - attempt e) <= fuel)%nat ->
  finished onFailure (drain fuel st sendFn onFailure) qid O F D.
Proof.
  induction fuel as [|fuel IH]; intros st qid e O F D Hw Hfuel.
  - destruct Hw as (_ & _ & Hlt & _). lia.
  - destruct Hw as (Ho & Hs & [Hpos Hlt] & (t & Ht & Htgt) & HF & HD).
    simpl. rewrite Ht. simpl. unfold fire. rewrite Htgt.
    match goal with |- context [attemptDelivery ?s ?n qid sendFn onFailure] =>
      destruct (attempt_step s n qid e O F D) as [_ [Hfin|(e' & Hw' & Ha & Hm)]] end;
      simpl; try done.
    + by rewrite Hs.
    + by rewrite Hs.
    + by right.
    + rewrite Ht. rewrite filter_cons_False by (intros Hn; by apply Hn). apply filter_nil.
    + by rewrite (drain_finished _ _ _ _ _ _ Hfin).
    + eapply IH; [exact Hw'|]. lia.
Qed.

(** X12: whatever the network does, the retry chain of a queued message
    ends within [maxRetries] attempts: no timer is left, and either the
    message was delivered and its file is gone from the outbox, with
    [onFailure] not called, or the file rests there marked failed and
    [onFailure] was called once.  Other files of the outbox and the
    dead-letter directory are untouched, later attempts on the id do
    nothing, and [queueAndSend] reports delivered exactly when the first
    attempt succeeded. *)
Theorem X12_queue_settles (st : state) (now : Z) (uuid endpoint : string) (envelope : json)
    (opts : options) (fuel : nat) :
  timers st = [] ->
  opt_onFailure opts = onFailure ->
  (Z.to_nat (default 5%Z (opt_maxRetries opts)) <= fuel)%nat ->
  let r := queueAndSend st now uuid endpoint envelope sendFn opts in
  let st' := drain fuel r.2 sendFn onFailure in
  r.1.2 = to_key (js_or (prop envelope "id") (Some (JStr uuid)))
  /\ (r.1.1 = true <-> exists response, sendFn now endpoint envelope = inr response)
  /\ finished onFailure st' r.1.2 (outbox st) (failures st) (dlq st)
  /\ forall now', attemptDelivery st' now' r.1.2 sendFn onFailure = (false, st').
Proof.
  intros Ht Hon Hfuel r st'.
  assert (r.1.2 = to_key (js_or (prop envelope "id") (Some (JStr uuid)))
          /\ (r.1.1 = true <-> exists response, sendFn now endpoint envelope = inr response)
          /\ finished onFailure st' r.1.2 (outbox st) (failures st) (dlq st)) as (H1 & H2 & H3).
  2:{ split; [done|]. split; [done|]. split; [done|]. intros now'. by eapply finished_stuck. }
  subst st' r. unfold queueAndSend, enqueue. rewrite Hon.
  set (qid := to_key _). set (e0 := Build_entry _ _ _ _ _ _ _ _ _ _ _).
  set (st0 := with_outbox st _).
  destruct (attempt_step st0 now qid e0 (outbox st) (failures st) (dlq st))
    as [Hiff Hcase]; try done; [by left|].
  destruct (attemptDelivery st0 now qid sendFn onFailure) as [delivered st1].
  cbn [fst snd] in *. split; [done|]. split; [exact Hiff|].
  destruct Hcase as [Hfin|(e' & Hw & Ha & Hm)].
  - by rewrite (drain_finished _ _ _ _ _ _ Hfin).
  - eapply drain_waiting; [exact Hw|]. rewrite Hm, Ha. subst e0. cbn [maxRetries attempt] in *.
    change (Z.of_nat (length DEFAULT_RETRY_DELAYS)) with 5. lia.
Qed.
End QueueRunFacts.

Section QueueRunExamples.
Import Sym Examples Queue QueueRuns.

Lemma X12_witness :
  let sendFn : sender := fun now _ _ => if now <? 100000 then inl "down" else inr JNull in
  let r := queueAndSend empty_queue 0 "q1" "http://bob:18800/ai2ai" quote_request sendFn notify in
  let st' := drain 5 r.2 sendFn true in
  timers empty_queue = [] /\ r.1.1 = false /\ outbox st' = ∅ /\
  finished true st' r.1.2 (outbox empty_queue) (failures empty_queue) (Queue.dlq empty_queue).
Proof.
  intros sendFn r st'. split; [reflexivity|]. split; [reflexivity|].
  split; [by vm_compute|].
  apply (X12_queue_settles sendFn true empty_queue 0 "q1" "http://bob:18800/ai2ai"
           quote_request notify 5 eq_refl eq_refl).
  simpl. lia.
Defined.
End QueueRunExamples.

(** ** Delivery by the node *)
Section DeliveryFacts.
Context `{Clock} `{Ed25519}.
Import Node Reliability.

(** X13: [_deliver] does not use the network for a blocked target, nor
    while the breaker of the endpoint is open.  For a blocked target it
    throws and leaves receipts, queue, breakers and events as they were.
    With the breaker open and [resetTimeout] not yet over, the envelope is
    tracked as sent, marked failed with the error Circuit breaker is open
    and put on the persistent queue, and the answer says queued; the
    breaker is unchanged. *)
Theorem X13_deliver_short_circuits (n : node) (now : Z) (uuid : string) (io : network)
    (targetId : option json) (envelope : json) :
  let out := _deliver n now uuid io targetId envelope in
  (Security.isBlocked (blocked n) targetId = true ->
   out.1 = Throw /\ events out.2 = events n /\ receipts out.2 = receipts n /\
   queue out.2 = queue n /\ circuits out.2 = circuits n)
  /\ (forall ep c,
        oprop (map_get targetId (contacts n)) "endpoint" = Some ep -> truthy (Some ep) = true ->
        Security.isBlocked (blocked n) targetId = false ->
        map_get (Some ep) (circuits n) = Some c ->
        c_state c = OPEN -> now - c_lastFailureTime c < resetTimeout ->
        out.1 = Return (literal [ ("status", Some (JStr "queued"));
                                  ("id", prop envelope "id");
                                  ("error", Some (JStr "Circuit breaker is open")) ])
        /\ events out.2 = events n ++ [EvSent (prop envelope "id");
                                      EvFailed (prop envelope "id") "Circuit breaker is open"]
        /\ (r_status <$> getReceipt out.2 (prop envelope "id")) = Some "failed"
        /\ (q_envelope <$> queue out.2 !! to_key (js_or (prop envelope "id") (Some (JStr uuid))))
           = Some envelope
        /\ map_get (Some ep) (circuits out.2) = Some c).
Proof.
  intros out. subst out. split.
  - intros Hb. unfold _deliver.
    set (known := oprop (map_get targetId (contacts n)) "endpoint").
    set (first := if negb (truthy known) && has_registry n then _ else _).
    assert (events first.2 = events n /\ receipts first.2 = receipts n /\
            queue first.2 = queue n /\ circuits first.2 = circuits n /\
            blocked first.2 = blocked n) as (He & Hr & Hq & Hc & Hbl).
    { subst first. destruct (_ && _); [|done]. by destruct (truthy _). }
    destruct first as [endpoint n1]. cbn [fst snd] in *.
    destruct (negb (truthy endpoint)); [done|]. by rewrite Hbl, Hb.
  - intros ep c Hep Htr Hb Hc Hs Hlt. unfold _deliver.
    rewrite Hep, Htr. cbn [negb andb]. rewrite Hb.
    cbn [circuits with_circuits upd trackSent emit with_receipts].
    rewrite Hc. cbn [default].
    rewrite (execute_open_refuses c now _ Hs Hlt).
    cbn [markFailed enqueue fst snd events emit with_receipts with_queue with_circuits upd
         receipts queue circuits messageTTL].
    rewrite ?Htr. cbn [negb fst snd]. unfold id.
    cbn [markFailed enqueue fst snd events emit with_receipts with_queue with_circuits upd
         receipts queue circuits messageTTL trackSent].
    split; [done|]. split; [by rewrite <- app_assoc|].
    unfold getReceipt, enqueue, markFailed, trackSent.
    cbn [fst snd events emit with_receipts with_queue with_circuits upd receipts queue circuits].
    rewrite !map_get_set. split; [done|]. split; [by rewrite lookup_insert_eq|done].
Qed.

(** X14: with the breaker of the endpoint closed, [_deliver] answers as
    the retried send does.  When a send succeeds the answer is its
    response, the receipt is delivered, sent and delivered were emitted,
    nothing is queued and the breaker counts a success.  When all four
    sends fail the answer says queued with the last error, the receipt is
    failed, the envelope is on the persistent queue and the breaker
    counts one failure for the four sends. *)
Theorem X14_deliver_follows_retry (n : node) (now : Z) (uuid : string) (io : network)
    (targetId : option json) (envelope ep : json) :
  oprop (map_get targetId (contacts n)) "endpoint" = Some ep -> truthy (Some ep) = true ->
  Security.isBlocked (blocked n) targetId = false ->
  c_state (default fresh_circuit (map_get (Some ep) (circuits n))) = CLOSED ->
  let c := default fresh_circuit (map_get (Some ep) (circuits n)) in
  let out := _deliver n now uuid io targetId envelope in
  let id := prop envelope "id" in
  match retryWithBackoff (fun t => net io t (Some ep) envelope) (wait io) now 0 3 with
  | (inr r, t) =>
      out.1 = Return r
      /\ events out.2 = events n ++ [EvSent id; EvDelivered id]
      /\ getReceipt out.2 id
         = Some {| r_status := "delivered"; r_sentAt := Some (toISOString now);
                   r_deliveredAt := Some (toISOString t); r_readAt := None;
                   r_error := None; r_failedAt := None |}
      /\ queue out.2 = queue n
      /\ map_get (Some ep) (circuits out.2) = Some (_onSuccess c)
  | (inl err, t) =>
      out.1 = Return (literal [ ("status", Some (JStr "queued")); ("id", id);
                                ("error", Some (JStr err)) ])
      /\ events out.2 = events n ++ [EvSent id; EvFailed id err]
      /\ getReceipt out.2 id
         = Some {| r_status := "failed"; r_sentAt := Some (toISOString now);
                   r_deliveredAt := None; r_readAt := None;
                   r_error := Some err; r_failedAt := Some (toISOString t) |}
      /\ (q_envelope <$> queue out.2 !! to_key (js_or id (Some (JStr uuid)))) = Some envelope
      /\ map_get (Some ep) (circuits out.2) = Some (_onFailure c t)
  end.
Proof.
  intros Hep Htr Hb Hs c out id. subst out. unfold _deliver.
  rewrite Hep, Htr. cbn [negb andb]. rewrite Hb, ?Htr. cbn [negb].
  cbn [circuits with_circuits upd trackSent emit with_receipts]. fold c.
  change (c_state c = CLOSED) in Hs.
  unfold execute. rewrite Hs. cbv beta iota zeta. rewrite Hs.
  destruct (retryWithBackoff _ _ now 0 3) as [[err|r] t].
  - unfold getReceipt, enqueue, markFailed, trackSent.
    cbn [fst snd events emit with_receipts with_queue with_circuits upd receipts queue circuits].
    rewrite !map_get_set. cbn [default r_sentAt r_deliveredAt r_readAt].
    split; [done|]. split; [by rewrite <- app_assoc|]. split; [done|].
    split; [by rewrite lookup_insert_eq|done].
  - unfold getReceipt, markDelivered, trackSent.
    cbn [fst snd events emit with_receipts with_queue with_circuits upd receipts queue circuits].
    rewrite !map_get_set.
    cbn [fst snd events emit with_receipts with_queue with_circuits upd receipts queue circuits
         r_sentAt r_readAt r_error r_failedAt].
    rewrite !map_get_set.
    split; [done|]. split; [by rewrite <- app_assoc|]. done.
Qed.
End DeliveryFacts.

Section DeliveryWitnesses.
Import Sym Examples DeliveryExamples Node Reliability.

Lemma X13_witness :
  let out := _deliver stalled_node 30000 "u1" flaky (Some (JStr "carol")) hello in
  out.1 = Return (JObj [ ("status", JStr "queued"); ("id", JStr "h1");
                         ("error", JStr "Circuit breaker is open") ])
  /\ (q_envelope <$> queue out.2 !! "h1") = Some hello.
Proof.
  destruct (proj2 (X13_deliver_short_circuits stalled_node 30000 "u1" flaky
                     (Some (JStr "carol")) hello) carol_endpoint
              {| c_state := OPEN; c_failures := 5; c_halfOpenAttempts := 0;
                 c_lastFailureTime := 1000; c_successCount := 0 |}
              eq_refl eq_refl eq_refl eq_refl eq_refl eq_refl)
    as (H1 & _ & _ & H4 & _).
  split; [exact H1|exact H4].
Defined.

Lemma X14_witness :
  let out := _deliver ready_node 1000 "u1" flaky (Some (JStr "carol")) hello in
  out.1 = Return (JObj [("status", JStr "ok")])
  /\ events out.2 = [EvSent (Some (JStr "h1")); EvDelivered (Some (JStr "h1"))]
  /\ (r_deliveredAt <$> getReceipt out.2 (Some (JStr "h1"))) = Some (Some (toISOString 4000)).
Proof.
  pose proof (X14_deliver_follows_retry ready_node 1000 "u1" flaky (Some (JStr "carol")) hello
                carol_endpoint eq_refl eq_refl eq_refl eq_refl) as Hd.
  cbv zeta in Hd.
  change (retryWithBackoff (fun t => net flaky t (Some carol_endpoint) hello) (wait flaky) 1000 0 3)
    with (inr (JObj [("status", JStr "ok")]) : string + json, 4000) in Hd.
  destruct Hd as (H1 & H2 & H3 & _).
  split; [exact H1|]. split; [exact H2|]. exact (f_equal (fmap r_deliveredAt) H3).
Defined.
End DeliveryWitnesses.

(** ** From the client to the server *)
Section WireFacts.
Context `{Clock} `{E : Ed25519} `{B : X25519Box}.
Import Trust Server.




Lemma box_round_trip (ideal : X25519BoxIdeal B) (P : json) (K eph : x_priv) (nonce : string) :
  distinct_keys P ->
  let sealed := Encryption.encryptPayloadX25519 (Some P) (Some (JStr (x_pub_der K))) eph nonce in
  Encryption.decryptPayloadX25519 (Some sealed) K = P
  /\ forall K', x_pub_der K' <> x_pub_der K ->
       Encryption.decryptPayloadX25519 (Some sealed) K' = JNull.
Proof.
  intros Hd. cbv zeta. unfold Encryption.encryptPayloadX25519.
  destruct (x_shared_agree eph K) as (k & -> & Hk).
  pose proof (gcm_open_seal (hkdfSync "sha256" k "" Encryption.INFO 32) nonce (JSON_stringify P))
    as Hopen.
  pose proof (fun k' => gcm_open_other (hkdfSync "sha256" k "" Encryption.INFO 32) k' nonce
                          (JSON_stringify P)) as Hother.
  destruct (gcm_seal _ nonce (JSON_stringify P)) as [encrypted tag]. simpl in Hopen, Hother.
  unfold Encryption.decryptPayloadX25519.
  cbn [nullish oprop prop assoc String.eqb Ascii.eqb Bool.eqb].
  split.
  - rewrite Hk, !from_to_base64, Hopen. by rewrite JSON_parse_stringify_distinct.
  - intros K' HK'. destruct (x_shared K' _) as [k'|] eqn:Hk'; [|done].
    rewrite !from_to_base64, Hother; [done|].
    by apply (x_shared_other eph K K' k k').
Qed.

(** X16: when [maybeEncryptEnvelope] has the recipient's X25519 key on
    file it puts the encrypted payload on the envelope and marks it; the
    recipient's [maybeDecryptPayload] then restores the payload and marks
    the envelope as having been encrypted, leaving every other field.
    A payload that is falsy is restored by the decryption but taken for a
    failure; and a node with another key cannot decrypt. *)
Theorem X16_encrypted_payload_arrives (ideal : X25519BoxIdeal B) (cfg : Client.config)
    (cs : Trust.contacts) (envelope P : json) (eph : x_priv) (nonce : string) (me : identity) :
  Client.enableEncryption cfg = true ->
  truthy (Client.recipientAgent envelope) = true ->
  oprop (getContact cs (Client.recipientAgent envelope)) "x25519PublicKey"
  = Some (JStr (x_pub_der (x25519 me))) ->
  x_pub_der (x25519 me) <> "" ->
  prop envelope "payload" = Some P -> distinct_keys P ->
  let wire := Client.maybeEncryptEnvelope cfg cs envelope eph nonce in
  Encryption.isEncrypted (prop wire "payload") = true
  /\ prop wire "_payloadEncrypted" = Some (JBool true)
  /\ match maybeDecryptPayload me wire with
     | Some env =>
         truthy (Some P) = true /\ prop env "payload" = Some P /\
         prop env "_wasEncrypted" = Some (JBool true) /\
         forall k, k <> "payload" -> k <> "_wasEncrypted" -> prop env k = prop wire k
     | None => truthy (Some P) = false
     end
  /\ forall other : identity,
       x_pub_der (x25519 other) <> x_pub_der (x25519 me) ->
       maybeDecryptPayload other wire = None.
Proof.
  intros Hon Hto Hkey Hne HP Hd wire.
  destruct (prop_Some_obj _ _ _ HP) as [m ->].
  destruct (box_round_trip ideal P (x25519 me) eph nonce Hd) as [Hround Hother].
  set (encrypted := Encryption.encryptPayloadX25519 (Some P) (Some (JStr (x_pub_der (x25519 me))))
                      eph nonce) in *.
  assert (exists c, encrypted = JObj (("_encrypted", JBool true) :: c)) as [c Henc].
  { subst encrypted. unfold Encryption.encryptPayloadX25519.
    destruct (x_shared_agree eph (x25519 me)) as (k & -> & _).
    destruct (gcm_seal _ _ _). by eexists. }
  assert (wire = prop_set (prop_set (JObj m) "payload" encrypted) "_payloadEncrypted" (JBool true))
    as Hwire.
  { subst wire. unfold Client.maybeEncryptEnvelope. rewrite Hon, Hto, Hkey. cbn [negb].
    apply String.eqb_neq in Hne. cbn [truthy]. rewrite Hne. cbn [negb]. rewrite HP.
    fold encrypted. by rewrite Henc. }
  assert (prop wire "payload" = Some encrypted) as Hpay.
  { rewrite Hwire, prop_set_ne by done. apply prop_set_eq. }
  split; [by rewrite Hpay, Henc|]. split; [rewrite Hwire; apply prop_set_eq|].
  split.
  - unfold maybeDecryptPayload. rewrite Hpay, Henc. cbn [Encryption.isEncrypted nullish oprop prop
      assoc String.eqb Ascii.eqb Bool.eqb andb negb]. rewrite <- Henc, Hround.
    destruct (truthy (Some P)) eqn:Htr; [|done]. split; [done|].
    rewrite Hwire. cbn [prop_set prop].
    split; [rewrite assoc_set_ne by done; apply assoc_set_eq|].
    split; [apply assoc_set_eq|]. intros k Hk1 Hk2.
    by do 2 rewrite assoc_set_ne by congruence.
  - intros other Ho. unfold maybeDecryptPayload. rewrite Hpay, Henc.
    cbn [Encryption.isEncrypted nullish oprop prop assoc String.eqb Ascii.eqb Bool.eqb andb negb].
    rewrite <- Henc, (Hother (x25519 other) Ho). done.
Qed.
End WireFacts.

Section WireExamples.
Import Sym Examples Server.


Lemma X16_witness :
  X25519BoxIdeal box
  /\ Encryption.isEncrypted (prop meeting_on_wire "payload") = true
  /\ (exists env, maybeDecryptPayload bob meeting_on_wire = Some env /\
                  prop env "payload" = Some times).
Proof.
  assert (distinct_keys times) as Hd.
  { simpl. split; [apply NoDup_singleton|done]. }
  destruct (X16_encrypted_payload_arrives sym_box_ideal alice alice_contacts meeting_envelope
              times 3%positive "nonce-1" bob eq_refl eq_refl eq_refl) as (H1 & _ & H3 & _);
    [discriminate | reflexivity | exact Hd |].
  split; [exact sym_box_ideal|]. split; [exact H1|].
  fold meeting_on_wire in H3.
  destruct (maybeDecryptPayload bob meeting_on_wire) as [env|]; [|discriminate].
  exists env. split; [done|]. by destruct H3 as (_ & ? & _).
Defined.
End WireExamples.

(** ** From one node to another *)
Section NodeToNode.
Context `{Clock} `{Ed25519}.
Import Node.

Lemma js_or_some a x : exists y, js_or a (Some x) = Some y /\ truthy (Some y) = truthy (Some x) || truthy a.
Proof.
  unfold js_or. destruct (truthy a) eqn:E.
  - destruct a as [y|]; [|done]. exists y. by rewrite E, orb_true_r.
  - exists x. by rewrite orb_false_r.
Qed.

Lemma createEnvelope_fields (n : node) now u1 u2 nonce targetId type intent payload opts :
  let envelope := _createEnvelope n now u1 u2 nonce targetId type intent payload opts in
  envelope <> JNull
  /\ prop envelope "ai2ai" = Some (JStr "1.0")
  /\ prop envelope "id" = Some (JStr u1)
  /\ prop envelope "nonce" = Some (JStr nonce)
  /\ prop envelope "timestamp" = Some (JStr (toISOString now))
  /\ prop envelope "from" = Some (JObj [("agent", JStr (name n)); ("human", JStr (humanName n))])
  /\ prop envelope "type" = type
  /\ prop envelope "payload" = js_or payload (Some (JObj [])).
Proof.
  cbv zeta. unfold _createEnvelope.
  destruct (js_or_some (o_conversationId opts) (JStr u2)) as (conv & -> & _).
  destruct (js_or_some payload (JObj [])) as (p & -> & _).
  set (tail := if _ =? 0 then _ else _).
  assert (forall k, k <> "expiresAt" ->
                    assoc k (omap (fun kv : string * option json => pair kv.1 <$> kv.2) tail) = None)
    as Htail.
  { intros k Hk. subst tail. destruct (_ =? 0); [done|]. simpl.
    destruct (String.eqb k "expiresAt") eqn:E; [|done]. by apply String.eqb_eq in E. }
  unfold literal. rewrite omap_app.
  destruct type as [ty|], intent as [it|];
    (split; [done|]); rewrite !prop_set_ne by done; simpl;
    rewrite ?Htail by done; done.
Qed.

(** X17: a message that one node builds with [_createEnvelope] passes
    the filters of a peer that neither blocks nor rate-limits the sender,
    provided it arrives within the peer's [messageTTL] and its nonce and
    id are new there: the peer answers ok and emits the message and the
    receipt request.  The same envelope arriving again is refused as a
    replay, with no event, as long as the nonce table still holds the
    nonce. *)
Theorem X17_node_to_node (A B : node) (now t1 t2 : Z) (u1 u2 nonce : string)
    (targetId intent payload : option json) (opts : send_opts) :
  let envelope :=
    _createEnvelope A now u1 u2 nonce targetId (Some (JStr "message")) intent payload opts in
  let from := JObj [("agent", JStr (name A)); ("human", JStr (humanName A))] in
  let s := Some (JStr (name A)) in
  nonce <> "" ->
  Date_ms (Some (JStr (toISOString now))) = Some now ->
  Security.isBlocked (blocked B) s = false ->
  (Security.allow (rateLimit B) (windows B) t1 s).1 = true ->
  t1 - now <= messageTTL B ->
  (Security.check_and_mark (nonces B) t1 (Some (JStr nonce))).1 = false ->
  (Security.check_and_mark (seen B) t1 (Some (JStr u1))).1 = false ->
  let r1 := _handleRequest B t1 envelope in
  r1.1 = Reply 200 (JObj [("status", JStr "ok"); ("id", JStr u1); ("agent", JStr (name B))])
  /\ events r1.2
     = events B ++ [ EvMessage (js_or payload (Some (JObj []))) (Some from) envelope;
                     EvReceiptSend (Some (JStr u1)) (Some from) ]
  /\ ((Security.allow (rateLimit B) (windows r1.2) t2 s).1 = true ->
      t2 - now <= messageTTL B ->
      t2 - Security.maxAge <= t1 \/ (length (nonces B) < Security.maxSize)%nat ->
      let r2 := _handleRequest r1.2 t2 envelope in
      r2.1 = reject 400 "replay_detected" /\ events r2.2 = events r1.2 /\ seen r2.2 = seen r1.2).
Proof.
  intros envelope from s Hnonce Hclock Hb Hrl Hfresh Hn Hs r1.
  destruct (createEnvelope_fields A now u1 u2 nonce targetId (Some (JStr "message")) intent
              payload opts) as (Hnull & Hv & Hid & Hno & Hts & Hfrom & Hty & Hpay).
  fold envelope in Hnull, Hv, Hid, Hno, Hts, Hfrom, Hty, Hpay. clearbody envelope.
  assert (nullish (Some envelope) = false) as Hnn by (by destruct envelope).
  assert (forall t n, t - now <= messageTTL n ->
            Security.isMessageExpired envelope t (messageTTL n) = false) as Hexp.
  { intros t n Ht. unfold Security.isMessageExpired. rewrite Hts, Hclock.
    destruct (negb _); [done|]. apply Z.ltb_ge. lia. }
  assert (truthy (Some (JStr nonce)) = true) as Htn.
  { cbn. apply String.eqb_neq in Hnonce. by rewrite Hnonce. }
  assert (r1 = (Reply 200 (JObj [("status", JStr "ok"); ("id", JStr u1); ("agent", JStr (name B))]),
                emit (emit (with_seen (with_nonces
                                         (with_windows B (Security.allow (rateLimit B) (windows B) t1 s).2)
                                         (Security.check_and_mark (nonces B) t1 (Some (JStr nonce))).2)
                              (Security.check_and_mark (seen B) t1 (Some (JStr u1))).2)
                        (EvMessage (js_or payload (Some (JObj []))) (Some from) envelope))
                     (EvReceiptSend (Some (JStr u1)) (Some from)))) as Hr1.
  { subst r1. unfold _handleRequest. rewrite Hnn, Hv, Hty, Hfrom. cbn [truthy negb orb oprop prop assoc
      String.eqb Ascii.eqb Bool.eqb]. fold s. rewrite Hb.
    destruct (Security.allow _ _ t1 s) as [allowed w]. cbn [fst snd] in *. subst allowed.
    cbn [negb messageTTL with_windows upd nonces]. rewrite (Hexp t1 B Hfresh), Hno, Htn.
    destruct (Security.check_and_mark (nonces B) _ _) as [r t]. cbn [fst snd] in *. subst r.
    cbn [seen with_nonces with_windows upd]. rewrite Hid.
    destruct (Security.check_and_mark (seen B) _ _) as [d t']. cbn [fst snd] in *. subst d.
    rewrite Hpay. reflexivity. }
  rewrite Hr1. cbn [fst snd]. split; [done|]. split.
  { cbn [events emit upd with_seen with_nonces with_windows]. by rewrite <- app_assoc. }
  intros Hrl2 Hfresh2 Hkeep. cbv zeta.
  unfold _handleRequest. rewrite Hnn, Hv, Hty, Hfrom. cbn [truthy negb orb oprop prop assoc
      String.eqb Ascii.eqb Bool.eqb]. fold s.
  cbn [blocked emit upd with_seen with_nonces with_windows rateLimit windows] in *. rewrite Hb.
  destruct (Security.allow _ _ t2 s) as [allowed w2]. cbn [fst snd] in *. subst allowed.
  cbn [negb messageTTL with_windows with_seen with_nonces emit upd nonces].
  rewrite (Hexp t2 B Hfresh2), Hno, Htn.
  assert ((Security.check_and_mark (Security.check_and_mark (nonces B) t1 (Some (JStr nonce))).2
             t2 (Some (JStr nonce))).1 = true) as Hhit.
  { apply (check_and_mark_hit _ _ _ t1).
    - apply check_and_mark_fresh; [apply key_eqb_refl|done].
    - destruct Hkeep as [?|Hsmall]; [by right|left].
      pose proof (check_and_mark_length (nonces B) t1 (Some (JStr nonce))). lia. }
  destruct (Security.check_and_mark (Security.check_and_mark _ _ _).2 t2 _) as [r t].
  cbn [fst] in Hhit. subst r. done.
Qed.
End NodeToNode.

Section NodeToNodeExamples.
Import Sym Examples NodeExamples Node.

Lemma X17_witness :
  (_handleRequest bob_node 6000 greeting).1
  = Reply 200 (JObj [("status", JStr "ok"); ("id", JStr "m9"); ("agent", JStr "bob")])
  /\ (_handleRequest (_handleRequest bob_node 6000 greeting).2 7000 greeting).1
     = reject 400 "replay_detected".
Proof.
  destruct (X17_node_to_node alice_node bob_node 5000 6000 7000 "m9" "c9" "9f1c"
              (Some (JStr "bob")) (Some (JStr "message.relay"))
              (Some (JObj [("message", JStr "hello")]))
              {| o_conversationId := None; o_requiresApproval := None; o_ttl := None |})
    as (H1 & _ & H3); try reflexivity; try discriminate.
  split; [exact H1|]. apply H3; [reflexivity|discriminate|].
  left. unfold Security.maxAge. lia.
Defined.
End NodeToNodeExamples.

(** ** The time to live of a message *)
Section ExpiryFacts.
Context `{Clock} `{Ed25519}.
Import Node Expiry.

Lemma first_failure_props n now e e' :
  e <> JNull -> e' <> JNull ->
  (forall k, k ∈ ["ai2ai"; "type"; "from"; "timestamp"; "nonce"; "id"] -> prop e' k = prop e k) ->
  (_handleRequest n now e').1 = (_handleRequest n now e).1.
Proof.
  intros Hn Hn' Hp. rewrite !handleRequest_reply by done.
  assert (prop e' "ai2ai" = prop e "ai2ai" /\ prop e' "type" = prop e "type" /\
          prop e' "from" = prop e "from" /\ prop e' "timestamp" = prop e "timestamp" /\
          prop e' "nonce" = prop e "nonce" /\ prop e' "id" = prop e "id")
    as (H1 & H2 & H3 & H4 & H5 & H6).
  { repeat split; apply Hp; rewrite !elem_of_cons; auto 10. }
  unfold first_failure, malformed, on_blocklist, over_limit, too_old, replayed, already_seen,
    duplicate_reply, ok_reply, sender, Security.isMessageExpired.
  by rewrite H1, H2, H3, H4, H5, H6.
Qed.

(** X18: [addMessageTTL] stamps an envelope with the instant at which it
    expires and leaves its other fields; [isMessageTTLExpired] then turns
    true strictly after that instant, and it is false for an envelope
    without the stamp or with one that is no date.  The receiving node
    does not look at the stamp: [_handleRequest] answers an envelope the
    same whatever its [expiresAt]. *)
Theorem X18_ttl_stamp (envelope : json) (now ttlMs now' : Z) :
  envelope <> JNull ->
  toISOString (now + ttlMs) <> "" ->
  Date_ms (Some (JStr (toISOString (now + ttlMs)))) = Some (now + ttlMs) ->
  (forall m, envelope = JObj m ->
     exists stamped,
       addMessageTTL envelope now ttlMs = Some stamped
       /\ isMessageTTLExpired stamped now' = Some (now + ttlMs <? now')
       /\ forall k, k <> "expiresAt" -> prop stamped k = prop envelope k)
  /\ (prop envelope "expiresAt" = None \/ Date_ms (prop envelope "expiresAt") = None ->
      isMessageTTLExpired envelope now' = Some false)
  /\ (forall (n : node) t x,
        (_handleRequest n t (prop_set envelope "expiresAt" x)).1 = (_handleRequest n t envelope).1).
Proof.
  intros Hnull Hiso Hclock. split; [|split].
  - intros m ->. eexists. split; [reflexivity|]. split.
    + unfold isMessageTTLExpired. rewrite prop_set_eq. cbn [nullish prop_set truthy]. apply String.eqb_neq in Hiso. rewrite Hiso. cbn [negb]. by rewrite Hclock.
    + intros k Hk. by apply prop_set_ne.
  - intros Hno. unfold isMessageTTLExpired.
    assert (nullish (Some envelope) = false) as -> by (by destruct envelope).
    destruct Hno as [->| ->]; [done|]. by destruct (negb _).
  - intros n t x. apply first_failure_props; [done|by destruct envelope|].
    intros k Hk. apply prop_set_ne. intros <-.
    rewrite !elem_of_cons, elem_of_nil in Hk. intuition discriminate.
Qed.
End ExpiryFacts.

Section ExpiryExamples.
Import Sym Examples Node Expiry.

Lemma X18_witness :
  isMessageTTLExpired (prop_set unsigned_request "expiresAt" (JStr (toISOString (5000 + 1000)))) 6000
  = Some false
  /\ isMessageTTLExpired (prop_set unsigned_request "expiresAt" (JStr (toISOString (5000 + 1000)))) 6001
     = Some true
  /\ (_handleRequest bob_node 99000 (prop_set unsigned_request "expiresAt" (JStr "6000"))).1
     = (_handleRequest bob_node 99000 unsigned_request).1.
Proof.
  assert (unsigned_request <> JNull) as Hn by discriminate.
  assert (toISOString (5000 + 1000) <> "") as Hi by discriminate.
  split; [|split].
  - destruct (proj1 (X18_ttl_stamp unsigned_request 5000 1000 6000 Hn Hi eq_refl) _ eq_refl)
      as (stamped & [= <-] & He & _). exact He.
  - destruct (proj1 (X18_ttl_stamp unsigned_request 5000 1000 6001 Hn Hi eq_refl) _ eq_refl)
      as (stamped & [= <-] & He & _). exact He.
  - apply (X18_ttl_stamp unsigned_request 5000 1000 6000 Hn Hi eq_refl).
Defined.
End ExpiryExamples.

(** ** The blocklist of the node *)
Section BlocklistFacts.
Context `{Clock} `{Ed25519}.
Import Node.

Lemma json_eqb_eq a b : json_eqb a b = true -> a = b.
Proof.
  revert b. induction a as [|x|x|x|l IH|m IH] using json_induction; intros [|y|y|y|l'|m'];
    simpl; try discriminate; try done.
  - intros E. apply Bool.eqb_prop in E. by subst.
  - intros E. apply Z.eqb_eq in E. by subst.
  - intros E. apply String.eqb_eq in E. by subst.
  - intros E. f_equal. revert l' E. induction IH as [|a l Ha _ IHl]; intros [|b l']; try done.
    intros E. apply andb_prop in E as [E1 E2]. f_equal; [by apply Ha|by apply IHl].
  - intros E. f_equal. revert m' E.
    induction IH as [|[k a] m Ha _ IHm]; intros [|[k' b] m']; try done.
    intros E. apply andb_prop in E as [E12 E3]. apply andb_prop in E12 as [E1 E2].
    apply String.eqb_eq in E1. subst k'. f_equal; [f_equal; by apply Ha|by apply IHm].
Qed.

Lemma key_eqb_eq a b : key_eqb a b = true <-> a = b.
Proof.
  split; [|intros ->; apply key_eqb_refl].
  destruct a, b; simpl; try discriminate; try done. intros E. f_equal. by apply json_eqb_eq.
Qed.

Lemma isBlocked_spec l a : Security.isBlocked l a = true <-> a ∈ l.
Proof.
  unfold Security.isBlocked. rewrite existsb_exists. split.
  - intros (b & Hin & E). apply key_eqb_eq in E. subst. by apply list_elem_of_In.
  - intros Hin. exists a. split; [by apply list_elem_of_In|apply key_eqb_refl].
Qed.

(** X20: for agent ids that are no objects or arrays (ids that a [Set]
    finds again), [block] puts an agent on the blocklist and [unblock]
    takes it off, each leaving every other agent as it was, and neither
    ever makes the list hold an id twice.  While the sender of an
    envelope is on the list, [_handleRequest] answers 403 blocked and
    changes nothing in the node: no slot of the rate limiter is used, no
    nonce or id is recorded, no event is emitted. *)
Theorem X20_blocklist_enforced (n : node) (a b : option json) (now : Z) (envelope : json) :
  is_ref a = false -> is_ref b = false ->
  let l := blocked n in
  Security.isBlocked (Blocklist.block l a) b = Security.isBlocked l b || key_eqb b a
  /\ Security.isBlocked (Blocklist.unblock l a) b = Security.isBlocked l b && negb (key_eqb b a)
  /\ (NoDup l -> NoDup (Blocklist.block l a) /\ NoDup (Blocklist.unblock l a))
  /\ (envelope <> JNull -> malformed envelope = false -> sender envelope = a ->
      _handleRequest (Blocklist.with_blocked n (Blocklist.block l a)) now envelope
      = (reject 403 "blocked", Blocklist.with_blocked n (Blocklist.block l a))).
Proof.
  intros _ _ l.
  assert (forall x, x ∈ Blocklist.block l a <-> x ∈ l \/ x = a) as Hblock.
  { intros x. unfold Blocklist.block. destruct (existsb _ l) eqn:E.
    - split; [by left|]. intros [?| ->]; [done|]. by apply isBlocked_spec.
    - rewrite elem_of_app, list_elem_of_singleton. done. }
  assert (forall x, x ∈ Blocklist.unblock l a <-> x ∈ l /\ x <> a) as Hunblock.
  { intros x. unfold Blocklist.unblock. rewrite list_elem_of_filter.
    split; intros [H1 H2].
    - split; [done|]. intros ->. by rewrite key_eqb_refl in H1.
    - split; [|done]. apply not_true_is_false. rewrite key_eqb_eq. congruence. }
  split; [|split; [|split]].
  - apply eq_true_iff_eq. rewrite orb_true_iff, !isBlocked_spec, key_eqb_eq. apply Hblock.
  - apply eq_true_iff_eq.
    rewrite andb_true_iff, negb_true_iff, !isBlocked_spec, <- not_true_iff_false, key_eqb_eq.
    apply Hunblock.
  - intros Hnd. split.
    + unfold Blocklist.block. destruct (existsb _ l) eqn:E; [done|].
      apply NoDup_app. split; [done|]. split; [|apply NoDup_singleton].
      intros x Hx Hx'. apply list_elem_of_singleton in Hx'. subst x.
      apply isBlocked_spec in Hx. unfold Security.isBlocked in Hx. congruence.
    + by apply NoDup_filter.
  - intros Hnull Hmal Hfrom. unfold _handleRequest.
    assert (nullish (Some envelope) = false) as -> by (by destruct envelope).
    unfold malformed in Hmal. rewrite Hmal. unfold sender in Hfrom. rewrite Hfrom.
    cbn [blocked Blocklist.with_blocked].
    assert (Security.isBlocked (Blocklist.block l a) a = true) as ->; [|done].
    apply isBlocked_spec, Hblock. by right.
Qed.
End BlocklistFacts.

Section BlocklistExamples.
Import Sym Examples Node.

Lemma X20_witness :
  is_ref (Some (JStr "alice")) = false /\ is_ref (Some (JStr "carol")) = false /\
  Security.isBlocked (Blocklist.block (blocked bob_node) (Some (JStr "alice")))
    (Some (JStr "carol"))
  = Security.isBlocked (blocked bob_node) (Some (JStr "carol")) /\
  _handleRequest
    (Blocklist.with_blocked bob_node (Blocklist.block (blocked bob_node) (Some (JStr "alice"))))
    6000 forged
  = (reject 403 "blocked",
     Blocklist.with_blocked bob_node (Blocklist.block (blocked bob_node) (Some (JStr "alice")))).
Proof.
  destruct (X20_blocklist_enforced bob_node (Some (JStr "alice")) (Some (JStr "carol")) 6000
              forged eq_refl eq_refl) as (Hb & _ & _ & Hr).
  split; [reflexivity|]. split; [reflexivity|]. split.
  - rewrite Hb. by rewrite orb_false_r.
  - apply Hr; [discriminate|reflexivity|reflexivity].
Defined.
End BlocklistExamples.

(** ** The cache of verification results *)
Section CacheFacts.
Context `{Sha256}.
Import VerificationCache.

Lemma map_get_delete_other {V} k k' (m : list (option json * V)) :
  key_eqb k' k = false -> map_get k (map_delete k' m) = map_get k m.
Proof.
  intros Hne. unfold map_delete. induction m as [|[k0 x] m IH]; [done|].
  destruct (key_eqb k' k0) eqn:E.
  - rewrite filter_cons_False by (simpl; congruence). rewrite IH. simpl.
    apply key_eqb_eq in E. subst k0.
    destruct (key_eqb k k') eqn:E'; [|done]. apply key_eqb_eq in E'. subst.
    by rewrite key_eqb_refl in Hne.
  - rewrite filter_cons_True by done. simpl. by rewrite IH.
Qed.

Lemma map_get_delete {V} k (m : list (option json * V)) : map_get k (map_delete k m) = None.
Proof.
  unfold map_delete. induction m as [|[k0 x] m IH]; [done|].
  destruct (key_eqb k k0) eqn:E.
  - by rewrite filter_cons_False by (simpl; congruence).
  - rewrite filter_cons_True by done. simpl. by rewrite E.
Qed.

Lemma map_get_delete_some {V} k k' (m : list (option json * V)) x :
  map_get k (map_delete k' m) = Some x -> map_get k m = Some x.
Proof.
  destruct (key_eqb k' k) eqn:E.
  - apply key_eqb_eq in E. subst. by rewrite map_get_delete.
  - by rewrite map_get_delete_other.
Qed.

Lemma map_get_set_other {V} k k' (x : V) m :
  key_eqb k k' = false -> map_get k (map_set k' x m) = map_get k m.
Proof.
  intros Hne.
  assert (key_eqb k' k = false) as Hne'.
  { apply not_true_is_false. rewrite key_eqb_eq. intros ->. by rewrite key_eqb_refl in Hne. }
  induction m as [|[k0 y] m IH]; simpl.
  - by rewrite Hne.
  - destruct (key_eqb k' k0) eqn:E; simpl.
    + apply key_eqb_eq in E. subst k0. by rewrite Hne.
    + by rewrite IH.
Qed.

Lemma map_delete_length {V} k (m : list (option json * V)) :
  (length (map_delete k m) <= length m)%nat.
Proof. apply length_filter. Qed.

Lemma map_set_length_le {V} k (x : V) m :
  (length m <= length (map_set k x m) <= S (length m))%nat.
Proof.
  induction m as [|[k0 y] m IH]; simpl; [lia|]. destruct (key_eqb k k0); simpl; lia.
Qed.

Lemma set_length maxSize c now s p v :
  (length c <= Nat.max 1 maxSize)%nat ->
  (length (set maxSize c now s p v) <= Nat.max 1 maxSize)%nat.
Proof.
  intros Hc. unfold set. destruct (decide _) as [Hfull|Hroom].
  - destruct c as [|[k0 e0] c]; [simpl; lia|].
    cbn [fst]. unfold map_delete. rewrite filter_cons_False.
    2:{ cbn [fst]. by rewrite key_eqb_refl. }
    pose proof (map_set_length_le (Some (JStr (_key s p))) (v, now)
                  (filter (fun kv => key_eqb k0 kv.1 = false) c)) as [_ Hle].
    pose proof (length_filter (fun kv : option json * (bool * Z) => key_eqb k0 kv.1 = false) c).
    simpl in Hc. lia.
  - pose proof (map_set_length_le (Some (JStr (_key s p))) (v, now) c) as [_ Hle]. lia.
Qed.

Lemma last_set_snoc key calls nc :
  last_set key (calls ++ [nc])
  = match nc.2 with
    | Set_ s p v => if String.eqb (_key s p) key then Some (v, nc.1) else last_set key calls
    | Get_ _ _ => last_set key calls
    end.
Proof. unfold last_set. by rewrite foldl_app. Qed.

Lemma run_snoc maxSize ttl calls nc :
  run maxSize ttl (calls ++ [nc]) = step maxSize ttl (run maxSize ttl calls) nc.
Proof. unfold run. by rewrite foldl_app. Qed.

(** What the cache holds under a key is what was last set under it. *)
Lemma run_holds_last maxSize ttl calls key e :
  map_get (Some (JStr key)) (run maxSize ttl calls) = Some e -> last_set key calls = Some e.
Proof.
  revert e. induction calls as [|[now op] calls IH] using rev_ind; intros e; [done|].
  rewrite run_snoc, last_set_snoc. unfold step. cbn [fst snd].
  destruct op as [s p v|s p].
  - unfold set. set (c1 := if decide _ then _ else _).
    assert (forall e', map_get (Some (JStr key)) c1 = Some e' ->
                       map_get (Some (JStr key)) (run maxSize ttl calls) = Some e') as Hc1.
    { intros e'. subst c1. destruct (decide _); [|done].
      destruct (run maxSize ttl calls) as [|first rest]; [done|]. apply map_get_delete_some. }
    destruct (String.eqb (_key s p) key) eqn:E.
    + apply String.eqb_eq in E. subst key. by rewrite map_get_set.
    + rewrite map_get_set_other; [by intros ?%Hc1%IH|].
      simpl. rewrite String.eqb_sym. exact E.
  - unfold get.
    destruct (map_get (Some (JStr (_key s p))) (run maxSize ttl calls)) as [[valid ts]|];
      [|apply IH].
    destruct (ttl <? now - ts); [|apply IH]. cbn [snd]. by intros ?%map_get_delete_some%IH.
Qed.

(** X19: the verification cache answers only with what was stored and is
    still fresh: a verdict that [get] returns after any run of calls is
    the one of the last [set] under the same key, made at most [ttl]
    before.  A verdict just set is returned until [ttl] has passed, and
    dropped afterwards.  The cache never holds more than [maxSize]
    entries (one, when [maxSize] is zero). *)
Theorem X19_cache_is_sound (maxSize : nat) (ttl : Z) (calls : list (Z * call)) (now : Z)
    (signature publicKey : string) :
  let c := run maxSize ttl calls in
  (forall valid, (get ttl c now signature publicKey).1 = Some valid ->
     exists t, last_set (_key signature publicKey) calls = Some (valid, t) /\ now - t <= ttl)
  /\ (forall valid t,
        (get ttl (set maxSize c t signature publicKey valid) now signature publicKey).1
        = if ttl <? now - t then None else Some valid)
  /\ (length c <= Nat.max 1 maxSize)%nat.
Proof.
  intros c. split; [|split].
  - intros valid. unfold get.
    destruct (map_get _ c) as [[v ts]|] eqn:Hget; [|done].
    destruct (Z.ltb_spec ttl (now - ts)); [done|]. intros [= ->].
    exists ts. split; [|done]. by apply (run_holds_last maxSize ttl).
  - intros valid t. unfold get, set. rewrite map_get_set. by destruct (ttl <? now - t).
  - subst c. induction calls as [|[t op] calls IH] using rev_ind; [simpl; lia|].
    rewrite run_snoc. unfold step. cbn [fst snd]. destruct op as [s p v|s p].
    + by apply set_length.
    + unfold get. destruct (map_get _ _) as [[valid ts]|]; [|done].
      destruct (ttl <? t - ts); [|done]. cbn [snd].
      pose proof (map_delete_length (Some (JStr (_key s p))) (run maxSize ttl calls)). lia.
Qed.
End CacheFacts.

(** ** The persistent queue *)
Section PersistentQueueFacts.
Context `{Clock}.
Import PersistentQueue.

Lemma insert_sorted_elem e l x : x ∈ insert_sorted e l <-> x = e \/ x ∈ l.
Proof.
  induction l as [|y l IH]; simpl.
  - rewrite list_elem_of_singleton, elem_of_nil. tauto.
  - destruct (priority e <? priority y); rewrite !elem_of_cons, ?IH; tauto.
Qed.

Lemma sort_elem l x : x ∈ sort l <-> x ∈ l.
Proof.
  induction l as [|e l IH]; simpl; [done|].
  by rewrite insert_sorted_elem, elem_of_cons, IH.
Qed.

(** The head of a sorted list is one of its entries of highest priority. *)
Lemma sort_head l :
  match head (sort l) with
  | Some y => y ∈ l /\ forall x, x ∈ l -> priority x <= priority y
  | None => l = []
  end.
Proof.
  induction l as [|e l IH]; [done|]. simpl.
  destruct (sort l) as [|y s] eqn:Hs; simpl in *.
  - subst l. split; [apply list_elem_of_here|]. intros x ->%list_elem_of_singleton. lia.
  - destruct IH as [Hy Hmax]. destruct (Z.ltb_spec (priority e) (priority y)); simpl.
    + split; [by right|]. intros x [->|Hx]%elem_of_cons; [lia|by apply Hmax].
    + split; [by left|]. intros x [->|Hx]%elem_of_cons; [lia|]. specialize (Hmax x Hx). lia.
Qed.

Lemma loadAll_elem d e : e ∈ _loadAll d <-> exists k, d !! k = Some e.
Proof.
  unfold _loadAll. rewrite list_elem_of_fmap. split.
  - intros ([k e'] & -> & Hin). exists k. by apply elem_of_map_to_list.
  - intros [k Hk]. exists (k, e). split; [done|]. by apply elem_of_map_to_list.
Qed.

(** What the sweep of [dequeue] leaves under each name. *)
Lemma sweep_lookup now (l : list (string * entry)) :
  NoDup l.*1 -> (forall k e, (k, e) ∈ l -> to_key (Some (id e)) = k) ->
  forall (d : gmap string entry) k,
    foldl (fun d e => if overdue e now then _save d (set_status e "expired") else d) d
          (filter (fun e => status e = "pending") l.*2) !! k
    = match (list_to_map l : gmap string entry) !! k with
      | Some e =>
          if String.eqb (status e) "pending" && overdue e now
          then Some (set_status e "expired") else d !! k
      | None => d !! k
      end.
Proof.
  induction l as [|[k0 e0] l IH]; intros Hnd Hkey d k; [done|].
  apply NoDup_cons in Hnd as [Hk0 Hnd].
  assert (forall k e, (k, e) ∈ l -> to_key (Some (id e)) = k) as Hkey'.
  { intros k' e' Hin. apply Hkey. by right. }
  assert (to_key (Some (id e0)) = k0) as Hk by (apply Hkey; left).
  assert ((list_to_map l : gmap string entry) !! k0 = None) as Hfresh.
  { by apply not_elem_of_list_to_map_1. }
  cbn [fmap list_fmap snd list_to_map foldr fst].
  destruct (decide (status e0 = "pending")) as [Hp|Hp].
  - rewrite filter_cons_True by done. cbn [foldl]. rewrite IH by done.
    destruct (decide (k = k0)) as [->|Hne].
    + rewrite Hfresh, lookup_insert_eq, Hp. cbn [String.eqb Ascii.eqb Bool.eqb andb].
      destruct (overdue e0 now); [|done]. unfold _save. cbn [set_status id].
      by rewrite Hk, lookup_insert_eq.
    + rewrite lookup_insert_ne by done.
      assert ((if overdue e0 now then _save d (set_status e0 "expired") else d) !! k = d !! k)
        as ->; [|done].
      destruct (overdue e0 now); [|done]. unfold _save. cbn [set_status id].
      by rewrite Hk, lookup_insert_ne.
  - rewrite filter_cons_False by done. rewrite IH by done.
    destruct (decide (k = k0)) as [->|Hne].
    + rewrite Hfresh, lookup_insert_eq.
      apply String.eqb_neq in Hp. by rewrite Hp.
    + by rewrite lookup_insert_ne.
Qed.

(** X21: [dequeue] hands out a pending entry that is not overdue and
    that no other such entry outranks in priority, and [null] only when
    every pending entry is overdue.  It removes nothing: in a directory
    whose files are named after their ids, the pending entries that are
    overdue are rewritten as expired and every other file is left as it
    was, the entry handed out included. *)
Theorem X21_dequeue_picks_best (d : gmap string entry) (now : Z) :
  let r := dequeue d now in
  match r.1 with
  | Some e =>
      (exists k, d !! k = Some e) /\ status e = "pending" /\ overdue e now = false /\
      forall k e', d !! k = Some e' -> status e' = "pending" -> overdue e' now = false ->
                   priority e' <= priority e
  | None =>
      forall k e', d !! k = Some e' -> status e' = "pending" -> overdue e' now = true
  end
  /\ (well_filed d ->
      r.2 = (fun e => if String.eqb (status e) "pending" && overdue e now
                      then set_status e "expired" else e) <$> d).
Proof.
  cbv zeta. unfold dequeue. cbn [fst snd]. split.
  - set (valid := filter _ (filter _ (_loadAll d))).
    assert (forall e, e ∈ valid <->
                      (exists k, d !! k = Some e) /\ status e = "pending" /\ overdue e now = false)
      as Hvalid.
    { intros e. subst valid. rewrite !list_elem_of_filter, loadAll_elem. tauto. }
    pose proof (sort_head valid) as Hhead. destruct (head (sort valid)) as [e|].
    + destruct Hhead as [He Hmax]. apply Hvalid in He as (Hk & Hp & Ho).
      repeat split; try done. intros k e' Hk' Hp' Ho'. apply Hmax, Hvalid. eauto.
    + intros k e' Hk' Hp'. apply not_false_is_true. intros Ho'.
      assert (e' ∈ valid) as Hin by (apply Hvalid; eauto). rewrite Hhead in Hin.
      by apply elem_of_nil in Hin.
  - intros Hwf. apply map_eq. intros k. unfold _loadAll.
    rewrite (sweep_lookup now (map_to_list d)).
    + rewrite list_to_map_to_list, lookup_fmap.
      destruct (d !! k) as [e|] eqn:E; rewrite ?E; [|done]. simpl. by destruct (_ && _).
    + apply NoDup_fst_map_to_list.
    + intros k' e' Hin. apply Hwf. by apply elem_of_map_to_list.
Qed.

(** X22: an envelope that was enqueued is on file under its id as a
    pending entry with the instant of its expiry; every [fail] adds one
    to its attempts and leaves it pending, so that no number of failures
    takes it off the queue; [complete] removes it.  The files stay named
    after their ids. *)
Theorem X22_entry_lifecycle (d : gmap string entry) (now : Z) (uuid : string) (envelope : json)
    (endpoint : option json) (opts : options) (errors : list (Z * string)) :
  envelope <> JNull ->
  exists id0 d1,
    enqueue d now uuid envelope endpoint opts = Some (id0, d1)
    /\ id0 = default (JStr uuid) (js_or (prop envelope "id") (Some (JStr uuid)))
    /\ (exists e,
          load (fail_all d1 (Some id0) errors) (Some id0) = Some e
          /\ status e = "pending" /\ attempts e = Z.of_nat (length errors)
          /\ PersistentQueue.envelope e = envelope /\ PersistentQueue.endpoint e = endpoint
          /\ expiresAt e = (fun t => toISOString (now + t)) <$> nonzero (o_ttl opts)
          /\ lastError e = snd <$> last errors)
    /\ (well_filed d -> well_filed (fail_all d1 (Some id0) errors))
    /\ load (complete (fail_all d1 (Some id0) errors) (Some id0)) (Some id0) = None.
Proof.
  intros Hnull. unfold enqueue.
  assert (nullish (Some envelope) = false) as -> by (by destruct envelope).
  set (id0 := default (JStr uuid) (js_or (prop envelope "id") (Some (JStr uuid)))).
  eexists id0, _. split; [reflexivity|]. split; [done|].
  set (e0 := Build_entry _ _ _ _ _ _ _ _ _ _ _).
  set (d1 := <[to_key (Some id0) := e0]> d).
  assert (exists e,
            fail_all d1 (Some id0) errors !! to_key (Some id0) = Some e
            /\ id e = id0 /\ status e = "pending" /\ attempts e = Z.of_nat (length errors)
            /\ PersistentQueue.envelope e = envelope /\ PersistentQueue.endpoint e = endpoint
            /\ expiresAt e = (fun t => toISOString (now + t)) <$> nonzero (o_ttl opts)
            /\ lastError e = snd <$> last errors
            /\ forall k, k <> to_key (Some id0) ->
                         fail_all d1 (Some id0) errors !! k = d !! k)
    as (e & He & Hid & Hs & Ha & Hv & Hp & Hx & Hl & Hframe).
  { induction errors as [|[t err] errors IH] using rev_ind.
    - exists e0. split; [apply lookup_insert_eq|]. repeat split; try done.
      intros k Hk. subst d1. simpl. by rewrite lookup_insert_ne.
    - destruct IH as (e & He & Hid & Hs & Ha & Hv & Hp & Hx & Hl & Hframe).
      unfold fail_all in *. rewrite foldl_app. cbn [foldl fst snd].
      unfold fail at 1 3. unfold load. rewrite He. unfold _save. cbn [id]. rewrite Hid.
      eexists. split; [apply lookup_insert_eq|]. cbn.
      rewrite last_snoc, length_app. cbn. repeat split; try done; [lia|].
      intros k Hk. rewrite lookup_insert_ne by done. by apply Hframe. }
  split; [|split].
  - exists e. unfold load. by repeat split.
  - intros Hwf k e' Hk. destruct (decide (k = to_key (Some id0))) as [->|Hne].
    + rewrite He in Hk. injection Hk as <-. by rewrite Hid.
    + rewrite Hframe in Hk by done. by apply Hwf.
  - unfold load, complete. apply lookup_delete_eq.
Qed.
End PersistentQueueFacts.

Section PersistentQueueExamples.
Import Sym Examples PersistentQueue.

Lemma X22_witness :
  exists d1 e,
    enqueue ∅ 1000 "u7" unsigned_request (Some (JStr "http://bob:18800/ai2ai"))
      {| o_ttl := Some 5000; o_priority := None |} = Some (JStr "m3", d1)
    /\ load (fail_all d1 (Some (JStr "m3")) [(2000, "down"); (3000, "down again")])
         (Some (JStr "m3")) = Some e
    /\ status e = "pending" /\ attempts e = 2 /\ lastError e = Some "down again".
Proof.
  destruct (X22_entry_lifecycle ∅ 1000 "u7" unsigned_request (Some (JStr "http://bob:18800/ai2ai"))
              {| o_ttl := Some 5000; o_priority := None |}
              [(2000, "down"); (3000, "down again")])
    as (id0 & d1 & Hq & -> & (e & He & Hs & Ha & _ & _ & _ & Hl) & _); [discriminate|].
  exists d1, e. split; [exact Hq|]. split; [exact He|]. split; [exact Hs|].
  split; [exact Ha|exact Hl].
Defined.
End PersistentQueueExamples.

(** ** Which requests are processed without a human *)
Section ApprovalFacts.
Context `{Clock} `{Ed25519} `{X25519Box}.
Import Server Approval.

Lemma requiresApproval_request cs a intent type :
  is_str type "request" = true ->
  Trust.requiresApproval cs a intent type = false
  <-> Trust.always_approve intent = false
      /\ exists c, Trust.getContact cs a = Some c /\ prop c "trustLevel" = Some (JStr "trusted").
Proof.
  intros Hty. unfold Trust.requiresApproval.
  destruct (Trust.always_approve intent) eqn:Ha.
  { split; [done|]. by intros [? _]. }
  destruct (Trust.getContact cs a) as [c|].
  2:{ split; [done|]. by intros [_ (c & ? & _)]. }
  destruct (is_str (prop c "trustLevel") "trusted") eqn:Ht.
  - apply is_str_true in Ht. split; [|done]. intros _. split; [done|]. by exists c.
  - rewrite Hty. assert (prop c "trustLevel" <> Some (JStr "trusted")) as Hne.
    { intros Hx. apply is_str_true in Hx. congruence. }
    split; [by destruct (is_str _ "known")|]. intros [_ (c' & [= <-] & Hx)]. done.
Qed.

(** The handlers that ask for no approval. *)
Lemma handler_quiet envelope :
  nullish (prop envelope "payload") = false -> nullish (prop envelope "from") = false ->
  inherited (to_key (prop envelope "intent")) = false ->
  match Handlers.getHandler (prop envelope "intent") with
  | Some h =>
      match h (prop envelope "payload") (prop envelope "from") with
      | Some r =>
          truthy (js_or (Handlers.alwaysRequiresApproval r) (Some (JBool false)))
          || truthy (Handlers.needsApproval r) = false
      | None => False
      end
  | None => False
  end <-> quiet envelope.
Proof.
  intros Hp Hf Hinh. unfold quiet, written, Handlers.getHandler. rewrite Hinh.
  unfold Handlers.own_handler, Handlers.HANDLERS.
  set (k := to_key (prop envelope "intent")) in *.
  assert (forall c needs always,
             match (if c : bool then Handlers.flags needs always else None) with
             | Some r =>
                 truthy (js_or (Handlers.alwaysRequiresApproval r) (Some (JBool false)))
                 || truthy (Handlers.needsApproval r) = false
             | None => False
             end <-> c = true /\ truthy always = false /\ needs = false) as Hflags.
  { intros [] needs always; cbn; [|by split; [|intros [? _]]].
    assert (truthy (js_or always (Some (JBool false))) = truthy always) as ->.
    { unfold js_or. destruct always as [x|]; [|done]. by destruct (truthy (Some x)) eqn:E. }
    destruct (truthy always), needs; cbn; intuition congruence. }
  repeat match goal with
         | |- context [String.eqb k ?s] => destruct (String.eqb_spec k s) as [Hk|?]
         end;
    try (unfold Handlers.handleScheduleMeeting, Handlers.handleScheduleCall,
           Handlers.handleScheduleGroup, Handlers.handleMessageRelay,
           Handlers.handleInfoRequest, Handlers.handleInfoShare, Handlers.handleIntroduction,
           Handlers.handleCommerceRequest, Handlers.handleCommerceOffer,
           Handlers.handleCommerceAccept, Handlers.handleCommerceReject,
           Handlers.handleScheduleMeeting;
         rewrite Hp, Hf; cbn [orb]);
    rewrite ?Hflags, ?elem_of_cons, ?elem_of_nil.
  all: try (split; [by intros (_ & _ & ?)|];
            intros [[[?|[?|[?|[]]]]|[? _]] _]; congruence).
  - (* message.relay *)
    destruct (Handlers.all_convert _); [|split; [done|by intros [_ ?]]].
    cbn. split; [intros Hr; split; [by right|done]|].
    intros [[[?|[?|[?|[]]]]|[_ ?]] _]; congruence.
  - (* info.share *) split; [intros (-> & _); split; [left; by left|done]|by intros [_ ->]].
  - (* commerce.accept *)
    split; [intros (-> & _); split; [left; right; by left|done]|by intros [_ ->]].
  - (* commerce.reject *)
    split; [intros (-> & _); split; [left; right; right; by left|done]|by intros [_ ->]].
  - (* no handler *)
    split; [done|]. intros [[[?|[?|[?|[]]]]|[? _]] _]; congruence.
Qed.

(** X23: for a request whose intent and sender id convert, and whose
    intent names no member that every object inherits, [handleRequest]
    processes the request without asking the operator exactly when three
    things hold together: the intent is one whose handler asks for no
    approval (info.share, commerce.accept, commerce.reject, or
    message.relay without reply_requested) and the handler can write its
    text, the intent is not on the always-approve list, and the sender is
    on file as trusted.  Such a request changes nothing on the server.
    For an intent given as a string this leaves info.share and
    message.relay from a trusted sender. *)
Theorem X23_who_skips_approval (w : world) (now : Z) (envelope : json) :
  nullish (prop envelope "payload") = false -> nullish (prop envelope "from") = false ->
  is_str (prop envelope "type") "request" = true ->
  converts (prop envelope "intent") = true ->
  inherited (to_key (prop envelope "intent")) = false ->
  converts (oprop (prop envelope "from") "agent") = true ->
  ((handleRequest w now envelope).1 = Return (processed_reply envelope)
   <-> quiet envelope /\ Trust.always_approve (prop envelope "intent") = false
       /\ trusted w envelope)
  /\ ((handleRequest w now envelope).1 = Return (processed_reply envelope) ->
      (handleRequest w now envelope).2 = w)
  /\ (forall i, prop envelope "intent" = Some (JStr i) ->
        (handleRequest w now envelope).1 = Return (processed_reply envelope) ->
        i = "info.share" \/ i = "message.relay").
Proof.
  intros Hp Hf Hty Hci Hinh Hca.
  assert (forall x : outcome * world, x = file_approval w now envelope ->
            x.1 <> Return (processed_reply envelope)) as Hfile.
  { intros x ->. unfold file_approval, processed_reply.
    destruct (negb _); [done|]. by destruct (Conversations.transitionState _ _ _ _). }
  assert ((handleRequest w now envelope).1 = Return (processed_reply envelope)
          <-> quiet envelope /\ Trust.always_approve (prop envelope "intent") = false
              /\ trusted w envelope) as Hiff.
  { rewrite <- (handler_quiet envelope Hp Hf Hinh).
    pose proof (requiresApproval_request (contacts w) (oprop (prop envelope "from") "agent")
                  (prop envelope "intent") (prop envelope "type") Hty) as Hreq.
    unfold handleRequest, trusted, Trust.requiresApproval_throws.
    rewrite Hci, Hca, Bool.andb_false_r. cbn [negb].
    destruct (Handlers.getHandler _) as [h|]; [|split; [done|by intros [? _]]].
    destruct (h _ _) as [r|]; [|split; [done|by intros [? _]]].
    destruct (_ || _); [split; [intros Hx; by eapply Hfile in Hx|by intros [? _]]|].
    destruct (Trust.requiresApproval _ _ _ _).
    - split; [intros Hx; by eapply Hfile in Hx|]. intros (_ & Ha & Ht).
      assert (true = false) by (apply Hreq; by split). done.
    - split; [|done]. intros _. destruct (proj1 Hreq eq_refl) as [Ha Ht]. by repeat split. }
  split; [exact Hiff|]. split.
  - unfold handleRequest. destruct (negb _); [done|].
    destruct (Handlers.getHandler _) as [h|]; [|done].
    destruct (h _ _) as [r|]; [|done].
    destruct (_ || _); [intros Hx; by eapply Hfile in Hx|].
    destruct (Trust.requiresApproval_throws _ _); [done|].
    destruct (Trust.requiresApproval _ _ _ _); [intros Hx; by eapply Hfile in Hx|done].
  - intros i Hi Hok. apply Hiff in Hok as ([[Hq|[Hq _]] _] & Ha & _); rewrite Hi in *; simpl in Hq.
    + rewrite !elem_of_cons, elem_of_nil in Hq. destruct Hq as [->|[->|[->|[]]]];
        [by left|discriminate Ha|discriminate Ha].
    + by right.
Qed.
End ApprovalFacts.

Section ApprovalExamples.
Import Sym Examples Server Approval.

Lemma X23_witness :
  (handleRequest bob_world 6000 (from_alice "m8" "info.share" (JObj [("topic", JStr "menu")]))).1
  = Return (JObj [ ("status", JStr "ok"); ("message", JStr "Message received and processed.");
                   ("conversation", JStr "c1") ])
  /\ (handleRequest bob_world 6000 (from_alice "m8" "info.request" (JObj []))).1
     <> Return (processed_reply (from_alice "m8" "info.request" (JObj []))).
Proof.
  split.
  - apply (X23_who_skips_approval bob_world 6000
             (from_alice "m8" "info.share" (JObj [("topic", JStr "menu")]))
             eq_refl eq_refl eq_refl eq_refl eq_refl eq_refl).
    split; [split; [left; apply list_elem_of_here|reflexivity]|]. split; [reflexivity|].
    eexists. split; reflexivity.
  - intros Hok.
    destruct (proj2 (proj2 (X23_who_skips_approval bob_world 6000
                              (from_alice "m8" "info.request" (JObj []))
                              eq_refl eq_refl eq_refl eq_refl eq_refl eq_refl))
                "info.request" eq_refl Hok);
      discriminate.
Defined.
End ApprovalExamples.

(** ** The cleanup of pending approvals *)
Section PendingFacts.
Context `{Clock}.
Import Pending.

Lemma resolved_as_props v now approved reply m :
  v = JObj m ->
  prop (resolved_as v now approved reply) "resolved" = Some (JBool true)
  /\ prop (resolved_as v now approved reply) "approved" = Some (JBool approved).
Proof.
  intros ->. unfold resolved_as. cbn [prop_set prop]. split.
  - rewrite !assoc_set_ne by done. apply assoc_set_eq.
  - rewrite !assoc_set_ne by done. apply assoc_set_eq.
Qed.

(** The cleanup writes only rejections. *)
Lemma cleanup_one_writes now cutoff (p0 : gmap string json) acc pending :
  (forall e r p, acc = Some (e, r, p) ->
     e = Z.of_nat (length r) /\
     forall k v', p !! k = Some v' ->
       p0 !! k = Some v' \/ (is_Some (p0 !! k) /\ prop v' "approved" = Some (JBool false))) ->
  forall e r p, cleanup_one now cutoff acc pending = Some (e, r, p) ->
    e = Z.of_nat (length r) /\
    forall k v', p !! k = Some v' ->
      p0 !! k = Some v' \/ (is_Some (p0 !! k) /\ prop v' "approved" = Some (JBool false)).
Proof.
  intros Hacc e r p. unfold cleanup_one. destruct acc as [[[e0 r0] p1]|]; [|done].
  destruct (Hacc e0 r0 p1 eq_refl) as [He Hp].
  destruct (truthy (prop pending "resolved")).
  - destruct (Date_ms _) as [t|]; [|by intros [= <- <- <-]].
    destruct (t <? _); [|by intros [= <- <- <-]]. intros [= <- <- <-]. split; [done|].
    intros k v'. unfold removePendingApproval.
    destruct (decide (k = to_key (approval_id pending))) as [->|Hne].
    + by rewrite lookup_delete_eq.
    + rewrite lookup_delete_ne by done. apply Hp.
  - destruct (Date_ms _) as [t|]; [|by intros [= <- <- <-]].
    destruct (t <? cutoff); [|by intros [= <- <- <-]].
    unfold resolvePendingApproval.
    destruct (p1 !! to_key (approval_id pending)) as [cur|] eqn:Hcur.
    2:{ intros [= <- <- <-]. split; [rewrite length_app; simpl; lia|done]. }
    destruct (nullish (Some cur)) eqn:Hn; [done|]. intros [= <- <- <-].
    split; [rewrite length_app; simpl; lia|]. intros k v'.
    destruct (decide (k = to_key (approval_id pending))) as [->|Hne].
    + rewrite lookup_insert_eq. intros [= <-].
      destruct (Hp _ _ Hcur) as [Horig|[Hsome Happ]].
      * destruct cur as [| | | | |m]; try (left; exact Horig).
        right. split; [by eexists|]. by eapply resolved_as_props.
      * destruct cur as [| | | | |m]; try done.
        right. split; [done|]. by eapply resolved_as_props.
    + rewrite lookup_insert_ne by done. apply Hp.
Qed.

Lemma listed_filed k v :
  truthy (oprop (prop v "envelope") "id") = true ->
  exists d, listed (k, v) = Some d
            /\ approval_id d = oprop (prop v "envelope") "id"
            /\ prop d "resolved" = prop v "resolved"
            /\ prop d "resolvedAt" = prop v "resolvedAt"
            /\ prop d "createdAt" = prop v "createdAt"
            /\ nullish (Some v) = false.
Proof.
  intros Hid.
  assert (exists m, v = JObj m) as [m Hv] by (destruct v; try done; eauto).
  exists (prop_set v "_filename" (JStr (k +:+ ".json"))).
  split; [by rewrite Hv|]. unfold approval_id.
  rewrite !prop_set_ne by done. unfold js_or. rewrite Hid.
  repeat split; try (by apply prop_set_ne). by rewrite Hv.
Qed.

(** The cleanup of a directory filed by id, file by file. *)
Lemma cleanup_filed now th (l : list (string * json)) :
  NoDup l.*1 ->
  (forall k v, (k, v) ∈ l ->
     truthy (oprop (prop v "envelope") "id") = true /\ to_key (oprop (prop v "envelope") "id") = k) ->
  forall e r (p : gmap string json),
    (forall k v, (k, v) ∈ l -> p !! k = Some v) ->
    exists e' r' p',
      foldl (cleanup_one now (now - th * 3600000)) (Some (e, r, p)) (omap listed l)
      = Some (e', r', p')
      /\ forall k, p' !! k = match (list_to_map l : gmap string json) !! k with
                             | Some v => swept now th v
                             | None => p !! k
                             end.
Proof.
  induction l as [|[k0 v0] l IH]; intros Hnd Hgood e r p Hp.
  { by exists e, r, p. }
  apply NoDup_cons in Hnd as [Hk0 Hnd].
  destruct (Hgood k0 v0) as [Hid Hkey]; [left|].
  destruct (listed_filed k0 v0 Hid) as (d & Hd & Haid & Hres & HresAt & Hcre & Hnn).
  assert (p !! k0 = Some v0) as Hp0 by (apply Hp; left).
  assert ((list_to_map l : gmap string json) !! k0 = None) as Hfresh.
  { by apply not_elem_of_list_to_map_1. }
  assert (exists e1 r1 p1,
            cleanup_one now (now - th * 3600000) (Some (e, r, p)) d = Some (e1, r1, p1)
            /\ p1 !! k0 = swept now th v0
            /\ forall k, k <> k0 -> p1 !! k = p !! k) as (e1 & r1 & p1 & Hstep & Hp1 & Hframe).
  { unfold cleanup_one, swept. rewrite Hres, HresAt, Hcre, Haid.
    destruct (truthy (prop v0 "resolved")).
    - destruct (Date_ms _) as [t|]; [|by eexists _, _, _].
      destruct (t <? _); [|by eexists _, _, _].
      eexists _, _, _. split; [reflexivity|]. unfold removePendingApproval. rewrite Hkey.
      split; [apply lookup_delete_eq|]. intros k Hk. by apply lookup_delete_ne.
    - destruct (Date_ms _) as [t|]; [|by eexists _, _, _].
      destruct (t <? _); [|by eexists _, _, _].
      unfold resolvePendingApproval. rewrite Hkey, Hp0, Hnn.
      eexists _, _, _. split; [reflexivity|].
      split; [apply lookup_insert_eq|]. intros k Hk. by apply lookup_insert_ne. }
  destruct (IH Hnd) with (e := e1) (r := r1) (p := p1) as (e' & r' & p' & Hfold & Hp').
  { intros k v Hin. apply Hgood. by right. }
  { intros k v Hin. rewrite Hframe; [apply Hp; by right|].
    intros ->. apply Hk0. by apply (list_elem_of_fmap_2 fst _ (k0, v)). }
  exists e', r', p'. split.
  - cbn [omap list_omap]. change (list_omap _ _ listed l) with (omap listed l).
    rewrite Hd. cbn [foldl]. by rewrite Hstep.
  - intros k. rewrite Hp'. cbn [list_to_map foldr fst snd].
    destruct (decide (k = k0)) as [->|Hne].
    + by rewrite Hfresh, lookup_insert_eq.
    + rewrite lookup_insert_ne by done. destruct (_ !! k); [done|]. by apply Hframe.
Qed.

(** X24: the cleanup of pending approvals never approves and never makes
    a file: whatever it leaves in the directory was there before, either
    as it is now or before a rejection was written on it, and the count
    it returns is the number of approvals it rejected.  On a directory
    whose files are named after the id of their envelope it works file by
    file: an unresolved approval older than the timeout is rewritten as
    resolved and rejected, a resolved one older than seven days is
    removed, and every other file is left as it was. *)
Theorem X24_cleanup_only_rejects (p : gmap string json) (now timeoutHours : Z) :
  (forall e r p',
     cleanupPendingApprovals p now timeoutHours = Some (e, r, p') ->
     e = Z.of_nat (length r) /\
     forall k v', p' !! k = Some v' ->
       p !! k = Some v' \/ (is_Some (p !! k) /\ prop v' "approved" = Some (JBool false)))
  /\ (filed_by_id p ->
      exists e r,
        cleanupPendingApprovals p now timeoutHours
        = Some (e, r, omap (swept now timeoutHours) p)).
Proof.
  split.
  - unfold cleanupPendingApprovals.
    induction (listPendingApprovals p) as [|d l IH] using rev_ind.
    + intros e r p' [= <- <- <-]. split; [done|]. intros k v' Hk. by left.
    + rewrite foldl_app. cbn [foldl]. apply cleanup_one_writes. intros e r p1 Hacc.
      by apply IH.
  - intros Hfiled. unfold cleanupPendingApprovals, listPendingApprovals.
    destruct (cleanup_filed now timeoutHours (map_to_list p)) with (e := 0) (r := @nil json)
      (p := p) as (e' & r' & p' & Hfold & Hp').
    + apply NoDup_fst_map_to_list.
    + intros k v Hin. apply Hfiled. by apply elem_of_map_to_list.
    + intros k v Hin. by apply elem_of_map_to_list.
    + exists e', r'. rewrite Hfold. do 2 f_equal. apply map_eq. intros k.
      rewrite Hp', list_to_map_to_list, lookup_omap. by destruct (p !! k).
Qed.
End PendingFacts.

(** ** The rate limit of the server *)
Section ServerLimitFacts.
Context `{Clock} `{Ed25519} `{X25519Box}.
Import Server ServerRuns ServerLimit RateLimiter.

Lemma recent_narrow (t t' : Z) (l : list Z) :
  t <= t' ->
  filter (fun x => t' - x < RATE_WINDOW) (filter (fun x => t - x < RATE_WINDOW) l)
  = filter (fun x => t' - x < RATE_WINDOW) l.
Proof.
  intros Hle. induction l as [|a l IH]; [done|].
  destruct (decide (t - a < RATE_WINDOW)).
  - rewrite (filter_cons_True (fun x => t - x < RATE_WINDOW)) by done.
    destruct (decide (t' - a < RATE_WINDOW)).
    + rewrite !(filter_cons_True (fun x => t' - x < RATE_WINDOW)) by done. by rewrite IH.
    + by rewrite !(filter_cons_False (fun x => t' - x < RATE_WINDOW)) by done.
  - rewrite (filter_cons_False (fun x => t - x < RATE_WINDOW)) by done.
    rewrite (filter_cons_False (fun x => t' - x < RATE_WINDOW)) by lia. done.
Qed.

Lemma recent_narrow_length (t t' : Z) (l : list Z) :
  t <= t' ->
  (length (filter (fun x => (t' - x < RATE_WINDOW)%Z) l)
   <= length (filter (fun x => (t - x < RATE_WINDOW)%Z) l))%nat.
Proof. intros Hle. rewrite <- (recent_narrow t t') by done. apply length_filter. Qed.

Lemma filter_sublist_mono {A} (P : A -> Prop) `{!forall x, Decision (P x)} (l1 l2 : list A) :
  l1 `sublist_of` l2 -> filter P l1 `sublist_of` filter P l2.
Proof.
  induction 1 as [|x l1 l2 _ IH|x l1 l2 _ IH]; [done| |].
  - rewrite !filter_cons. destruct (decide (P x)); [by apply sublist_skip|done].
  - rewrite (filter_cons _ x l2). destruct (decide (P x)); [by apply sublist_cons|done].
Qed.

Lemma window_holds_later w a A tk t :
  tk <= t -> window_holds w a A tk -> window_holds w a A t.
Proof.
  intros Hle [Hw Hlen]. split.
  - intros t' Ht'. apply Hw. lia.
  - pose proof (recent_narrow_length tk t A Hle). lia.
Qed.

Ltac branches :=
  repeat match goal with
    | |- context [if ?b then _ else _] => destruct b
    | |- context [match ?x with Some _ => _ | None => _ end] => destruct x
    | |- context [match ?x with Conversations.Moved _ _ => _ | _ => _ end] => destruct x
    end.

(** The handlers leave the limiter alone. *)
Lemma handlers_keep_limiter me w now envelope :
  rateLimiter (handlePing me w now envelope).2 = rateLimiter w
  /\ rateLimiter (handleRequest w now envelope).2 = rateLimiter w
  /\ rateLimiter (handleReply w now envelope).2 = rateLimiter w
  /\ rateLimiter (handleInform w now envelope).2 = rateLimiter w.
Proof.
  assert (rateLimiter (file_approval w now envelope).2 = rateLimiter w) as Hf
    by (unfold file_approval; by branches).
  repeat split.
  - unfold handlePing. by branches.
  - unfold handleRequest. by branches.
  - unfold handleReply. by branches.
  - unfold handleInform. by branches.
Qed.

(** What a message does to the limiter. *)
Lemma processMessage_rateLimiter me w now envelope :
  let fromAgentId := oprop (prop envelope "from") "agent" in
  (rateLimiter (processMessage me w now envelope).2 = rateLimiter w
   /\ (nullish (Some envelope) = false -> logIncoming_throws envelope = false ->
       (processMessage me w now envelope).1 = Return (rejected "blocked")
       \/ (processMessage me w now envelope).1 = Return (rejected "rate_limited")))
  \/ (nullish (Some envelope) = false /\ logIncoming_throws envelope = false
      /\ checkRateLimit (rateLimiter w) now fromAgentId
         = (true, rateLimiter (processMessage me w now envelope).2)).
Proof.
  cbv zeta. unfold processMessage.
  destruct (nullish (Some envelope)); [left; by split|].
  destruct (logIncoming_throws envelope); [left; by split|].
  destruct (Trust.isBlocked _ _); [left; split; [done|by left]|].
  destruct (checkRateLimit _ _ _) as [allowed rl] eqn:Hrl.
  destruct allowed; cbn [negb]; [|left; split; [done|by right]].
  right. split; [done|]. split; [done|]. f_equal.
  destruct (_ && _ && negb _); [done|].
  destruct (_ && negb _); [done|].
  destruct (maybeDecryptPayload me envelope) as [env|]; [|done].
  destruct (negb (converts (prop env "conversation"))); [done|].
  match goal with |- context [match ?t with Some st => _ | None => (Throw, ?w0) end] =>
    destruct t as [st|]; [|done] end.
  match goal with |- context [with_conv_meta ?w1 ?x] => set (w2 := with_conv_meta w1 x) end.
  assert (rateLimiter w2 = rl) as Hc by done. clearbody w2. rewrite <- Hc.
  destruct (handlers_keep_limiter me w2 now env) as (Hp & Hr & Hy & Hi).
  destruct (is_str _ "ping"); [by rewrite Hp|].
  destruct (is_str _ "request"); [by rewrite Hr|].
  destruct (_ || _ || _); [by rewrite Hy|].
  destruct (is_str _ "inform"); [by rewrite Hi|done].
Qed.

Lemma map_get_app_other {V} (k k' : option json) (x : V) m :
  key_eqb k k' = false -> map_get k (m ++ [(k', x)]) = map_get k m.
Proof.
  intros Hne. induction m as [|[k0 y] m IH]; simpl; [by rewrite Hne|].
  by destruct (key_eqb k k0).
Qed.

Lemma process_all_window me a msgs :
  is_ref a = false ->
  forall w A tk,
    window_holds w a A tk ->
    ascending (tk :: msgs.*1) ->
    exists A',
      served a msgs (process_all me w msgs).1 `sublist_of` A'
      /\ window_holds (process_all me w msgs).2 a (A ++ A') (default tk (last msgs.*1)).
Proof.
  intros Hplain.
  induction msgs as [|[t envelope] msgs IH]; intros w A tk Hw Hs.
  { exists []. split; [done|]. by rewrite app_nil_r. }
  destruct Hs as [Htk Hs]. simpl in Hs, Htk.
  apply Forall_cons in Htk as [Htk Hrest].
  assert (default t (last msgs.*1) = default tk (last ((t, envelope) :: msgs).*1)) as Hlast.
  { change (((t, envelope) :: msgs).*1) with (t :: msgs.*1).
    destruct msgs as [|c msgs]; [done|]. cbn [fmap list_fmap].
    rewrite last_cons_cons.
    destruct (last (c.1 :: msgs.*1)) eqn:El; [done|]. by apply last_None in El. }
  rewrite <- Hlast. cbn [process_all served fst snd].
  set (r := processMessage me w t envelope).
  destruct (processMessage_rateLimiter me w t envelope) as [[Hsame Hout]|(Hnn & Hlog & Hpass)];
    fold r in Hsame, Hout || fold r in Hpass.
  - (* the limiter is as it was, and the message was turned away *)
    destruct (IH r.2 A t) as (A' & Hsub & Hw'); [|done|].
    { apply (window_holds_later _ _ _ tk); [done|].
      destruct Hw as [Hw Hlen]. split; [|done]. intros t' Ht'. rewrite Hsame. by apply Hw. }
    exists A'. split; [|done].
    destruct (nullish (Some envelope)); [done|]. cbn [negb andb].
    destruct (logIncoming_throws envelope); [done|]. cbn [negb andb].
    destruct (Hout eq_refl eq_refl) as [-> | ->]; cbn; by rewrite ?andb_false_r.
  - destruct (key_eqb (oprop (prop envelope "from") "agent") a) eqn:Ha.
    + (* a message of [a] that passed the limiter *)
      apply key_eqb_eq in Ha. unfold checkRateLimit in Hpass. rewrite Ha, Hplain in Hpass.
      destruct Hw as [Hw Hlen]. rewrite (Hw t Htk) in Hpass.
      destruct (decide (RATE_LIMIT <= _)%nat) as [Hfull|Hroom]; [done|].
      injection Hpass as Hrl.
      destruct (IH r.2 (A ++ [t]) t) as (A' & Hsub & Hw'); [|done|].
      { assert (filter (fun x => t - x < RATE_WINDOW) (A ++ [t])
                = filter (fun x => t - x < RATE_WINDOW) A ++ [t]) as Hf.
        { rewrite filter_app. f_equal. rewrite filter_cons_True by (unfold RATE_WINDOW; lia).
          by rewrite filter_nil. }
        split.
        - intros t' Ht'. rewrite <- Hrl, map_get_set. cbn [default]. unfold id.
          rewrite !filter_app. f_equal. by apply recent_narrow.
        - rewrite Hf, length_app. simpl. lia. }
      exists (t :: A'). split.
      * rewrite Hnn, Hlog. cbn [negb andb]. destruct (negb (turned_away r.1)); simpl;
          [by apply sublist_skip|by apply sublist_cons].
      * by rewrite <- app_assoc in Hw'.
    + (* a message of another agent *)
      destruct (IH r.2 A t) as (A' & Hsub & Hw'); [|done|].
      { apply (window_holds_later _ _ _ tk); [done|].
        destruct Hw as [Hw Hlen]. split; [|done]. intros t' Ht'.
        assert (key_eqb a (oprop (prop envelope "from") "agent") = false) as Ha'.
        { apply not_true_is_false. intros E. apply key_eqb_eq in E. subst a.
          by rewrite key_eqb_refl in Ha. }
        unfold checkRateLimit in Hpass. destruct (decide _); [done|].
        injection Hpass as <-.
        destruct (is_ref (oprop (prop envelope "from") "agent")).
        - rewrite map_get_app_other by done. by apply Hw.
        - rewrite map_get_set_other by done. by apply Hw. }
      exists A'. split; [|done]. by rewrite andb_false_r.
Qed.

(** X25: the server lets at most [RATE_LIMIT] messages of one agent
    through in any window, for an agent whose id is no object or array
    (such an id is a key that the limiter never finds again, and is not
    limited): in a run of messages at non-decreasing instants whose ids
    and conversations name files, on a server whose limiter has nothing
    on the agent yet, the agent's messages of the last [RATE_WINDOW] that
    reached the limiter (their line of the log could be written) and were
    answered otherwise than with the rejections blocked or rate_limited
    are at most twenty. *)
Theorem X25_server_rate_limit (me : identity) (w : world) (msgs : list (Z * json))
    (a : option json) (t_last : Z) :
  is_ref a = false ->
  Forall (fun m => file_name (prop m.2 "id") = true
                   /\ file_name (prop m.2 "conversation") = true) msgs ->
  map_get a (rateLimiter w) = None ->
  ascending msgs.*1 ->
  last msgs.*1 = Some t_last ->
  (length (filter (fun x => (t_last - x < RATE_WINDOW)%Z)
             (served a msgs (process_all me w msgs).1)) <= RATE_LIMIT)%nat.
Proof.
  intros Hplain _ Hnew Hs Hlast. destruct msgs as [|[t0 e0] msgs]; [done|].
  destruct (process_all_window me a ((t0, e0) :: msgs) Hplain w [] t0) as (A' & Hsub & [_ Hlen]).
  - split; [|simpl; lia]. intros t _. by rewrite Hnew.
  - simpl. split; [|done]. apply Forall_cons. split; [lia|]. by destruct Hs.
  - rewrite Hlast in Hlen. cbn [default app] in Hlen. unfold id in Hlen.
    pose proof (sublist_length _ _
                  (filter_sublist_mono (fun x => t_last - x < RATE_WINDOW) _ _ Hsub)). lia.
Qed.
End ServerLimitFacts.

Section ServerLimitExamples.
Import Sym Examples Server ServerRuns ServerLimit RateLimiter.

Lemma X25_witness :
  let msgs := [(6000, unsigned_request); (6001, forged); (90000, unsigned_request)] in
  is_ref (Some (JStr "alice")) = false
  /\ Forall (fun m => file_name (prop m.2 "id") = true
                      /\ file_name (prop m.2 "conversation") = true) msgs
  /\ ascending msgs.*1
  /\ (length (filter (fun x => (90000 - x < RATE_WINDOW)%Z)
                (served (Some (JStr "alice")) msgs (process_all bob bob_world msgs).1))
      <= RATE_LIMIT)%nat.
Proof.
  assert (ascending [6000; 6001; 90000]) as Hs.
  { simpl. repeat split; repeat (apply Forall_cons; split; [lia|]); apply Forall_nil_2. }
  assert (Forall (fun m => file_name (prop m.2 "id") = true
                           /\ file_name (prop m.2 "conversation") = true)
            [(6000, unsigned_request); (6001, forged); (90000, unsigned_request)]) as Hf
    by (repeat constructor).
  split; [reflexivity|]. split; [exact Hf|]. split; [exact Hs|].
  exact (X25_server_rate_limit bob bob_world
           [(6000, unsigned_request); (6001, forged); (90000, unsigned_request)]
           (Some (JStr "alice")) 90000 eq_refl Hf eq_refl Hs eq_refl).
Defined.
End ServerLimitExamples.

(** ** The message count of a conversation *)
Section ServerCountFacts.
Context `{Clock} `{Ed25519} `{X25519Box}.
Import Conversations Server ServerRuns ServerCount.

Lemma transitionState_count st now cid newState c :
  after_transition st (transitionState st now cid newState) !! c = st !! c
  \/ exists meta, st !! c = Some meta
       /\ after_transition st (transitionState st now cid newState) !! c
          = Some (prop_set (prop_set meta "state" (default JNull newState)) "updatedAt"
                    (JStr (toISOString now))).
Proof.
  unfold transitionState, getConversation.
  destruct (negb (converts cid)); [by left|].
  destruct (st !! to_key cid) as [meta|] eqn:Hm; [|by left].
  destruct (negb (truthy (Some meta))); [by left|].
  destruct (negb (converts (prop meta "state"))); [by left|].
  destruct (TRANSITIONS _) as [allowed|].
  2:{ left. by destruct (inherited _), (converts newState). }
  destruct (negb (includes allowed newState)); [left; by destruct (converts newState)|].
  cbn [after_transition].
  destruct (decide (c = to_key cid)) as [->|Hne].
  - right. exists meta. split; [done|]. by rewrite lookup_insert_eq.
  - left. by rewrite lookup_insert_ne.
Qed.

Lemma count_lags_meta (w w' : world) c :
  conv_log w' = conv_log w ->
  (conv_meta w' !! c = conv_meta w !! c
   \/ exists meta k x k' x',
        conv_meta w !! c = Some meta /\ k <> "messageCount" /\ k' <> "messageCount"
        /\ conv_meta w' !! c = Some (prop_set (prop_set meta k x) k' x')) ->
  count_lags w c -> count_lags w' c.
Proof.
  intros Hlog [Hsame|(meta & k & x & k' & x' & Hm & Hk & Hk' & Hm')] Hc; unfold count_lags in *.
  - by rewrite Hsame, Hlog.
  - rewrite Hm', Hlog. rewrite Hm in Hc. destruct Hc as (n & Hn & Hlen).
    exists n. split; [|done]. by rewrite !prop_set_ne.
Qed.

Lemma count_lags_transition w now cid newState c :
  count_lags w c ->
  count_lags (with_conv_meta w
                (after_transition (conv_meta w) (transitionState (conv_meta w) now cid newState))) c.
Proof.
  apply count_lags_meta; [done|]. cbn [conv_meta with_conv_meta].
  destruct (transitionState_count (conv_meta w) now cid newState c) as [?|(meta & ? & ?)];
    [by left|right].
  by exists meta, "state", (default JNull newState), "updatedAt", (JStr (toISOString now)).
Qed.

(** Filing an approval or a contact does not touch the conversations. *)
Lemma count_lags_frame (w w' : world) c :
  conv_meta w' = conv_meta w -> conv_log w' = conv_log w -> count_lags w c -> count_lags w' c.
Proof. unfold count_lags. by intros -> ->. Qed.

Lemma file_approval_count w now envelope c :
  count_lags w c -> count_lags (file_approval w now envelope).2 c.
Proof.
  intros Hc. unfold file_approval. destruct (negb _); [done|].
  set (w1 := savePendingApproval _ _ _).
  assert (count_lags w1 c) as Hc1 by (by apply (count_lags_frame w)).
  pose proof (count_lags_transition w1 now (prop envelope "conversation")
                (Some (JStr NEGOTIATING)) c Hc1) as Ht.
  by destruct (transitionState _ _ _ _).
Qed.

Lemma handlers_count me w now envelope c :
  count_lags w c ->
  count_lags (handlePing me w now envelope).2 c
  /\ count_lags (handleRequest w now envelope).2 c
  /\ count_lags (handleReply w now envelope).2 c
  /\ count_lags (handleInform w now envelope).2 c.
Proof.
  intros Hc. repeat split.
  - unfold handlePing. destruct (negb _); [done|]. by destruct (negb _).
  - unfold handleRequest. destruct (negb _); [done|].
    destruct (Handlers.getHandler _) as [h|]; [|done].
    destruct (h _ _) as [r|]; [|done].
    destruct (_ || _); [by apply file_approval_count|].
    destruct (Trust.requiresApproval_throws _ _); [done|].
    destruct (Trust.requiresApproval _ _ _ _); [by apply file_approval_count|done].
  - unfold handleReply.
    set (t := if is_str _ "confirm" then _ else _).
    assert (count_lags (with_conv_meta w (after_transition (conv_meta w) t)) c) as Ht.
    { subst t. destruct (is_str _ "confirm"); [by apply count_lags_transition|].
      destruct (is_str _ "reject"); [by apply count_lags_transition|].
      by destruct w. }
    destruct t; try done; by destruct (_ || _).
  - unfold handleInform. destruct (negb _); [done|].
    destruct (Handlers.getHandler _) as [h|]; [|done].
    destruct (h _ _) as [r|]; [|done]. by destruct (negb _).
Qed.

Lemma processMessage_count me w now envelope c :
  count_lags w c -> count_lags (processMessage me w now envelope).2 c.
Proof.
  intros Hc. unfold processMessage.
  destruct (nullish _); [done|].
  destruct (logIncoming_throws _); [done|].
  destruct (Trust.isBlocked (contacts w) (oprop (prop envelope "from") "agent")); [done|].
  destruct (checkRateLimit _ _ _) as [allowed rl].
  destruct allowed; cbn [negb]; [|done].
  destruct (_ && _ && negb _); [done|].
  destruct (_ && negb _); [done|].
  destruct (maybeDecryptPayload me envelope) as [env|]; [|done].
  destruct (negb (converts (prop env "conversation"))); [done|].
  set (key := to_key (prop env "conversation")).
  set (w1 := saveToConversation _ _ _).
  match goal with |- context [match ?t with Some st => _ | None => (Throw, ?w0) end] =>
    set (tracked := t) end.
  assert (match tracked with
          | Some st => count_lags (with_conv_meta w1 st) c
          | None => count_lags w1 c
          end) as Hc2.
  { subst tracked w1. unfold count_lags in *.
    cbn [conv_meta conv_log with_conv_meta saveToConversation with_conv_log with_rateLimiter].
    unfold getConversation. fold key.
    destruct (decide (c = key)) as [->|Hne].
    - destruct (conv_meta w !! key) as [meta|] eqn:Hm.
      + destruct Hc as (n & Hn & Hlen).
        assert (truthy (Some meta) = true) as -> by (destruct meta; try done).
        unfold next_count. rewrite Hn.
        assert (js_or (Some (JNum n)) (Some (JNum 0)) = Some (JNum n)) as ->.
        { unfold js_or. cbn [truthy]. by destruct (Z.eqb_spec n 0) as [->|]. }
        unfold updateConversation, getConversation. fold key. rewrite Hm.
        assert (truthy (Some meta) = true) as -> by (destruct meta; try done).
        cbn [negb snd]. rewrite !lookup_insert_eq. cbn [default].
        exists (n + 1). unfold assign. cbn [foldl fst snd app].
        destruct meta as [| | | | |m]; try done. cbn [prop_set prop].
        split; [rewrite assoc_set_ne by done; apply assoc_set_eq|].
        unfold id in *. rewrite length_app. simpl. lia.
      + unfold createConversation. cbn [snd]. rewrite !lookup_insert_eq. cbn [default].
        exists 0. rewrite Hc. split; [|done].
        apply prop_literal; [by repeat (apply NoDup_cons; split;
          [rewrite ?elem_of_cons, ?elem_of_nil; intuition discriminate|]); apply NoDup_nil_2|].
        rewrite !elem_of_cons. auto 20.
    - assert (forall o : option store,
                o = (match conv_meta w !! key with
                     | Some meta =>
                         if truthy (Some meta)
                         then match next_count meta with
                              | Some n =>
                                  Some (updateConversation (conv_meta w) now
                                          (prop env "conversation") [("messageCount", n)]).2
                              | None => None
                              end
                         else Some (createConversation (conv_meta w) now (prop env "conversation")
                                      (prop env "intent") (prop env "from") (prop env "to")
                                      (prop env "participants")).2
                     | None =>
                         Some (createConversation (conv_meta w) now (prop env "conversation")
                                 (prop env "intent") (prop env "from") (prop env "to")
                                 (prop env "participants")).2
                     end) ->
                (exists st', o = Some st' /\ st' !! c = conv_meta w !! c)
                \/ (o = None /\ exists meta, conv_meta w !! key = Some meta)) as Hother.
      { intros o ->. unfold updateConversation, createConversation, getConversation. fold key.
        destruct (conv_meta w !! key) as [meta|];
          [|left; eexists; split; [done|]; cbn [snd]; by rewrite lookup_insert_ne].
        destruct (truthy (Some meta));
          [|left; eexists; split; [done|]; cbn [snd]; by rewrite lookup_insert_ne].
        destruct (next_count meta); [|right; split; [done|by eexists]].
        left. eexists. split; [done|]. cbn [negb snd]. by rewrite lookup_insert_ne. }
      destruct (Hother _ eq_refl) as [(st' & -> & Hst')|[-> _]].
      + by rewrite Hst', lookup_insert_ne.
      + by rewrite lookup_insert_ne. }
  clearbody w1 tracked. clear Hc. destruct tracked as [st|]; [|done].
  destruct (handlers_count me (with_conv_meta w1 st) now env c Hc2) as (Hp & Hr & Hy & Hi).
  destruct (is_str _ "ping"); [done|].
  destruct (is_str _ "request"); [done|].
  destruct (_ || _ || _); [done|].
  by destruct (is_str _ "inform").
Qed.

(** X26: the server's count of the messages of a conversation lags one
    behind: on a server that starts with no conversations, after any run
    of messages whose ids and conversations name files of their
    directories, a conversation has a log exactly if it has metadata, and
    then [messageCount] is the number of logged messages less one, the
    message that created the conversation not being counted. *)
Theorem X26_message_count_lags (me : identity) (w : world) (msgs : list (Z * json)) (c : string) :
  conv_meta w = ∅ -> conv_log w = ∅ ->
  Forall (fun m => file_name (prop m.2 "id") = true
                   /\ file_name (prop m.2 "conversation") = true) msgs ->
  count_lags (process_all me w msgs).2 c.
Proof.
  intros Hm Hl _. assert (count_lags w c) as Hc.
  { unfold count_lags. by rewrite Hm, Hl, !lookup_empty. }
  clear Hm Hl. revert w Hc. induction msgs as [|[now envelope] msgs IH]; intros w Hc; [done|].
  cbn [process_all snd]. by apply IH, processMessage_count.
Qed.
End ServerCountFacts.

Section ServerCountExamples.
Import Sym Examples Server ServerRuns ServerCount.

Lemma X26_witness :
  let w := (process_all bob bob_world
              [(6000, unsigned_request); (6001, unsigned_request); (6002, unsigned_request)]).2 in
  count_lags w "c1"
  /\ length (default [] (conv_log w !! "c1")) = 3%nat
  /\ oprop (conv_meta w !! "c1") "messageCount" = Some (JNum 2).
Proof.
  split; [|split; by vm_compute].
  apply (X26_message_count_lags bob bob_world
           [(6000, unsigned_request); (6001, unsigned_request); (6002, unsigned_request)]
           "c1" eq_refl eq_refl).
  by repeat constructor.
Defined.
End ServerCountExamples.

(** ** The rotation of keys *)
Section KeyRotationFacts.
Context `{Clock}.
Import KeyRotation.

Lemma slice_step {A} (L : list A) (x : A) :
  (let l := drop (length L - 3) L ++ [x] in if (3 <? length l)%nat then slice_last3 l else l)
  = drop (length (L ++ [x]) - 3) (L ++ [x]).
Proof.
  cbv zeta. unfold slice_last3. rewrite !length_app, length_drop. cbn [length].
  destruct (Nat.ltb_spec 3 (length L - (length L - 3) + 1)).
  - assert (3 <= length L)%nat by lia.
    replace (length L - (length L - 3) + 1 - 3)%nat with 1%nat by lia.
    rewrite drop_app_le by (rewrite length_drop; lia). rewrite drop_drop.
    rewrite drop_app_le by lia. do 2 f_equal. lia.
  - assert (length L - 3 = 0)%nat as -> by lia.
    replace (length L + 1 - 3)%nat with 0%nat by lia. done.
Qed.

(** The retired keys after a run of rotations. *)
Lemma rotate_all_meta (k0 : string) (key0 : option string) rotations :
  let f := rotate_all {| agent_pub := Some k0; agent_key := key0; rotation_meta := None |}
             rotations in
  let keys := k0 :: rotations.*2.*1 in
  agent_pub f = last keys
  /\ exists retired,
       previousKeys (_loadMeta f) = drop (length retired - 3) retired
       /\ retired.*1 = take (length rotations) keys
       /\ (rotations <> [] ->
           lastRotation (_loadMeta f) = (fun r => toISOString r.1) <$> last rotations).
Proof.
  cbv zeta. induction rotations as [|[t [pk sk]] rotations IH] using rev_ind.
  { split; [done|]. exists []. by repeat split. }
  destruct IH as (Hpub & retired & Hprev & Hret & _).
  unfold rotate_all in *. rewrite foldl_app. cbn [foldl fst snd].
  set (f := foldl _ _ rotations) in *.
  rewrite !fmap_app. cbn [fmap list_fmap fst snd]. rewrite app_comm_cons, last_snoc.
  split; [done|].
  assert (exists cur, agent_pub f = Some cur /\ last (k0 :: rotations.*2.*1) = Some cur)
    as (cur & Hcur & Hlast).
  { rewrite Hpub. destruct (last (k0 :: rotations.*2.*1)) eqn:E; [by eexists|].
    by apply last_None in E. }
  exists (retired ++ [(cur, toISOString t)]). unfold rotate. rewrite Hcur, Hprev.
  unfold _loadMeta at 1 2. cbn [rotation_meta default previousKeys lastRotation snd]. unfold id.
  split; [apply slice_step|]. split.
  - rewrite fmap_app, Hret, length_app. cbn [length fmap list_fmap fst].
    apply last_Some in Hlast as [l' Hl'].
    assert (length l' = length rotations) as Hl.
    { apply (f_equal length) in Hl'. rewrite length_app in Hl'. cbn [length] in Hl'.
      rewrite !length_fmap in Hl'. lia. }
    rewrite Hl'. rewrite (take_app_length' l' [cur]) by done.
    symmetry. apply take_app_length'. rewrite length_app. simpl. lia.
  - intros _. by rewrite last_snoc.
Qed.

(** X27: rotating keeps the history of the last three retired keys.
    After any run of rotations from a directory that holds a key pair
    and no metadata, the public key on file is the one generated last,
    and [getPreviousKeys] gives the last three of the keys that were on
    file before it, oldest first.  A rotation becomes due only more than
    [rotationInterval] after the last one; keys that were never rotated
    are never due. *)
Theorem X27_rotation_history (k0 : string) (key0 : option string)
    (rotations : list (Z * (string * string))) (now : Z) :
  let start := {| agent_pub := Some k0; agent_key := key0; rotation_meta := None |} in
  let f := rotate_all start rotations in
  let keys := k0 :: rotations.*2.*1 in
  agent_pub f = last keys
  /\ getPreviousKeys f = drop (length rotations - 3) (take (length rotations) keys)
  /\ needsRotation start now = false
  /\ (forall t, fst <$> last rotations = Some t ->
        toISOString t <> "" -> Date_ms (Some (JStr (toISOString t))) = Some t ->
        needsRotation f now = (rotationInterval <? now - t)).
Proof.
  intros start f keys.
  destruct (rotate_all_meta k0 key0 rotations) as (Hpub & retired & Hprev & Hret & Hlast).
  fold start in Hpub, Hprev, Hlast. fold f in Hpub, Hprev, Hlast. fold keys in Hpub, Hret.
  split; [done|]. split; [|split; [done|]].
  - unfold getPreviousKeys. rewrite Hprev, fmap_drop, Hret.
    assert (length retired = length rotations) as ->; [|done].
    rewrite <- (length_fmap fst retired), Hret, length_take. subst keys. cbn [length].
    rewrite !length_fmap. lia.
  - intros t Ht Hiso Hclock. unfold needsRotation.
    destruct rotations as [|r rotations]; [done|]. rewrite Hlast by done.
    destruct (last (r :: rotations)) as [[t' ks]|]; [|done]. injection Ht as ->.
    cbn [fmap option_fmap option_map fst]. apply String.eqb_neq in Hiso.
    by rewrite Hiso, Hclock.
Qed.
End KeyRotationFacts.

Section KeyRotationExamples.
Import Sym KeyRotation.

Lemma X27_witness :
  let f := rotate_all {| agent_pub := Some "k0"; agent_key := Some "s0"; rotation_meta := None |}
             [(1000, ("k1", "s1")); (2000, ("k2", "s2")); (3000, ("k3", "s3"));
              (4000, ("k4", "s4")); (5000, ("k5", "s5"))] in
  agent_pub f = Some "k5"
  /\ getPreviousKeys f = ["k2"; "k3"; "k4"]
  /\ needsRotation f (5000 + rotationInterval) = false
  /\ needsRotation f (5001 + rotationInterval) = true.
Proof.
  intros f.
  destruct (X27_rotation_history "k0" (Some "s0")
              [(1000, ("k1", "s1")); (2000, ("k2", "s2")); (3000, ("k3", "s3"));
               (4000, ("k4", "s4")); (5000, ("k5", "s5"))] (5000 + rotationInterval))
    as (H1 & H2 & _ & H4).
  destruct (X27_rotation_history "k0" (Some "s0")
              [(1000, ("k1", "s1")); (2000, ("k2", "s2")); (3000, ("k3", "s3"));
               (4000, ("k4", "s4")); (5000, ("k5", "s5"))] (5001 + rotationInterval))
    as (_ & _ & _ & H4').
  split; [exact H1|]. split; [exact H2|]. split.
  - apply (H4 5000 eq_refl); [discriminate|reflexivity].
  - apply (H4' 5000 eq_refl); [discriminate|reflexivity].
Defined.
End KeyRotationExamples.

(** ** What leaves the client *)
Section SendFacts.
Context `{Clock} `{Ed25519} `{X25519Box}.
Import Client.

Lemma queueAndSend_first st now uuid endpoint envelope (sendFn : Queue.sender) opts :
  let qid := to_key (js_or (prop envelope "id") (Some (JStr uuid))) in
  (Queue.queueAndSend st now uuid endpoint envelope sendFn opts).1.2 = qid
  /\ forall sendFn' : Queue.sender,
       sendFn' now endpoint envelope = sendFn now endpoint envelope ->
       Queue.queueAndSend st now uuid endpoint envelope sendFn' opts
       = Queue.queueAndSend st now uuid endpoint envelope sendFn opts.
Proof.
  cbv zeta. unfold Queue.queueAndSend, Queue.enqueue.
  set (qid := to_key _). set (e0 := Queue.Build_entry _ _ _ _ _ _ _ _ _ _ _).
  set (st0 := Queue.with_outbox st _).
  assert (forall f : Queue.sender,
            Queue.attemptDelivery st0 now qid f (Queue.opt_onFailure opts)
            = match f now endpoint envelope with
              | inr response =>
                  (true, Queue.removeEntry
                           (Queue.updateEntry st0 qid
                              (Queue.set_delivered (Queue.set_attempt e0 now) now)) qid)
              | inl message =>
                  (Queue.attemptDelivery st0 now qid (fun _ _ _ => inl message)
                     (Queue.opt_onFailure opts))
              end) as Hatt.
  { intros f. unfold Queue.attemptDelivery, Queue.loadEntry. subst st0.
    cbn [Queue.outbox Queue.with_outbox]. rewrite lookup_insert_eq.
    cbn [Queue.status e0 String.eqb Ascii.eqb Bool.eqb orb Queue.set_attempt Queue.endpoint
         Queue.envelope].
    by destruct (f now endpoint envelope). }
  split.
  - by destruct (Queue.attemptDelivery st0 now qid sendFn (Queue.opt_onFailure opts)).
  - intros sendFn' Hsame. by rewrite (Hatt sendFn'), (Hatt sendFn), Hsame.
Qed.

(** X28: [sendMessage] hands the network nothing but the envelope that
    [maybeEncryptEnvelope] made, at the endpoint it was given: what it
    returns and what it leaves on disk depend on the network only
    through the answer to that one envelope.  To a blocked recipient
    nothing is sent at all.  When the send fails and the queue is on, the
    answer says queued under the id of the envelope and the contacts are
    unchanged; when it succeeds, the answer is the response and the
    outbox is unchanged. *)
Theorem X28_only_the_wire_leaves (cfg : config) (w : world) (now : Z) (uuid : string)
    (eph : x_priv) (nonce : string) (rawSend : Queue.sender) (endpoint : string)
    (envelope : json) (options : send_options) :
  let wire := maybeEncryptEnvelope cfg (contacts w) envelope eph nonce in
  let out := sendMessage cfg w now uuid eph nonce rawSend endpoint envelope options in
  (forall rawSend' : Queue.sender,
     rawSend' now endpoint wire = rawSend now endpoint wire ->
     sendMessage cfg w now uuid eph nonce rawSend' endpoint envelope options = out)
  /\ (truthy (recipientAgent envelope) = true ->
      Trust.isBlocked (contacts w) (recipientAgent envelope) = true ->
      out = (Throw, w))
  /\ (truthy (recipientAgent envelope) && Trust.isBlocked (contacts w) (recipientAgent envelope)
      = false ->
      match rawSend now endpoint wire with
      | inr data => out.1 = Return data /\ queue out.2 = queue w
      | inl err =>
          if enableQueue cfg && o_queue options
          then out.1 = Return (JObj [ ("status", JStr "queued");
                                      ("queueId", JStr (to_key (js_or (prop wire "id")
                                                                  (Some (JStr uuid)))));
                                      ("message",
                                       JStr "Agent offline, message queued for retry") ])
               /\ contacts out.2 = contacts w
          else out = (Throw, w)
      end).
Proof.
  intros wire out. subst out. unfold sendMessage. fold wire. split; [|split].
  - intros rawSend' Hsame. destruct (_ && _); [done|]. rewrite Hsame.
    destruct (rawSend now endpoint wire) as [err|data] eqn:Hraw; [|done].
    rewrite <- Hraw in Hsame.
    destruct (_ && _); [|done].
    by rewrite (proj2 (queueAndSend_first (queue w) now uuid endpoint wire rawSend
                         {| Queue.opt_maxRetries := None; Queue.opt_retryDelays := None;
                            Queue.opt_onFailure := true |}) rawSend' Hsame).
  - intros -> ->. done.
  - intros ->. destruct (rawSend now endpoint wire) as [err|data].
    + destruct (_ && _); [|done].
      pose proof (proj1 (queueAndSend_first (queue w) now uuid endpoint wire rawSend
                           {| Queue.opt_maxRetries := None; Queue.opt_retryDelays := None;
                              Queue.opt_onFailure := true |})) as Hid.
      destruct (Queue.queueAndSend _ _ _ _ _ _ _) as [[d qid] q]. cbn [fst snd] in *.
      by rewrite Hid.
    + by destruct (truthy _).
Qed.
End SendFacts.

(** ** The expiry sweep *)
Section SweepFacts.
Context `{Clock}.
Import Conversations ConversationSweep.

Lemma transitions_expired s :
  match TRANSITIONS s with
  | Some allowed => includes allowed (Some (JStr EXPIRED))
  | None => false
  end = String.eqb s PROPOSED || String.eqb s NEGOTIATING.
Proof.
  unfold TRANSITIONS, PROPOSED, NEGOTIATING.
  destruct (String.eqb s "proposed"); [done|].
  destruct (String.eqb s "negotiating"); [done|].
  by repeat (destruct (String.eqb s _)).
Qed.

Lemma terminal_settled conv : is_terminal conv = true -> unsettled conv = false.
Proof.
  unfold is_terminal, unsettled. rewrite !orb_true_iff, !is_str_true.
  intros [[->| ->]| ->]; done.
Qed.

(** One iteration on a file that is still as it was listed. *)
Lemma expire_one_step now (st : store) n k0 v0 :
  to_key (prop v0 "id") = k0 -> converts (prop v0 "id") = true ->
  converts (prop v0 "state") = true -> inherited (to_key (prop v0 "state")) = false ->
  converts (prop v0 "expiresAt") = true ->
  st !! k0 = Some v0 ->
  exists st1,
    expire_one now (st, Some n) v0 = (st1, Some (n + (if counted now v0 then 1 else 0)))
    /\ st1 !! k0 = Some (if unsettled v0 && overdue now v0 then expired_at now v0 else v0)
    /\ forall k, k <> k0 -> st1 !! k = st !! k.
Proof.
  intros Hk Hcid Hcs Hinh Hce Hst. unfold expire_one, counted, overdue.
  destruct (is_terminal v0) eqn:Hterm.
  { exists st. rewrite (terminal_settled _ Hterm). cbn [negb andb].
    by rewrite Z.add_0_r. }
  cbn [negb andb].
  destruct (truthy (prop v0 "expiresAt")) eqn:Hexp; cbn [andb];
    [|exists st; by rewrite andb_false_r, Z.add_0_r].
  rewrite Hce. cbn [negb].
  destruct (Date_ms _) as [t|]; [|exists st; by rewrite andb_false_r, Z.add_0_r].
  destruct (t <? now); [|exists st; by rewrite andb_false_r, Z.add_0_r].
  rewrite andb_true_r.
  assert (exists m, v0 = JObj m) as [m ->].
  { destruct (prop v0 "expiresAt") as [x|] eqn:E; [|done]. by eapply prop_Some_obj. }
  unfold transitionState, getConversation. rewrite Hcid, Hk, Hst, Hcs, Hinh. cbn [truthy negb converts convertible].
  pose proof (transitions_expired (to_key (prop (JObj m) "state"))) as Htr.
  unfold unsettled. rewrite <- Htr.
  destruct (TRANSITIONS _) as [allowed|]; [|exists st; by cbn].
  destruct (includes allowed _) eqn:Hinc; rewrite ?Hinc; cbn [negb snd default];
    [|exists st; by cbn].
  eexists. split; [reflexivity|]. split.
  - by rewrite lookup_insert_eq.
  - intros k Hne. by rewrite lookup_insert_ne.
Qed.

Lemma expire_fold now (l : list (string * json)) :
  NoDup l.*1 ->
  (forall k v, (k, v) ∈ l ->
     to_key (prop v "id") = k /\ converts (prop v "id") = true
     /\ converts (prop v "state") = true /\ inherited (to_key (prop v "state")) = false
     /\ converts (prop v "expiresAt") = true) ->
  forall (st : store) n,
    (forall k v, (k, v) ∈ l -> st !! k = Some v) ->
    (foldl (expire_one now) (st, Some n) l.*2).2
    = Some (n + Z.of_nat (length (filter (fun v => counted now v = true) l.*2)))
    /\ forall k,
         (foldl (expire_one now) (st, Some n) l.*2).1 !! k
         = match (list_to_map l : store) !! k with
           | Some v => Some (if unsettled v && overdue now v then expired_at now v else v)
           | None => st !! k
           end.
Proof.
  induction l as [|[k0 v0] l IH]; intros Hnd Hkey st n Hst.
  { split; [cbn; f_equal; lia|done]. }
  apply NoDup_cons in Hnd as [Hk0 Hnd].
  assert ((list_to_map l : store) !! k0 = None) as Hfresh.
  { by apply not_elem_of_list_to_map_1. }
  destruct (Hkey k0 v0) as (Hk & Hcid & Hcs & Hinh & Hce); [left|].
  destruct (expire_one_step now st n k0 v0 Hk Hcid Hcs Hinh Hce) as (st1 & Hstep & Hst1 & Hframe).
  { apply Hst. left. }
  cbn [fmap list_fmap snd foldl list_to_map foldr fst]. rewrite Hstep.
  destruct (IH Hnd (fun k v Hin => Hkey k v (list_elem_of_further _ _ _ Hin)) st1
              (n + (if counted now v0 then 1 else 0))) as [Hn Hl].
  { intros k v Hin. rewrite Hframe; [apply Hst; by right|].
    intros ->. apply Hk0. apply list_elem_of_fmap. by exists (k0, v). }
  split.
  - rewrite Hn. f_equal. destruct (counted now v0) eqn:Hc.
    + rewrite filter_cons_True by done. cbn [length]. lia.
    + rewrite filter_cons_False by (by rewrite Hc). lia.
  - intros k. rewrite Hl. destruct (decide (k = k0)) as [->|Hne].
    + by rewrite Hfresh, lookup_insert_eq.
    + rewrite lookup_insert_ne by done. destruct (_ !! k); [done|]. by apply Hframe.
Qed.

(** X29: over a directory in which every file is named after its id, and
    holds an id, a state and an [expiresAt] that convert to a string, the
    state naming no member that the table of transitions inherits, one
    run of [expireConversations] does not throw and rewrites exactly the
    conversations that are proposed or negotiating and whose [expiresAt]
    lies before now: they become expired and are stamped with now; every
    other file is left as it was and none is added.  The number it
    returns counts every overdue file whose state is not confirmed,
    rejected or expired, whether or not the transition was allowed.  A
    conversation made by [createConversation] at [t0] is therefore
    expired by the first sweep later than seven days after [t0], and by
    none before. *)
Theorem X29_expiry_sweep (st : store) (now : Z) :
  well_filed st ->
  let out := expireConversations st now in
  out.1 = Some (Z.of_nat (length (filter (fun v => counted now v = true) (map_to_list st).*2)))
  /\ (forall k v, st !! k = Some v ->
        out.2 !! k = Some (if unsettled v && overdue now v then expired_at now v else v))
  /\ (forall k, st !! k = None -> out.2 !! k = None)
  /\ (forall k t0 cid intent initiator recipient participants,
        st !! k = Some (createConversation ∅ t0 cid intent initiator recipient participants).1 ->
        toISOString (t0 + 604800000) <> "" ->
        Date_ms (Some (JStr (toISOString (t0 + 604800000)))) = Some (t0 + 604800000) ->
        oprop (out.2 !! k) "state"
        = Some (JStr (if t0 + 604800000 <? now then EXPIRED else PROPOSED))).
Proof.
  intros Hfiled out.
  destruct (expire_fold now (map_to_list st)) with (st := st) (n := 0) as [Hn Hl].
  { apply NoDup_fst_map_to_list. }
  { intros k v Hin. apply Hfiled. by apply elem_of_map_to_list. }
  { intros k v Hin. by apply elem_of_map_to_list. }
  rewrite list_to_map_to_list in Hl.
  assert (forall k v, st !! k = Some v ->
            out.2 !! k = Some (if unsettled v && overdue now v then expired_at now v else v))
    as Hfile.
  { intros k v Hst. subst out. unfold expireConversations. cbn [snd]. by rewrite Hl, Hst. }
  split; [|split; [|split]].
  - subst out. unfold expireConversations. cbn [fst]. by rewrite Hn.
  - done.
  - intros k Hst. subst out. unfold expireConversations. cbn [snd]. by rewrite Hl, Hst.
  - intros k t0 cid intent initiator recipient participants Hst Hne Hdate.
    rewrite (Hfile _ _ Hst). cbn [oprop].
    unfold createConversation. cbn [fst].
    set (fields := [ ("id", cid); _; _; _; _; _; _; _; _; _ ]).
    assert (NoDup fields.*1) as Hnd.
    { subst fields. cbn. repeat (apply NoDup_cons; split;
        [rewrite ?not_elem_of_cons; repeat split; try discriminate; apply not_elem_of_nil|]).
      apply NoDup_nil_2. }
    assert (prop (literal fields) "state" = Some (JStr PROPOSED)) as Hstate.
    { apply prop_literal; [done|]. subst fields. rewrite !elem_of_cons. tauto. }
    assert (prop (literal fields) "expiresAt"
            = Some (JStr (toISOString (t0 + conversationExpiryDays * 86400000)))) as Hexp.
    { apply prop_literal; [done|]. subst fields. rewrite !elem_of_cons. tauto. }
    unfold unsettled, overdue. rewrite Hstate, Hexp.
    change (t0 + conversationExpiryDays * 86400000) with (t0 + 604800000).
    rewrite Hdate. cbn [to_key to_string truthy]. 
    apply String.eqb_neq in Hne. rewrite Hne.
    cbn [negb andb orb PROPOSED String.eqb Ascii.eqb Bool.eqb].
    destruct (t0 + 604800000 <? now); [|done].
    unfold expired_at. rewrite prop_set_ne by done.
    unfold literal. by rewrite prop_set_eq.
Qed.
End SweepFacts.

Section SweepWitness.
Import Sym Examples Conversations ConversationSweep SweepExamples.

Lemma shelf_well_filed : well_filed shelf.
Proof.
  intros k v. unfold shelf.
  rewrite !lookup_insert_Some, lookup_empty.
  intros [[<- <-]|[_ [[<- <-]|[_ [[<- <-]|[_ ?]]]]]]; done.
Qed.

Lemma X29_witness :
  well_filed shelf
  /\ (expireConversations shelf 604801001).1 = Some 2
  /\ oprop ((expireConversations shelf 604801001).2 !! "c1") "state" = Some (JStr "expired")
  /\ (expireConversations shelf 604801001).2 !! "c3" = Some archived_one
  /\ oprop ((expireConversations shelf 604801000).2 !! "c1") "state" = Some (JStr "proposed").
Proof.
  pose proof (X29_expiry_sweep shelf 604801001 shelf_well_filed) as (H1 & H2 & _ & H4).
  pose proof (X29_expiry_sweep shelf 604801000 shelf_well_filed) as (_ & _ & _ & H4').
  split; [exact shelf_well_filed|]. split; [|split; [|split]].
  - rewrite H1. by vm_compute.
  - rewrite (H4 "c1" 1000 (Some (JStr "c1")) (Some (JStr "schedule.meeting")) None None None);
      by vm_compute.
  - rewrite (H2 "c3" archived_one); by vm_compute.
  - rewrite (H4' "c1" 1000 (Some (JStr "c1")) (Some (JStr "schedule.meeting")) None None None);
      by vm_compute.
Defined.
End SweepWitness.

(** ** The dead letter queue *)
Section DeadLetterFacts.
Context `{Clock}.
Import DeadLetters.

Lemma list_entries_all (d : dir) :
  well_filed d -> list_entries d = (map_to_list d).*2.
Proof.
  intros Hd. unfold list_entries. apply filter_all.
  apply Forall_forall. intros v Hin. apply list_elem_of_fmap in Hin as ([k v'] & -> & Hin).
  apply elem_of_map_to_list in Hin. by destruct (Hd _ _ Hin).
Qed.

Lemma add_well_filed (d : dir) now uuid m error attempts :
  uuid <> "" -> well_filed d -> well_filed (add d now uuid (JObj m) error attempts).2.
Proof.
  intros Huuid Hd k v. unfold add. cbn [snd].
  set (id := js_or _ _).
  assert (truthy id = true) as Hid.
  { subst id. unfold js_or. destruct (truthy (prop (JObj m) "id")) eqn:E; [done|].
    cbn. by apply negb_true_iff, String.eqb_neq. }
  destruct (decide (k = to_key id)) as [->|Hne].
  - rewrite lookup_insert_eq. intros [= <-]. split; [done|].
    destruct id as [x|] eqn:E; [|done]. unfold literal. cbn [omap list_omap fmap option_fmap
      option_map fst snd mbind option_bind prop assoc]. by cbn.
  - rewrite lookup_insert_ne by done. apply Hd.
Qed.

Section Retry.
Context {S : Type} (sendFn : S -> option json -> bool * S).

Lemma retry_fold (l : list (string * json)) :
  NoDup l.*1 -> (forall k v, (k, v) ∈ l -> to_key (prop v "id") = k) ->
  forall (s : S) (d : dir) n,
    (forall k v, (k, v) ∈ l -> d !! k = Some v) ->
    let r := foldl (retry_one sendFn) (s, d, n) l.*2 in
    r.2 - n + Z.of_nat (base.size r.1.2) = Z.of_nat (base.size d)
    /\ r.1.2 ⊆ d
    /\ (forall k, (list_to_map l : dir) !! k = None -> r.1.2 !! k = d !! k)
    /\ (forall ok : option json -> bool,
          (forall s e, (sendFn s e).1 = ok e) ->
          forall k v, (k, v) ∈ l ->
            r.1.2 !! k = if ok (prop v "envelope") then None else Some v).
Proof.
  induction l as [|[k0 v0] l IH]; intros Hnd Hkey s d n Hd r.
  { subst r. cbn. split; [lia|]. split; [done|]. split; [done|].
    by intros ok _ k v ?%elem_of_nil. }
  apply NoDup_cons in Hnd as [Hk0 Hnd].
  assert ((list_to_map l : dir) !! k0 = None) as Hfresh.
  { by apply not_elem_of_list_to_map_1. }
  assert (d !! k0 = Some v0) as Hd0 by (apply Hd; left).
  assert (to_key (prop v0 "id") = k0) as Hid by (apply Hkey; left).
  destruct (sendFn s (prop v0 "envelope")) as [ok0 s1] eqn:Hsend.
  set (d1 := if ok0 then remove d (prop v0 "id") else d).
  set (n1 := if ok0 then n + 1 else n).
  assert (retry_one sendFn (s, d, n) v0 = (s1, d1, n1)) as Hstep.
  { unfold retry_one. rewrite Hsend. subst d1 n1. by destruct ok0. }
  subst r. cbn [fmap list_fmap snd foldl]. rewrite Hstep.
  assert (forall k, k <> k0 -> d1 !! k = d !! k) as Hframe.
  { intros k Hne. subst d1. destruct ok0; [|done]. unfold remove.
    by rewrite Hid, lookup_delete_ne. }
  assert (d1 !! k0 = if ok0 then None else Some v0) as Hd1.
  { subst d1. destruct ok0; [|done]. unfold remove. by rewrite Hid, lookup_delete_eq. }
  assert (n1 - n + Z.of_nat (base.size d1) = Z.of_nat (base.size d)) as Hsize.
  { subst d1 n1. destruct ok0; [|lia]. unfold remove. rewrite Hid.
    rewrite map_size_delete_Some by (by rewrite Hd0).
    assert (base.size d <> 0%nat); [|lia].
    intros Hz. apply map_size_empty_inv in Hz. by rewrite Hz in Hd0. }
  assert (d1 ⊆ d) as Hsub.
  { subst d1. destruct ok0; [|done]. apply delete_subseteq. }
  destruct (IH Hnd (fun k v Hin => Hkey k v (list_elem_of_further _ _ _ Hin)) s1 d1 n1)
    as (Hn & Hs & Hout & Hpure).
  { intros k v Hin. rewrite Hframe; [apply Hd; by right|].
    intros ->. apply Hk0. apply list_elem_of_fmap. by exists (k0, v). }
  split; [lia|]. split; [by etrans|]. split.
  - intros k. cbn [list_to_map foldr fst snd]. intros Hnone.
    apply lookup_insert_None in Hnone as [Hnone Hne].
    rewrite Hout by done. by apply Hframe.
  - intros ok Hok k v [[= -> ->]|Hin]%elem_of_cons.
    + rewrite Hout by done. rewrite Hd1.
      pose proof (Hok s (prop v0 "envelope")) as Hv. rewrite Hsend in Hv. cbn in Hv.
      by rewrite Hv.
    + by apply Hpure.
Qed.

(** X30: [retryAll] over a directory in which every file is named after
    the id of its entry tries every entry once, deletes nothing but
    entries, and what it reports adds up: [retried] is the number of
    entries there were, and [succeeded] plus the number left is that
    number.  When the result of the callback depends on the envelope
    only, the entries left are exactly those whose envelope it refused.
    [add] keeps such a directory well filed, files the entry under the id
    of the envelope, and overwrites an older entry of the same id. *)
Theorem X30_dead_letters (d : dir) (s : S) :
  well_filed d ->
  let out := retryAll sendFn d s in
  out.1.1.1 = size_of d
  /\ out.1.1.2 + size_of out.2 = size_of d
  /\ out.2 ⊆ d
  /\ (forall ok : option json -> bool,
        (forall s e, (sendFn s e).1 = ok e) ->
        forall k, out.2 !! k
                  = match d !! k with
                    | Some v => if ok (prop v "envelope") then None else Some v
                    | None => None
                    end)
  /\ (forall now uuid m error attempts,
        uuid <> "" ->
        let id := to_key (js_or (prop (JObj m) "id") (Some (JStr uuid))) in
        let d' := (add d now uuid (JObj m) error attempts).2 in
        well_filed d'
        /\ d' !! id = Some (add d now uuid (JObj m) error attempts).1
        /\ size_of d' = size_of d + (if is_Some_dec (d !! id) then 0 else 1)).
Proof.
  intros Hd out.
  assert (forall d0 : dir, well_filed d0 -> size_of d0 = Z.of_nat (base.size d0)) as Hsz.
  { intros d0 Hd0. unfold size_of. rewrite (list_entries_all d0 Hd0).
    by rewrite length_fmap, length_map_to_list. }
  destruct (retry_fold (map_to_list d)) with (s := s) (d := d) (n := 0)
    as (Hn & Hs & Hout & Hpure).
  { apply NoDup_fst_map_to_list. }
  { intros k v Hin. apply elem_of_map_to_list in Hin. by destruct (Hd _ _ Hin). }
  { intros k v Hin. by apply elem_of_map_to_list. }
  subst out. unfold retryAll. rewrite (list_entries_all d Hd).
  destruct (foldl _ _ _) as [[s' d'] n'] eqn:Hfold. cbn [fst snd] in *.
  assert (well_filed d') as Hd'.
  { intros k v Hk. apply Hd. by eapply lookup_weaken. }
  split; [|split; [|split; [|split]]].
  - rewrite (Hsz d Hd). by rewrite length_fmap, length_map_to_list.
  - rewrite (Hsz d Hd), (Hsz d' Hd'). lia.
  - done.
  - intros ok Hok k. destruct (d !! k) as [v|] eqn:Hk.
    + apply (Hpure ok Hok). by apply elem_of_map_to_list.
    + rewrite Hout; [done|]. by rewrite list_to_map_to_list.
  - intros now uuid m error attempts Huuid.
    assert (well_filed (add d now uuid (JObj m) error attempts).2) as Hd1
      by (by apply add_well_filed).
    split; [done|]. split.
    + unfold add. cbn [fst snd]. by rewrite lookup_insert_eq.
    + rewrite (Hsz d Hd), (Hsz _ Hd1). unfold add. cbn [snd].
      rewrite map_size_insert. destruct (d !! _); cbn; unfold id; lia.
Qed.
End Retry.
End DeadLetterFacts.

Section DeadLetterWitness.
Import Sym Examples DeadLetters DeadLetterExamples.

Lemma two_letters_well_filed : well_filed two_letters.
Proof.
  unfold two_letters. apply add_well_filed; [done|]. apply add_well_filed; [done|].
  intros k v. by rewrite lookup_empty.
Qed.

Lemma X30_witness :
  well_filed two_letters
  /\ (retryAll second_call two_letters 0%nat).1.1.1 = 2
  /\ (retryAll second_call two_letters 0%nat).1.1.2
     + size_of (retryAll second_call two_letters 0%nat).2 = 2
  /\ (retryAll second_call two_letters 0%nat).1.1.2 = 1.
Proof.
  pose proof (X30_dead_letters second_call two_letters 0%nat two_letters_well_filed)
    as (H1 & H2 & _).
  split; [exact two_letters_well_filed|]. split; [|split].
  - rewrite H1. by vm_compute.
  - rewrite H2. by vm_compute.
  - by vm_compute.
Defined.
End DeadLetterWitness.
